(* ===== verification/_CoqProject ===== *)
-Q . S2P
Prelude.v
Semver.v
Text.v
JobApi.v
JobErrorText.v
JobEvents.v
HelmChart.v
HelmClient.v
HelmValues.v
HelmValuesSpec.v
HelmUpgrade.v
JobUtils.v
JobDataPlane.v
JobUpgrade.v
JobUpgradeSpec.v
JobNeeds.v
JobSim.v
JobDataPlaneSpec.v
JobRecovery.v
JobCompletion.v
JobFixture.v
CompletionFixture.v
PluginApi.v
PluginErrorText.v
PluginUpgrade.v
PluginSpec.v
PluginChecks.v
PluginFixture.v
UpgradeHandover.v
HandoverFixture.v
Float64.v
CallHomeStats.v
StatsServer.v
CallHomeReport.v
CallHomeReportSpec.v
CallHome.v
CallHomeSpec.v
CallHomeFixture.v
Tasks.v
MetricsExporter.v
MetricsExporterSpec.v
MetricsExporterTasks.v
SupportApi.v
SupportErrorText.v
SupportTopology.v
SupportK8s.v
SupportLogs.v
SupportDump.v
SupportUses.v
SupportConnSpec.v
SupportSpec.v
SupportExitSpec.v
SupportFilesSpec.v
SupportFixture.v
ConsoleLogger.v
KubeProxy.v
KubectlPlugin.v
KubectlSpec.v
KubectlConnections.v
KubectlFixture.v
