(* ===== verification/Prelude.v ===== *)
(** * Verification of mayastor-extensions

    mayastor-extensions holds the Kubernetes side of the Mayastor storage system.
    This library models its programs and proves what makes them correct: the kubectl
    plugin, which checks a cluster, starts an upgrade and collects support bundles; the
    upgrade job which carries an upgrade out; call-home, which counts events and sends
    a report; and the metrics exporter.

    ** The program

    - The kubectl plugin ([k8s/plugin/src]) runs on the administrator's machine: [main]
      connects to the storage REST API, runs one operation, which a signal can interrupt,
      and exits with a status.  Its connections are made by [k8s/proxy/src].
    - The upgrade operations of the plugin are in [k8s/upgrade/src/plugin].
      [upgrade] runs preflight checks and creates a service account, a cluster
      role with its binding, a config map and a Kubernetes job;
      [get upgrade-status] reads the events of that job; [delete upgrade] removes
      the resources.
    - The upgrade job ([k8s/upgrade/src/bin/upgrade-job]) runs in the cluster.
      [main.rs] validates the arguments; [upgrade.rs] runs the stages: prepare the
      helm upgrade ([helm/upgrade.rs], with the values file of [helm/values.rs]
      edited by [yq], the structures of [helm/chart.rs], the commands of
      [helm/client.rs] and [helm/yaml/yq.rs]), dry run, helm upgrade, then restart
      the io-engine pods one node at a time ([upgrade/data_plane.rs],
      [upgrade/utils.rs]).  Each stage publishes events through a worker task
      ([events/event_recorder.rs]), which the plugin reads.
    - call-home is two programs.  [call-home/src/bin/stats] counts the events of the
      message bus in a cache, saves the counters in a config map and exposes them to
      Prometheus.  [call-home/src/bin/callhome] collects pools, volumes, replicas,
      disks and these counters into a report once a day, encrypts it with gpg and
      sends it.
    - The metrics exporter ([metrics-exporter/src/bin/io_engine]) runs beside an
      io-engine: for each scrape it asks the engine for its pools, nexuses and replicas
      and their statistics over gRPC, keeps them in a cache and serves them as gauges.
    - supportability ([k8s/supportability/src]) is the [dump] operation of the plugin: it
      collects the topology of nodes, pools and volumes, Kubernetes resources and events,
      logs (from Loki, or else from the API server) and the content of etcd in a temporary
      directory, and moves it into an archive.

    ** The model

    Every function is a value of [prog] (this file): a tree of requests to the
    services around the program (Kubernetes API, storage REST API, helm and yq
    processes, files, timers, the event channel, the console) which branches on
    the answers.  Nothing is assumed of the answers.  [exec] gives the runs of a
    program, also those which end anywhere; [run] executes a program against a
    handler, a state machine which answers.  Statements over all runs are proved
    with a small program logic: [respects] (the requests follow a protocol, an
    automaton over events, with postconditions for results and errors), [uses]
    (only such requests are issued), [yields] (what is returned) and [throws] (with which
    errors it fails).  What a program returns against a handler is computed by rewriting
    with the equations of [evals]; [always] states what holds of every world of a run, so
    wherever it may be cut.
    Where an error, a panic and the end of the process have to be told apart, the error
    of a program is a [fault] and [try_] observes errors only ([SupportApi]).  Programs
    over different requests are composed with [interp] ([renders] relates their traces):
    in [KubectlPlugin] the commands of the upgrade plugin and of supportability run with
    their connections built by [KubeProxy].  Concurrency is interleaving at requests: the event worker and the life
    of the statistics are step relations of their own, and [Tasks] interleaves any number
    of runs of one program, as a server runs its handler.

    Unbounded loops take fuel; [Spin] marks its end.  Statements about all runs
    hold for every fuel.  That loops end is proved where the code promises it
    ([upgrade_data_plane_completes], [list_unhealthy_volumes_complete],
    [volume_checks_exact], [list_all_volumes_complete], [etcd_dump_complete],
    [loki_logs_complete], with the fuel each needs: two rounds of the rolling upgrade, one
    more than the number of pages, at most the number of volumes and two, one more than
    the number of keys, or of log entries), and a result does not depend on the fuel
    ([upgrade_data_plane_fuel], by [approx]).

    Code which is not in the repository is a parameter, with its documented
    behaviour as laws: [Semver] (versions and their order, with the reference
    implementation [SemverRef]), [SerdeYaml], [SerdeJson], [RegexCrate] (with
    [Text.matches] as an implementation of the patterns used), [HashOrder] (the
    iteration order of a [HashMap]), [SortUnstable], [Deps] and [PluginDeps]
    (constants of the [utils] crate and of the build), [EventDeps] (the serializer of the
    notes of events), [NoteWire] (the note of an event is read back as it was written), [StatsJson]
    (counters which are written are read back), [CallHomeCrates], [Registry] and [Prometheus] (the
    registries of metrics and their text), [SupportCrates] (serializers, URL encoding, the
    prefix of the keys of etcd), [ClientDebug] (the [Debug] of the errors of the REST and
    Kubernetes clients), [AnsiTerm] (the escape sequences of colours), [ProxyCrates] (the types and constructors of
    [kube_forward], [kube] and [hyper]).  Strings are
    byte strings with their UTF-8 validity checked where the code does; times and
    counters are [Z].

    ** The files

    - [Prelude]: programs, runs, protocols, fuel, sorting, tactics.
    - [Semver], [Text]: versions; strings, UTF-8, paths, regular expressions.
    - [JobApi]: objects, requests and errors of the job, [common/].
    - [JobErrorText]: the text of every error of the job; it contains the source
      which the error keeps, or the error output of the command ([display_names_cause]).
    - [JobEvents]: the event recorder, and its worker as a step relation, in
      which a publication may fail and the timer tries it again; when the worker has exited
      it has tried to publish every event sent, in order ([worker_tries_all]), and the
      shutdown ends ([worker_shutdown_terminates]).
    - [HelmChart]: the structures of [helm/chart.rs] with their deserializers; the
      flags which steer the data-plane upgrade come from their keys.
    - [HelmClient], [HelmValues]: commands, and the values file.
    - [HelmValuesSpec]: the edits of the values file as data, and the refinement:
      the commands of each run are the merge and exactly these edits; image tags
      come from the target chart, and the values of the user are kept except for
      listed keys ([custom_values_kept]).
    - [HelmUpgrade]: versions, upgrade path, builder, dry run, upgrade.
    - [JobUtils], [JobDataPlane]: volumes, rebuilds, nodes, pods; the rolling
      upgrade.
    - [JobUpgrade], [JobUpgradeSpec]: arguments, stages, [main]; the order of the
      stages in every run, the upgrade path, reported failures, the partial
      rebuild check.
    - [JobNeeds]: a job which is run again changes nothing that is done already
      ([changes_needed]).
    - [JobSim], [JobDataPlaneSpec]: a simulated cluster; the safety of the rolling
      upgrade ([rolling_upgrade_safe]), its completion, drains and cordons.
    - [JobRecovery]: every world in which the rolling upgrade can be killed is one from
      which its next run goes on ([interrupted_upgrade_recovers]).
    - [JobCompletion]: the same of the whole job, in an environment in which its
      preparations and helm succeed ([job_recovers]).
    - [JobFixture]: a complete concrete upgrade from 2.7.0 to 2.8.0, and the
      properties applied to it; [CompletionFixture]: that cluster as such an environment.
    - [PluginErrorText]: the text of every error of the plugin.
    - [PluginApi], [PluginUpgrade]: objects, requests and errors of the plugin; its
      commands and preflight checks.
    - [PluginSpec]: an abstract Kubernetes store, in which cluster-scoped objects have no
      namespace; creating and deleting the upgrade
      resources are updates of it.
    - [PluginChecks]: what the preflight check establishes, that nothing is changed
      before it or in a dry run, the guard of the deletion, set-file arguments,
      events, permissions; that plugin and job agree on the upgrade path.
    - [PluginFixture]: the plugin in a concrete cluster.
    - [UpgradeHandover]: the plugin, the job and the event worker together.  What the job
      publishes the plugin can read, over any number of runs of the container of the job
      and with publications which may fail; the last event which is there is what the status
      command shows: a success, or the text of the very error the run which sent it failed
      with ([status_follows_job]); the plugin takes the resources away only after a run which
      reported a failed validation and changed nothing ([cleanup_only_before_changes]); the job accepts the command line
      it is given ([job_command_line_accepted]).
    - [HandoverFixture]: a successful and a refused upgrade, seen from the plugin.
    - [Float64]: [f64] as IEEE 754 binary64, with its casts and comparisons.
    - [CallHomeStats]: the counters of events, their store and their exposition; the
      life of the program is a step relation with crashes and restarts, in which the
      counters count ([counters_count]).
    - [StatsServer]: the start of the program, in its order, which is the first step of that
      life ([server_start_refines]), and the handler of [/stats], which shows the messages
      counted so far ([scrape_shows_messages]).
    - [CallHomeReport]: percentiles and the summaries of volumes, pools and disks.
    - [CallHomeReportSpec]: percentiles do not index out of range, disks are counted
      once by name (partitions by their own name, [storage_nodes_spec]), sums do not depend on the order of a hash map, and the counters arrive in
      the report (those of nexuses do not).
    - [CallHome]: collection with retries and logs, encryption, transmission.
    - [CallHomeSpec]: the report is generated without a panic, carries the latest
      errors, and leaves the process only as what gpg made of it, with the removal of the
      plain text tried before ([reports_sealed]); the process ends by itself only with a
      failure.
    - [CallHomeFixture]: call-home on concrete data.
    - [Tasks]: the interleavings of runs of one program over a shared state, with what all
      of them preserve, and an executable scheduler.
    - [MetricsExporter], [MetricsExporterSpec]: client, cache, collectors and the handler
      of the exporter; a scrape shows what the engine answers to it ([metrics_fresh]), and
      the latencies are exact and fit their width ([latency_bounds]).
    - [MetricsExporterTasks]: concurrent scrapes share the cache; none of them shows what
      was stored before it began, though it may have been asked for before
      ([scrapes_not_stale]).
    - [SupportApi]: objects, requests, errors, the tool log and the archive of
      supportability; [SupportTopology]: nodes, pools, replicas, volumes and snapshots with
      what they are on; [SupportK8s]: Kubernetes resources and events; [SupportLogs]: the
      services whose logs are collected, Loki and the log streams; [SupportDump]: etcd, the
      dumps of the system and of single resources, [execute_resource_dump].
    - [SupportErrorText]: the [Debug] texts of the errors of supportability.
    - [SupportUses]: which kinds of requests the parts of a dump issue.
    - [SupportConnSpec]: requests to Loki and etcd go over connections the dump asked for.
    - [SupportSpec]: what is deleted is in the archive ([archived_before_deletion]), and no
      failing step stops the dump of the system.
    - [SupportExitSpec]: the only way a dump ends the process itself is with status 1.
    - [SupportFilesSpec]: what arrives in the files: etcd, Loki (nothing is lost of entries which
      are a millisecond apart, lines may be repeated with several streams,
      [loki_logs_complete]), log streams, events; the
      log resources and the label selectors.
    - [SupportFixture]: the dumps of a small cluster, some of which lose data.
    - [ConsoleLogger]: the notices and warnings of the plugin, as the lines it writes.
    - [KubeProxy]: which kubeconfig is used, and the builders of connections.
    - [KubectlPlugin], [KubectlSpec]: [main] and the operations; whatever interrupts them,
      the cluster is changed only after the checks ([changes_guarded]), the status tells
      what happened, and the errors of the upgrade plugin and of a dump are printed with
      their causes ([exit_status_spec]).
    - [KubectlConnections]: the connections of a dump are those which were built for it of
      the kubeconfig, except that a forwarded port reads none ([dump_connections]).
    - [KubectlFixture]: the plugin as a whole on the cluster of [PluginFixture].

    ** Not modelled

    Log output (except the lines the plugin prints), the parsing of command lines
    by clap, TLS and connection set-up, and time: a sleep is a request with its duration.  A kube
    [Api] value is the request it issues.  Of Kubernetes objects and of the objects of
    the storage REST API the fields are modelled which the code sets or reads.  The
    web servers of the statistics and of the exporter are requests, and the text format of
    Prometheus is a parameter or left out: a metric family stands for the sample it is parsed to.  The operations of
    the [plugin] library (get, drain, label, scale, set, cordon, uncordon) are in a
    submodule whose code is absent; they are requests.  [tokio::select!] in [main] is
    modelled by a poll of the signal before each request, also where the code does not
    wait.  The start of a Loki query is unbounded (release builds wrap it at 128 bits).
    Of the texts of errors, those of errors of other crates are carried by the error
    value, and [Debug] escapes no characters beyond ASCII.  What else of the source
    has no definition is accessors, conversions between error types, declarations of
    traits, attributes of clap and the set-up of tracing.

    ** Plan

    What is left is what call-home reads of the text of [/stats] beyond the values of the
    counters ([stats_reach_report]), and which cluster the Kubernetes client of
    supportability speaks to, whose configuration is made by a library. *)

From stdpp Require Import base gmap list strings sorting.
From Stdlib Require Import ZArith Lia.

(** ** Effectful programs

The Rust code under verification is asynchronous glue: each function is a
sequential computation which issues requests to services (the Kubernetes
API server, the storage REST API, the [helm] and [yq] binaries, timers) and
branches on the answers.  A function is modelled as a value of [prog]: a
tree whose inner nodes are requests and whose branches are the possible
answers.  The services themselves are not part of the repository; the tree
leaves every answer open. *)

(** A signature: the requests a program may issue and the type of the answer of
    each request. *)
Record Sig := MkSig { op : Type; res : op → Type }.

(** [Throw e] is [Err(e)], [Spin] marks a loop whose fuel ran out. *)
Inductive prog (S : Sig) (E A : Type) : Type :=
| Ret (a : A)
| Throw (e : E)
| Spin
| Call (c : op S) (k : res S c → prog S E A).
Arguments Ret {S E A}.
Arguments Throw {S E A}.
Arguments Spin {S E A}.
Arguments Call {S E A}.

Section Prog.
Context {S : Sig} {E : Type}.

Fixpoint bind {A B} (f : A → prog S E B) (m : prog S E A) : prog S E B :=
  match m with
  | Ret a => f a
  | Throw e => Throw e
  | Spin => Spin
  | Call c k => Call c (λ r, bind f (k r))
  end.

(** Issue one request. *)
Definition call (c : op S) : prog S E (res S c) := Call c Ret.

(** [r.map_err(f)?] and [r.context(..)?] on an already computed result. *)
Definition lift {X A} (f : X → E) (r : X + A) : prog S E A :=
  match r with inl x => Throw (f x) | inr a => Ret a end.

(** [o.ok_or(e)?] *)
Definition ok_or {A} (e : E) (o : option A) : prog S E A :=
  match o with Some a => Ret a | None => Throw e end.

(** [ensure!(b, e)] *)
Definition ensure (b : bool) (e : E) : prog S E unit :=
  if b then Ret tt else Throw e.

(** Observe the result of a computation instead of propagating its error:
    the [match f().await] of the source. *)
Fixpoint attempt {E' A} (m : prog S E A) : prog S E' (E + A) :=
  match m with
  | Ret a => Ret (inr a)
  | Throw e => Ret (inl e)
  | Spin => Spin
  | Call c k => Call c (λ r, attempt (k r))
  end.

(** [loop { .. }]: the body either continues with a new loop state or breaks
    with a value.  The fuel bounds the number of iterations. *)
Fixpoint loop {I A} (fuel : nat) (body : I → prog S E (I + A)) (i : I) : prog S E A :=
  match fuel with
  | O => Spin
  | Datatypes.S n => bind (λ r, match r with inl i' => loop n body i' | inr a => Ret a end) (body i)
  end.

(** [for x in l { .. }] with a loop state, and without one. *)
Fixpoint foldM {X A} (f : A → X → prog S E A) (l : list X) (a : A) : prog S E A :=
  match l with
  | [] => Ret a
  | x :: l' => bind (foldM f l') (f a x)
  end.

Definition forM_ {X} (f : X → prog S E unit) (l : list X) : prog S E unit :=
  foldM (λ _ x, f x) l tt.
End Prog.

Declare Scope prog_scope.
Delimit Scope prog_scope with prog.
Open Scope prog_scope.

(** [let x = m.await?; k] and [m.await?; k]. *)
Notation "'let!' x ':=' m 'in' k" := (bind (λ x, k) m)
  (at level 10, x pattern, m at level 200, k at level 200,
   format "'[v' 'let!'  x  ':='  m  'in' '//' k ']'") : prog_scope.
Notation "'do!' m 'in' k" := (bind (λ _, k) m)
  (at level 10, m at level 200, k at level 200,
   format "'[v' 'do!'  m  'in' '//' k ']'") : prog_scope.

(** [?] on a pure result. *)
Notation "'let?' x ':=' m 'in' k" := (match m with inl err => inl err | inr x => k end)
  (at level 10, x name, m at level 200, k at level 200,
   format "'[v' 'let?'  x  ':='  m  'in' '//' k ']'") : prog_scope.

(** ** Runs

    A run of a program is the sequence of its requests with their answers, and
    how it ended.  [Cut] ends a run anywhere: a property of all runs holds of
    every prefix, so also when the process is killed. *)
Inductive ev (S : Sig) : Type := Ev (c : op S) (r : res S c).
Arguments Ev {S}.

Inductive outcome (E A : Type) : Type :=
| Done (a : A)
| Failed (e : E)
| Exhausted
| Cut.
Arguments Done {E A}.
Arguments Failed {E A}.
Arguments Exhausted {E A}.
Arguments Cut {E A}.

Fixpoint exec {S E A} (p : prog S E A) (tr : list (ev S)) (o : outcome E A) : Prop :=
  (tr = [] ∧ o = Cut) ∨
  match p with
  | Ret a => tr = [] ∧ o = Done a
  | Throw e => tr = [] ∧ o = Failed e
  | Spin => tr = [] ∧ o = Exhausted
  | Call c k => ∃ r tr', tr = Ev c r :: tr' ∧ exec (k r) tr' o
  end.

(** A deterministic environment with a state: what answers the requests in a
    concrete run. *)
Definition handler (S : Sig) (W : Type) : Type := ∀ c : op S, W → res S c * W.

Fixpoint run {S E A W} (h : handler S W) (p : prog S E A) (w : W)
  : outcome E A * W * list (ev S) :=
  match p with
  | Ret a => (Done a, w, [])
  | Throw e => (Failed e, w, [])
  | Spin => (Exhausted, w, [])
  | Call c k =>
      let '(r, w') := h c w in
      let '(o, w'', tr) := run h (k r) w' in
      (o, w'', Ev c r :: tr)
  end.

Definition result_of {E A W X} (r : outcome E A * W * X) : outcome E A := r.1.1.
Definition world_of {E A W X} (r : outcome E A * W * X) : W := r.1.2.
Definition trace_of {E A W X} (r : outcome E A * W * X) : X := r.2.

Section Runs.
Context {S : Sig} {E : Type}.

Lemma run_exec {A W} (h : handler S W) (p : prog S E A) w :
  exec p (trace_of (run h p w)) (result_of (run h p w)).
Proof.
  revert w; induction p as [a|e| |c k IH]; intros w; cbn; eauto.
  destruct (h c w) as [r w']. specialize (IH r w').
  destruct (run h (k r) w') as [[o w''] tr]. cbn in *; eauto.
Qed.

(** How [run] sequences: the second part starts in the world the first part
    leaves, and only if the first part succeeded. *)
Lemma run_bind {A B W} (h : handler S W) (p : prog S E A) (f : A → prog S E B) w :
  run h (bind f p) w =
    match run h p w with
    | (Done a, w', tr) =>
        let '(o, w'', tr') := run h (f a) w' in (o, w'', tr ++ tr')
    | (Failed e, w', tr) => (Failed e, w', tr)
    | (Exhausted, w', tr) => (Exhausted, w', tr)
    | (Cut, w', tr) => (Cut, w', tr)
    end.
Proof.
  revert w; induction p as [a|e| |c k IH]; intros w; cbn; try done.
  - by destruct (run h (f a) w) as [[??]?].
  - destruct (h c w) as [r w']. rewrite IH.
    destruct (run h (k r) w') as [[[]?]?]; try done.
    by destruct (run h (f _) _) as [[??]?].
Qed.

Lemma run_attempt {E' A W} (h : handler S W) (p : prog S E A) w :
  run h (attempt (E':=E') p) w =
    match run h p w with
    | (Done a, w', tr) => (Done (inr a), w', tr)
    | (Failed e, w', tr) => (Done (inl e), w', tr)
    | (Exhausted, w', tr) => (Exhausted, w', tr)
    | (Cut, w', tr) => (Cut, w', tr)
    end.
Proof.
  revert w; induction p as [a|e| |c k IH]; intros w; cbn; try done.
  destruct (h c w) as [r w']. rewrite IH. by destruct (run h (k r) w') as [[[]?]?].
Qed.

Lemma run_call {W} (h : handler S W) (c : op S) w :
  run h (call (E:=E) c) w = (Done (h c w).1, (h c w).2, [Ev c (h c w).1]).
Proof. cbn. by destruct (h c w). Qed.

(** A run may be cut before it begins. *)
Lemma exec_cut {A} (p : prog S E A) : exec p [] Cut.
Proof. destruct p; by left. Qed.

(** Inversion of a run of a sequence. *)
Lemma exec_bind_inv {A B} (p : prog S E A) (f : A → prog S E B) tr o :
  exec (bind f p) tr o →
  (∃ a tr1 tr2, exec p tr1 (Done a) ∧ exec (f a) tr2 o ∧ tr = tr1 ++ tr2) ∨
  (∃ e, exec p tr (Failed e) ∧ o = Failed e) ∨
  (exec p tr Exhausted ∧ o = Exhausted) ∨
  (exec p tr Cut ∧ o = Cut).
Proof.
  revert tr; induction p as [a|e| |c k IH]; cbn; intros tr H.
  - left. exists a, [], tr. eauto.
  - destruct H as [[-> ->]|[-> ->]]; eauto 10.
  - destruct H as [[-> ->]|[-> ->]]; eauto 10.
  - destruct H as [[-> ->]|(r&tr'&->&H)]; [right; right; right; by eauto|].
    destruct (IH _ _ H) as [(a&tr1&tr2&?&?&->)|[(e&?&->)|[[? ->]|[? ->]]]].
    + left. exists a, (Ev c r :: tr1), tr2. split_and!; eauto.
    + right; left. eauto 10.
    + right; right; left. eauto 10.
    + right; right; right. eauto 10.
Qed.

Lemma exec_bind_done {A B} (p : prog S E A) (f : A → prog S E B) tr b :
  exec (bind f p) tr (Done b) →
  ∃ a tr1 tr2, exec p tr1 (Done a) ∧ exec (f a) tr2 (Done b) ∧ tr = tr1 ++ tr2.
Proof. intros [?|[(?&?&?)|[[??]|[??]]]]%exec_bind_inv; done. Qed.

Lemma exec_lift_done {X A} (f : X → E) (r : X + A) tr a :
  exec (lift (S:=S) f r) tr (Done a) → tr = [] ∧ r = inr a.
Proof. destruct r; cbn; intros [[??]|[??]]; by simplify_eq. Qed.

Lemma exec_ok_or_done {A} (e : E) (o : option A) tr a :
  exec (ok_or (S:=S) e o) tr (Done a) → tr = [] ∧ o = Some a.
Proof. destruct o; cbn; intros [[??]|[??]]; by simplify_eq. Qed.

Lemma exec_ensure_done (b : bool) (e : E) tr a :
  exec (ensure (S:=S) b e) tr (Done a) → tr = [] ∧ b = true.
Proof. destruct b; cbn; intros [[??]|[??]]; by simplify_eq. Qed.

Lemma exec_ret_done {A} (x a : A) tr : exec (S:=S) (E:=E) (Ret x) tr (Done a) → tr = [] ∧ x = a.
Proof. cbn; intros [[??]|[??]]; by simplify_eq. Qed.

Lemma exec_throw_done {A} (e : E) tr (a : A) : ¬ exec (S:=S) (Throw e) tr (Done a).
Proof. cbn; intros [[??]|[??]]; by simplify_eq. Qed.

Lemma exec_call_inv (c : op S) tr (r : res S c) :
  exec (E:=E) (call c) tr (Done r) → tr = [Ev c r].
Proof. cbn. intros [[_ ?]|(r'&tr'&->&[[_ ?]|[-> ?]])]; by simplify_eq. Qed.

Lemma exec_attempt_inv {E' A} (p : prog S E A) tr (o : outcome E' (E + A)) :
  exec (attempt p) tr o →
  match o with
  | Done (inr a) => exec p tr (Done a)
  | Done (inl e) => exec p tr (Failed e)
  | Failed _ => False
  | Exhausted => exec p tr Exhausted
  | Cut => exec p tr Cut
  end.
Proof.
  revert tr; induction p as [a|e| |c k IH]; intros tr; cbn.
  1-3: intros [[-> ->]|[-> ->]]; eauto.
  intros [[-> ->]|(r & tr' & -> & Hx)]; [eauto|]. apply IH in Hx. destruct o as [[]|?| |]; eauto.
Qed.
End Runs.

(** ** Results

    [evals h p w] is the end of the run, without its trace: the outcome and the world.
    The equations below evaluate a program by rewriting. *)
Definition evals {S E A W} (h : handler S W) (p : prog S E A) (w : W) : outcome E A * W :=
  (run h p w).1.
Arguments evals : simpl never.

(** The result of a first part which did not return a value. *)
Definition no_value {E A B} (o : outcome E A) : outcome E B :=
  match o with Failed e => Failed e | Exhausted => Exhausted | _ => Cut end.

Section Evals.
Context {S : Sig} {E : Type} {W : Type} (h : handler S W).

Lemma evals_result {A} (p : prog S E A) w o w' : evals h p w = (o, w') → result_of (run h p w) = o.
Proof. unfold evals, result_of. by intros ->. Qed.

Lemma evals_ret {A} (a : A) w : evals h (Ret (S:=S) (E:=E) a) w = (Done a, w).
Proof. done. Qed.

Lemma evals_throw {A} (e : E) w : evals h (Throw (S:=S) (A:=A) e) w = (Failed e, w).
Proof. done. Qed.

Lemma evals_Call {A} c (k : res S c → prog S E A) w :
  evals h (Call c k) w = evals h (k (h c w).1) (h c w).2.
Proof.
  unfold evals; cbn. destruct (h c w) as [r w']; cbn. by destruct (run h (k r) w') as [[??]?].
Qed.

Lemma evals_call c w : evals h (call (E:=E) c) w = (Done (h c w).1, (h c w).2).
Proof. unfold call. by rewrite evals_Call. Qed.

Lemma evals_bind {A B} (p : prog S E A) (f : A → prog S E B) w :
  evals h (bind f p) w =
    match evals h p w with
    | (Done a, w') => evals h (f a) w'
    | (o, w') => (no_value o, w')
    end.
Proof.
  unfold evals. rewrite run_bind. destruct (run h p w) as [[[]?]?]; cbn; try done.
  by destruct (run h (f _) _) as [[??]?].
Qed.

Lemma evals_attempt {E' A} (p : prog S E A) w :
  evals h (attempt (E':=E') p) w =
    match evals h p w with
    | (Done a, w') => (Done (inr a), w')
    | (Failed e, w') => (Done (inl e), w')
    | (Exhausted, w') => (Exhausted, w')
    | (Cut, w') => (Cut, w')
    end.
Proof. unfold evals. rewrite run_attempt. by destruct (run h p w) as [[[]?]?]. Qed.

Lemma evals_lift {X A} (f : X → E) (r : X + A) w :
  evals h (lift f r) w = match r with inl x => (Failed (f x), w) | inr a => (Done a, w) end.
Proof. by destruct r. Qed.

Lemma evals_ok_or {A} (e : E) (o : option A) w :
  evals h (ok_or e o) w = match o with Some a => (Done a, w) | None => (Failed e, w) end.
Proof. by destruct o. Qed.

(** A loop over a list whose body succeeds is the fold of its results. *)
Lemma evals_foldM {X A} (f : A → X → prog S E A) (g : A * W → X → A * W) l a w :
  (∀ a w x, x ∈ l → evals h (f a x) w = (Done (g (a, w) x).1, (g (a, w) x).2)) →
  evals h (foldM f l a) w = (Done (fold_left g l (a, w)).1, (fold_left g l (a, w)).2).
Proof.
  revert a w; induction l as [|x l IH]; intros a w Hf; [done|]. cbn.
  rewrite evals_bind, Hf by (by left). destruct (g (a, w) x) as [a' w'].
  apply IH. intros. apply Hf. by right.
Qed.
End Evals.

(** Invert the successful run of a sequence of known steps. *)
Ltac done_inv :=
  repeat match goal with
  | H : exec (bind _ _) _ (Done _) |- _ => apply exec_bind_done in H as (? & ? & ? & ? & H & ?)
  | H : exec (lift _ _) _ (Done _) |- _ => apply exec_lift_done in H as [? ?]
  | H : exec (ok_or _ _) _ (Done _) |- _ => apply exec_ok_or_done in H as [? ?]
  | H : exec (ensure _ _) _ (Done _) |- _ => apply exec_ensure_done in H as [? ?]
  | H : exec (Ret _) _ (Done _) |- _ => apply exec_ret_done in H as [? ?]
  | H : exec (Throw _) _ (Done _) |- _ => by apply exec_throw_done in H
  | H : exec (call _) _ (Done _) |- _ => apply exec_call_inv in H
  end; subst.

(** ** Protocols

    An ordering requirement on requests is a deterministic automaton over
    events: [mstep] gives the next automaton state, or [None] where the event
    is not allowed.  [respects p m Q R] is the program logic: whatever the answers,
    the requests of [p] are allowed from [m] on, a normal end satisfies [Q] and
    an error satisfies [R]. *)
Record protocol (S : Sig) := Protocol {
  mst : Type;
  mstep : mst → ev S → option mst
}.
Arguments mst {S}.
Arguments mstep {S}.

Fixpoint accepts {S} (P : protocol S) (m : mst P) (tr : list (ev S)) : option (mst P) :=
  match tr with
  | [] => Some m
  | e :: tr' => match mstep P m e with Some m' => accepts P m' tr' | None => None end
  end.

Fixpoint respects {S E A} (P : protocol S) (p : prog S E A) (m : mst P)
    (Q : A → mst P → Prop) (R : E → mst P → Prop) : Prop :=
  match p with
  | Ret a => Q a m
  | Throw e => R e m
  | Spin => True
  | Call c k =>
      ∀ r, match mstep P m (Ev c r) with
           | Some m' => respects P (k r) m' Q R
           | None => False
           end
  end.

Section Protocols.
Context {S : Sig} {E : Type} (P : protocol S).
Implicit Types m : mst P.

Lemma respects_weaken {A} (p : prog S E A) m (Q Q' : A → mst P → Prop) (R R' : E → mst P → Prop) :
  respects P p m Q R → (∀ a m, Q a m → Q' a m) → (∀ e m, R e m → R' e m) →
  respects P p m Q' R'.
Proof.
  intros H HQ HR; revert m H; induction p as [a|e| |c k IH]; cbn; intros m H; eauto.
  intros r. specialize (H r). destruct (mstep P m (Ev c r)); eauto.
Qed.

Lemma respects_bind {A B} (p : prog S E A) (f : A → prog S E B) m Q R :
  respects P p m (λ a m', respects P (f a) m' Q R) R →
  respects P (bind f p) m Q R.
Proof.
  revert m; induction p as [a|e| |c k IH]; cbn; intros m H; eauto.
  intros r. specialize (H r). destruct (mstep P m (Ev c r)); eauto.
Qed.

(** The usual way to use [respects_bind]: a specification of the first part. *)
Lemma respects_seq {A B} (p : prog S E A) (f : A → prog S E B) m Q1 Q (R1 R : E → mst P → Prop) :
  respects P p m Q1 R1 → (∀ a m', Q1 a m' → respects P (f a) m' Q R) →
  (∀ e m', R1 e m' → R e m') → respects P (bind f p) m Q R.
Proof. intros H ??. apply respects_bind. eauto using respects_weaken. Qed.

Lemma respects_call (c : op S) m (Q : res S c → mst P → Prop) (R : E → mst P → Prop) :
  (∀ r, match mstep P m (Ev c r) with Some m' => Q r m' | None => False end) →
  respects P (call c) m Q R.
Proof. done. Qed.

Lemma respects_attempt {E' A} (p : prog S E A) m (Q : E + A → mst P → Prop) (R : E' → mst P → Prop) :
  respects P p m (λ a, Q (inr a)) (λ e, Q (inl e)) → respects P (attempt p) m Q R.
Proof.
  revert m; induction p as [a|e| |c k IH]; cbn; intros m H; eauto.
  intros r. specialize (H r). destruct (mstep P m (Ev c r)); eauto.
Qed.

(** Loops by invariant. *)
Lemma respects_loop {I A} fuel (body : I → prog S E (I + A)) (J : I → mst P → Prop) i m
    (Q : A → mst P → Prop) (R : E → mst P → Prop) :
  J i m →
  (∀ i m, J i m →
     respects P (body i) m (λ r m', match r with inl i' => J i' m' | inr a => Q a m' end) R) →
  respects P (loop fuel body i) m Q R.
Proof.
  intros HJ Hb; revert i m HJ; induction fuel as [|n IH]; cbn; intros i m HJ; [done|].
  apply respects_bind. eapply respects_weaken; [by apply Hb| |done].
  intros [i'|a] m' H; cbn; eauto.
Qed.

Lemma respects_foldM {X A} (f : A → X → prog S E A) (J : A → mst P → Prop) l a m
    (R : E → mst P → Prop) :
  J a m → (∀ a x m, x ∈ l → J a m → respects P (f a x) m J R) →
  respects P (foldM f l a) m J R.
Proof.
  revert a m; induction l as [|x l IH]; cbn; intros a m HJ Hb; [done|].
  apply respects_bind. eapply respects_weaken; [apply Hb; [set_solver|done]| |done].
  intros a' m' H. apply IH; [done|]. intros; apply Hb; set_solver.
Qed.

Lemma respects_forM {X} (f : X → prog S E unit) (J : mst P → Prop) l m (R : E → mst P → Prop) :
  J m → (∀ x m, x ∈ l → J m → respects P (f x) m (λ _, J) R) →
  respects P (forM_ f l) m (λ _, J) R.
Proof. intros. apply (respects_foldM _ (λ _, J)); eauto. Qed.

Lemma respects_ok_or {A} (e : E) (o : option A) m (Q : A → mst P → Prop) R :
  (∀ a, o = Some a → Q a m) → (o = None → R e m) → respects P (ok_or e o) m Q R.
Proof. destruct o; cbn; eauto. Qed.

Lemma respects_lift {X A} (f : X → E) (r : X + A) m (Q : A → mst P → Prop) R :
  (∀ a, r = inr a → Q a m) → (∀ x, r = inl x → R (f x) m) → respects P (lift f r) m Q R.
Proof. destruct r; cbn; eauto. Qed.

(** Soundness: every run, complete or cut short, is allowed. *)
Theorem respects_sound {A} (p : prog S E A) m Q R tr o :
  respects P p m Q R → exec p tr o →
  ∃ m', accepts P m tr = Some m' ∧
    match o with Done a => Q a m' | Failed e => R e m' | _ => True end.
Proof.
  revert m tr; induction p as [a|e| |c k IH]; cbn; intros m tr H Hx.
  1-3: destruct Hx as [[-> ->]|[-> ->]]; eauto.
  destruct Hx as [[-> ->]|(r&tr'&->&Hx)]; [by eauto|].
  cbn. specialize (H r). destruct (mstep P m (Ev c r)); [eauto|done].
Qed.
End Protocols.

(** ** Fuel

    [approx p q]: [q] behaves as [p] except that it may go on where [p] ran out of
    fuel.  Loops with more fuel are above loops with less fuel, so a run which
    ended within some fuel is the run for every larger fuel. *)
Inductive approx {S E A} : prog S E A → prog S E A → Prop :=
| approx_ret a : approx (Ret a) (Ret a)
| approx_throw e : approx (Throw e) (Throw e)
| approx_spin q : approx Spin q
| approx_call c k k' : (∀ r, approx (k r) (k' r)) → approx (Call c k) (Call c k').

Create HintDb fuel.

Section Fuel.
Context {S : Sig} {E : Type}.

Lemma approx_refl {A} (p : prog S E A) : approx p p.
Proof. induction p; constructor; auto. Qed.

Lemma approx_bind {A B} (p p' : prog S E A) (f f' : A → prog S E B) :
  approx p p' → (∀ a, approx (f a) (f' a)) → approx (bind f p) (bind f' p').
Proof. intros H Hf. induction H; cbn; try constructor; auto. Qed.

Lemma approx_attempt {E' A} (p p' : prog S E A) :
  approx p p' → approx (attempt (E':=E') p) (attempt p').
Proof. intros H. induction H; cbn; constructor; auto. Qed.

Lemma approx_loop {I A} n n' (b b' : I → prog S E (I + A)) i :
  n ≤ n' → (∀ i, approx (b i) (b' i)) → approx (loop n b i) (loop n' b' i).
Proof.
  intros Hn Hb; revert n' i Hn; induction n as [|n IH]; intros n' i Hn; [constructor|].
  destruct n' as [|n']; [lia|]. cbn. apply approx_bind; [done|].
  intros [i'|a]; [apply IH; lia|constructor].
Qed.

Lemma approx_foldM {X A} (f f' : A → X → prog S E A) l a :
  (∀ a x, approx (f a x) (f' a x)) → approx (foldM f l a) (foldM f' l a).
Proof.
  intros Hf; revert a; induction l as [|x l IH]; intros a; cbn; [constructor|].
  apply approx_bind; auto.
Qed.

Lemma approx_run {A W} (h : handler S W) (p q : prog S E A) w :
  approx p q → result_of (run h p w) ≠ Exhausted → run h q w = run h p w.
Proof.
  intros H; revert w; induction H as [| | |c k k' H IH]; intros w Hr; try done.
  cbn in *. destruct (h c w) as [r w']. specialize (IH r w').
  destruct (run h (k r) w') as [[o w''] tr]. cbn in *.
  rewrite IH; done.
Qed.
End Fuel.

#[export] Hint Resolve approx_refl approx_bind approx_attempt approx_loop approx_foldM : fuel.

(** Structural goals [approx (f n) (f n')]: walk the program, loops by
    [approx_loop]. *)
Ltac solve_fuel :=
  repeat first
    [ done
    | apply approx_refl
    | apply approx_bind; [|intros ?]
    | apply approx_attempt
    | apply approx_loop; [|intros ?]
    | apply approx_foldM; intros ??
    | progress eauto with fuel
    | match goal with
      | |- approx (if ?b then _ else _) _ => destruct b
      | |- approx (match ?x with _ => _ end) _ => destruct x
      end ].

(** ** [slice::sort_unstable_by]

    The order of equal elements is unspecified by the standard library, so the
    sort is an interface: a permutation of the input which is sorted when the
    comparison is a total preorder. *)
Class SortUnstable := {
  sort_unstable_by {A} : (A → A → comparison) → list A → list A;
  sort_unstable_perm {A} (cmp : A → A → comparison) l : sort_unstable_by cmp l ≡ₚ l;
  sort_unstable_sorted {A} (cmp : A → A → comparison) l :
    Total (λ x y, cmp x y ≠ Gt) → Transitive (λ x y, cmp x y ≠ Gt) →
    StronglySorted (λ x y, cmp x y ≠ Gt) (sort_unstable_by cmp l)
}.

(** One implementation: merge sort. *)
#[export] Instance merge_sort_unstable : SortUnstable := {
  sort_unstable_by A cmp := merge_sort (λ x y, cmp x y ≠ Gt);
  sort_unstable_perm A cmp l := merge_sort_Permutation _ l;
  sort_unstable_sorted A cmp l HT HTr := StronglySorted_merge_sort _ l
}.

Lemma sorted_head_least {A} (R : A → A → Prop) x l y :
  Reflexive R → StronglySorted R (x :: l) → y ∈ x :: l → R x y.
Proof.
  intros ? [_ Hall]%StronglySorted_inv [->|Hin]%elem_of_cons; [done|].
  rewrite Forall_forall in Hall. auto.
Qed.

(** ** Which requests a program can issue *)
Fixpoint uses {S E A} (ok : op S → bool) (p : prog S E A) : Prop :=
  match p with
  | Call c k => ok c = true ∧ ∀ r, uses ok (k r)
  | _ => True
  end.

Create HintDb uses.

Section Uses.
Context {S : Sig} {E : Type} (ok : op S → bool).

Lemma uses_bind {A B} (p : prog S E A) (f : A → prog S E B) :
  uses ok p → (∀ a, uses ok (f a)) → uses ok (bind f p).
Proof. intros Hp Hf. induction p; cbn in *; try done. destruct Hp. eauto. Qed.

Lemma uses_call (c : op S) : ok c = true → uses ok (call (E:=E) c).
Proof. done. Qed.

Lemma uses_attempt {E' A} (p : prog S E A) : uses ok p → uses ok (attempt (E':=E') p).
Proof. intros Hp. induction p; cbn in *; try done. destruct Hp. eauto. Qed.

Lemma uses_loop {I A} fuel (body : I → prog S E (I + A)) i :
  (∀ i, uses ok (body i)) → uses ok (loop fuel body i).
Proof.
  intros Hb. revert i; induction fuel as [|n IH]; intros i; cbn; [done|].
  apply uses_bind; [done|]. intros [i'|a]; [apply IH|done].
Qed.

Lemma uses_foldM {X A} (f : A → X → prog S E A) l a :
  (∀ a x, uses ok (f a x)) → uses ok (foldM f l a).
Proof. intros Hf. revert a; induction l as [|x l IH]; intros a; cbn; eauto using uses_bind. Qed.

Lemma uses_ok_or {A} (e : E) (o : option A) : uses ok (ok_or (S:=S) e o).
Proof. by destruct o. Qed.

Lemma uses_lift {X A} (f : X → E) (r : X + A) : uses ok (lift (S:=S) f r).
Proof. by destruct r. Qed.

Lemma uses_ensure b (e : E) : uses ok (ensure (S:=S) b e).
Proof. by destruct b. Qed.

Lemma uses_weaken (ok' : op S → bool) {A} (p : prog S E A) :
  (∀ c, ok c = true → ok' c = true) → uses ok p → uses ok' p.
Proof. intros Hok Hp. induction p; cbn in *; try done. destruct Hp. eauto. Qed.

(** In a run, only such requests occur. *)
Lemma uses_sound {A} (p : prog S E A) tr o :
  uses ok p → exec p tr o → Forall (λ e, match e with Ev c _ => ok c = true end) tr.
Proof.
  revert tr; induction p as [| | |c k IH]; cbn; intros tr Hu Hx.
  1-3: by destruct Hx as [[-> _]|[-> _]].
  destruct Hx as [[-> _]|(r&tr'&->&Hx)]; [done|]. destruct Hu. constructor; eauto.
Qed.

(** Requests which a protocol ignores. *)
Lemma respects_uses (P : protocol S) {A} (p : prog S E A) m :
  (∀ c r m, ok c = true → mstep P m (Ev c r) = Some m) → uses ok p →
  respects P p m (λ _ m', m' = m) (λ _ m', m' = m).
Proof.
  intros Hok. induction p as [| | |c k IH]; cbn; intros Hu; try done.
  destruct Hu. intros r. rewrite Hok by done. auto.
Qed.
End Uses.

(** Requests which a protocol ignores in the state [m]. *)
Lemma respects_uses_at {S E A} (ok : op S → bool) (P : protocol S) (p : prog S E A) m :
  (∀ c r, ok c = true → mstep P m (Ev c r) = Some m) → uses ok p →
  respects P p m (λ _ m', m' = m) (λ _ m', m' = m).
Proof.
  intros Hok. induction p as [| | |c k IH]; cbn; intros Hu; try done.
  destruct Hu. intros r. rewrite Hok by done. auto.
Qed.

(** ** What a program can return *)
Fixpoint yields {S E A} (p : prog S E A) (Q : A → Prop) : Prop :=
  match p with
  | Ret a => Q a
  | Call c k => ∀ r, yields (k r) Q
  | _ => True
  end.

Section Yields.
Context {S : Sig} {E : Type}.

Lemma yields_weaken {A} (p : prog S E A) (P Q : A → Prop) :
  yields p P → (∀ a, P a → Q a) → yields p Q.
Proof. induction p; cbn; eauto. Qed.

Lemma yields_bind {A B} (p : prog S E A) (f : A → prog S E B) P Q :
  yields p P → (∀ a, P a → yields (f a) Q) → yields (bind f p) Q.
Proof. induction p; cbn; eauto. Qed.

(** When nothing is known of the first result. *)
Lemma yields_then {A B} (p : prog S E A) (f : A → prog S E B) Q :
  (∀ a, yields (f a) Q) → yields (bind f p) Q.
Proof. induction p; cbn; eauto. Qed.

Lemma yields_lift {X A} (f : X → E) (r : X + A) (Q : A → Prop) :
  (∀ a, r = inr a → Q a) → yields (lift (S:=S) f r) Q.
Proof. destruct r; cbn; eauto. Qed.

Lemma yields_attempt {E' A} (p : prog S E A) (Q : A → Prop) :
  yields p Q → yields (attempt (E':=E') p) (λ r, match r with inr a => Q a | inl _ => True end).
Proof. intros Hp. induction p; cbn in *; eauto. Qed.

Lemma yields_ensure b (e : E) : yields (ensure (S:=S) b e) (λ _, b = true).
Proof. by destruct b. Qed.

Lemma yields_sound {A} (p : prog S E A) Q tr a : yields p Q → exec p tr (Done a) → Q a.
Proof.
  revert tr; induction p as [| | |c k IH]; cbn; intros tr Hy Hx.
  1-3: destruct Hx as [[??]|[??]]; by simplify_eq.
  destruct Hx as [[_ ?]|(r & tr' & -> & Hx)]; [done|eauto].
Qed.

Lemma uses_bind_yields {A B} ok (p : prog S E A) (f : A → prog S E B) P :
  uses ok p → yields p P → (∀ a, P a → uses ok (f a)) → uses ok (bind f p).
Proof. intros Hu Hy Hf. induction p; cbn in *; eauto. destruct Hu. eauto. Qed.

Lemma respects_yields {A} (P : protocol S) (p : prog S E A) m (Q : A → mst P → Prop)
    (R : E → mst P → Prop) (Y : A → Prop) :
  respects P p m Q R → yields p Y → respects P p m (λ a m', Q a m' ∧ Y a) R.
Proof.
  revert m; induction p as [| | |c k IH]; cbn; intros m Hr Hy; try done.
  intros r. specialize (Hr r). destruct (mstep P m (Ev c r)); [|done]. by apply IH.
Qed.
End Yields.

#[export] Hint Resolve uses_call uses_ok_or uses_lift uses_ensure : uses.

(** Goals [uses ok p]: walk the program. *)
Ltac solve_uses :=
  repeat first
    [ progress eauto with uses
    | apply uses_bind; [|intros ?]
    | apply uses_attempt
    | apply uses_loop; intros ?
    | apply uses_foldM; intros ??
    | match goal with
      | |- uses _ (if ?b then _ else _) => destruct b
      | |- uses _ (match ?x with _ => _ end) => destruct x
      | |- uses _ (Ret _) => exact I
      | |- uses _ (Throw _) => exact I
      end
    | done ].

(** A request which the first part of a program never issues comes after all of it. *)
Lemma exec_gated {S E A B} (ok : op S → bool) (p : prog S E A) (f : A → prog S E B) tr1 c r tr2 o :
  uses ok p → exec (bind f p) (tr1 ++ Ev c r :: tr2) o → ok c = false →
  ∃ a ta t, exec p ta (Done a) ∧ tr1 = ta ++ t ∧ exec (f a) (t ++ Ev c r :: tr2) o.
Proof.
  intros Hp Hx Hc.
  assert (∀ t o', exec p t o' → Ev c r ∉ t) as Hno.
  { intros t o' Ht Hin. eapply uses_sound in Ht; [|done]. rewrite Forall_forall in Ht.
    specialize (Ht _ Hin). cbn in Ht. congruence. }
  apply exec_bind_inv in Hx as [(a & ta & tb & Ha & Hb & Heq)|[(e & Hx & ->)|[[Hx ->]|[Hx ->]]]];
    [|by destruct (Hno _ _ Hx); set_solver..].
  apply app_eq_app in Heq as [t [[-> ->]|[-> Hb']]]; [by exists a, ta, t|].
  destruct t as [|e t]; [exists a, tr1, []; rewrite !app_nil_r in *; cbn in Hb'; by subst tb|].
  injection Hb' as <- _. destruct (Hno _ _ Ha). set_solver.
Qed.

Lemma uses_refuses {S E A} (ok : op S → bool) (p : prog S E A) tr1 c r tr2 o :
  uses ok p → exec p (tr1 ++ Ev c r :: tr2) o → ok c = false → False.
Proof.
  intros Hp Hx Hc. eapply uses_sound in Hx; [|done]. apply Forall_app in Hx as [_ [Hx _]%Forall_cons].
  cbn in Hx. congruence.
Qed.

(** A request which the rest of a program never issues is issued by its first part. *)
Lemma exec_within {S E A B} (ok : op S → bool) (p : prog S E A) (f : A → prog S E B) tr1 c r tr2 o :
  (∀ a, uses ok (f a)) → exec (bind f p) (tr1 ++ Ev c r :: tr2) o → ok c = false →
  ∃ tr2' o', exec p (tr1 ++ Ev c r :: tr2') o'.
Proof.
  intros Hf Hx Hc.
  apply exec_bind_inv in Hx as [(a & ta & tb & Ha & Hb & Heq)|[(e & Hx & ->)|[[Hx ->]|[Hx ->]]]]; eauto.
  apply app_eq_app in Heq as [t [[-> ->]|[-> Hb']]].
  - by eapply uses_refuses in Hb.
  - destruct t as [|e t].
    + cbn in Hb'. subst tb. by eapply (uses_refuses ok _ []) in Hb.
    + injection Hb' as <- ->. eauto.
Qed.

Lemma uses_any {S E A} (p : prog S E A) : uses (λ _, true) p.
Proof. by induction p. Qed.

(** A run of [attempt p] is a run of [p]. *)
Lemma exec_attempt_run {S E E' A} (p : prog S E A) tr (o : outcome E' (E + A)) :
  exec (attempt p) tr o → ∃ o', exec p tr o'.
Proof. intros Hx%exec_attempt_inv. destruct o as [[e|a]| | |]; [eauto..|done|eauto|eauto]. Qed.

(** Where an event of a sequence occurs, and of a loop *)
Lemma exec_bind_event {S E A B} (p : prog S E A) (f : A → prog S E B) tr1 e tr2 o :
  exec (bind f p) (tr1 ++ e :: tr2) o →
  (∃ tr2' o', exec p (tr1 ++ e :: tr2') o') ∨
  (∃ a ta t, exec p ta (Done a) ∧ tr1 = ta ++ t ∧ exec (f a) (t ++ e :: tr2) o).
Proof.
  intros [(a & ta & tb & Ha & Hb & Heq)|[(x & Hx & ->)|[[Hx ->]|[Hx ->]]]]%exec_bind_inv; [|left; by eauto..].
  apply app_eq_app in Heq as [t [[-> ->]|[-> Hb']]]; [by right; exists a, ta, t|].
  destruct t as [|e' t]; cbn in Hb'.
  - right. exists a, tr1, []. rewrite app_nil_r in *. by subst tb.
  - left. exists t. injection Hb' as -> _. eauto.
Qed.
Lemma exec_loop_event {S E I A} fuel (body : I → prog S E (I + A)) i tr1 e tr2 o :
  exec (loop fuel body i) (tr1 ++ e :: tr2) o →
  ∃ i' t0 t tr2' o', tr1 = t0 ++ t ∧ exec (body i') (t ++ e :: tr2') o'.
Proof.
  revert i tr1. induction fuel as [|n IH]; intros i tr1; cbn [loop].
  { intros [[? _]|[? _]]; by destruct tr1. }
  intros [(tr2' & o' & Hx)|([i'|a] & ta & t & _ & -> & Hx)]%exec_bind_event.
  - by exists i, [], tr1, tr2', o'.
  - apply IH in Hx as (j & t0 & t' & tr2' & o' & -> & Hx). exists j, (ta ++ t0), t', tr2', o'.
    by rewrite app_assoc.
  - destruct Hx as [[? _]|[? _]]; by destruct t.
Qed.

(** ** The worlds of a run

    [visits h p w w']: [w'] is the world at some point of the run of [p] from [w], so one
    in which the process may be killed.  [always] is an invariant of these worlds, with a
    postcondition of the result. *)
Fixpoint visits {S E A W} (h : handler S W) (p : prog S E A) (w w' : W) : Prop :=
  w' = w ∨ match p with Call c k => visits h (k (h c w).1) (h c w).2 w' | _ => False end.

Fixpoint always {S E A W} (h : handler S W) (I : W → Prop) (p : prog S E A) (w : W)
    (Q : A → W → Prop) : Prop :=
  I w ∧ match p with
        | Ret a => Q a w
        | Call c k => always h I (k (h c w).1) (h c w).2 Q
        | _ => True
        end.

Section Always.
Context {S : Sig} {E : Type} {W : Type} (h : handler S W) (I : W → Prop).

Lemma always_visits {A} (p : prog S E A) w w' Q : always h I p w Q → visits h p w w' → I w'.
Proof.
  revert w; induction p as [| | |c k IH]; cbn; intros w [Hi Ha] [->|Hv]; try done. by eapply IH.
Qed.

Lemma always_bind {A B} (p : prog S E A) (f : A → prog S E B) w P Q :
  always h I p w P → (∀ a w', I w' → P a w' → always h I (f a) w' Q) → always h I (bind f p) w Q.
Proof.
  intros Hp Hf. revert w Hp. induction p as [| | |c k IH]; cbn; intros w [Hi Ha]; try done; eauto.
Qed.

(** Requests each of which keeps the invariant. *)
Lemma always_uses {A} (ok : op S → bool) (p : prog S E A) w :
  uses ok p → (∀ c w, ok c = true → I w → I (h c w).2) → I w → always h I p w (λ _ _, True).
Proof.
  intros Hu Hok. revert w. induction p as [| | |c k IH]; cbn; intros w Hi; try done.
  destruct Hu as [Hc Hu]. split; [done|]. apply IH; auto.
Qed.

(** A part whose run is known. *)
Lemma always_result {A} (p : prog S E A) w a w1 tr (Q : A → W → Prop) :
  always h I p w (λ _ _, True) → run h p w = (Done a, w1, tr) → Q a w1 → always h I p w Q.
Proof.
  revert w tr; induction p as [b|e| |c k IH]; cbn; intros w tr [Hi Ha]; try done.
  - by intros [= -> ->].
  - intros Hr Hq. split; [done|]. destruct (h c w) as [r w']; cbn in *.
    destruct (run h (k r) w') as [[o w2] t2] eqn:Er. injection Hr as -> -> _. by eapply IH.
Qed.

Lemma always_loop {X A} fuel (body : X → prog S E (X + A)) x w :
  (∀ x w, I w → always h I (body x) w (λ _ _, True)) → I w → always h I (loop fuel body x) w (λ _ _, True).
Proof.
  intros Hb. revert x w. induction fuel as [|n IH]; intros x w Hi; cbn [loop]; [done|].
  eapply always_bind; [by apply Hb|]. intros [x'|a] w' Hi' _; [by apply IH|done].
Qed.
End Always.

(** ** Composition

    [interp f p]: each request of [p] is answered by running the program [f] gives for it,
    which issues requests of another signature. *)
Section Interp.
Context {S T : Sig} {E : Type} (f : ∀ c : op S, prog T E (res S c)).

Fixpoint interp {A} (p : prog S E A) : prog T E A :=
  match p with
  | Ret a => Ret a
  | Throw e => Throw e
  | Spin => Spin
  | Call c k => bind (λ r, interp (k r)) (f c)
  end.

Lemma uses_interp {A} (ok : op S → bool) (ok' : op T → bool) (p : prog S E A) :
  uses ok p → (∀ c, ok c = true → uses ok' (f c)) → uses ok' (interp p).
Proof. intros Hp Hf. induction p; cbn in *; try done. destruct Hp. apply uses_bind; eauto. Qed.

(** [renders s t]: the trace [t] is made of the complete runs which answer the requests
    of the trace [s]. *)
Inductive renders : list (ev S) → list (ev T) → Prop :=
| renders_nil : renders [] []
| renders_cons c r s t1 t2 :
    exec (f c) t1 (Done r) → renders s t2 → renders (Ev c r :: s) (t1 ++ t2).

(** What an event of the first trace is in the second *)
Lemma renders_elem s t e :
  renders s t → e ∈ s →
  ∃ t0 t1 t2, t = t0 ++ t1 ++ t2 ∧ match e with Ev c r => exec (f c) t1 (Done r) end.
Proof.
  induction 1 as [|c r s u1 u2 Hx Hs IH]; [by intros ?%not_elem_of_nil|].
  intros [->|Hin]%elem_of_cons; [by exists [], u1, u2|].
  destruct (IH Hin) as (t0 & t1 & t2 & -> & He). exists (u1 ++ t0), t1, t2. split; [|done].
  by rewrite <-!app_assoc.
Qed.

(** A request which is passed on: where it occurs in the composition, it occurs in the
    program, after requests which have been answered by what came before. *)
Lemma exec_interp_passed {A} (p : prog S E A) ta e tb o (passed : ev S → Prop) :
  (∀ c u1 u2 o', exec (f c) (u1 ++ e :: u2) o' → u1 = [] ∧ u2 = [] ∧ ∃ r, passed (Ev c r)) →
  exec (interp p) (ta ++ e :: tb) o →
  ∃ s e' s2 o', passed e' ∧ exec p (s ++ e' :: s2) o' ∧ renders s ta.
Proof.
  intros Hf. revert ta. induction p as [| | |c k IH]; intros ta Hx;
    [by destruct ta; destruct Hx as [[??]|[??]]..|].
  assert (∀ u1 u2 o', exec (f c) (u1 ++ e :: u2) o' → ta = u1 →
    ∃ s e' s2 o', passed e' ∧ exec (Call c k) (s ++ e' :: s2) o' ∧ renders s ta) as Hhead.
  { intros u1 u2 o' Hu ->. apply Hf in Hu as (-> & -> & r & Hr). exists [], (Ev c r), [], Cut.
    split_and!; [done| |constructor]. right. exists r, []. split; [done|]. apply exec_cut. }
  cbn in Hx. apply exec_bind_inv in Hx as [(r & t1 & t2 & H1 & H2 & Heq)|[(e' & Hx & ->)|[[Hx ->]|[Hx ->]]]]; eauto.
  apply app_eq_app in Heq as [t [[-> ->]|[-> Heq]]].
  - destruct (IH r t H2) as (s & e' & s2 & o' & Hp & Hx & Hr). exists (Ev c r :: s), e', s2, o'.
    split_and!; [done| |by constructor]. right. by exists r, (s ++ e' :: s2).
  - destruct t as [|e' t]; simplify_eq/=; [|by eauto].
    rewrite app_nil_r in *. destruct (IH r [] H2) as (s & e' & s2 & o' & Hp & Hx & Hr).
    exists (Ev c r :: s), e', s2, o'. split_and!; [done| |].
    + right. by exists r, (s ++ e' :: s2).
    + rewrite <-(app_nil_r ta). by constructor.
Qed.
End Interp.

(** ** What a program can throw *)
Fixpoint throws {S E A} (p : prog S E A) (Q : E → Prop) : Prop :=
  match p with
  | Throw e => Q e
  | Call c k => ∀ r, throws (k r) Q
  | _ => True
  end.
Create HintDb throws.

Lemma throws_weaken {S E A} (p : prog S E A) (Q Q' : E → Prop) :
  (∀ e, Q e → Q' e) → throws p Q → throws p Q'.
Proof. intros HQ. induction p; cbn; eauto. Qed.

Section Throws.
Context {S : Sig} {E : Type} (Q : E → Prop).
Lemma throws_bind {A B} (p : prog S E A) (f : A → prog S E B) :
  throws p Q → (∀ a, throws (f a) Q) → throws (bind f p) Q.
Proof. intros Hp Hf. induction p; cbn in *; eauto. Qed.
Lemma throws_lift {X A} (g : X → E) (r : X + A) : (∀ x, Q (g x)) → throws (lift (S:=S) g r) Q.
Proof. destruct r; cbn; eauto. Qed.
Lemma throws_ok_or {A} e (o : option A) : Q e → throws (ok_or (S:=S) e o) Q.
Proof. by destruct o. Qed.
Lemma throws_loop {I A} fuel (body : I → prog S E (I + A)) i :
  (∀ i, throws (body i) Q) → throws (loop fuel body i) Q.
Proof.
  intros Hb. revert i; induction fuel as [|n IH]; intros i; cbn; [done|].
  apply throws_bind; [done|]. intros [i'|a]; [apply IH|done].
Qed.
Lemma throws_foldM {X A} (f : A → X → prog S E A) l a :
  (∀ a x, throws (f a x) Q) → throws (foldM f l a) Q.
Proof. intros Hf. revert a; induction l as [|x l IH]; intros a; cbn; eauto using throws_bind. Qed.
Lemma throws_bind_yields {A B} (p : prog S E A) (f : A → prog S E B) P :
  throws p Q → yields p P → (∀ a, P a → throws (f a) Q) → throws (bind f p) Q.
Proof. intros Hu Hy Hf. induction p; cbn in *; eauto. Qed.
Lemma throws_interp {T A} (f : ∀ c : op T, prog S E (res T c)) (p : prog T E A) :
  throws p Q → (∀ c, throws (f c) Q) → throws (interp f p) Q.
Proof. intros Hp Hf. induction p; cbn in *; eauto using throws_bind. Qed.
Lemma throws_attempt {E' A} (p : prog S E' A) : throws (attempt p) Q.
Proof. induction p; cbn; eauto. Qed.
Lemma throws_sound {A} (p : prog S E A) tr e : throws p Q → exec p tr (Failed e) → Q e.
Proof.
  revert tr; induction p as [| | |c k IH]; cbn; intros tr Ht Hx.
  1-3: destruct Hx as [[_ ?]|[_ ?]]; by simplify_eq.
  destruct Hx as [[_ ?]|(r & tr' & -> & Hx)]; [done|eauto].
Qed.
End Throws.

(** ** Lists *)
Lemma list_filter_all {A} (P : A → Prop) `{∀ x, Decision (P x)} (l : list A) :
  (∀ x, x ∈ l → P x) → base.filter P l = l.
Proof.
  induction l as [|x l IH]; intros Hl; [done|].
  rewrite filter_cons_True by (apply Hl; by left). f_equal. apply IH. intros y Hy. apply Hl. by right.
Qed.

Lemma list_filter_none {A} (P : A → Prop) `{∀ x, Decision (P x)} (l : list A) :
  (∀ x, x ∈ l → ¬ P x) → base.filter P l = [].
Proof.
  induction l as [|x l IH]; intros Hl; [done|].
  rewrite filter_cons_False by (apply Hl; by left). apply IH. intros y Hy. apply Hl. by right.
Qed.
