(* ===== verification/Semver.v ===== *)
(** * Versions

    The repository uses the [semver] crate for versions.  The crate is not part of
    the repository: what the code relies on (parsing, printing, a total order, the
    test for a pre-release) is the class [Semver], whose laws are the documented
    ones.  [SemverRef] is one implementation, by the precedence rules of Semantic
    Versioning 2.0, so that statements about versions can be evaluated. *)

From S2P Require Import Prelude.
From stdpp Require Import base list strings pretty.
From Stdlib Require Import ZArith Lia Ascii String.

(** ** Lawful comparisons *)
Class LawfulCmp {A} (cmp : A → A → comparison) : Prop := {
  cmp_eq x y : cmp x y = Eq ↔ x = y;
  cmp_sym x y : cmp y x = CompOpp (cmp x y);
  cmp_trans x y z : cmp x y = Lt → cmp y z = Lt → cmp x z = Lt
}.

Class Semver := {
  Version : Type;
  version_parse : string → string + Version;
  version_to_string : Version → string;
  version_new : Z → Z → Z → Version;
  (** [Version::pre.is_empty()] *)
  pre_is_empty : Version → bool;
  version_cmp : Version → Version → comparison;
  #[global] version_cmp_lawful :: LawfulCmp version_cmp
}.

Section Order.
Context `{Semver}.

(** [a.ge(b)], [a.le(b)], [a.lt(b)], [a.eq(b)] *)
Definition v_ge (a b : Version) : bool := if version_cmp a b is Lt then false else true.
Definition v_le (a b : Version) : bool := if version_cmp a b is Gt then false else true.
Definition v_lt (a b : Version) : bool := if version_cmp a b is Lt then true else false.
Definition v_eq (a b : Version) : bool := if version_cmp a b is Eq then true else false.

#[global] Instance Version_eq_dec : EqDecision Version.
Proof.
  intros a b. destruct (version_cmp a b) eqn:E;
    [left; by apply cmp_eq|right; intros Heq%cmp_eq; congruence..].
Defined.

Lemma v_eq_true a b : v_eq a b = true ↔ a = b.
Proof. unfold v_eq. rewrite <-cmp_eq. by destruct (version_cmp a b). Qed.

Lemma v_ge_lt a b : v_ge a b = negb (v_lt a b).
Proof. unfold v_ge, v_lt. by destruct (version_cmp a b). Qed.

Lemma v_le_ge a b : v_le a b = v_ge b a.
Proof. unfold v_le, v_ge. rewrite (cmp_sym a b). by destruct (version_cmp a b). Qed.

Lemma v_ge_refl a : v_ge a a = true.
Proof. unfold v_ge. by rewrite (proj2 (cmp_eq a a) eq_refl). Qed.

Lemma v_lt_trans a b c : v_lt a b = true → v_lt b c = true → v_lt a c = true.
Proof.
  unfold v_lt. destruct (version_cmp a b) eqn:E1, (version_cmp b c) eqn:E2; try done.
  by rewrite (cmp_trans a b c).
Qed.

Lemma v_ge_trans a b c : v_ge a b = true → v_ge b c = true → v_ge a c = true.
Proof.
  rewrite !v_ge_lt, !negb_true_iff. intros Hab Hbc. apply not_true_iff_false. intros Hac.
  destruct (version_cmp b c) eqn:E.
  - apply cmp_eq in E as ->. congruence.
  - unfold v_lt in Hbc. by rewrite E in Hbc.
  - assert (v_lt c b = true) as Hcb by (unfold v_lt; by rewrite (cmp_sym b c), E).
    rewrite (v_lt_trans a c b) in Hab; done.
Qed.
End Order.

(** ** Lexicographic comparison *)
Fixpoint lex {A} (cmp : A → A → comparison) (l1 l2 : list A) : comparison :=
  match l1, l2 with
  | [], [] => Eq
  | [], _ :: _ => Lt
  | _ :: _, [] => Gt
  | x :: l1', y :: l2' => match cmp x y with Eq => lex cmp l1' l2' | r => r end
  end.

#[global] Instance lex_lawful {A} (cmp : A → A → comparison) `{LawfulCmp A cmp} : LawfulCmp (lex cmp).
Proof.
  split.
  - induction x as [|a l1 IH]; intros [|b l2]; cbn; try done.
    destruct (cmp a b) eqn:E.
    + apply cmp_eq in E as ->. rewrite IH. naive_solver.
    + split; [done|]. intros [= -> _]. by rewrite (proj2 (cmp_eq b b) eq_refl) in E.
    + split; [done|]. intros [= -> _]. by rewrite (proj2 (cmp_eq b b) eq_refl) in E.
  - induction x as [|a l1 IH]; intros [|b l2]; cbn; try done.
    rewrite (cmp_sym a b). destruct (cmp a b); cbn; done.
  - induction x as [|a l1 IH]; intros [|b l2] [|c l3]; cbn; try done.
    destruct (cmp a b) eqn:E1; [apply cmp_eq in E1 as ->; by destruct (cmp b c); eauto| |done].
    destruct (cmp b c) eqn:E2; [apply cmp_eq in E2 as ->; by rewrite E1| |done].
    by rewrite (cmp_trans (cmp:=cmp) a b c E1 E2).
Qed.

#[global] Instance Zcompare_lawful : LawfulCmp Z.compare.
Proof.
  split; [apply Z.compare_eq_iff|intros; apply Z.compare_antisym|].
  intros x y z. rewrite !Z.compare_lt_iff. lia.
Qed.

(** A comparison through an injective key is lawful. *)
Lemma key_lawful {A B} (key : A → B) (cmp : B → B → comparison) `{LawfulCmp B cmp} :
  (∀ x y, key x = key y → x = y) → LawfulCmp (λ x y, cmp (key x) (key y)).
Proof.
  intros Hinj. split; intros.
  - rewrite cmp_eq. split; [apply Hinj|by intros ->].
  - apply cmp_sym.
  - by eapply cmp_trans.
Qed.

(** ** A reference implementation *)
Module SemverRef.
(** A pre-release identifier: digits only, or alphanumeric. *)
Inductive ident := Num (n : Z) | Alnum (s : list Z).

Record version := mkVersion {
  major : Z; minor : Z; patch : Z; pre : list ident; build : list Z
}.

Definition ident_key (i : ident) : list Z :=
  match i with Num n => [0; n]%Z | Alnum s => 1%Z :: s end.

(** A version without pre-release ranks above its pre-releases. *)
Definition pre_key (p : list ident) : list (list Z) :=
  match p with [] => [[2%Z]] | _ => ident_key <$> p end.

(** Precedence first, then the build metadata. *)
Definition key (v : version) : list (list (list Z)) :=
  [[[v.(major)]; [v.(minor)]; [v.(patch)]]; pre_key v.(pre); [v.(build)]].

Definition cmp (a b : version) : comparison := lex (lex (lex Z.compare)) (key a) (key b).

Lemma ident_key_inj i j : ident_key i = ident_key j → i = j.
Proof. destruct i, j; cbn; intros; simplify_eq; done. Qed.

Lemma idents_inj (p q : list ident) : ident_key <$> p = ident_key <$> q → p = q.
Proof.
  revert q; induction p as [|i p IH]; intros [|j q]; cbn; try done.
  intros [= ?%ident_key_inj ?%IH]; congruence.
Qed.

Lemma pre_key_inj p q : pre_key p = pre_key q → p = q.
Proof.
  destruct p as [|i p], q as [|j q]; unfold pre_key; [done| | |apply idents_inj];
    [destruct j|destruct i]; done.
Qed.

#[global] Instance cmp_lawful : LawfulCmp cmp.
Proof.
  apply (key_lawful key (lex (lex (lex Z.compare)))).
  intros [] []; unfold key; cbn [major minor patch pre build].
  intros [= -> -> -> Hp%pre_key_inj ->]. by rewrite Hp.
Qed.

(** *** Parsing *)
Definition is_digit (a : ascii) : bool := let n := N_of_ascii a in (48 <=? n)%N && (n <=? 57)%N.
Definition is_ident_char (a : ascii) : bool :=
  let n := N_of_ascii a in
  is_digit a || ((65 <=? n)%N && (n <=? 90)%N) || ((97 <=? n)%N && (n <=? 122)%N) || (n =? 45)%N.

Definition digits (l : list ascii) : option Z :=
  match l with
  | [] => None
  | ["0"%char] => Some 0%Z
  | "0"%char :: _ => None
  | _ => if forallb is_digit l
         then Some (foldl (λ n a, n * 10 + (Z.of_N (N_of_ascii a) - 48))%Z 0%Z l) else None
  end.

(** Split at the first occurrence of a character. *)
Fixpoint cut (c : ascii) (l : list ascii) : list ascii * option (list ascii) :=
  match l with
  | [] => ([], None)
  | a :: l' => if decide (a = c) then ([], Some l') else let '(x, y) := cut c l' in (a :: x, y)
  end.

Fixpoint split (c : ascii) (l : list ascii) : list (list ascii) :=
  match l with
  | [] => [[]]
  | a :: l' =>
      if decide (a = c) then [] :: split c l'
      else match split c l' with [] => [[a]] | x :: xs => (a :: x) :: xs end
  end.

Definition codes (l : list ascii) : list Z := (λ a, Z.of_N (N_of_ascii a)) <$> l.

Definition parse_ident (l : list ascii) : option ident :=
  if forallb is_digit l then Num <$> digits l
  else if forallb is_ident_char l then Some (Alnum (codes l)) else None.

Definition parse_opt (s : string) : option version :=
  let '(main, bld) := cut "+"%char (String.list_ascii_of_string s) in
  let '(core, pr) := cut "-"%char main in
  match split "."%char core with
  | [a; b; c] =>
      x ← digits a; y ← digits b; z ← digits c;
      p ← match pr with None => Some [] | Some l => mapM parse_ident (split "."%char l) end;
      Some (mkVersion x y z p (default [] (codes <$> bld)))
  | _ => None
  end.

Definition parse (s : string) : string + version :=
  match parse_opt s with Some v => inr v | None => inl "unexpected character"%string end.

(** *** Printing *)
Definition print_z (n : Z) : string := pretty (Z.to_N n).
Definition uncodes (l : list Z) : string :=
  String.string_of_list_ascii ((λ n, ascii_of_N (Z.to_N n)) <$> l).
Definition print_ident (i : ident) : string :=
  match i with Num n => print_z n | Alnum s => uncodes s end.
Definition print (v : version) : string :=
  (print_z v.(major) +:+ "." +:+ print_z v.(minor) +:+ "." +:+ print_z v.(patch) +:+
   match v.(pre) with [] => "" | p => "-" +:+ String.concat "." (print_ident <$> p) end +:+
   match v.(build) with [] => "" | b => "+" +:+ uncodes b end)%string.

#[export] Instance semver_ref : Semver := {|
  Version := version;
  version_parse := parse;
  version_to_string := print;
  version_new a b c := mkVersion a b c [] [];
  pre_is_empty v := match v.(pre) with [] => true | _ => false end;
  version_cmp := cmp;
  version_cmp_lawful := cmp_lawful
|}.

Example parse_release : parse "2.5.0" = inr (mkVersion 2 5 0 [] []).
Proof. reflexivity. Qed.
Example parse_pre :
  parse "2.0.0-rc.1" = inr (mkVersion 2 0 0 [Alnum [114; 99]%Z; Num 1] []).
Proof. reflexivity. Qed.
Example print_pre : print (mkVersion 2 0 0 [Alnum [114; 99]%Z; Num 1] []) = "2.0.0-rc.1"%string.
Proof. vm_compute. reflexivity. Qed.
(** The order of the example of the specification: 1.0.0-alpha < 1.0.0-alpha.1 <
    1.0.0-beta.2 < 1.0.0-beta.11 < 1.0.0-rc.1 < 1.0.0. *)
Example precedence :
  (λ ab, match parse ab.1, parse ab.2 with inr a, inr b => cmp a b | _, _ => Eq end) <$>
    [("1.0.0-alpha", "1.0.0-alpha.1"); ("1.0.0-alpha.1", "1.0.0-beta.2");
     ("1.0.0-beta.2", "1.0.0-beta.11"); ("1.0.0-beta.11", "1.0.0-rc.1");
     ("1.0.0-rc.1", "1.0.0"); ("1.0.0", "1.0.1")]%string
  = [Lt; Lt; Lt; Lt; Lt; Lt].
Proof. vm_compute. reflexivity. Qed.
End SemverRef.
