(* ===== verification/Text.v ===== *)
(** * Text

    What the code uses of the Rust standard library and of the [regex] crate on
    strings: UTF-8 validation ([str::from_utf8]) and its errors, [Debug], [str::split_once],
    [str::parse::<i64>], [str::trim], [Path::join], and regular expressions.

    A Rust string is its UTF-8 bytes here.  The [regex] crate is a parameter
    ([RegexCrate]); [re] is a syntax of regular expressions with their language
    ([in_re]) and a decision procedure by derivatives ([matches]), against which
    the documented meaning of the patterns of the repository is stated. *)

From S2P Require Import Prelude.
From stdpp Require Import base list strings pretty.
From Stdlib Require Import ZArith Lia Ascii.
Open Scope string_scope.

Definition chars (s : string) : list ascii := String.list_ascii_of_string s.
Definition code (a : ascii) : N := N_of_ascii a.
Definition is_digit (a : ascii) : bool := (48 <=? code a)%N && (code a <=? 57)%N.
Definition is_alpha (a : ascii) : bool :=
  ((65 <=? code a)%N && (code a <=? 90)%N) || ((97 <=? code a)%N && (code a <=? 122)%N).

(** The text between ASCII control characters: a newline and a double quote. *)
Definition newline : ascii := "010"%char.
Definition dquote : ascii := "034"%char.

(** ** [str::from_utf8]

    The well-formed byte sequences of the Unicode standard (table 3-7). *)
Definition between (a : ascii) (lo hi : N) : bool := (lo <=? code a)%N && (code a <=? hi)%N.
Definition cont (a : ascii) : bool := between a 128 191.

Fixpoint utf8_valid (fuel : nat) (l : list ascii) : bool :=
  match fuel with
  | O => match l with [] => true | _ => false end
  | S n =>
      match l with
      | [] => true
      | a :: l1 =>
          if between a 0 127 then utf8_valid n l1
          else match l1 with
          | b :: l2 =>
              if between a 194 223 then cont b && utf8_valid n l2
              else match l2 with
              | c :: l3 =>
                  if between a 224 239 then
                    (if (code a =? 224)%N then between b 160 191
                     else if (code a =? 237)%N then between b 128 159 else cont b) &&
                    cont c && utf8_valid n l3
                  else match l3 with
                  | d :: l4 =>
                      between a 240 244 &&
                      (if (code a =? 240)%N then between b 144 191
                       else if (code a =? 244)%N then between b 128 143 else cont b) &&
                      cont c && cont d && utf8_valid n l4
                  | [] => false
                  end
              | [] => false
              end
          | [] => false
          end
      end
  end.

Definition from_utf8 (b : string) : option string :=
  let l := chars b in if utf8_valid (length l) l then Some b else None.

(** ASCII text is valid. *)
Lemma utf8_valid_ascii n l :
  (length l ≤ n)%nat → Forall (λ a, between a 0 127 = true) l → utf8_valid n l = true.
Proof.
  revert l; induction n as [|n IH]; intros [|a l] Hl Ha; cbn in *; try done; try lia.
  inversion Ha as [|?? H1 H2]; subst. rewrite H1. apply IH; [lia|done].
Qed.

(** [Utf8Error]: how many bytes are valid, and the length of the sequence which is
    not, [None] when the text ends within a character. *)
Fixpoint utf8_error_from (fuel : nat) (i : N) (l : list ascii) : option (N * option N) :=
  match fuel with
  | O => match l with [] => None | _ => Some (i, None) end
  | S n =>
      match l with
      | [] => None
      | a :: l1 =>
          if between a 0 127 then utf8_error_from n (i + 1) l1
          else if between a 194 223 then
            match l1 with
            | [] => Some (i, None)
            | b :: l2 => if cont b then utf8_error_from n (i + 2) l2 else Some (i, Some 1%N)
            end
          else if between a 224 239 then
            match l1 with
            | [] => Some (i, None)
            | b :: l2 =>
                if (if (code a =? 224)%N then between b 160 191
                    else if (code a =? 237)%N then between b 128 159 else cont b) then
                  match l2 with
                  | [] => Some (i, None)
                  | c :: l3 =>
                      if cont c then utf8_error_from n (i + 3) l3 else Some (i, Some 2%N)
                  end
                else Some (i, Some 1%N)
            end
          else if between a 240 244 then
            match l1 with
            | [] => Some (i, None)
            | b :: l2 =>
                if (if (code a =? 240)%N then between b 144 191
                    else if (code a =? 244)%N then between b 128 143 else cont b) then
                  match l2 with
                  | [] => Some (i, None)
                  | c :: l3 =>
                      if cont c then
                        match l3 with
                        | [] => Some (i, None)
                        | d :: l4 =>
                            if cont d then utf8_error_from n (i + 4) l4 else Some (i, Some 3%N)
                        end
                      else Some (i, Some 2%N)
                  end
                else Some (i, Some 1%N)
            end
          else Some (i, Some 1%N)
      end
  end.

(** Two readings of the same table: a text is valid if and only if it has no error. *)
Lemma utf8_error_valid n i l : utf8_error_from n i l = None ↔ utf8_valid n l = true.
Proof.
  revert i l; induction n as [|n IH]; intros i l; [by destruct l|].
  destruct l as [|a l1]; [done|]. cbn [utf8_error_from utf8_valid].
  destruct (between a 0 127); [apply IH|].
  destruct l1 as [|b l2]; [by repeat case_match|].
  destruct (between a 194 223); [destruct (cont b); [apply IH|done]|].
  destruct l2 as [|c l3]; [by repeat case_match|].
  destruct (between a 224 239).
  { destruct (if (code a =? 224)%N then _ else _); [|done].
    destruct (cont c); [apply IH|done]. }
  destruct l3 as [|d l4]; [by repeat case_match|].
  destruct (between a 240 244); [|done].
  destruct (if (code a =? 240)%N then _ else _); [|done].
  destruct (cont c); [|done]. destruct (cont d); [apply IH|done].
Qed.

(** [Display for Utf8Error]; of a valid text there is no error to show. *)
Definition utf8_error (b : string) : string :=
  let l := chars b in
  match utf8_error_from (length l) 0 l with
  | None => ""
  | Some (i, Some n) =>
      "invalid utf-8 sequence of " +:+ pretty n +:+ " bytes from index " +:+ pretty i
  | Some (i, None) => "incomplete utf-8 byte sequence from index " +:+ pretty i
  end.

(** ** [Debug] of strings and of vectors of strings

    The characters which are escaped are those of ASCII; characters beyond it are
    left alone, as Rust does with the printable ones. *)
Definition backslash : ascii := "092"%char.
Definition hex_digit (n : N) : ascii := ascii_of_N (if (n <? 10)%N then 48 + n else 87 + n).
Definition hex_code (n : N) : string :=
  if (n <? 16)%N then String (hex_digit n) ""
  else String (hex_digit (n / 16)) (String (hex_digit (n mod 16)) "").

Definition escape (a : ascii) : string :=
  if decide (a = dquote ∨ a = backslash) then String backslash (String a "")
  else match code a with
  | 0 => "\0" | 9 => "\t" | 10 => "\n" | 13 => "\r"
  | n => if (n <? 32) || (n =? 127) then "\u{" +:+ hex_code n +:+ "}" else String a ""
  end%N.

Fixpoint escape_all (s : string) : string :=
  match s with
  | "" => ""
  | String a s' => escape a +:+ escape_all s'
  end.

Definition debug_str (s : string) : string :=
  String dquote (escape_all s +:+ String dquote "").

(** The items separated by commas, as in [Vec]'s [Debug] *)
Fixpoint comma_separated (l : list string) : string :=
  match l with
  | [] => ""
  | [x] => x
  | x :: l' => x +:+ ", " +:+ comma_separated l'
  end.
Definition debug_list (l : list string) : string := "[" +:+ comma_separated l +:+ "]".
Definition debug_strs (l : list string) : string := debug_list (debug_str <$> l).

(** [String.append] computes. *)
Lemma str_nil y : "" +:+ y = y.
Proof. reflexivity. Qed.
Lemma str_cons a x y : String a x +:+ y = String a (x +:+ y).
Proof. reflexivity. Qed.
Lemma str_assoc x y z : (x +:+ y) +:+ z = x +:+ (y +:+ z).
Proof. induction x as [|a x IH]; [done|]. by rewrite !str_cons, IH. Qed.

(** ** One text inside another *)
Definition within (s t : string) : Prop := ∃ p q, t = p +:+ s +:+ q.

Lemma within_refl s : within s s.
Proof.
  exists "", "". rewrite str_nil. induction s as [|a s IH]; [done|]. by rewrite str_cons, <-IH.
Qed.
Lemma within_left s x y : within s x → within s (x +:+ y).
Proof. intros (p & q & ->). exists p, (q +:+ y). by rewrite !str_assoc. Qed.
Lemma within_right s x y : within s y → within s (x +:+ y).
Proof. intros (p & q & ->). exists (x +:+ p), q. by rewrite !str_assoc. Qed.
Lemma within_cons s a y : within s y → within s (String a y).
Proof. intros (p & q & ->). by exists (String a p), q. Qed.
Lemma within_trans s t u : within s t → within t u → within s u.
Proof.
  intros (p & q & ->) (p' & q' & ->). exists (p' +:+ p), (q +:+ q'). by rewrite !str_assoc.
Qed.

Lemma within_comma x l : x ∈ l → within x (comma_separated l).
Proof.
  induction 1 as [x [|y l]|x y l Hin IH]; cbn; [apply within_refl|apply within_left, within_refl|].
  destruct l as [|z l]; [by apply elem_of_nil in Hin|]. by apply within_right, within_right.
Qed.
Lemma within_list x l : x ∈ l → within x (debug_list l).
Proof. intros Hx. by apply within_right, within_left, within_comma. Qed.

Create HintDb text.
#[export] Hint Resolve within_refl within_left within_right within_cons within_list : text.

(** ** [str::split_once] *)
Fixpoint cut_at (c : ascii) (s : string) : option (string * string) :=
  match s with
  | "" => None
  | String a s' =>
      if decide (a = c) then Some ("", s')
      else match cut_at c s' with Some (x, y) => Some (String a x, y) | None => None end
  end.

(** The first part contains no separator, and the parts make up the string. *)
Lemma cut_at_some c s x y :
  cut_at c s = Some (x, y) ↔ s = x +:+ String c y ∧ c ∉ chars x.
Proof.
  revert x y; induction s as [|a s IH]; intros x y; cbn.
  - split; [done|]. intros [H _]. by destruct x.
  - case_decide as Ha.
    + subst a. split; [intros [= <- <-]; split; [done|apply not_elem_of_nil]|].
      intros [H Hx]. destruct x as [|b x]; rewrite ?str_nil, ?str_cons in H; [congruence|].
      injection H as <- _. exfalso. apply Hx. cbn. by left.
    + destruct (cut_at c s) as [[x' y']|] eqn:E.
      * split.
        -- intros [= <- <-]. destruct (proj1 (IH x' y') eq_refl) as [-> Hx].
           split; [done|]. cbn. by apply not_elem_of_cons.
        -- intros [H Hx]. destruct x as [|b x]; rewrite ?str_nil, ?str_cons in H; simplify_eq.
           cbn in Hx. apply not_elem_of_cons in Hx as [_ Hx].
           pose proof (proj2 (IH x y) (conj eq_refl Hx)). by simplify_eq.
      * split; [done|]. intros [H Hx]. destruct x as [|b x]; rewrite ?str_nil, ?str_cons in H; simplify_eq.
        cbn in Hx. apply not_elem_of_cons in Hx as [_ Hx].
        by pose proof (proj2 (IH x y) (conj eq_refl Hx)).
Qed.

Lemma elem_of_chars_app c x y : c ∈ chars (x +:+ String c y).
Proof. induction x as [|a x IH]; [by left|]. right. exact IH. Qed.

(** ** [str::parse::<i64>] *)
Definition digits_value (l : list ascii) : option Z :=
  match l with
  | [] => None
  | _ => if forallb is_digit l
         then Some (foldl (λ n a, n * 10 + (Z.of_N (code a) - 48))%Z 0%Z l) else None
  end.

Definition parse_i64 (s : string) : option Z :=
  let z := match chars s with
    | "-"%char :: l => Z.opp <$> digits_value l
    | "+"%char :: l => digits_value l
    | l => digits_value l
    end in
  match z with
  | Some n => if ((-2 ^ 63 <=? n) && (n <? 2 ^ 63))%Z then Some n else None
  | None => None
  end.

(** ** [str::trim]: the characters with the Unicode property White_Space *)
Definition bytes_of (l : list N) : list ascii := ascii_of_N <$> l.
Definition white_space : list (list ascii) :=
  bytes_of <$> ([[9]; [10]; [11]; [12]; [13]; [32]; [194; 133]; [194; 160]; [225; 154; 128];
    [226; 128; 128]; [226; 128; 129]; [226; 128; 130]; [226; 128; 131]; [226; 128; 132];
    [226; 128; 133]; [226; 128; 134]; [226; 128; 135]; [226; 128; 136]; [226; 128; 137];
    [226; 128; 138]; [226; 128; 168]; [226; 128; 169]; [226; 128; 175]; [226; 129; 159];
    [227; 128; 128]])%N.

Fixpoint strip_prefix (p l : list ascii) : option (list ascii) :=
  match p, l with
  | [], _ => Some l
  | a :: p', b :: l' => if decide (a = b) then strip_prefix p' l' else None
  | _ :: _, [] => None
  end.

(** [str::contains], on characters *)
Fixpoint contains (pat : list ascii) (l : list ascii) : bool :=
  match strip_prefix pat l with
  | Some _ => true
  | None => match l with [] => false | _ :: l' => contains pat l' end
  end.

Fixpoint strip_any (ps : list (list ascii)) (l : list ascii) : option (list ascii) :=
  match ps with
  | [] => None
  | p :: ps' => match strip_prefix p l with Some l' => Some l' | None => strip_any ps' l end
  end.

Fixpoint strip_all (fuel : nat) (ps : list (list ascii)) (l : list ascii) : list ascii :=
  match fuel with
  | O => l
  | S n => match strip_any ps l with Some l' => strip_all n ps l' | None => l end
  end.

Definition trim (s : string) : string :=
  let l := strip_all (String.length s) white_space (chars s) in
  let r := strip_all (length l) (reverse <$> white_space) (reverse l) in
  String.string_of_list_ascii (reverse r).

(** ** [Path::join] with a relative path *)
Fixpoint last_char (s : string) : option ascii :=
  match s with
  | "" => None
  | String a "" => Some a
  | String _ s' => last_char s'
  end.

Definition path_join (dir file : string) : string :=
  match last_char dir with
  | None => file
  | Some "/"%char => dir +:+ file
  | Some _ => dir +:+ "/" +:+ file
  end.

(** ** Regular expressions *)
Close Scope string_scope.

Inductive re :=
| Eps
| Void
| Chr (p : ascii → bool)
| Cat (r s : re)
| Alt (r s : re)
| Star (r : re).

Inductive in_re : re → list ascii → Prop :=
| in_eps : in_re Eps []
| in_chr p a : p a = true → in_re (Chr p) [a]
| in_cat r s l l' : in_re r l → in_re s l' → in_re (Cat r s) (l ++ l')
| in_alt_l r s l : in_re r l → in_re (Alt r s) l
| in_alt_r r s l : in_re s l → in_re (Alt r s) l
| in_star_nil r : in_re (Star r) []
| in_star_cons r a l l' : in_re r (a :: l) → in_re (Star r) l' → in_re (Star r) (a :: l ++ l').

Fixpoint nullable (r : re) : bool :=
  match r with
  | Eps | Star _ => true
  | Void | Chr _ => false
  | Cat r s => nullable r && nullable s
  | Alt r s => nullable r || nullable s
  end.

Fixpoint deriv (a : ascii) (r : re) : re :=
  match r with
  | Eps | Void => Void
  | Chr p => if p a then Eps else Void
  | Cat r s => if nullable r then Alt (Cat (deriv a r) s) (deriv a s) else Cat (deriv a r) s
  | Alt r s => Alt (deriv a r) (deriv a s)
  | Star r => Cat (deriv a r) (Star r)
  end.

Fixpoint matches_list (r : re) (l : list ascii) : bool :=
  match l with
  | [] => nullable r
  | a :: l' => matches_list (deriv a r) l'
  end.

(** [matches r s]: the whole of [s] is in the language of [r]. *)
Definition matches (r : re) (s : string) : bool := matches_list r (chars s).

Lemma nullable_spec r : nullable r = true ↔ in_re r [].
Proof.
  induction r as [| |p|r IHr s IHs|r IHr s IHs|r IHr]; cbn.
  - split; [constructor|done].
  - split; [done|inversion 1].
  - split; [done|inversion 1].
  - rewrite andb_true_iff, IHr, IHs. split.
    + intros [H1 H2]. apply (in_cat r s [] [] H1 H2).
    + inversion 1 as [| |? ? l l' H1 H2 Heq Hnil| | | |]; subst.
      apply app_nil in Hnil as [-> ->]. done.
  - rewrite orb_true_iff, IHr, IHs. split; [intros [?|?]; by constructor|inversion 1; auto].
  - split; [constructor|done].
Qed.

Lemma deriv_spec r a l : in_re (deriv a r) l ↔ in_re r (a :: l).
Proof.
  revert l; induction r as [| |p|r IHr s IHs|r IHr s IHs|r IHr]; intros l; cbn.
  - split; inversion 1.
  - split; inversion 1.
  - destruct (p a) eqn:E; split; inversion 1; subst; try congruence; by constructor.
  - assert (in_re (Cat (deriv a r) s) l ↔
            ∃ l1 l2, l = l1 ++ l2 ∧ in_re r (a :: l1) ∧ in_re s l2) as Hcat.
    { split.
      - inversion 1; subst. eexists _, _. split_and!; [done|by apply IHr|done].
      - intros (l1 & l2 & -> & H1%IHr & H2). by constructor. }
    assert (in_re (Cat r s) (a :: l) ↔
            (in_re r [] ∧ in_re s (a :: l)) ∨
            ∃ l1 l2, l = l1 ++ l2 ∧ in_re r (a :: l1) ∧ in_re s l2) as Hsplit.
    { split.
      - inversion 1 as [| |? ? l1 l2 H1 H2 Heq Happ| | | |]; subst.
        destruct l1 as [|b l1]; cbn in Happ; [left; by subst|right].
        injection Happ as -> <-. eauto 10.
      - intros [[H1 H2]|(l1 & l2 & -> & H1 & H2)];
          [apply (in_cat r s [] _ H1 H2)|apply (in_cat r s (a :: l1) _ H1 H2)]. }
    rewrite Hsplit, <-Hcat. destruct (nullable r) eqn:E.
    + rewrite <-nullable_spec, E. split.
      * inversion 1; subst; [by right|left; split; [done|by apply IHs]].
      * intros [[_ H]|H]; [apply in_alt_r; by apply IHs|by apply in_alt_l].
    + rewrite <-nullable_spec, E. naive_solver.
  - split; inversion 1; subst; constructor; by (apply IHr || apply IHs).
  - split.
    + inversion 1; subst. constructor; [by apply IHr|done].
    + inversion 1; subst. constructor; [by apply IHr|done].
Qed.

Lemma matches_list_spec r l : matches_list r l = true ↔ in_re r l.
Proof.
  revert r; induction l as [|a l IH]; intros r; cbn; [apply nullable_spec|].
  by rewrite IH, deriv_spec.
Qed.

Lemma matches_spec r s : matches r s = true ↔ in_re r (chars s).
Proof. apply matches_list_spec. Qed.

(** Building blocks of patterns: literals, repetitions, optional parts; [.] is any
    character but a newline. *)
Fixpoint Lit (l : list ascii) : re :=
  match l with [] => Eps | a :: l' => Cat (Chr (λ b, bool_decide (a = b))) (Lit l') end.
Definition Plus (r : re) : re := Cat r (Star r).
Definition Opt (r : re) : re := Alt r Eps.
Definition Dot : re := Chr (λ a, bool_decide (a ≠ newline)).
Definition Digits : re := Plus (Chr is_digit).
(** An unanchored end of a pattern: anything may follow. *)
Definition Anything : re := Star (Chr (λ _, true)).

Lemma in_lit l l' : in_re (Lit l) l' ↔ l' = l.
Proof.
  revert l'; induction l as [|a l IH]; intros l'; cbn.
  - split; [by inversion 1|intros ->; constructor].
  - split.
    + inversion 1 as [| |? ? l1 l2 H1 H2| | | |]; subst.
      inversion H1 as [|p b Hb| | | | |]; subst. apply bool_decide_eq_true in Hb as ->.
      apply IH in H2 as ->. done.
    + intros ->. apply (in_cat _ _ [a] l); [|by apply IH].
      constructor. by apply bool_decide_eq_true.
Qed.

Lemma in_cat_iff r s l : in_re (Cat r s) l ↔ ∃ l1 l2, l = l1 ++ l2 ∧ in_re r l1 ∧ in_re s l2.
Proof.
  split; [inversion 1; subst; eauto|intros (l1 & l2 & -> & H1 & H2); by constructor].
Qed.

Lemma in_alt_iff r s l : in_re (Alt r s) l ↔ in_re r l ∨ in_re s l.
Proof. split; [inversion 1; auto|intros [?|?]; by constructor]. Qed.

Lemma in_star_chr p l : in_re (Star (Chr p)) l ↔ Forall (λ a, p a = true) l.
Proof.
  split.
  - intros H. remember (Star (Chr p)) as r eqn:Hr.
    induction H as [| | | | |r0|r0 a l1 l2 H1 _ H2 IH]; simplify_eq; [constructor|].
    inversion H1; subst. constructor; [done|auto].
  - induction 1 as [|a l Ha Hl IH]; [constructor|].
    apply (in_star_cons (Chr p) a [] l); [by constructor|done].
Qed.

Lemma in_plus_chr p l : in_re (Plus (Chr p)) l ↔ l ≠ [] ∧ Forall (λ a, p a = true) l.
Proof.
  unfold Plus. rewrite in_cat_iff. split.
  - intros (l1 & l2 & -> & H1 & H2%in_star_chr). inversion H1; subst. split; [done|by constructor].
  - intros [Hne Hl]. destruct l as [|a l]; [done|]. inversion Hl; subst.
    exists [a], l. split_and!; [done|by constructor|by apply in_star_chr].
Qed.

(** ** The [regex] crate *)
Class RegexCrate := {
  regex : Type;
  regex_new : string → string + regex;
  regex_is_match : regex → string → bool
}.

(** Compile a pattern, then search the haystack for it. *)
Definition regex_search `{RegexCrate} (pattern haystack : string) : string + bool :=
  match regex_new pattern with inl e => inl e | inr r => inr (regex_is_match r haystack) end.
