(* ===== verification/JobApi.v ===== *)
(** * The upgrade job: errors, objects, services and the Kubernetes client

Models [k8s/upgrade/src/bin/upgrade-job/common]: the error type
([error.rs]), the constants ([constants.rs]), the REST client
([rest_client.rs]) and the Kubernetes client wrappers ([kube_client.rs]),
together with the parts of the Kubernetes and storage API objects which the
upgrade job reads.  Every request the job issues to a service is a
constructor of [job_call]. *)

From S2P Require Import Prelude.
From stdpp Require Import base gmap list strings sorting.
From Stdlib Require Import ZArith Lia.

(** The description of an error raised by a service or a library. *)
Abbreviation ext_error := string.
(** Byte buffers; a byte is an [ascii]. *)
Abbreviation bytes := string.

(** The note attached to an upgrade event. *)
Record EventNote := mkEventNote {
  from_version : string;
  to_version : string;
  message : string
}.

(** ** [common/error.rs] *)
Inductive Error : Type :=
| RestUrlParse (source : ext_error) (rest_endpoint : string)
| K8sClientGeneration (source : ext_error)
| GetNamespace (source : ext_error) (namespace : string)
| RestClientConfiguration (source : ext_error) (rest_endpoint : string)
| HelmCommand (source : ext_error) (command : string) (args : list string)
| RegexCompile (source : ext_error) (expression : string)
| HelmVersion (version : string)
| HelmRelease (name namespace : string)
| NoInputHelmChartDir (chart_name : string)
| JobPodOwnerNotFound (pod_name pod_namespace : string)
| JobPodHasTooManyOwners (pod_name pod_namespace : string)
| JobPodOwnerIsNotJob (pod_name pod_namespace : string)
| YamlParseFromSlice (source : ext_error) (input_yaml : string)
| YamlParseFromFile (source : ext_error) (filepath : string)
| YamlParseBufferForUnsupportedVersion (source : ext_error)
| DetermineChartVariant (release_name namespace chart_name : string)
| ValidateDirPath (source : ext_error) (path : string)
| ValidateFilePath (source : ext_error) (path : string)
| NotADirectory (path : string)
| NotAFile (path : string)
| ReadingFile (source : ext_error) (filepath : string)
| FindingHelmChart (path : string)
| GetPod (source : ext_error) (pod_name pod_namespace : string)
| ListPodsWithLabelAndField (source : ext_error) (label field namespace : string)
| ListCtrlRevsWithLabelAndField (source : ext_error) (label field namespace : string)
| ListNodesWithLabelAndField (source : ext_error) (label field : string)
| EmptyPodSpec (name namespace : string)
| EmptyPodNodeName (name namespace : string)
| EmptyPodUid (name namespace : string)
| StorageNodeUncordon (source : ext_error) (node_id : string)
| PodDelete (source : ext_error) (name node : string)
| ListStorageNodes (source : ext_error)
| GetStorageNode (source : ext_error) (node_id : string)
| EmptyStorageNodeSpec (node_id : string)
| ListStorageVolumes (source : ext_error)
| DrainStorageNode (source : ext_error) (node_id : string)
| CordonStorageNode (source : ext_error) (node_id : string)
| YamlStructure (yaml_path : string)
| U8VectorToString (source : ext_error)
| EventPublish (source : ext_error)
| HelmChartNameSplit (chart_name : string) (delimiter : Ascii.ascii)
| HelmListCommand (command : string) (args : list string) (std_err : string)
| HelmVersionCommand (command : string) (args : list string) (std_err : string)
| HelmUpgradeCommand (command : string) (args : list string) (std_err : string)
| HelmGetValuesCommand (command : string) (args : list string) (std_err : string)
| NotAKnownHelmChart (chart_name : string)
| EventRecorderOptionsAbsent
| PodUidIsNone
| HelmClientNs
| HelmUpgradeOptionReleaseNameAbsent
| HelmUpgradeOptionNamespaceAbsent
| SemverParse (source : ext_error) (version_string : string)
| InvalidUpgradePath
| SerializeEventNote (source : ext_error) (note : EventNote)
| SerializePromtailConfigClientToJson (source : ext_error) (url : string)
| SerializePromtailInitContainerToJson (source : ext_error) (object : string)
| DeserializePromtailExtraConfig (source : ext_error) (config : string)
| SerializePromtailExtraConfigToJson (source : ext_error) (config : string)
| SerializePromtailExtraClientConfigToJson (source : ext_error) (object : string)
| TooManyIoEnginePods (node_name : string)
| ThinProvisioningOptionsAbsent
| EventChannelSend
| UmbrellaChartNotUpgraded
| CoreChartUpgradeNoneChartDir
| InvalidHelmUpgrade
| RollbackForbidden (source_version target_version : string)
| YqCommandExec (source : ext_error) (command : string) (args : list string)
| YqVersionCommand (command arg std_err : string)
| YqMergeCommand (command : string) (args : list string) (std_err : string)
| NotYqV4
| TempFileCreation (source : ext_error)
| WriteToTempFile (source : ext_error) (filepath : string)
| NotAValidYamlKeyForStringValue (key : string)
| YqSetCommand (command : string) (args : list string) (std_err : string)
| YqDeleteObjectCommand (command : string) (args : list string) (std_err : string)
| YqAppendToArrayCommand (command : string) (args : list string) (std_err : string)
| YqAppendToObjectCommand (command : string) (args : list string) (std_err : string)
| ListCrds (source : ext_error)
| PartialRebuildNotAllowed (chart_name lower_extent upper_extent : string)
| ControllerRevisionListEmpty (namespace label_selector field_selector : string)
| ControllerRevisionDoesntHaveHashLabel (name namespace hash_label_key : string).

(** ** Kubernetes objects *)

Record PodCondition := mkPodCondition { type_ : string; status : string }.

(** [pod_name_any] is what [ResourceExt::name_any] returns for the object,
    [owner_references] the kind, name, api version and uid of its owners. *)
Record OwnerReference := mkOwnerReference {
  or_api_version : string; or_kind : string; or_name : string; or_uid : string
}.

Record PodSpec := mkPodSpec { node_name : option string }.

Record PodStatus := mkPodStatus { conditions : option (list PodCondition) }.

Record Pod := mkPod {
  pod_name_any : string;
  pod_owner_references : option (list OwnerReference);
  pod_spec : option PodSpec;
  pod_status : option PodStatus
}.

(** Only the metadata of Kubernetes nodes and CRDs is read: their names. *)
Record ObjMeta := mkObjMeta { meta_name : string }.

Record ControllerRevision := mkControllerRevision {
  cr_name : string;
  cr_labels : gmap string string;
  revision : Z
}.

(** One page of a Kubernetes list request. *)
Record ObjectList (T : Type) := mkObjectList { items : list T; continue_ : option string }.
Arguments mkObjectList {T}.
Arguments items {T}.
Arguments continue_ {T}.

Record ListParams := mkListParams {
  label_selector : option string;
  field_selector : option string;
  limit : option Z;
  continue_token : option string
}.

(** ** Storage API objects ([openapi::models]) *)

Inductive VolumeStatus := VsUnknown | VsOnline | VsDegraded | VsFaulted | VsShutdown.

Record Child := mkChild { child_uri : string; rebuild_progress : option Z }.

Record Nexus := mkNexus { nexus_node : string; children : list Child }.

Record ReplicaTopology := mkReplicaTopology { topology_node : option string }.

Record VolumeState := mkVolumeState {
  vs_status : VolumeStatus;
  vs_target : option Nexus;
  replica_topology : gmap string ReplicaTopology
}.

Record VolumeTarget := mkVolumeTarget {
  target_node : string;
  frontend_nodes : option (list string)
}.

(** [spec_rest] stands for the value of the members which the upgrade code never
    reads: [Volume] values are compared with the derived equality. *)
Record VolumeSpec := mkVolumeSpec {
  uuid : string;
  num_replicas : Z;
  spec_target : option VolumeTarget;
  spec_rest : string
}.

Record Volume := mkVolume { vol_spec : VolumeSpec; vol_state : VolumeState }.

(** One page of [GET /volumes]. *)
Record Volumes := mkVolumes { entries : list Volume; next_token : option Z }.

Inductive CordonDrainState :=
| cordonedstate (cordonlabels : list string)
| drainingstate (cordonlabels drainlabels : list string)
| drainedstate (cordonlabels drainlabels : list string).

Record NodeSpec := mkNodeSpec { cordondrainstate : option CordonDrainState }.

Record StorageNode := mkStorageNode { node_id : string; node_spec : option NodeSpec }.

#[global] Instance VolumeStatus_eq_dec : EqDecision VolumeStatus.
Proof. solve_decision. Defined.
#[global] Instance Child_eq_dec : EqDecision Child.
Proof. solve_decision. Defined.
#[global] Instance Nexus_eq_dec : EqDecision Nexus.
Proof. solve_decision. Defined.
#[global] Instance ReplicaTopology_eq_dec : EqDecision ReplicaTopology.
Proof. solve_decision. Defined.
#[global] Instance VolumeState_eq_dec : EqDecision VolumeState.
Proof. solve_decision. Defined.
#[global] Instance VolumeTarget_eq_dec : EqDecision VolumeTarget.
Proof. solve_decision. Defined.
#[global] Instance VolumeSpec_eq_dec : EqDecision VolumeSpec.
Proof. solve_decision. Defined.
#[global] Instance Volume_eq_dec : EqDecision Volume.
Proof. solve_decision. Defined.

(** ** The requests of the upgrade job *)

(** The output of a finished command. *)
Record Output := mkOutput { success : bool; stdout : bytes; stderr : bytes }.

Inductive FileKind := IsDir | IsFile | IsOther.

(** A Kubernetes event, as handed to the event recorder's channel. *)
Inductive EventType := Normal | Warning.
#[global] Instance EventType_eq_dec : EqDecision EventType.
Proof. solve_decision. Defined.
Record Event := mkEvent {
  ev_type : EventType; ev_reason : string; ev_note : option string; ev_action : string
}.

Inductive job_call : Type :=
(** [kube] *)
| ClientTryDefault
| PodsList (namespace : string) (lp : ListParams)
| NodesListMetadata (lp : ListParams)
| CtrlRevsList (namespace : string) (lp : ListParams)
| CrdsListMetadata (lp : ListParams)
| NamespaceGet (name : string)
| PodGet (namespace name : string)
| PodsDelete (namespace name : string)
(** the storage REST API *)
| UrlTryFrom (url : string)
| RestConfigBuild (url : string)
| GetNodes
| GetNode (id : string)
| PutNodeCordon (id label : string)
| DeleteNodeCordon (id label : string)
| PutNodeDrain (id label : string)
| GetVolumes (max_entries : Z) (starting_token : option Z)
(** processes, files, timers *)
| RunCommand (command : string) (args : list string) (env : list (string * string))
| FsRead (path : string)
| FsMetadata (path : string)
| TempFileNewIn (dir : option string)
| FileWrite (path : string) (buf : bytes)
| Sleep (secs : N)
(** the event channel; the answer tells whether the receiver still exists *)
| SendEvent (e : Event)
| ShutdownWorker.

Definition job_res (c : job_call) : Type :=
  match c with
  | ClientTryDefault => ext_error + unit
  | PodsList _ _ => ext_error + ObjectList Pod
  | NodesListMetadata _ | CrdsListMetadata _ => ext_error + ObjectList ObjMeta
  | CtrlRevsList _ _ => ext_error + ObjectList ControllerRevision
  | NamespaceGet _ => ext_error + unit
  | PodGet _ _ => ext_error + Pod
  | PodsDelete _ _ => ext_error + unit
  | UrlTryFrom _ | RestConfigBuild _ => ext_error + unit
  | GetNodes => ext_error + list StorageNode
  | GetNode _ => ext_error + StorageNode
  | PutNodeCordon _ _ | DeleteNodeCordon _ _ | PutNodeDrain _ _ => ext_error + unit
  | GetVolumes _ _ => ext_error + Volumes
  | RunCommand _ _ _ => ext_error + Output
  | FsRead _ => ext_error + bytes
  | FsMetadata _ => ext_error + FileKind
  | TempFileNewIn _ => ext_error + string
  | FileWrite _ _ => ext_error + N
  | Sleep _ => unit
  | SendEvent _ => bool
  | ShutdownWorker => unit
  end.

Definition JobSig : Sig := MkSig job_call job_res.
Abbreviation job := (prog JobSig Error).

(** A request with its typed answer. *)
Definition req (c : job_call) : job (job_res c) := call (S:=JobSig) c.

Lemma exec_req_inv c tr (r : job_res c) :
  exec (req c) tr (Done r) → tr = [Ev (S:=JobSig) c r].
Proof. apply (exec_call_inv (S:=JobSig) (E:=Error) c). Qed.

(** Invert a successful run of the job's requests. *)
Ltac job_inv :=
  repeat (progress done_inv ||
    match goal with
    | H : exec (req ?c) ?t (Done ?r) |- _ => apply (exec_req_inv c t r) in H
    end); subst; cbn [app] in *.

(** ** Constants of crates outside the repository

    The [utils] crate is a dependency which is not part of this repository; its
    constants are parameters. *)
Class Deps := {
  PRODUCT_NAME : string;
  PRODUCT_DOMAIN_NAME : string;
  to_train_case : string → string;
  API_REST_LABEL : string;
  ETCD_LABEL : string;
  csi_node_nvme_ana : string
}.

(** [constants/src/lib.rs] and [common/constants.rs] *)
Section Constants.
Context `{Deps}.
Definition product_train : string := to_train_case PRODUCT_NAME.
Definition upgrade_event_reason : string := product_train +:+ "Upgrade".
Definition UMBRELLA_CHART_NAME : string := "openebs".
Definition CORE_CHART_NAME : string := PRODUCT_NAME.
Definition TO_UMBRELLA_SEMVER : string := "4.0.1".
Definition UMBRELLA_CHART_UPGRADE_DOCS_URL : string :=
  "https://openebs.io/docs/user-guides/upgrade".
Definition IO_ENGINE_LABEL : string := "app=io-engine".
Definition AGENT_CORE_LABEL : string := "app=agent-core".
Definition drain_for_upgrade : string := CORE_CHART_NAME +:+ "-upgrade".
Definition cordon_ana_check : string := CORE_CHART_NAME +:+ "-upgrade-nvme-ana-check".
Definition KUBE_API_PAGE_SIZE : Z := 500.
Definition DS_CONTROLLER_REVISION_HASH_LABEL_KEY : string := "controller-revision-hash".
End Constants.

(** The two labels the job puts on storage nodes differ, whatever the product
    name is. *)
Lemma drain_label_ne_cordon_label `{Deps} : drain_for_upgrade ≠ cordon_ana_check.
Proof.
  unfold drain_for_upgrade, cordon_ana_check. intros Heq.
  by apply (inj (String.app CORE_CHART_NAME)) in Heq.
Qed.

(** ** [common/kube_client.rs] *)
Module KubeClient.
Definition client : job unit :=
  let! r := req ClientTryDefault in lift K8sClientGeneration r.

Definition pods_api (namespace : string) : job unit := client.
Definition nodes_api : job unit := client.
Definition namespaces_api : job unit := client.
Definition crds_api : job unit := client.
Definition controller_revisions_api (namespace : string) : job unit := client.

Definition default_params : ListParams := mkListParams None None (Some KUBE_API_PAGE_SIZE) None.
Definition labels (l : option string) (lp : ListParams) : ListParams :=
  match l with
  | Some l => mkListParams (Some l) lp.(field_selector) lp.(limit) lp.(continue_token)
  | None => lp
  end.
Definition fields (f : option string) (lp : ListParams) : ListParams :=
  match f with
  | Some f => mkListParams lp.(label_selector) (Some f) lp.(limit) lp.(continue_token)
  | None => lp
  end.
Definition set_continue_token (t : string) (lp : ListParams) : ListParams :=
  mkListParams lp.(label_selector) lp.(field_selector) lp.(limit) (Some t).

(** The pagination loop which the list functions of [kube_client.rs] share:
    request a page, append its items, follow the [continue] token. *)
Definition list_pages {T} (fuel : nat) (page : ListParams → job (ObjectList T))
    (lp : ListParams) : job (list T) :=
  loop fuel (λ '(acc, lp),
    let! l := page lp in
    match l.(continue_) with
    | Some token => Ret (inl (acc ++ l.(items), set_continue_token token lp))
    | None => Ret (inr (acc ++ l.(items)))
    end) ([], lp).

Definition list_pods (fuel : nat) (namespace : string)
    (label_selector field_selector : option string) : job (list Pod) :=
  list_pages fuel (λ lp,
    do! pods_api namespace in
    let! r := req (PodsList namespace lp) in
    lift (λ e, ListPodsWithLabelAndField e (default "" label_selector)
                 (default "" field_selector) namespace) r)
    (fields field_selector (labels label_selector default_params)).

Definition list_nodes_metadata (fuel : nat)
    (label_selector field_selector : option string) : job (list ObjMeta) :=
  list_pages fuel (λ lp,
    do! nodes_api in
    let! r := req (NodesListMetadata lp) in
    lift (λ e, ListNodesWithLabelAndField e (default "" label_selector)
                 (default "" field_selector)) r)
    (fields field_selector (labels label_selector default_params)).

Definition list_controller_revisions (fuel : nat) (namespace : string)
    (label_selector field_selector : option string) : job (list ControllerRevision) :=
  list_pages fuel (λ lp,
    do! controller_revisions_api namespace in
    let! r := req (CtrlRevsList namespace lp) in
    lift (λ e, ListCtrlRevsWithLabelAndField e (default "" label_selector)
                 (default "" field_selector) namespace) r)
    (fields field_selector (labels label_selector default_params)).

(** Fail on an empty list, else sort non-ascending by revision number and take
    the first; the sort is a permutation, so it is empty exactly when its
    argument is. *)
Definition latest_controller_revision_hash `{SortUnstable} (fuel : nat) (namespace : string)
    (label_selector field_selector : option string) (hash_label_key : string) : job string :=
  let! ctrl_revs := list_controller_revisions fuel namespace label_selector field_selector in
  match sort_unstable_by (λ a b, Z.compare b.(revision) a.(revision)) ctrl_revs with
  | [] => Throw (ControllerRevisionListEmpty namespace (default "" label_selector)
                   (default "" field_selector))
  | first :: _ =>
      ok_or (ControllerRevisionDoesntHaveHashLabel first.(cr_name) namespace hash_label_key)
        (first.(cr_labels) !! hash_label_key)
  end.
End KubeClient.

(** ** [common/rest_client.rs] *)
Module RestClientSet.
Definition new_with_url (rest_endpoint : string) : job unit :=
  let! r := req (UrlTryFrom rest_endpoint) in
  do! lift (λ e, RestUrlParse e rest_endpoint) r in
  let! r := req (RestConfigBuild rest_endpoint) in
  lift (λ e, RestClientConfiguration e rest_endpoint) r.
End RestClientSet.

(** ** Properties of the Kubernetes client *)
Module KubeClientFacts.
Import KubeClient.

Section Pages.
Context {W T : Type} (h : handler JobSig W) (page : ListParams → job (ObjectList T)).

(** The server answers the requests from [lp] on with these pages: each page
    but the last carries a token, and the request with that token is
    answered with the rest. *)
Inductive serves : ListParams → W → list (list T) → W → Prop :=
| serves_last lp w its w' tr :
    run h (page lp) w = (Done (mkObjectList its None), w', tr) →
    serves lp w [its] w'
| serves_next lp w its tok w' tr ps w'' :
    run h (page lp) w = (Done (mkObjectList its (Some tok)), w', tr) →
    serves (set_continue_token tok lp) w' ps w'' →
    serves lp w (its :: ps) w''.

Lemma list_pages_complete fuel lp w pages w' :
  serves lp w pages w' → length pages ≤ fuel →
  ∃ tr, run h (list_pages fuel page lp) w = (Done (concat pages), w', tr).
Proof.
  unfold list_pages. rewrite <-(app_nil_l (concat pages)). generalize (@nil T) as acc.
  intros acc Hs; revert acc fuel.
  induction Hs as [lp w its w' tr Hr|lp w its tok w' tr ps w'' Hr Hs IH];
    intros acc [|fuel] Hf; cbn in Hf; try lia;
    cbn; rewrite !run_bind, Hr; cbn.
  - rewrite (app_nil_r its). eauto.
  - destruct (IH (acc ++ its) fuel) as [tr' Hr']; [lia|].
    cbn in Hr'. rewrite Hr', <-app_assoc. eauto.
Qed.
End Pages.

(** A failing page request makes the whole listing fail with that error. *)
Lemma list_pages_error {W T} (h : handler JobSig W) (page : ListParams → job (ObjectList T))
    fuel lp w e w' tr :
  fuel ≠ 0 → run h (page lp) w = (Failed e, w', tr) →
  result_of (run h (list_pages fuel page lp) w) = Failed e.
Proof. destruct fuel; [done|]. intros _ Hr. cbn. by rewrite !run_bind, Hr. Qed.

Lemma latest_controller_revision_hash_inv `{SortUnstable} fuel ns l f key tr hash :
  exec (latest_controller_revision_hash fuel ns l f key) tr (Done hash) →
  ∃ revs cr tr1, exec (list_controller_revisions fuel ns l f) tr1 (Done revs) ∧
    cr ∈ revs ∧ (∀ cr', cr' ∈ revs → (cr'.(revision) ≤ cr.(revision))%Z) ∧
    cr.(cr_labels) !! key = Some hash.
Proof.
  intros [(revs&tr1&tr2&H1&H2&->)|[(?&?&?)|[[??]|[??]]]]%exec_bind_inv; try done.
  set (cmp := λ a b : ControllerRevision, Z.compare b.(revision) a.(revision)) in *.
  assert (HR : ∀ x y, cmp x y ≠ Gt ↔ (y.(revision) ≤ x.(revision))%Z) by done.
  pose proof (sort_unstable_perm cmp revs) as Hperm.
  assert (Hsort : StronglySorted (λ x y, cmp x y ≠ Gt) (sort_unstable_by cmp revs)).
  { apply sort_unstable_sorted.
    - intros x y. rewrite !HR. lia.
    - intros x y z. rewrite !HR. lia. }
  destruct (sort_unstable_by cmp revs) as [|cr rest] eqn:Es.
  { by destruct H2 as [[_ ?]|[_ ?]]. }
  exists revs, cr, tr1. split_and!; [done| |intros cr' Hcr'|].
  - rewrite <-Hperm. set_solver.
  - apply HR, (sorted_head_least (λ x y, cmp x y ≠ Gt) cr rest cr'); [|done|by rewrite Hperm].
    intros x. rewrite HR. lia.
  - destruct (cr_labels cr !! key); cbn in H2; by destruct H2 as [[_ ?]|[_ ?]]; simplify_eq.
Qed.
End KubeClientFacts.
