(* ===== verification/JobErrorText.v ===== *)
(** * The upgrade job: the texts of its errors

    The [display] attributes of [k8s/upgrade/src/bin/upgrade-job/common/error.rs],
    from which [snafu] derives the [Display] of the error type: the text which the job
    logs and publishes when it fails.  One definition per stretch of the
    enumeration; [display] is their union.  The texts of errors of other crates, and
    the [Debug] of a container and of a JSON value, are carried by the error. *)

From S2P Require Import Prelude Text JobApi.
From stdpp Require Import base list strings.
From Stdlib Require Import ZArith Lia Ascii.

Module JobErrorText.
Definition nl : string := String newline "".

(** The derived [Debug] of the two structures which errors carry *)
Definition debug_note (note : EventNote) : string :=
  "EventNote { from_version: " +:+ debug_str note.(from_version) +:+
  ", to_version: " +:+ debug_str note.(to_version) +:+
  ", message: " +:+ debug_str note.(message) +:+ " }".
Definition debug_client (url : string) : string :=
  "PromtailConfigClient { url: " +:+ debug_str url +:+ " }".

Section Text.
Context `{Deps}.

(** Errors of the clients, the helm release and the job's own pod *)
Definition text_of_startup (e : Error) : option string :=
  match e with
  | RestUrlParse source rest_endpoint =>
      Some ("Failed to parse " +:+ product_train +:+ " REST API URL " +:+ rest_endpoint +:+ ": " +:+
      source)
  | K8sClientGeneration source =>
      Some ("Failed to generate kubernetes client: " +:+ source)
  | GetNamespace source namespace =>
      Some ("Failed to GET Kubernetes namespace " +:+ namespace +:+ ": " +:+ source)
  | RestClientConfiguration source rest_endpoint =>
      Some ("Failed to configure " +:+ product_train +:+ " REST API client with endpoint " +:+
      rest_endpoint +:+ ": " +:+ source)
  | HelmCommand source command args =>
      Some ("Failed to run Helm command," +:+ nl +:+ "command: " +:+ command +:+ "," +:+ nl +:+
      "args: " +:+ debug_strs args +:+ "," +:+ nl +:+ "command_error: " +:+ source)
  | RegexCompile source expression =>
      Some ("Failed to compile regex " +:+ expression +:+ ": " +:+ source)
  | HelmVersion version =>
      Some ("Helm version " +:+ version +:+ " does not start with 'v3.x.y'")
  | HelmRelease name namespace =>
      Some ("'deployed' Helm release " +:+ name +:+ " not found in Namespace " +:+ namespace)
  | NoInputHelmChartDir chart_name =>
      Some ("No input for " +:+ chart_name +:+ " helm chart's directory path")
  | JobPodOwnerNotFound pod_name pod_namespace =>
      Some (".metadata.ownerReferences empty for Pod " +:+ pod_name +:+ " in " +:+ pod_namespace +:+
      " namespace, while trying to find Pod's Job owner")
  | JobPodHasTooManyOwners pod_name pod_namespace =>
      Some ("Pod " +:+ pod_name +:+ " in " +:+ pod_namespace +:+
      " namespace has too many owners, while trying to find Pod's Job owner")
  | JobPodOwnerIsNotJob pod_name pod_namespace =>
      Some ("Pod " +:+ pod_name +:+ " in " +:+ pod_namespace +:+
      " namespace has an owner which is not a Job, while trying to find Pod's Job owner")
  | YamlParseFromSlice source input_yaml =>
      Some ("Failed to parse YAML " +:+ input_yaml +:+ ": " +:+ source)
  | YamlParseFromFile source filepath =>
      Some ("Failed to parse YAML at " +:+ filepath +:+ ": " +:+ source)
  | YamlParseBufferForUnsupportedVersion source =>
      Some ("Failed to parse unsupported versions yaml: " +:+ source)
  | DetermineChartVariant release_name namespace chart_name =>
      Some ("Helm chart release " +:+ release_name +:+ " in Namespace " +:+ namespace +:+
      " has an unsupported chart variant: " +:+ chart_name)
  | _ => None
  end.

(** Errors of files, Kubernetes objects and storage nodes *)
Definition text_of_cluster (e : Error) : option string :=
  match e with
  | ValidateDirPath source path =>
      Some ("Failed to validate directory path " +:+ path +:+ ": " +:+ source)
  | ValidateFilePath source path =>
      Some ("Failed to validate filepath " +:+ path +:+ ": " +:+ source)
  | NotADirectory path =>
      Some (path +:+ " is not a directory")
  | NotAFile path =>
      Some (path +:+ " is not a file")
  | ReadingFile source filepath =>
      Some ("Failed to read from file " +:+ filepath +:+ ": " +:+ source)
  | FindingHelmChart path =>
      Some ("Failed to find valid Helm chart in path " +:+ path)
  | GetPod source pod_name pod_namespace =>
      Some ("Failed to GET Kubernetes Pod " +:+ pod_name +:+ " in namespace " +:+ pod_namespace +:+
      ": " +:+ source)
  | ListPodsWithLabelAndField source label field namespace =>
      Some ("Failed to list Pods with label '" +:+ label +:+ "', and field '" +:+ field +:+
      "' in namespace " +:+ namespace +:+ ": " +:+ source)
  | ListCtrlRevsWithLabelAndField source label field namespace =>
      Some ("Failed to list ControllerRevisions with label '" +:+ label +:+ "', and field '" +:+
      field +:+ "' in namespace " +:+ namespace +:+ ": " +:+ source)
  | ListNodesWithLabelAndField source label field =>
      Some ("Failed to list Kubernetes Nodes with label '" +:+ label +:+ "', and field '" +:+
      field +:+ "': " +:+ source)
  | EmptyPodSpec name namespace =>
      Some ("Failed get .spec from Pod " +:+ name +:+ " in Namespace " +:+ namespace)
  | EmptyPodNodeName name namespace =>
      Some ("Failed get .spec.nodeName from Pod " +:+ name +:+ " in Namespace " +:+ namespace)
  | EmptyPodUid name namespace =>
      Some ("Failed to get .metadata.uid from Pod " +:+ name +:+ " in Namespace " +:+ namespace)
  | StorageNodeUncordon source node_id =>
      Some ("Failed to uncordon " +:+ product_train +:+ " Node " +:+ node_id +:+ ": " +:+ source)
  | PodDelete source name node =>
      Some ("Failed get delete Pod " +:+ name +:+ " from Node " +:+ node +:+ ": " +:+ source)
  | ListStorageNodes source =>
      Some ("Failed to list " +:+ product_train +:+ " Nodes: " +:+ source)
  | GetStorageNode source node_id =>
      Some ("Failed to list " +:+ product_train +:+ " Node " +:+ node_id +:+ ": " +:+ source)
  | EmptyStorageNodeSpec node_id =>
      Some ("Failed to get " +:+ product_train +:+ " Node " +:+ node_id)
  | ListStorageVolumes source =>
      Some ("Failed to list " +:+ product_train +:+ " Volumes: " +:+ source)
  | DrainStorageNode source node_id =>
      Some ("Failed to drain " +:+ product_train +:+ " Node " +:+ node_id +:+ ": " +:+ source)
  | CordonStorageNode source node_id =>
      Some ("Failed to cordon " +:+ product_train +:+ " Node " +:+ node_id +:+ ": " +:+ source)
  | _ => None
  end.

(** Errors of helm commands, chart names and versions *)
Definition text_of_helm (e : Error) : option string :=
  match e with
  | YamlStructure yaml_path =>
      Some ("Failed to parse YAML path " +:+ yaml_path)
  | U8VectorToString source =>
      Some ("Failed to convert Vec<u8> to UTF-8 formatted String: " +:+ source)
  | EventPublish source =>
      Some ("Failed to publish Event: " +:+ source)
  | HelmChartNameSplit chart_name delimiter =>
      Some ("Failed to split helm chart name '" +:+ chart_name +:+
      "', at the first occurrence of '" +:+ String delimiter "" +:+ "'")
  | HelmListCommand command args std_err =>
      Some ("`helm list` command return an error," +:+ nl +:+ "command: " +:+ command +:+ "," +:+
      nl +:+ "args: " +:+ debug_strs args +:+ "," +:+ nl +:+ "std_err: " +:+ std_err)
  | HelmVersionCommand command args std_err =>
      Some ("`helm version` command return an error," +:+ nl +:+ "command: " +:+ command +:+ "," +:+
      nl +:+ "args: " +:+ debug_strs args +:+ "," +:+ nl +:+ "std_err: " +:+ std_err)
  | HelmUpgradeCommand command args std_err =>
      Some ("`helm upgrade` command return an error," +:+ nl +:+ "command: " +:+ command +:+ "," +:+
      nl +:+ "args: " +:+ debug_strs args +:+ "," +:+ nl +:+ "std_err: " +:+ std_err)
  | HelmGetValuesCommand command args std_err =>
      Some ("`helm get values` command return an error," +:+ nl +:+ "command: " +:+ command +:+
      "," +:+ nl +:+ "args: " +:+ debug_strs args +:+ "," +:+ nl +:+ "std_err: " +:+ std_err)
  | NotAKnownHelmChart chart_name =>
      Some ("'" +:+ chart_name +:+ "' is not a known " +:+ product_train +:+
      " helm chart, only helm charts '" +:+ CORE_CHART_NAME +:+ "-<version-tag>' and '" +:+
      UMBRELLA_CHART_NAME +:+ "-<version-tag>' are supported")
  | EventRecorderOptionsAbsent =>
      Some ("Mandatory options for EventRecorder were not given")
  | PodUidIsNone =>
      Some ("Pod Uid is None")
  | HelmClientNs =>
      Some ("Setting namespace is mandatory for HelmClient")
  | HelmUpgradeOptionReleaseNameAbsent =>
      Some ("A mandatory options for helm upgrade was not given: no release name")
  | HelmUpgradeOptionNamespaceAbsent =>
      Some ("A mandatory options for helm upgrade was not given: no helm release namespace")
  | SemverParse source version_string =>
      Some ("Failed to parse " +:+ version_string +:+ " as a valid semver: " +:+ source)
  | InvalidUpgradePath =>
      Some ("The upgrade path is invalid")
  | _ => None
  end.

(** Errors of the values of the new chart and the upgrade path *)
Definition text_of_values (e : Error) : option string :=
  match e with
  | SerializeEventNote source note =>
      Some ("Failed to serialize event note " +:+ debug_note note +:+ ": " +:+ source)
  | SerializePromtailConfigClientToJson source url =>
      Some ("Failed to serialize .loki-stack.promtail.config.client " +:+ debug_client url +:+
      ": " +:+ source)
  | SerializePromtailInitContainerToJson source object =>
      Some ("Failed to serialize .loki-stack.promtail.initContainer " +:+ object +:+ ": " +:+ source)
  | DeserializePromtailExtraConfig source config =>
      Some ("Failed to deserialize .loki-stack.promtail.config.snippets.extraClientConfig to a serde_json::Value " +:+
      config +:+ ": " +:+ source)
  | SerializePromtailExtraConfigToJson source config =>
      Some ("Failed to serialize to JSON " +:+ config +:+ ": " +:+ source)
  | SerializePromtailExtraClientConfigToJson source object =>
      Some ("Failed to serialize object to a serde_json::Value " +:+ object +:+ ": " +:+ source)
  | TooManyIoEnginePods node_name =>
      Some ("Too many io-engine Pods in Node '" +:+ node_name +:+ "'")
  | ThinProvisioningOptionsAbsent =>
      Some ("The agents.core.capacity yaml object is absent amongst the helm values")
  | EventChannelSend =>
      Some ("Failed to send Event over the channel")
  | UmbrellaChartNotUpgraded =>
      Some ("The " +:+ UMBRELLA_CHART_NAME +:+ " helm chart is not upgraded to version " +:+
      TO_UMBRELLA_SEMVER +:+ ": Upgrade for helm chart " +:+ UMBRELLA_CHART_NAME +:+
      " is not supported, refer to the instructions at " +:+
      UMBRELLA_CHART_UPGRADE_DOCS_URL +:+ " to upgrade your release of the " +:+
      UMBRELLA_CHART_NAME +:+ " helm chart to version " +:+ TO_UMBRELLA_SEMVER)
  | CoreChartUpgradeNoneChartDir =>
      Some ("The " +:+ CORE_CHART_NAME +:+
      " helm chart could not be upgraded as input chart directory is absent")
  | InvalidHelmUpgrade =>
      Some ("Invalid helm upgrade request")
  | RollbackForbidden source_version target_version =>
      Some ("Failed to upgrade from " +:+ source_version +:+ " to " +:+ target_version +:+
      ": upgrade to an earlier-released version is forbidden")
  | _ => None
  end.

(** Errors of [yq] commands, CRDs and controller revisions *)
Definition text_of_yq (e : Error) : option string :=
  match e with
  | YqCommandExec source command args =>
      Some ("Failed to run yq command," +:+ nl +:+ "command: " +:+ command +:+ "," +:+ nl +:+
      "args: " +:+ debug_strs args +:+ "," +:+ nl +:+ "command_error: " +:+ source)
  | YqVersionCommand command arg std_err =>
      Some ("`yq -V` command return an error," +:+ nl +:+ "command: " +:+ command +:+ "," +:+ nl +:+
      "arg: " +:+ arg +:+ "," +:+ nl +:+ "std_err: " +:+ std_err)
  | YqMergeCommand command args std_err =>
      Some ("`yq ea` command return an error," +:+ nl +:+ "command: " +:+ command +:+ "," +:+ nl +:+
      "args: " +:+ debug_strs args +:+ "," +:+ nl +:+ "std_err: " +:+ std_err)
  | NotYqV4 =>
      Some ("yq version is not v4")
  | TempFileCreation source =>
      Some ("Failed to create temporary file: " +:+ source)
  | WriteToTempFile source filepath =>
      Some ("Failed to write to temporary file " +:+ filepath +:+ ": " +:+ source)
  | NotAValidYamlKeyForStringValue key =>
      Some (key +:+ " is not a valid yaml key for a string value")
  | YqSetCommand command args std_err =>
      Some ("`yq` set-value-command returned an error," +:+ nl +:+ "command: " +:+ command +:+
      "," +:+ nl +:+ "args: " +:+ debug_strs args +:+ "," +:+ nl +:+ "std_err: " +:+ std_err)
  | YqDeleteObjectCommand command args std_err =>
      Some ("`yq` delete-object-command returned an error," +:+ nl +:+ "command: " +:+ command +:+
      "," +:+ nl +:+ "args: " +:+ debug_strs args +:+ "," +:+ nl +:+ "std_err: " +:+ std_err)
  | YqAppendToArrayCommand command args std_err =>
      Some ("`yq` append-to-array-command returned an error," +:+ nl +:+ "command: " +:+ command +:+
      "," +:+ nl +:+ "args: " +:+ debug_strs args +:+ "," +:+ nl +:+ "std_err: " +:+ std_err)
  | YqAppendToObjectCommand command args std_err =>
      Some ("`yq` append-to-object-command returned an error," +:+ nl +:+ "command: " +:+
      command +:+ "," +:+ nl +:+ "args: " +:+ debug_strs args +:+ "," +:+ nl +:+
      "std_err: " +:+ std_err)
  | ListCrds source =>
      Some ("failed to list CustomResourceDefinitions: " +:+ source)
  | PartialRebuildNotAllowed chart_name lower_extent upper_extent =>
      Some ("Partial rebuild must be disabled for upgrades from " +:+ chart_name +:+
      " chart versions >= " +:+ lower_extent +:+ ", <= " +:+ upper_extent)
  | ControllerRevisionListEmpty namespace label_selector field_selector =>
      Some ("No ControllerRevisions found in namespace '" +:+ namespace +:+
      "' with label selector '" +:+ label_selector +:+ "' and field selector '" +:+
      field_selector +:+ "'")
  | ControllerRevisionDoesntHaveHashLabel name namespace hash_label_key =>
      Some ("ControllerRevisions '" +:+ name +:+ "' in namespace '" +:+ namespace +:+
      "' doesn't have label key '" +:+ hash_label_key +:+ "'")
  | _ => None
  end.

(** [Display for Error] *)
Definition display (e : Error) : string :=
  default "" (text_of_startup e ∪ text_of_cluster e ∪ text_of_helm e ∪ text_of_values e ∪
              text_of_yq e).

(** What the error keeps of the call which failed: its [source] (of which [snafu] makes
    [Error::source]), or what the command wrote on its error output.  [EventChannelSend]
    keeps nothing: the recorder drops the error of the channel ([map_err(|_| ..)]). *)
Definition reason_given (e : Error) : option string :=
  match e with
  | RestUrlParse s _ | K8sClientGeneration s | GetNamespace s _ | RestClientConfiguration s _
  | HelmCommand s _ _ | RegexCompile s _ | YamlParseFromSlice s _ | YamlParseFromFile s _
  | YamlParseBufferForUnsupportedVersion s | ValidateDirPath s _ | ValidateFilePath s _
  | ReadingFile s _ | GetPod s _ _ | ListPodsWithLabelAndField s _ _ _
  | ListCtrlRevsWithLabelAndField s _ _ _ | ListNodesWithLabelAndField s _ _
  | StorageNodeUncordon s _ | PodDelete s _ _ | ListStorageNodes s | GetStorageNode s _
  | ListStorageVolumes s | DrainStorageNode s _ | CordonStorageNode s _ | U8VectorToString s
  | EventPublish s | HelmListCommand _ _ s | HelmVersionCommand _ _ s | HelmUpgradeCommand _ _ s
  | HelmGetValuesCommand _ _ s | SemverParse s _ | SerializeEventNote s _
  | SerializePromtailConfigClientToJson s _ | SerializePromtailInitContainerToJson s _
  | DeserializePromtailExtraConfig s _ | SerializePromtailExtraConfigToJson s _
  | SerializePromtailExtraClientConfigToJson s _ | YqCommandExec s _ _ | YqVersionCommand _ _ s
  | YqMergeCommand _ _ s | TempFileCreation s | WriteToTempFile s _ | YqSetCommand _ _ s
  | YqDeleteObjectCommand _ _ s | YqAppendToArrayCommand _ _ s | YqAppendToObjectCommand _ _ s
  | ListCrds s => Some s
  | _ => None
  end.

(** Every error has a text: the five definitions leave none out. *)
Lemma display_total e :
  is_Some (text_of_startup e ∪ text_of_cluster e ∪ text_of_helm e ∪ text_of_values e ∪ text_of_yq e).
Proof. destruct e; cbn; eauto. Qed.

(** The text of an error contains, unchanged, the text of the source which the error keeps,
    or the error output of the command. *)
Theorem display_names_cause e s : reason_given e = Some s → within s (display e).
Proof. destruct e; intros [= <-]; cbn; auto 20 with text. Qed.
End Text.
End JobErrorText.
