(* ===== verification/JobEvents.v ===== *)
(** * The upgrade job: the event recorder

    Models [k8s/upgrade/src/bin/upgrade-job/events/event_recorder.rs]: the builder,
    the publishing methods, and the worker task which takes events from a channel
    and publishes them.  The worker and the job run concurrently; [Worker.step] is
    their interleaving, in which each publication succeeds or fails. *)

From S2P Require Import Prelude JobApi JobErrorText.
From stdpp Require Import base list relations strings.
From Stdlib Require Import ZArith Lia.

(** What the recorder takes from elsewhere: the JSON serializer of the note
    ([serde_json]). *)
Class EventDeps := {
  note_to_json : EventNote → ext_error + string
}.

Inductive EventAction :=
| ActFailed | ValidationFailed | UpgradingCP | UpgradedCP | UpgradingDP | UpgradedDP | Successful.

#[global] Instance EventAction_eq_dec : EqDecision EventAction.
Proof. solve_decision. Defined.

(** [impl ToString for EventAction] *)
Definition action_to_string (a : EventAction) : string :=
  match a with
  | ActFailed => "Failed"
  | ValidationFailed => "Validation Failed"
  | UpgradingCP => "Upgrading control-plane"
  | UpgradedCP => "Upgraded control-plane"
  | UpgradingDP => "Upgrading data-plane"
  | UpgradedDP => "Upgraded data-plane"
  | Successful => "Successful"
  end.

Lemma action_to_string_inj a b : action_to_string a = action_to_string b → a = b.
Proof. by destruct a, b. Qed.

Module Recorder.
Import JobErrorText.
Section Recorder.
Context `{Deps} `{EventDeps}.

(** [event_sender] is [Some] until [shutdown_worker]. *)
Record EventRecorder := mkEventRecorder {
  event_sender : bool;
  source_version : string;
  target_version : string
}.

Record EventRecorderBuilder := mkEventRecorderBuilder {
  b_pod_name : option string;
  b_namespace : option string;
  b_source_version : option string;
  b_target_version : option string
}.

Definition builder : EventRecorderBuilder := mkEventRecorderBuilder None None None None.
Definition with_namespace (ns : string) (b : EventRecorderBuilder) : EventRecorderBuilder :=
  mkEventRecorderBuilder b.(b_pod_name) (Some ns) b.(b_source_version) b.(b_target_version).
Definition with_pod_name (n : string) (b : EventRecorderBuilder) : EventRecorderBuilder :=
  mkEventRecorderBuilder (Some n) b.(b_namespace) b.(b_source_version) b.(b_target_version).

(** The owner of the job's pod: exactly one, and a [Job]. *)
Definition pod_owner (pod_name namespace : string) (refs : option (list OwnerReference))
  : Error + OwnerReference :=
  match refs with
  | Some [r] =>
      if decide (r.(or_kind) = "Job") then inr r else inl (JobPodOwnerIsNotJob pod_name namespace)
  | Some [] => inl (JobPodOwnerNotFound pod_name namespace)
  | Some _ => inl (JobPodHasTooManyOwners pod_name namespace)
  | None => inl (JobPodOwnerNotFound pod_name namespace)
  end.

Definition build (b : EventRecorderBuilder) : job EventRecorder :=
  match b.(b_pod_name), b.(b_namespace) with
  | Some pod_name, Some namespace =>
      let vers_placeholder := "--" in
      let source_version := default vers_placeholder b.(b_source_version) in
      let target_version := default vers_placeholder b.(b_target_version) in
      do! KubeClient.pods_api namespace in
      let! r := req (PodGet namespace pod_name) in
      let! pod := lift (λ e, GetPod e pod_name namespace) r in
      let! _ := lift id (pod_owner pod_name namespace pod.(pod_owner_references)) in
      do! KubeClient.client in
      Ret (mkEventRecorder true source_version target_version)
  | _, _ => Throw EventRecorderOptionsAbsent
  end.

Definition publish (er : EventRecorder) (e : Event) : job unit :=
  if er.(event_sender) then
    let! sent := req (SendEvent e) in
    if (sent : bool) then Ret tt else Throw EventChannelSend
  else Ret tt.

(** [EventNote::from(self).with_message(note)] *)
Definition note_of (er : EventRecorder) (msg : string) : EventNote :=
  mkEventNote er.(source_version) er.(target_version) msg.

Definition publish_typed (t : EventType) (er : EventRecorder) (msg : string) (action : EventAction)
  : job unit :=
  let note := note_of er msg in
  let! note_s := lift (λ e, SerializeEventNote e note) (note_to_json note) in
  publish er (mkEvent t upgrade_event_reason (Some note_s) (action_to_string action)).

Definition publish_normal (er : EventRecorder) (msg : string) (action : EventAction) : job unit :=
  publish_typed Normal er msg action.

Definition publish_warning (er : EventRecorder) (msg : string) (action : EventAction) : job unit :=
  publish_typed Warning er msg action.

(** Errors of the publication itself are only logged. *)
Definition publish_unrecoverable (er : EventRecorder) (err : Error) (validation_error : bool)
  : job unit :=
  let action := if validation_error then ValidationFailed else ActFailed in
  do! attempt (E':=Error) (publish_warning er ("Failed to upgrade: " +:+ display err) action) in
  Ret tt.

Definition shutdown_worker (er : EventRecorder) : job unit := req ShutdownWorker.

Definition set_source_version (v : string) (er : EventRecorder) : EventRecorder :=
  mkEventRecorder er.(event_sender) v er.(target_version).
Definition set_target_version (v : string) (er : EventRecorder) : EventRecorder :=
  mkEventRecorder er.(event_sender) er.(source_version) v.
End Recorder.
End Recorder.

(** ** The worker

    The task spawned by [build]: it publishes the event it holds, then waits for
    the next event or for the timer, which makes it publish the same event again.
    [Receiving] is the first [recv], [Publishing e] the call of the Kubernetes
    recorder, which can fail: the error is logged and the event is held all the same.
    [Polling e] is the first poll of the [select!], when the timer of twenty minutes has
    just been started and only a message or the end of the channel can be ready;
    [Waiting e] is the [select!] once neither was. *)
Module Worker.
Inductive phase := Receiving | Publishing (e : Event) | Polling (e : Event) | Waiting (e : Event) | Exited.

(** Each attempt to publish is kept with whether it succeeded. *)
Record state := mkState {
  queue : list Event;
  sender_alive : bool;
  worker : phase;
  sent : list Event;
  attempts : list (Event * bool)
}.

Definition init : state := mkState [] true Receiving [] [].

(** The events which are in the cluster *)
Definition successes (a : list (Event * bool)) : list Event := (base.filter (λ x, x.2 = true) a).*1.
Definition published (st : state) : list Event := successes st.(attempts).

Inductive step : state → state → Prop :=
| step_send e q w s a :
    step (mkState q true w s a) (mkState (q ++ [e]) true w (s ++ [e]) a)
| step_drop q w s a :
    step (mkState q true w s a) (mkState q false w s a)
| step_recv e q b s a :
    step (mkState (e :: q) b Receiving s a) (mkState q b (Publishing e) s a)
| step_recv_none s a :
    step (mkState [] false Receiving s a) (mkState [] false Exited s a)
| step_publish e ok q b s a :
    step (mkState q b (Publishing e) s a) (mkState q b (Polling e) s (a ++ [(e, ok)]))
| step_next e e' q b s a :
    step (mkState (e' :: q) b (Polling e) s a) (mkState q b (Publishing e') s a)
| step_next_none e s a :
    step (mkState [] false (Polling e) s a) (mkState [] false Exited s a)
| step_wait e s a :
    step (mkState [] true (Polling e) s a) (mkState [] true (Waiting e) s a)
| step_timer e q b s a :
    step (mkState q b (Waiting e) s a) (mkState q b (Publishing e) s a)
| step_wake e e' q b s a :
    step (mkState (e' :: q) b (Waiting e) s a) (mkState q b (Publishing e') s a)
| step_wake_none e s a :
    step (mkState [] false (Waiting e) s a) (mkState [] false Exited s a).

(** [tried l a]: the attempts [a] are made of one or more attempts for each event of [l],
    in the order of [l]. *)
Inductive tried : list Event → list (Event * bool) → Prop :=
| tried_nil : tried [] []
| tried_new e ok l a : tried l a → tried (l ++ [e]) (a ++ [(e, ok)])
| tried_again e ok l a : tried (l ++ [e]) a → tried (l ++ [e]) (a ++ [(e, ok)]).

(** The same with the answers: a list of them for each event *)
Definition attempts_of (l : list Event) (answers : list (list bool)) : list (Event * bool) :=
  concat (zip_with (λ e bs, pair e <$> bs) l answers).
Definition count (bs : list bool) : nat := length (base.filter (λ b, b = true) bs).

Lemma tried_answers l a :
  tried l a → ∃ answers, length answers = length l ∧ ([] ∉ answers) ∧ a = attempts_of l answers.
Proof.
  unfold attempts_of. induction 1 as [|e ok l a _ (bss & Hl & Hn & ->)|e ok l a _ (bss & Hl & Hn & ->)].
  - exists []. split_and!; [done|by intros ?%elem_of_nil|done].
  - exists (bss ++ [[ok]]). split_and!; [rewrite !length_app; cbn; lia|set_solver|].
    by rewrite zip_with_app, concat_app.
  - destruct bss as [|bs bss _] using rev_ind; [by rewrite length_app, Nat.add_comm in Hl|].
    rewrite !length_app, !Nat.add_1_r in Hl. injection Hl as Hl.
    exists (bss ++ [bs ++ [ok]]). split_and!; [rewrite !length_app; cbn; lia| |].
    + rewrite elem_of_app, list_elem_of_singleton. intros [?|?]; [set_solver|by destruct bs].
    + by rewrite !zip_with_app, !concat_app, <-app_assoc by done; cbn; rewrite !app_nil_r, fmap_app.
Qed.

Lemma successes_app a a' : successes (a ++ a') = successes a ++ successes a'.
Proof. unfold successes. by rewrite filter_app, fmap_app. Qed.
Lemma successes_of l answers :
  successes (attempts_of l answers) = concat (zip_with (λ e bs, replicate (count bs) e) l answers).
Proof.
  unfold attempts_of. revert answers. induction l as [|e l IH]; intros [|bs answers]; [done..|].
  cbn [zip_with concat]. rewrite successes_app, IH. f_equal. unfold successes, count.
  induction bs as [|b bs IHb]; [done|]. rewrite fmap_cons, !filter_cons. destruct b.
  - rewrite !decide_True by done. cbn. f_equal. exact IHb.
  - rewrite !decide_False by done. exact IHb.
Qed.

Lemma tried_elem l a e : tried l a → e ∈ a.*1 → e ∈ l.
Proof.
  induction 1 as [|x ok l a _ IH|x ok l a _ IH]; [done|..];
    (rewrite fmap_app; intros [He|He]%elem_of_app; set_solver).
Qed.

(** What has been handled so far: the sent events are those which have been tried, then
    the one about to be tried for the first time, then the queue. *)
Definition invariant (st : state) : Prop :=
  match st.(worker) with
  | Receiving => st.(attempts) = [] ∧ st.(sent) = st.(queue)
  | Publishing e =>
      ∃ done, (tried done st.(attempts) ∨ tried (done ++ [e]) st.(attempts)) ∧
              st.(sent) = done ++ [e] ++ st.(queue)
  | Polling e | Waiting e =>
      ∃ done, tried (done ++ [e]) st.(attempts) ∧ st.(sent) = done ++ [e] ++ st.(queue)
  | Exited => tried st.(sent) st.(attempts) ∧ st.(sender_alive) = false ∧ st.(queue) = []
  end.

Lemma invariant_step st st' : step st st' → invariant st → invariant st'.
Proof.
  destruct 1; unfold invariant; cbn.
  - destruct w as [|e'|e'|e'|]; cbn.
    + intros [-> ->]. done.
    + intros (d & H & ->); exists d; by rewrite <-app_assoc.
    + intros (d & H & ->); exists d; by rewrite <-app_assoc.
    + intros (d & H & ->); exists d; by rewrite <-app_assoc.
    + intros (_ & ? & _); done.
  - destruct w; naive_solver.
  - intros [-> ->]. exists []. split; [left; constructor|done].
  - intros [-> ->]. split_and!; [constructor|done..].
  - intros (d & [H|H] & ->); exists d; split; try done; by constructor.
  - intros (d & H & ->). exists (d ++ [e]). split; [by left|by rewrite <-!app_assoc].
  - intros (d & H & ->). done.
  - done.
  - intros (d & H & ->). exists d. split; [by right|done].
  - intros (d & H & ->). exists (d ++ [e]). split; [by left|by rewrite <-!app_assoc].
  - intros (d & H & ->). done.
Qed.

Lemma invariant_reachable st : rtc step init st → invariant st.
Proof.
  revert st. apply rtc_ind_r; [done|].
  intros y z _ Hs Hi. by eapply invariant_step.
Qed.

(** Only what was sent is published. *)
Lemma published_sent st e : rtc step init st → e ∈ published st → e ∈ st.(sent).
Proof.
  intros Hi%invariant_reachable (x & -> & [_ Hx]%list_elem_of_filter)%list_elem_of_fmap.
  assert (x.1 ∈ st.(attempts).*1) as He by (by apply list_elem_of_fmap_2). clear Hx.
  unfold invariant in Hi. destruct (worker st) as [|e|e|e|].
  - destruct Hi as [Ha _]. rewrite Ha in He. by apply elem_of_nil in He.
  - destruct Hi as (d & [H|H] & ->); apply (tried_elem _ _ _ H) in He; set_solver.
  - destruct Hi as (d & H & ->); apply (tried_elem _ _ _ H) in He; set_solver.
  - destruct Hi as (d & H & ->); apply (tried_elem _ _ _ H) in He; set_solver.
  - destruct Hi as (H & _). by eapply tried_elem.
Qed.

(** ** The end of the worker *)
(** The remaining work of a worker whose sender is gone. *)
Definition work (st : state) : nat :=
  match st.(worker) with
  | Receiving | Polling _ => 2 * length st.(queue) + 1
  | Publishing _ => 2 * length st.(queue) + 2
  | Waiting _ => 2 * length st.(queue) + 3
  | Exited => 0
  end.

(** Every step is progress, also one of the timer. *)
Lemma work_step st st' :
  step st st' → st.(sender_alive) = false →
  work st' < work st ∧ st'.(sender_alive) = false ∧ st'.(sent) = st.(sent).
Proof. destruct 1; cbn; intros; simplify_eq; split_and!; try done; cbn; lia. Qed.

Lemma can_step st :
  st.(sender_alive) = false → invariant st → st.(worker) ≠ Exited → ∃ st', step st st'.
Proof.
  destruct st as [q [] w s a]; cbn; [done|]. intros _ _ Hw.
  destruct w as [|e|e|e|]; [destruct q| |destruct q|destruct q|done]; eexists; by constructor.
Unshelve. all: exact true.
Qed.

Lemma work_steps n st st' :
  nsteps step n st st' → st.(sender_alive) = false →
  n + work st' ≤ work st ∧ st'.(sender_alive) = false ∧ st'.(sent) = st.(sent).
Proof.
  induction 1 as [st|n st st1 st' Hs _ IH]; intros Hb; [by split_and!|].
  destruct (work_step _ _ Hs Hb) as (Hw & Hb1 & Hs1). destruct (IH Hb1) as (? & ? & Heq).
  split_and!; [lia|done|congruence].
Qed.

(** C10: What the worker does with the events: whatever the interleaving of the job and the
    worker, however often the timer fires and whichever publications fail, when the worker
    has exited it has tried to publish exactly the events which were sent, in that order,
    each one or more times in a row; and what has been published is each event as often
    as attempts for it succeeded, so in the order of sending, and an event is missing in
    the cluster exactly if every attempt for it failed. *)
Theorem worker_tries_all st :
  rtc step init st → st.(worker) = Exited →
  ∃ answers, length answers = length st.(sent) ∧ ([] ∉ answers) ∧
    st.(attempts) = attempts_of st.(sent) answers ∧
    published st = concat (zip_with (λ e bs, replicate (count bs) e) st.(sent) answers).
Proof.
  intros Hr Hw. apply invariant_reachable in Hr. unfold invariant in Hr. rewrite Hw in Hr.
  destruct Hr as [(answers & Hl & Hn & Ha)%tried_answers _]. exists answers.
  split_and!; [done..|]. unfold published. by rewrite Ha, successes_of.
Qed.

(** C33: The shutdown terminates: from every reachable state in which the sender is
    dropped, every run of the worker has at most [work] steps, also one in which the timer
    fires; and where no step is left the worker has exited, with one or more attempts made
    for each event sent, in order. *)
Theorem worker_shutdown_terminates st :
  rtc step init st → st.(sender_alive) = false →
  ∀ n st', nsteps step n st st' →
    n ≤ work st ∧
    ((∃ st'', step st' st'') ∨
     (st'.(worker) = Exited ∧ st'.(sent) = st.(sent) ∧ tried st.(sent) st'.(attempts))).
Proof.
  intros Hr Hb n st' Hn. destruct (work_steps _ _ _ Hn Hb) as (Hw & Hb' & Hs).
  split; [lia|]. assert (invariant st') as Hi
    by (apply invariant_reachable; etrans; [done|by eapply rtc_nsteps_2]).
  destruct (worker st') eqn:Ew;
    try (left; apply can_step; [done|done|by rewrite Ew]).
  right. split_and!; [done..|]. unfold invariant in Hi. rewrite Ew, Hs in Hi. tauto.
Qed.

(** A run: two events sent, the publication of the first fails and is repeated because of
    the timer, the sender dropped while the second waits in the channel. *)
Definition ev1 : Event := mkEvent Normal "r" (Some "n1") "a".
Definition ev2 : Event := mkEvent Normal "r" (Some "n2") "a".
Definition dropped : state :=
  mkState [ev2] false (Polling ev1) [ev1; ev2] [(ev1, false); (ev1, true)].

Lemma dropped_reachable : rtc step init dropped.
Proof.
  eapply rtc_l; [apply (step_send ev1)|]. eapply rtc_l; [apply step_recv|].
  eapply rtc_l; [apply (step_publish ev1 false)|]. eapply rtc_l; [apply step_wait|].
  eapply rtc_l; [apply step_timer|]. eapply rtc_l; [apply (step_publish ev1 true)|].
  eapply rtc_l; [apply (step_send ev2)|].
  eapply rtc_l; [apply step_drop|]. apply rtc_refl.
Qed.

(** The second publication fails. *)
Definition exited : state :=
  mkState [] false Exited [ev1; ev2] [(ev1, false); (ev1, true); (ev2, false)].

Lemma dropped_exits : nsteps step 3 dropped exited.
Proof.
  eapply nsteps_l; [apply step_next|]. eapply nsteps_l; [apply (step_publish ev2 false)|].
  eapply nsteps_l; [apply step_next_none|]. apply nsteps_O.
Qed.

Lemma worker_shutdown_terminates_witness :
  3 ≤ work dropped ∧ ((∃ st, step exited st) ∨
    (Exited = Exited ∧ [ev1; ev2] = [ev1; ev2] ∧ tried [ev1; ev2] exited.(attempts))).
Proof.
  apply (worker_shutdown_terminates dropped dropped_reachable eq_refl 3 exited dropped_exits).
Defined.

Lemma worker_tries_all_witness :
  ∃ answers, length answers = 2 ∧ published exited = [ev1] ∧
    exited.(attempts) = attempts_of [ev1; ev2] answers.
Proof.
  destruct (worker_tries_all exited) as (answers & Hl & _ & Ha & _);
    [etrans; [apply dropped_reachable|eapply rtc_nsteps_2, dropped_exits]|reflexivity|].
  exists answers. split_and!; [exact Hl|reflexivity|exact Ha].
Defined.
End Worker.
