(* ===== verification/HelmChart.v ===== *)
(** * The upgrade job: helm chart values

    Models [k8s/upgrade/src/bin/upgrade-job/helm/chart.rs]: the structures into
    which [Chart.yaml] and the helm values are deserialized, their defaults for
    absent keys, and the getters.

    [serde_yaml] is a parameter ([SerdeYaml]): a value is a map, a sequence, a
    string or a boolean, or the conversion fails.  The [_decode] functions are what
    the derived [Deserialize] does with the attributes of the structures: a field
    is looked up by its (renamed) key, an absent key takes the default if the
    field or the structure is marked [serde(default)] and is an error otherwise,
    other keys are ignored.  A getter [f] of a structure [T] is [T__f]. *)

From S2P Require Import Prelude Semver Text JobApi.
From stdpp Require Import base gmap list strings.
From Stdlib Require Import ZArith Lia.

(** The parts of [k8s_openapi]'s [Probe] which are read. *)
Record HTTPGetAction := mkHTTPGetAction { http_get_path : option string }.
Record Probe := mkProbe { http_get : option HTTPGetAction }.
Definition HTTPGetAction_default : HTTPGetAction := mkHTTPGetAction None.
Definition Probe_default : Probe := mkProbe None.

Class SerdeYaml := {
  yaml : Type;
  (** [k8s_openapi]'s [Container], only copied here *)
  Container : Type;
  yaml_from_slice : bytes → ext_error + yaml;
  as_map : yaml → ext_error + gmap string yaml;
  as_seq : yaml → ext_error + list yaml;
  as_string : yaml → ext_error + string;
  as_bool : yaml → ext_error + bool;
  as_container : yaml → ext_error + Container;
  as_probe : yaml → ext_error + Probe
}.

Section Chart.
Context `{Semver} `{SerdeYaml}.

Definition missing_field (key : string) : ext_error := "missing field " +:+ key.

Definition field {A} (key : string) (d : yaml → ext_error + A) (m : gmap string yaml)
  : ext_error + A :=
  match m !! key with Some y => d y | None => inl (missing_field key) end.

Definition field_or {A} (dflt : A) (key : string) (d : yaml → ext_error + A)
    (m : gmap string yaml) : ext_error + A :=
  match m !! key with Some y => d y | None => inr dflt end.

Fixpoint decode_all {A} (d : yaml → ext_error + A) (l : list yaml) : ext_error + list A :=
  match l with
  | [] => inr []
  | y :: l' => let? a := d y in let? rest := decode_all d l' in inr (a :: rest)
  end.

Definition version_decode (y : yaml) : ext_error + Version :=
  let? s := as_string y in version_parse s.

(** [struct Chart] *)
Record Chart := mkChart {
  Chart_name : string;
  Chart_version : Version
}.

Definition Chart_decode (y : yaml) : ext_error + Chart :=
  let? m := as_map y in
  let? name := field "name" as_string m in
  let? version := field "version" version_decode m in
  inr (mkChart name version).

Definition Chart__name (self : Chart) : string := self.(Chart_name).
Definition Chart__version (self : Chart) : Version := self.(Chart_version).

(** [struct RebuildPartial] *)
Record RebuildPartial := mkRebuildPartial {
  RebuildPartial_enabled : bool
}.

Definition RebuildPartial_default : RebuildPartial := mkRebuildPartial true.

Definition RebuildPartial_decode (y : yaml) : ext_error + RebuildPartial :=
  let? m := as_map y in
  let? enabled := field "enabled" as_bool m in
  inr (mkRebuildPartial enabled).

Definition RebuildPartial__enabled (self : RebuildPartial) : bool :=
  self.(RebuildPartial_enabled).

(** [struct Rebuild] *)
Record Rebuild := mkRebuild {
  Rebuild_partial : RebuildPartial
}.

Definition Rebuild_default : Rebuild :=
  mkRebuild RebuildPartial_default.

Definition Rebuild_decode (y : yaml) : ext_error + Rebuild :=
  let? m := as_map y in
  let? partial := field "partial" RebuildPartial_decode m in
  inr (mkRebuild partial).

Definition Rebuild__partial_is_enabled (self : Rebuild) : bool :=
  RebuildPartial__enabled self.(Rebuild_partial).

(** [struct Core] *)
Record Core := mkCore {
  Core_rebuild : Rebuild
}.

Definition Core_decode (y : yaml) : ext_error + Core :=
  let? m := as_map y in
  let? rebuild := field_or Rebuild_default "rebuild" Rebuild_decode m in
  inr (mkCore rebuild).

Definition Core__partial_rebuild_is_enabled (self : Core) : bool :=
  Rebuild__partial_is_enabled self.(Core_rebuild).

(** [struct Ha] *)
Record Ha := mkHa {
  Ha_enabled : bool
}.

Definition Ha_decode (y : yaml) : ext_error + Ha :=
  let? m := as_map y in
  let? enabled := field "enabled" as_bool m in
  inr (mkHa enabled).

Definition Ha__enabled (self : Ha) : bool := self.(Ha_enabled).

(** [struct Agents] *)
Record Agents := mkAgents {
  Agents_core : Core;
  Agents_ha : Ha
}.

Definition Agents_decode (y : yaml) : ext_error + Agents :=
  let? m := as_map y in
  let? core := field "core" Core_decode m in
  let? ha := field "ha" Ha_decode m in
  inr (mkAgents core ha).

Definition Agents__ha_is_enabled (self : Agents) : bool := Ha__enabled self.(Agents_ha).
Definition Agents__partial_rebuild_is_enabled (self : Agents) : bool :=
  Core__partial_rebuild_is_enabled self.(Agents_core).

(** [struct Base] *)
Record Base := mkBase {
  Base_deprecated_log_silence_level : string
}.

Definition Base_decode (y : yaml) : ext_error + Base :=
  let? m := as_map y in
  let? deprecated_log_silence_level := field_or "" "logSilenceLevel" as_string m in
  inr (mkBase deprecated_log_silence_level).

Definition Base__deprecated_log_silence_level (self : Base) : string :=
  self.(Base_deprecated_log_silence_level).

(** [struct RepoTags] *)
Record RepoTags := mkRepoTags {
  RepoTags_control_plane : string;
  RepoTags_data_plane : string;
  RepoTags_extensions : string
}.

Definition RepoTags_default : RepoTags :=
  mkRepoTags "" "" "".

Definition RepoTags_decode (y : yaml) : ext_error + RepoTags :=
  let? m := as_map y in
  let? control_plane := field "controlPlane" as_string m in
  let? data_plane := field "dataPlane" as_string m in
  let? extensions := field "extensions" as_string m in
  inr (mkRepoTags control_plane data_plane extensions).

Definition RepoTags__control_plane (self : RepoTags) : string := self.(RepoTags_control_plane).
Definition RepoTags__data_plane (self : RepoTags) : string := self.(RepoTags_data_plane).
Definition RepoTags__extensions (self : RepoTags) : string := self.(RepoTags_extensions).

(** [struct Image] *)
Record Image := mkImage {
  Image_tag : string;
  Image_repo_tags : RepoTags
}.

Definition Image_decode (y : yaml) : ext_error + Image :=
  let? m := as_map y in
  let? tag := field "tag" as_string m in
  let? repo_tags := field_or RepoTags_default "repoTags" RepoTags_decode m in
  inr (mkImage tag repo_tags).

Definition Image__tag (self : Image) : string := self.(Image_tag).
Definition Image__control_plane_repotag (self : Image) : string :=
  RepoTags__control_plane self.(Image_repo_tags).
Definition Image__data_plane_repotag (self : Image) : string :=
  RepoTags__data_plane self.(Image_repo_tags).
Definition Image__extensions_repotag (self : Image) : string :=
  RepoTags__extensions self.(Image_repo_tags).

(** [struct IoEngine] *)
Record IoEngine := mkIoEngine {
  IoEngine_log_level : string
}.

Definition IoEngine_decode (y : yaml) : ext_error + IoEngine :=
  let? m := as_map y in
  let? log_level := field "logLevel" as_string m in
  inr (mkIoEngine log_level).

Definition IoEngine__log_level (self : IoEngine) : string := self.(IoEngine_log_level).

(** [struct Eventing] *)
Record Eventing := mkEventing {
  Eventing_enabled : bool
}.

Definition Eventing_default : Eventing :=
  mkEventing false.

Definition Eventing_decode (y : yaml) : ext_error + Eventing :=
  let? m := as_map y in
  let? enabled := field "enabled" as_bool m in
  inr (mkEventing enabled).

Definition Eventing__enabled (self : Eventing) : bool := self.(Eventing_enabled).

(** [struct CsiImage] *)
Record CsiImage := mkCsiImage {
  CsiImage_provisioner_tag : string;
  CsiImage_attacher_tag : string;
  CsiImage_snapshotter_tag : string;
  CsiImage_snapshot_controller_tag : string;
  CsiImage_registrar_tag : string;
  CsiImage_resizer_tag : string
}.

Definition CsiImage_decode (y : yaml) : ext_error + CsiImage :=
  let? m := as_map y in
  let? provisioner_tag := field "provisionerTag" as_string m in
  let? attacher_tag := field "attacherTag" as_string m in
  let? snapshotter_tag := field_or "" "snapshotterTag" as_string m in
  let? snapshot_controller_tag := field_or "" "snapshotControllerTag" as_string m in
  let? registrar_tag := field "registrarTag" as_string m in
  let? resizer_tag := field_or "" "resizerTag" as_string m in
  inr (mkCsiImage provisioner_tag attacher_tag snapshotter_tag snapshot_controller_tag registrar_tag resizer_tag).

Definition CsiImage__provisioner_tag (self : CsiImage) : string :=
  self.(CsiImage_provisioner_tag).
Definition CsiImage__attacher_tag (self : CsiImage) : string := self.(CsiImage_attacher_tag).
Definition CsiImage__snapshotter_tag (self : CsiImage) : string :=
  self.(CsiImage_snapshotter_tag).
Definition CsiImage__snapshot_controller_tag (self : CsiImage) : string :=
  self.(CsiImage_snapshot_controller_tag).
Definition CsiImage__node_driver_registrar_tag (self : CsiImage) : string :=
  self.(CsiImage_registrar_tag).
Definition CsiImage__resizer_tag (self : CsiImage) : string := self.(CsiImage_resizer_tag).

(** [struct CsiNodeNvme] *)
Record CsiNodeNvme := mkCsiNodeNvme {
  CsiNodeNvme_io_timeout : string
}.

Definition CsiNodeNvme_decode (y : yaml) : ext_error + CsiNodeNvme :=
  let? m := as_map y in
  let? io_timeout := field "io_timeout" as_string m in
  inr (mkCsiNodeNvme io_timeout).

Definition CsiNodeNvme__io_timeout (self : CsiNodeNvme) : string := self.(CsiNodeNvme_io_timeout).

(** [struct CsiNode] *)
Record CsiNode := mkCsiNode {
  CsiNode_nvme : CsiNodeNvme;
  CsiNode_deprecated_plugin_mount_path : string
}.

Definition CsiNode_decode (y : yaml) : ext_error + CsiNode :=
  let? m := as_map y in
  let? nvme := field "nvme" CsiNodeNvme_decode m in
  let? deprecated_plugin_mount_path := field_or "" "pluginMounthPath" as_string m in
  inr (mkCsiNode nvme deprecated_plugin_mount_path).

Definition CsiNode__nvme_io_timeout (self : CsiNode) : string :=
  CsiNodeNvme__io_timeout self.(CsiNode_nvme).
Definition CsiNode__deprecated_plugin_mount_path (self : CsiNode) : string :=
  self.(CsiNode_deprecated_plugin_mount_path).

(** [struct Csi] *)
Record Csi := mkCsi {
  Csi_image : CsiImage;
  Csi_node : CsiNode
}.

Definition Csi_decode (y : yaml) : ext_error + Csi :=
  let? m := as_map y in
  let? image := field "image" CsiImage_decode m in
  let? node := field "node" CsiNode_decode m in
  inr (mkCsi image node).

Definition Csi__provisioner_image_tag (self : Csi) : string :=
  CsiImage__provisioner_tag self.(Csi_image).
Definition Csi__attacher_image_tag (self : Csi) : string :=
  CsiImage__attacher_tag self.(Csi_image).
Definition Csi__snapshotter_image_tag (self : Csi) : string :=
  CsiImage__snapshotter_tag self.(Csi_image).
Definition Csi__snapshot_controller_image_tag (self : Csi) : string :=
  CsiImage__snapshot_controller_tag self.(Csi_image).
Definition Csi__node_driver_registrar_image_tag (self : Csi) : string :=
  CsiImage__node_driver_registrar_tag self.(Csi_image).
Definition Csi__resizer_image_tag (self : Csi) : string := CsiImage__resizer_tag self.(Csi_image).
Definition Csi__node_nvme_io_timeout (self : Csi) : string :=
  CsiNode__nvme_io_timeout self.(Csi_node).
Definition Csi__deprecated_node_csi_mount_path (self : Csi) : string :=
  CsiNode__deprecated_plugin_mount_path self.(Csi_node).

(** [struct GenericImage] *)
Record GenericImage := mkGenericImage {
  GenericImage_tag : string
}.

Definition GenericImage_default : GenericImage :=
  mkGenericImage "".

Definition GenericImage_decode (y : yaml) : ext_error + GenericImage :=
  let? m := as_map y in
  let? tag := field_or "" "tag" as_string m in
  inr (mkGenericImage tag).

Definition GenericImage__tag (self : GenericImage) : string := self.(GenericImage_tag).

(** [struct JaegerOperator] *)
Record JaegerOperator := mkJaegerOperator {
  JaegerOperator_image : GenericImage
}.

Definition JaegerOperator_default : JaegerOperator :=
  mkJaegerOperator GenericImage_default.

Definition JaegerOperator_decode (y : yaml) : ext_error + JaegerOperator :=
  let? m := as_map y in
  let? image := field_or GenericImage_default "image" GenericImage_decode m in
  inr (mkJaegerOperator image).

Definition JaegerOperator__image_tag (self : JaegerOperator) : string :=
  GenericImage__tag self.(JaegerOperator_image).

(** [struct Filebeat] *)
Record Filebeat := mkFilebeat {
  Filebeat_image_tag : string
}.

Definition Filebeat_default : Filebeat :=
  mkFilebeat "".

Definition Filebeat_decode (y : yaml) : ext_error + Filebeat :=
  let? m := as_map y in
  let? image_tag := field_or "" "imageTag" as_string m in
  inr (mkFilebeat image_tag).

Definition Filebeat__image_tag (self : Filebeat) : string := self.(Filebeat_image_tag).

(** [struct GrafanaDownloadDashboardsImage] *)
Record GrafanaDownloadDashboardsImage := mkGrafanaDownloadDashboardsImage {
  GrafanaDownloadDashboardsImage_tag : string
}.

Definition GrafanaDownloadDashboardsImage_default : GrafanaDownloadDashboardsImage :=
  mkGrafanaDownloadDashboardsImage "".

Definition GrafanaDownloadDashboardsImage_decode (y : yaml) : ext_error + GrafanaDownloadDashboardsImage :=
  let? m := as_map y in
  let? tag := field_or GrafanaDownloadDashboardsImage_default.(GrafanaDownloadDashboardsImage_tag) "tag" as_string m in
  inr (mkGrafanaDownloadDashboardsImage tag).

Definition GrafanaDownloadDashboardsImage__tag (self : GrafanaDownloadDashboardsImage) : string :=
  self.(GrafanaDownloadDashboardsImage_tag).

(** [struct GrafanaSidecar] *)
Record GrafanaSidecar := mkGrafanaSidecar {
  GrafanaSidecar_image : GenericImage
}.

Definition GrafanaSidecar_default : GrafanaSidecar :=
  mkGrafanaSidecar GenericImage_default.

Definition GrafanaSidecar_decode (y : yaml) : ext_error + GrafanaSidecar :=
  let? m := as_map y in
  let? image := field_or GrafanaSidecar_default.(GrafanaSidecar_image) "image" GenericImage_decode m in
  inr (mkGrafanaSidecar image).

Definition GrafanaSidecar__image_tag (self : GrafanaSidecar) : string :=
  GenericImage__tag self.(GrafanaSidecar_image).

(** [struct Grafana] *)
Record Grafana := mkGrafana {
  Grafana_download_dashboards_image : GrafanaDownloadDashboardsImage;
  Grafana_image : GenericImage;
  Grafana_sidecar : GrafanaSidecar
}.

Definition Grafana_default : Grafana :=
  mkGrafana GrafanaDownloadDashboardsImage_default GenericImage_default GrafanaSidecar_default.

Definition Grafana_decode (y : yaml) : ext_error + Grafana :=
  let? m := as_map y in
  let? download_dashboards_image := field_or Grafana_default.(Grafana_download_dashboards_image) "downloadDashboardsImage" GrafanaDownloadDashboardsImage_decode m in
  let? image := field_or Grafana_default.(Grafana_image) "image" GenericImage_decode m in
  let? sidecar := field_or Grafana_default.(Grafana_sidecar) "sidecar" GrafanaSidecar_decode m in
  inr (mkGrafana download_dashboards_image image sidecar).

Definition Grafana__download_dashboards_image_tag (self : Grafana) : string :=
  GrafanaDownloadDashboardsImage__tag self.(Grafana_download_dashboards_image).
Definition Grafana__image_tag (self : Grafana) : string := GenericImage__tag self.(Grafana_image).
Definition Grafana__sidecar_image_tag (self : Grafana) : string :=
  GrafanaSidecar__image_tag self.(Grafana_sidecar).

(** [struct Logstash] *)
Record Logstash := mkLogstash {
  Logstash_image_tag : string
}.

Definition Logstash_default : Logstash :=
  mkLogstash "".

Definition Logstash_decode (y : yaml) : ext_error + Logstash :=
  let? m := as_map y in
  let? image_tag := field_or Logstash_default.(Logstash_image_tag) "imageTag" as_string m in
  inr (mkLogstash image_tag).

Definition Logstash__image_tag (self : Logstash) : string := self.(Logstash_image_tag).

(** [struct Loki] *)
Record Loki := mkLoki {
  Loki_image : GenericImage
}.

Definition Loki_default : Loki :=
  mkLoki GenericImage_default.

Definition Loki_decode (y : yaml) : ext_error + Loki :=
  let? m := as_map y in
  let? image := field_or Loki_default.(Loki_image) "image" GenericImage_decode m in
  inr (mkLoki image).

Definition Loki__image_tag (self : Loki) : string := GenericImage__tag self.(Loki_image).

(** [struct PrometheusAlertmanager] *)
Record PrometheusAlertmanager := mkPrometheusAlertmanager {
  PrometheusAlertmanager_image : GenericImage
}.

Definition PrometheusAlertmanager_default : PrometheusAlertmanager :=
  mkPrometheusAlertmanager GenericImage_default.

Definition PrometheusAlertmanager_decode (y : yaml) : ext_error + PrometheusAlertmanager :=
  let? m := as_map y in
  let? image := field_or PrometheusAlertmanager_default.(PrometheusAlertmanager_image) "image" GenericImage_decode m in
  inr (mkPrometheusAlertmanager image).

Definition PrometheusAlertmanager__image_tag (self : PrometheusAlertmanager) : string :=
  GenericImage__tag self.(PrometheusAlertmanager_image).

(** [struct PrometheusNodeExporter] *)
Record PrometheusNodeExporter := mkPrometheusNodeExporter {
  PrometheusNodeExporter_image : GenericImage
}.

Definition PrometheusNodeExporter_default : PrometheusNodeExporter :=
  mkPrometheusNodeExporter GenericImage_default.

Definition PrometheusNodeExporter_decode (y : yaml) : ext_error + PrometheusNodeExporter :=
  let? m := as_map y in
  let? image := field_or PrometheusNodeExporter_default.(PrometheusNodeExporter_image) "image" GenericImage_decode m in
  inr (mkPrometheusNodeExporter image).

Definition PrometheusNodeExporter__image_tag (self : PrometheusNodeExporter) : string :=
  GenericImage__tag self.(PrometheusNodeExporter_image).

(** [struct PrometheusPushgateway] *)
Record PrometheusPushgateway := mkPrometheusPushgateway {
  PrometheusPushgateway_image : GenericImage
}.

Definition PrometheusPushgateway_default : PrometheusPushgateway :=
  mkPrometheusPushgateway GenericImage_default.

Definition PrometheusPushgateway_decode (y : yaml) : ext_error + PrometheusPushgateway :=
  let? m := as_map y in
  let? image := field_or PrometheusPushgateway_default.(PrometheusPushgateway_image) "image" GenericImage_decode m in
  inr (mkPrometheusPushgateway image).

Definition PrometheusPushgateway__image_tag (self : PrometheusPushgateway) : string :=
  GenericImage__tag self.(PrometheusPushgateway_image).

(** [struct PrometheusServer] *)
Record PrometheusServer := mkPrometheusServer {
  PrometheusServer_image : GenericImage
}.

Definition PrometheusServer_default : PrometheusServer :=
  mkPrometheusServer GenericImage_default.

Definition PrometheusServer_decode (y : yaml) : ext_error + PrometheusServer :=
  let? m := as_map y in
  let? image := field_or PrometheusServer_default.(PrometheusServer_image) "image" GenericImage_decode m in
  inr (mkPrometheusServer image).

Definition PrometheusServer__image_tag (self : PrometheusServer) : string :=
  GenericImage__tag self.(PrometheusServer_image).

(** [struct Prometheus] *)
Record Prometheus := mkPrometheus {
  Prometheus_alertmanager : PrometheusAlertmanager;
  Prometheus_node_exporter : PrometheusNodeExporter;
  Prometheus_pushgateway : PrometheusPushgateway;
  Prometheus_server : PrometheusServer
}.

Definition Prometheus_default : Prometheus :=
  mkPrometheus PrometheusAlertmanager_default PrometheusNodeExporter_default PrometheusPushgateway_default PrometheusServer_default.

Definition Prometheus_decode (y : yaml) : ext_error + Prometheus :=
  let? m := as_map y in
  let? alertmanager := field_or Prometheus_default.(Prometheus_alertmanager) "alertmanager" PrometheusAlertmanager_decode m in
  let? node_exporter := field_or Prometheus_default.(Prometheus_node_exporter) "nodeExporter" PrometheusNodeExporter_decode m in
  let? pushgateway := field_or Prometheus_default.(Prometheus_pushgateway) "pushgateway" PrometheusPushgateway_decode m in
  let? server := field_or Prometheus_default.(Prometheus_server) "server" PrometheusServer_decode m in
  inr (mkPrometheus alertmanager node_exporter pushgateway server).

Definition Prometheus__alertmanager_image_tag (self : Prometheus) : string :=
  PrometheusAlertmanager__image_tag self.(Prometheus_alertmanager).
Definition Prometheus__node_exporter_image_tag (self : Prometheus) : string :=
  PrometheusNodeExporter__image_tag self.(Prometheus_node_exporter).
Definition Prometheus__pushgateway_image_tag (self : Prometheus) : string :=
  PrometheusPushgateway__image_tag self.(Prometheus_pushgateway).
Definition Prometheus__server_image_tag (self : Prometheus) : string :=
  PrometheusServer__image_tag self.(Prometheus_server).

(** [struct PromtailConfigSnippets] *)
Record PromtailConfigSnippets := mkPromtailConfigSnippets {
  PromtailConfigSnippets_deprecated_extra_client_configs : string;
  PromtailConfigSnippets_scrape_configs : string
}.

Definition PromtailConfigSnippets_default : PromtailConfigSnippets :=
  mkPromtailConfigSnippets "" "".

Definition PromtailConfigSnippets_decode (y : yaml) : ext_error + PromtailConfigSnippets :=
  let? m := as_map y in
  let? deprecated_extra_client_configs := field_or "" "extraClientConfigs" as_string m in
  let? scrape_configs := field "scrapeConfigs" as_string m in
  inr (mkPromtailConfigSnippets deprecated_extra_client_configs scrape_configs).

Definition PromtailConfigSnippets__scrape_configs (self : PromtailConfigSnippets) : string :=
  self.(PromtailConfigSnippets_scrape_configs).
Definition PromtailConfigSnippets__deprecated_extra_client_configs (self : PromtailConfigSnippets) : string :=
  self.(PromtailConfigSnippets_deprecated_extra_client_configs).

(** [struct PromtailConfig] *)
Record PromtailConfig := mkPromtailConfig {
  PromtailConfig_deprecated_loki_address : string;
  PromtailConfig_file : string;
  PromtailConfig_snippets : PromtailConfigSnippets
}.

Definition PromtailConfig_default : PromtailConfig :=
  mkPromtailConfig "" "" PromtailConfigSnippets_default.

Definition PromtailConfig_decode (y : yaml) : ext_error + PromtailConfig :=
  let? m := as_map y in
  let? deprecated_loki_address := field_or PromtailConfig_default.(PromtailConfig_deprecated_loki_address) "lokiAddress" as_string m in
  let? file := field_or PromtailConfig_default.(PromtailConfig_file) "file" as_string m in
  let? snippets := field_or PromtailConfig_default.(PromtailConfig_snippets) "snippets" PromtailConfigSnippets_decode m in
  inr (mkPromtailConfig deprecated_loki_address file snippets).

Definition PromtailConfig__scrape_configs (self : PromtailConfig) : string :=
  PromtailConfigSnippets__scrape_configs self.(PromtailConfig_snippets).
Definition PromtailConfig__file (self : PromtailConfig) : string := self.(PromtailConfig_file).
Definition PromtailConfig__deprecated_extra_client_configs (self : PromtailConfig) : string :=
  PromtailConfigSnippets__deprecated_extra_client_configs self.(PromtailConfig_snippets).
Definition PromtailConfig__deprecated_loki_address (self : PromtailConfig) : string :=
  self.(PromtailConfig_deprecated_loki_address).

(** [enum PromtailInitContainer], deserialized untagged: a map is the deprecated
    form, otherwise the value is a sequence of containers.  (An empty sequence
    is also accepted for the first variant; both have the same containers.) *)
Inductive PromtailInitContainer :=
| DeprecatedInitContainer
| InitContainer (containers : list Container).

Definition PromtailInitContainer_default : PromtailInitContainer := InitContainer [].

Definition PromtailInitContainer_decode (y : yaml) : ext_error + PromtailInitContainer :=
  match as_map y with
  | inr _ => inr DeprecatedInitContainer
  | inl _ =>
      let? l := as_seq y in
      let? cs := decode_all as_container l in
      inr (InitContainer cs)
  end.

(** [struct Promtail] *)
Record Promtail := mkPromtail {
  Promtail_config : PromtailConfig;
  Promtail_init_container : PromtailInitContainer;
  Promtail_readiness_probe : Probe
}.

Definition Promtail_default : Promtail :=
  mkPromtail PromtailConfig_default PromtailInitContainer_default Probe_default.

Definition Promtail_decode (y : yaml) : ext_error + Promtail :=
  let? m := as_map y in
  let? config := field_or Promtail_default.(Promtail_config) "config" PromtailConfig_decode m in
  let? init_container := field_or Promtail_default.(Promtail_init_container) "initContainer" PromtailInitContainer_decode m in
  let? readiness_probe := field_or Promtail_default.(Promtail_readiness_probe) "readinessProbe" as_probe m in
  inr (mkPromtail config init_container readiness_probe).

Definition Promtail__scrape_configs (self : Promtail) : string :=
  PromtailConfig__scrape_configs self.(Promtail_config).
Definition Promtail__config_file (self : Promtail) : string :=
  PromtailConfig__file self.(Promtail_config).
Definition Promtail__deprecated_extra_client_configs (self : Promtail) : string :=
  PromtailConfig__deprecated_extra_client_configs self.(Promtail_config).
Definition Promtail__deprecated_loki_address (self : Promtail) : string :=
  PromtailConfig__deprecated_loki_address self.(Promtail_config).
Definition Promtail__init_container (self : Promtail) : list Container :=
  match self.(Promtail_init_container) with
  | DeprecatedInitContainer => []
  | InitContainer containers => containers
  end.
Definition Promtail__readiness_probe_http_get_path (self : Promtail) : string :=
  default "" (default HTTPGetAction_default self.(Promtail_readiness_probe).(http_get)).(http_get_path).

(** [struct LokiStack] *)
Record LokiStack := mkLokiStack {
  LokiStack_filebeat : Filebeat;
  LokiStack_grafana : Grafana;
  LokiStack_logstash : Logstash;
  LokiStack_loki : Loki;
  LokiStack_prometheus : Prometheus;
  LokiStack_promtail : Promtail
}.

Definition LokiStack_default : LokiStack :=
  mkLokiStack Filebeat_default Grafana_default Logstash_default Loki_default Prometheus_default Promtail_default.

Definition LokiStack_decode (y : yaml) : ext_error + LokiStack :=
  let? m := as_map y in
  let? filebeat := field_or LokiStack_default.(LokiStack_filebeat) "filebeat" Filebeat_decode m in
  let? grafana := field_or LokiStack_default.(LokiStack_grafana) "grafana" Grafana_decode m in
  let? logstash := field_or LokiStack_default.(LokiStack_logstash) "logstash" Logstash_decode m in
  let? loki := field_or LokiStack_default.(LokiStack_loki) "loki" Loki_decode m in
  let? prometheus := field_or LokiStack_default.(LokiStack_prometheus) "prometheus" Prometheus_decode m in
  let? promtail := field_or LokiStack_default.(LokiStack_promtail) "promtail" Promtail_decode m in
  inr (mkLokiStack filebeat grafana logstash loki prometheus promtail).

Definition LokiStack__promtail_scrape_configs (self : LokiStack) : string :=
  Promtail__scrape_configs self.(LokiStack_promtail).
Definition LokiStack__promtail_config_file (self : LokiStack) : string :=
  Promtail__config_file self.(LokiStack_promtail).
Definition LokiStack__deprecated_promtail_extra_client_configs (self : LokiStack) : string :=
  Promtail__deprecated_extra_client_configs self.(LokiStack_promtail).
Definition LokiStack__deprecated_promtail_loki_address (self : LokiStack) : string :=
  Promtail__deprecated_loki_address self.(LokiStack_promtail).
Definition LokiStack__loki_image_tag (self : LokiStack) : string :=
  Loki__image_tag self.(LokiStack_loki).
Definition LokiStack__promtail_init_container (self : LokiStack) : list Container :=
  Promtail__init_container self.(LokiStack_promtail).
Definition LokiStack__promtail_readiness_probe_http_get_path (self : LokiStack) : string :=
  Promtail__readiness_probe_http_get_path self.(LokiStack_promtail).
Definition LokiStack__filebeat_image_tag (self : LokiStack) : string :=
  Filebeat__image_tag self.(LokiStack_filebeat).
Definition LokiStack__logstash_image_tag (self : LokiStack) : string :=
  Logstash__image_tag self.(LokiStack_logstash).
Definition LokiStack__grafana_download_dashboards_image_tag (self : LokiStack) : string :=
  Grafana__download_dashboards_image_tag self.(LokiStack_grafana).
Definition LokiStack__grafana_image_tag (self : LokiStack) : string :=
  Grafana__image_tag self.(LokiStack_grafana).
Definition LokiStack__grafana_sidecar_image_tag (self : LokiStack) : string :=
  Grafana__sidecar_image_tag self.(LokiStack_grafana).
Definition LokiStack__prometheus_alertmanager_image_tag (self : LokiStack) : string :=
  Prometheus__alertmanager_image_tag self.(LokiStack_prometheus).
Definition LokiStack__prometheus_node_exporter_image_tag (self : LokiStack) : string :=
  Prometheus__node_exporter_image_tag self.(LokiStack_prometheus).
Definition LokiStack__prometheus_pushgateway_image_tag (self : LokiStack) : string :=
  Prometheus__pushgateway_image_tag self.(LokiStack_prometheus).
Definition LokiStack__prometheus_server_image_tag (self : LokiStack) : string :=
  Prometheus__server_image_tag self.(LokiStack_prometheus).

(** [struct LocalpvProvisionerRelease] *)
Record LocalpvProvisionerRelease := mkLocalpvProvisionerRelease {
  LocalpvProvisionerRelease_version : string
}.

Definition LocalpvProvisionerRelease_default : LocalpvProvisionerRelease :=
  mkLocalpvProvisionerRelease "".

Definition LocalpvProvisionerRelease_decode (y : yaml) : ext_error + LocalpvProvisionerRelease :=
  let? m := as_map y in
  let? version := field_or "" "version" as_string m in
  inr (mkLocalpvProvisionerRelease version).

Definition LocalpvProvisionerRelease__version (self : LocalpvProvisionerRelease) : string :=
  self.(LocalpvProvisionerRelease_version).

(** [struct LocalpvProvisionerLocalpv] *)
Record LocalpvProvisionerLocalpv := mkLocalpvProvisionerLocalpv {
  LocalpvProvisionerLocalpv_image : GenericImage
}.

Definition LocalpvProvisionerLocalpv_default : LocalpvProvisionerLocalpv :=
  mkLocalpvProvisionerLocalpv GenericImage_default.

Definition LocalpvProvisionerLocalpv_decode (y : yaml) : ext_error + LocalpvProvisionerLocalpv :=
  let? m := as_map y in
  let? image := field_or GenericImage_default "image" GenericImage_decode m in
  inr (mkLocalpvProvisionerLocalpv image).

Definition LocalpvProvisionerLocalpv__image_tag (self : LocalpvProvisionerLocalpv) : string :=
  GenericImage__tag self.(LocalpvProvisionerLocalpv_image).

(** [struct LocalpvProvisionerHelperPod] *)
Record LocalpvProvisionerHelperPod := mkLocalpvProvisionerHelperPod {
  LocalpvProvisionerHelperPod_image : GenericImage
}.

Definition LocalpvProvisionerHelperPod_default : LocalpvProvisionerHelperPod :=
  mkLocalpvProvisionerHelperPod GenericImage_default.

Definition LocalpvProvisionerHelperPod_decode (y : yaml) : ext_error + LocalpvProvisionerHelperPod :=
  let? m := as_map y in
  let? image := field_or GenericImage_default "image" GenericImage_decode m in
  inr (mkLocalpvProvisionerHelperPod image).

Definition LocalpvProvisionerHelperPod__image_tag (self : LocalpvProvisionerHelperPod) : string :=
  GenericImage__tag self.(LocalpvProvisionerHelperPod_image).

(** [struct LocalpvProvisioner] *)
Record LocalpvProvisioner := mkLocalpvProvisioner {
  LocalpvProvisioner_release : LocalpvProvisionerRelease;
  LocalpvProvisioner_localpv : LocalpvProvisionerLocalpv;
  LocalpvProvisioner_helper_pod : LocalpvProvisionerHelperPod
}.

Definition LocalpvProvisioner_default : LocalpvProvisioner :=
  mkLocalpvProvisioner LocalpvProvisionerRelease_default LocalpvProvisionerLocalpv_default LocalpvProvisionerHelperPod_default.

Definition LocalpvProvisioner_decode (y : yaml) : ext_error + LocalpvProvisioner :=
  let? m := as_map y in
  let? release := field_or LocalpvProvisioner_default.(LocalpvProvisioner_release) "release" LocalpvProvisionerRelease_decode m in
  let? localpv := field_or LocalpvProvisioner_default.(LocalpvProvisioner_localpv) "localpv" LocalpvProvisionerLocalpv_decode m in
  let? helper_pod := field_or LocalpvProvisioner_default.(LocalpvProvisioner_helper_pod) "helperPod" LocalpvProvisionerHelperPod_decode m in
  inr (mkLocalpvProvisioner release localpv helper_pod).

Definition LocalpvProvisioner__release_version (self : LocalpvProvisioner) : string :=
  LocalpvProvisionerRelease__version self.(LocalpvProvisioner_release).
Definition LocalpvProvisioner__provisioner_image_tag (self : LocalpvProvisioner) : string :=
  LocalpvProvisionerLocalpv__image_tag self.(LocalpvProvisioner_localpv).
Definition LocalpvProvisioner__helper_image_tag (self : LocalpvProvisioner) : string :=
  LocalpvProvisionerHelperPod__image_tag self.(LocalpvProvisioner_helper_pod).

(** [struct CoreValues] *)
Record CoreValues := mkCoreValues {
  CoreValues_agents : Agents;
  CoreValues_base : Base;
  CoreValues_image : Image;
  CoreValues_io_engine : IoEngine;
  CoreValues_eventing : Eventing;
  CoreValues_csi : Csi;
  CoreValues_jaeger_operator : JaegerOperator;
  CoreValues_loki_stack : LokiStack;
  CoreValues_localpv_provisioner : LocalpvProvisioner
}.

Definition CoreValues_decode (y : yaml) : ext_error + CoreValues :=
  let? m := as_map y in
  let? agents := field "agents" Agents_decode m in
  let? base := field "base" Base_decode m in
  let? image := field "image" Image_decode m in
  let? io_engine := field "io_engine" IoEngine_decode m in
  let? eventing := field_or Eventing_default "eventing" Eventing_decode m in
  let? csi := field "csi" Csi_decode m in
  let? jaeger_operator := field_or JaegerOperator_default "jaeger-operator" JaegerOperator_decode m in
  let? loki_stack := field_or LokiStack_default "loki-stack" LokiStack_decode m in
  let? localpv_provisioner := field_or LocalpvProvisioner_default "localpv-provisioner" LocalpvProvisioner_decode m in
  inr (mkCoreValues agents base image io_engine eventing csi jaeger_operator loki_stack localpv_provisioner).

Definition CoreValues__partial_rebuild_is_enabled (self : CoreValues) : bool :=
  Agents__partial_rebuild_is_enabled self.(CoreValues_agents).
Definition CoreValues__ha_is_enabled (self : CoreValues) : bool :=
  Agents__ha_is_enabled self.(CoreValues_agents).
Definition CoreValues__image_tag (self : CoreValues) : string :=
  Image__tag self.(CoreValues_image).
Definition CoreValues__control_plane_repotag (self : CoreValues) : string :=
  Image__control_plane_repotag self.(CoreValues_image).
Definition CoreValues__data_plane_repotag (self : CoreValues) : string :=
  Image__data_plane_repotag self.(CoreValues_image).
Definition CoreValues__extensions_repotag (self : CoreValues) : string :=
  Image__extensions_repotag self.(CoreValues_image).
Definition CoreValues__io_engine_log_level (self : CoreValues) : string :=
  IoEngine__log_level self.(CoreValues_io_engine).
Definition CoreValues__eventing_enabled (self : CoreValues) : bool :=
  Eventing__enabled self.(CoreValues_eventing).
Definition CoreValues__csi_provisioner_image_tag (self : CoreValues) : string :=
  Csi__provisioner_image_tag self.(CoreValues_csi).
Definition CoreValues__csi_attacher_image_tag (self : CoreValues) : string :=
  Csi__attacher_image_tag self.(CoreValues_csi).
Definition CoreValues__csi_snapshotter_image_tag (self : CoreValues) : string :=
  Csi__snapshotter_image_tag self.(CoreValues_csi).
Definition CoreValues__csi_snapshot_controller_image_tag (self : CoreValues) : string :=
  Csi__snapshot_controller_image_tag self.(CoreValues_csi).
Definition CoreValues__csi_node_driver_registrar_image_tag (self : CoreValues) : string :=
  Csi__node_driver_registrar_image_tag self.(CoreValues_csi).
Definition CoreValues__csi_resizer_image_tag (self : CoreValues) : string :=
  Csi__resizer_image_tag self.(CoreValues_csi).
Definition CoreValues__csi_node_nvme_io_timeout (self : CoreValues) : string :=
  Csi__node_nvme_io_timeout self.(CoreValues_csi).
Definition CoreValues__deprecated_node_csi_mount_path (self : CoreValues) : string :=
  Csi__deprecated_node_csi_mount_path self.(CoreValues_csi).
Definition CoreValues__loki_stack_loki_image_tag (self : CoreValues) : string :=
  LokiStack__loki_image_tag self.(CoreValues_loki_stack).
Definition CoreValues__loki_stack_promtail_scrape_configs (self : CoreValues) : string :=
  LokiStack__promtail_scrape_configs self.(CoreValues_loki_stack).
Definition CoreValues__loki_stack_promtail_config_file (self : CoreValues) : string :=
  LokiStack__promtail_config_file self.(CoreValues_loki_stack).
Definition CoreValues__loki_stack_promtail_loki_address (self : CoreValues) : string :=
  LokiStack__deprecated_promtail_loki_address self.(CoreValues_loki_stack).
Definition CoreValues__promtail_extra_client_configs (self : CoreValues) : string :=
  LokiStack__deprecated_promtail_extra_client_configs self.(CoreValues_loki_stack).
Definition CoreValues__promtail_init_container (self : CoreValues) : list Container :=
  LokiStack__promtail_init_container self.(CoreValues_loki_stack).
Definition CoreValues__promtail_readiness_probe_http_get_path (self : CoreValues) : string :=
  LokiStack__promtail_readiness_probe_http_get_path self.(CoreValues_loki_stack).
Definition CoreValues__filebeat_image_tag (self : CoreValues) : string :=
  LokiStack__filebeat_image_tag self.(CoreValues_loki_stack).
Definition CoreValues__logstash_image_tag (self : CoreValues) : string :=
  LokiStack__logstash_image_tag self.(CoreValues_loki_stack).
Definition CoreValues__grafana_download_dashboards_image_tag (self : CoreValues) : string :=
  LokiStack__grafana_download_dashboards_image_tag self.(CoreValues_loki_stack).
Definition CoreValues__grafana_image_tag (self : CoreValues) : string :=
  LokiStack__grafana_image_tag self.(CoreValues_loki_stack).
Definition CoreValues__grafana_sidecar_image_tag (self : CoreValues) : string :=
  LokiStack__grafana_sidecar_image_tag self.(CoreValues_loki_stack).
Definition CoreValues__localpv_release_version (self : CoreValues) : string :=
  LocalpvProvisioner__release_version self.(CoreValues_localpv_provisioner).
Definition CoreValues__localpv_provisioner_image_tag (self : CoreValues) : string :=
  LocalpvProvisioner__provisioner_image_tag self.(CoreValues_localpv_provisioner).
Definition CoreValues__localpv_helper_image_tag (self : CoreValues) : string :=
  LocalpvProvisioner__helper_image_tag self.(CoreValues_localpv_provisioner).
Definition CoreValues__prometheus_alertmanager_image_tag (self : CoreValues) : string :=
  LokiStack__prometheus_alertmanager_image_tag self.(CoreValues_loki_stack).
Definition CoreValues__prometheus_node_exporter_image_tag (self : CoreValues) : string :=
  LokiStack__prometheus_node_exporter_image_tag self.(CoreValues_loki_stack).
Definition CoreValues__prometheus_pushgateway_image_tag (self : CoreValues) : string :=
  LokiStack__prometheus_pushgateway_image_tag self.(CoreValues_loki_stack).
Definition CoreValues__prometheus_server_image_tag (self : CoreValues) : string :=
  LokiStack__prometheus_server_image_tag self.(CoreValues_loki_stack).
Definition CoreValues__deprecated_log_silence_level (self : CoreValues) : string :=
  Base__deprecated_log_silence_level self.(CoreValues_base).
Definition CoreValues__jaeger_operator_image_tag (self : CoreValues) : string :=
  JaegerOperator__image_tag self.(CoreValues_jaeger_operator).

(** [struct UmbrellaValues] *)
Record UmbrellaValues := mkUmbrellaValues {
  UmbrellaValues_core : CoreValues
}.

Definition UmbrellaValues_decode (y : yaml) : ext_error + UmbrellaValues :=
  let? m := as_map y in
  let? core := field "mayastor" CoreValues_decode m in
  inr (mkUmbrellaValues core).

Definition UmbrellaValues__partial_rebuild_is_enabled (self : UmbrellaValues) : bool :=
  CoreValues__partial_rebuild_is_enabled self.(UmbrellaValues_core).
Definition UmbrellaValues__ha_is_enabled (self : UmbrellaValues) : bool :=
  CoreValues__ha_is_enabled self.(UmbrellaValues_core).

(** [struct PromtailConfigClient] *)
Record PromtailConfigClient := mkPromtailConfigClient { PromtailConfigClient_url : string }.

Definition PromtailConfigClient__with_url (url : string) : PromtailConfigClient :=
  mkPromtailConfigClient url.
(** [CoreValues::try_from(&[u8])] and [UmbrellaValues::try_from(&[u8])]: the error
    context is built first, so a buffer which is not UTF-8 fails. *)
Definition parse_slice {A} (d : yaml → ext_error + A) (buf : bytes) : Error + A :=
  match from_utf8 buf with
  | None => inl (U8VectorToString (utf8_error buf))
  | Some s =>
      match (let? y := yaml_from_slice buf in d y) with
      | inl e => inl (YamlParseFromSlice e s)
      | inr a => inr a
      end
  end.

Definition CoreValues_try_from_slice (buf : bytes) : Error + CoreValues :=
  parse_slice CoreValues_decode buf.
Definition UmbrellaValues_try_from_slice (buf : bytes) : Error + UmbrellaValues :=
  parse_slice UmbrellaValues_decode buf.

(** Read and deserialize a file: [CoreValues::try_from(&Path)] *)
Definition parse_file {A} (d : yaml → ext_error + A) (path : string) : job A :=
  let! r := req (FsRead path) in
  let! buf := lift (λ e, ReadingFile e path) r in
  lift (λ e, YamlParseFromFile e path) (let? y := yaml_from_slice buf in d y).

Definition CoreValues_try_from_path (path : string) : job CoreValues :=
  parse_file CoreValues_decode path.

(** The trait [HelmValuesCollection], as the object behind [Box<dyn ..>]. *)
Record HelmValuesCollection := mkHelmValuesCollection {
  ha_is_enabled : bool;
  partial_rebuild_is_enabled : bool
}.

Definition dyn_core (v : CoreValues) : HelmValuesCollection :=
  mkHelmValuesCollection (CoreValues__ha_is_enabled v) (CoreValues__partial_rebuild_is_enabled v).
Definition dyn_umbrella (v : UmbrellaValues) : HelmValuesCollection :=
  mkHelmValuesCollection (UmbrellaValues__ha_is_enabled v)
    (UmbrellaValues__partial_rebuild_is_enabled v).

(** ** The feature flags, by path *)

(** The value at a path of keys, if there is one. *)
Fixpoint at_path (path : list string) (y : yaml) : option yaml :=
  match path with
  | [] => Some y
  | k :: path' =>
      match as_map y with
      | inr m => match m !! k with Some y' => at_path path' y' | None => None end
      | inl _ => None
      end
  end.

Definition bool_at (path : list string) (y : yaml) : option bool :=
  match at_path path y with
  | Some z => match as_bool z with inr b => Some b | inl _ => None end
  | None => None
  end.

Lemma field_inv {A} key (d : yaml → ext_error + A) m a :
  field key d m = inr a → ∃ y, m !! key = Some y ∧ d y = inr a.
Proof. unfold field. destruct (m !! key); [eauto|done]. Qed.

Lemma field_or_inv {A} dflt key (d : yaml → ext_error + A) m a :
  field_or dflt key d m = inr a →
  (m !! key = None ∧ a = dflt) ∨ ∃ y, m !! key = Some y ∧ d y = inr a.
Proof. unfold field_or. destruct (m !! key); [eauto|]. intros [= ->]. auto. Qed.

End Chart.

(** Invert a successful deserialization, field by field. *)
Ltac decode_inv :=
  repeat match goal with
  | H : (match ?r with inl _ => _ | inr _ => _ end) = inr _ |- _ =>
      let E := fresh "E" in destruct r eqn:E; [discriminate H|]
  | H : field _ _ _ = inr _ |- _ => apply field_inv in H as (? & ? & ?)
  | H : inr _ = inr _ |- _ => injection H as H; try subst
  end.

(** Evaluate a path with the equations of the maps and lookups on it. *)
Ltac follow_path :=
  repeat match goal with
  | E : ?x = ?v |- context [match ?x with _ => _ end] => rewrite E; cbn
  end.

Module HelmChartSpec.
Section Spec.
Context `{Semver} `{SerdeYaml}.

(** The flags which steer the data-plane upgrade come from the right keys of the
    helm values: high availability is the boolean at [agents.ha.enabled], which
    must be there; partial rebuild is the boolean at
    [agents.core.rebuild.partial.enabled], and counts as enabled when the values
    have no [agents.core.rebuild]. *)
Theorem core_values_flags y v :
  CoreValues_decode y = inr v →
  bool_at ["agents"; "ha"; "enabled"] y = Some (dyn_core v).(ha_is_enabled) ∧
  (bool_at ["agents"; "core"; "rebuild"; "partial"; "enabled"] y =
     Some (dyn_core v).(partial_rebuild_is_enabled) ∨
   at_path ["agents"; "core"; "rebuild"] y = None ∧
     (dyn_core v).(partial_rebuild_is_enabled) = true).
Proof.
  unfold CoreValues_decode. intros Hd. decode_inv.
  repeat match goal with
  | H : Agents_decode _ = inr _ |- _ => unfold Agents_decode in H; decode_inv
  | H : Core_decode _ = inr _ |- _ => unfold Core_decode in H; decode_inv
  | H : Ha_decode _ = inr _ |- _ => unfold Ha_decode in H; decode_inv
  end.
  match goal with H : field_or _ _ Rebuild_decode _ = inr _ |- _ =>
    apply field_or_inv in H as [[? ->]|(? & ? & Hr)] end;
  [|unfold Rebuild_decode in Hr; decode_inv;
    match goal with H : RebuildPartial_decode _ = inr _ |- _ =>
      unfold RebuildPartial_decode in H end; decode_inv];
  unfold bool_at; cbn; follow_path; cbn; eauto.
Qed.
End Spec.
End HelmChartSpec.
