(* ===== verification/HelmClient.v ===== *)
(** * The upgrade job: the [helm] and [yq] commands

    Models [helm/client.rs], [helm/yaml/yq.rs], [common/regex.rs] and
    [common/file.rs] of [k8s/upgrade/src/bin/upgrade-job]: the command lines, what
    is checked of their outcome, and the temporary files. *)

From S2P Require Import Prelude Semver Text JobApi HelmChart.
From stdpp Require Import base gmap list strings.
From Stdlib Require Import ZArith Lia Ascii.
Open Scope string_scope.

(** ** [common/regex.rs] *)
Module Regex.
Section Regex.
Context `{RegexCrate}.

(** [Regex::new(expr)?.is_match(haystack)] *)
Definition is_match (expr haystack : string) : Error + bool :=
  match regex_search expr haystack with
  | inl e => inl (RegexCompile e expr)
  | inr b => inr b
  end.
End Regex.
End Regex.

(** ** [common/file.rs]

    A temporary file is named by its path.  One [write] may write less than the
    buffer; its count is not used. *)
Definition write_to_tempfile (file_dir : option string) (buf : bytes) : job string :=
  let! r := req (TempFileNewIn file_dir) in
  let! handle := lift TempFileCreation r in
  let! w := req (FileWrite handle buf) in
  do! lift (λ e, WriteToTempFile e handle) w in
  Ret handle.

(** [str::from_utf8(..).context(U8VectorToString)?] *)
Definition utf8 (b : bytes) : job string :=
  ok_or (U8VectorToString (utf8_error b)) (from_utf8 b).

(** [ensure!(output.status.success(), ..)]: the error output is converted only in
    the failing case. *)
Definition ensure_success (output : Output) (fail : string → Error) : job unit :=
  if output.(success) then Ret tt
  else let! std_err := utf8 output.(stderr) in Throw (fail std_err).

(** ** [helm/client.rs] *)
Module HelmReleaseClient.
Record HelmReleaseElement := mkHelmReleaseElement { name : string; chart : string }.

Section Client.
Context `{Semver} `{SerdeYaml}.

Definition HelmReleaseElement_decode (y : yaml) : ext_error + HelmReleaseElement :=
  let? m := as_map y in
  let? n := field "name" as_string m in
  let? c := field "chart" as_string m in
  inr (mkHelmReleaseElement n c).

(** [HelmReleaseClientBuilder::build]: a client is its namespace. *)
Definition client_build (namespace : option string) : Error + string :=
  match namespace with Some ns => inr ns | None => inl HelmClientNs end.

Definition helm (args : list string) : job Output :=
  let! r := req (RunCommand "helm" args []) in
  lift (λ e, HelmCommand e "helm" args) r.

Definition get_values_args (namespace release_name : string) (extra : option (list string))
  : list string :=
  ["get"; "values"; release_name; "-n"; namespace; "-a"] ++ default [] extra ++ ["-o"; "yaml"].

Definition get_values_as_yaml (namespace release_name : string)
    (maybe_extra_args : option (list string)) : job bytes :=
  let args := get_values_args namespace release_name maybe_extra_args in
  let! output := helm args in
  do! ensure_success output (HelmGetValuesCommand "helm" args) in
  Ret output.(stdout).

Definition list_args (namespace : string) (extra : option (list string)) : list string :=
  ["list"; "-n"; namespace; "--deployed"] ++ default [] extra ++ ["-o"; "yaml"].

Definition list_as_yaml (namespace : string) (maybe_extra_args : option (list string))
  : job (list HelmReleaseElement) :=
  let args := list_args namespace maybe_extra_args in
  let! output := helm args in
  let! stdout_str := utf8 output.(stdout) in
  do! ensure_success output (HelmListCommand "helm" args) in
  lift (λ e, YamlParseFromSlice e stdout_str)
    (let? y := yaml_from_slice output.(stdout) in
     let? l := as_seq y in
     decode_all HelmReleaseElement_decode l).

Definition upgrade_args (namespace release_name chart_dir : string) (extra : option (list string))
  : list string :=
  ["upgrade"; release_name; chart_dir; "-n"; namespace; "--timeout"; "15m"] ++ default [] extra.

Definition upgrade (namespace release_name chart_dir : string)
    (maybe_extra_args : option (list string)) : job unit :=
  let args := upgrade_args namespace release_name chart_dir maybe_extra_args in
  let! output := helm args in
  let! stdout_str := utf8 output.(stdout) in
  ensure_success output (HelmUpgradeCommand "helm" args).

(** The first release of that name. *)
Fixpoint find_release (release_name : string) (l : list HelmReleaseElement)
  : option HelmReleaseElement :=
  match l with
  | [] => None
  | r :: l' => if decide (r.(name) = release_name) then Some r else find_release release_name l'
  end.

Definition release_info (namespace release_name : string) : job HelmReleaseElement :=
  let! release_list := list_as_yaml namespace None in
  ok_or (HelmRelease release_name namespace) (find_release release_name release_list).
End Client.
End HelmReleaseClient.

(** ** [helm/yaml/yq.rs] *)
Module Yq.
Section Yq.
Context `{RegexCrate}.

(** [struct YamlKey(String)], [YamlKey::try_from] *)
Definition yaml_key_regex : string := "^(\..+)+$".
Record YamlKey := mkYamlKey { yaml_key : string }.
Definition YamlKey_try_from (value : string) : Error + YamlKey :=
  match regex_search yaml_key_regex value with
  | inl e => inl (RegexCompile e yaml_key_regex)
  | inr true => inr (mkYamlKey value)
  | inr false => inl (NotAValidYamlKeyForStringValue value)
  end.

Record YqV4 := mkYqV4 { command_name : string }.

(** [command_output] *)
Definition command_output (yq : YqV4) (env : list (string * string)) (args : list string)
  : job Output :=
  let! r := req (RunCommand yq.(command_name) args env) in
  lift (λ e, YqCommandExec e yq.(command_name) args) r.

Definition yq_version_regex : string := "^(.+4\.[0-9]+\.[0-9]+.*)$".

Definition new : job YqV4 :=
  let yq_v4 := mkYqV4 "yq" in
  let! output := command_output yq_v4 [] ["-V"] in
  do! ensure_success output (YqVersionCommand "yq" "-V") in
  let! r := lift (λ e, RegexCompile e yq_version_regex) (regex_new yq_version_regex) in
  let! out := utf8 output.(stdout) in
  do! ensure (regex_is_match r (trim out)) NotYqV4 in
  Ret yq_v4.

(** The in-place commands: [yq -i <expression> <file>]. *)
Definition edit_in_place (yq : YqV4) (env : list (string * string)) (expression filepath : string)
    (fail : string → list string → string → Error) : job unit :=
  let args := ["-i"; expression; filepath] in
  let! output := command_output yq env args in
  ensure_success output (fail yq.(command_name) args).

Definition append_to_array_expr (key value : string) : string := key +:+ " += [" +:+ value +:+ "]".
Definition append_to_array (yq : YqV4) (key : YamlKey) (value filepath : string) : job unit :=
  edit_in_place yq [] (append_to_array_expr key.(yaml_key) value) filepath YqAppendToArrayCommand.

Definition append_to_object_expr (key value : string) : string := key +:+ " += " +:+ value.
Definition append_to_object (yq : YqV4) (key : YamlKey) (value filepath : string) : job unit :=
  edit_in_place yq [] (append_to_object_expr key.(yaml_key) value) filepath YqAppendToObjectCommand.

Definition delete_object_expr (key : string) : string := "del(" +:+ key +:+ ")".
Definition delete_object (yq : YqV4) (key : YamlKey) (filepath : string) : job unit :=
  edit_in_place yq [] (delete_object_expr key.(yaml_key)) filepath YqDeleteObjectCommand.

Definition merge_args (high_priority low_priority : string) : list string :=
  ["ea"; ". as $item ireduce ({}; . * $item )"; low_priority; high_priority].
Definition merge_files (yq : YqV4) (high_priority low_priority : string) : job bytes :=
  let args := merge_args high_priority low_priority in
  let! output := command_output yq [] args in
  do! ensure_success output (YqMergeCommand yq.(command_name) args) in
  Ret output.(stdout).

(** How a value is written in the expression, and the environment it needs:
    booleans, null and integers literally, any other text through [VAL]. *)
Definition literal (value : string) : string * list (string * string) :=
  if decide (value = "true") then ("true", [])
  else if decide (value = "false") then ("false", [])
  else if decide (value = "null") then ("null", [])
  else match parse_i64 value with
  | Some _ => (value, [])
  | None => ("strenv(VAL)", [("VAL", value)])
  end.

Definition set_literal_expr (key value : string) : string := key +:+ " = " +:+ (literal value).1.
Definition set_literal_value (yq : YqV4) (key : YamlKey) (value filepath : string) : job unit :=
  edit_in_place yq (literal value).2 (set_literal_expr key.(yaml_key) value) filepath YqSetCommand.
End Yq.
End Yq.
