(* ===== verification/HelmValues.v ===== *)
(** * The upgrade job: the values of the helm upgrade

    Models [k8s/upgrade/src/bin/upgrade-job/helm/values.rs]: the values file for
    [helm upgrade] is the merge of the chart's default values with the values of
    the installed release, with keys then set or deleted depending on the two
    versions.

    [generate_values_yaml_file] is the code, one [yq] command after the other.
    [edits] is its specification: the edits of the file as a list of data.
    [HelmValuesSpec] relates the two. *)

From S2P Require Import Prelude Semver Text JobApi HelmChart HelmClient.
From stdpp Require Import base gmap list strings.
From Stdlib Require Import ZArith Lia Ascii.
Open Scope string_scope.

(** [serde_json]; the [_show] functions are the objects in the errors. *)
Class SerdeJson `{SerdeYaml} := {
  json : Type;
  container_to_json : Container → ext_error + string;
  container_show : Container → string;
  client_to_json : PromtailConfigClient → ext_error + string;
  json_from_yaml : string → ext_error + json;
  json_to_string : json → ext_error + string;
  json_show : json → string
}.

(** [HashMap::into_iter]: the entries in an unspecified order. *)
Class HashOrder := {
  hash_order {A} : list A → list A;
  hash_order_perm {A} (l : list A) : hash_order l ≡ₚ l
}.

(** [common/constants.rs] *)
Definition TWO_DOT_O_RC_ONE : string := "2.0.0-rc.1".
Definition TWO_DOT_ONE : string := "2.1.0".
Definition TWO_DOT_THREE : string := "2.3.0".
Definition TWO_DOT_FOUR : string := "2.4.0".
Definition TWO_DOT_FIVE : string := "2.5.0".
Definition TWO_DOT_SIX : string := "2.6.0".

Definition log_level_to_replace : string := "info,io_engine=info".
Definition io_timeout_to_replace : string := "30".
Definition localpv_version_to_replace : string := "3.4.0".
Definition scrape_configs_to_replace : string := "- job_name: {{ .Release.Name }}-pods-name
  pipeline_stages:
    - docker: {}
  kubernetes_sd_configs:
  - role: pod
  relabel_configs:
  - source_labels:
    - __meta_kubernetes_pod_node_name
    target_label: hostname
    action: replace
  - action: labelmap
    regex: __meta_kubernetes_pod_label_(.+)
  - action: keep
    source_labels:
    - __meta_kubernetes_pod_label_openebs_io_logging
    regex: true
    target_label: {{ .Release.Name }}_component
  - action: replace
    replacement: $1
    separator: /
    source_labels:
    - __meta_kubernetes_namespace
    target_label: job
  - action: replace
    source_labels:
    - __meta_kubernetes_pod_name
    target_label: pod
  - action: replace
    source_labels:
    - __meta_kubernetes_pod_container_name
    target_label: container
  - replacement: /var/log/pods/*$1/*.log
    separator: /
    source_labels:
    - __meta_kubernetes_pod_uid
    - __meta_kubernetes_pod_container_name
    target_label: __path__
".

Module HelmValues.
Import Yq.
Section Values.
Context `{Semver} `{SJ : SerdeJson} `{RegexCrate} `{HashOrder}.

(** [Version::parse(..).context(SemverParse ..)?] *)
Definition parse_version (s : string) : job Version := lift (λ e, SemverParse e s) (version_parse s).

(** [YamlKey::try_from(..)?] *)
Definition key (k : string) : job YamlKey := lift id (YamlKey_try_from k).

Definition set (yq : YqV4) (file k v : string) : job unit :=
  let! k := key k in set_literal_value yq k v file.
Definition del (yq : YqV4) (file k : string) : job unit :=
  let! k := key k in delete_object yq k file.

(** [Display for bool] *)
Definition show_bool (b : bool) : string := if b then "true" else "false".

(** [loki_address_to_clients] *)
Definition loki_address_to_clients (source_values : CoreValues) (file : string) (yq : YqV4)
  : job unit :=
  let! clients_key := key ".loki-stack.promtail.config.clients" in
  do! delete_object yq clients_key file in
  let client := PromtailConfigClient__with_url
                  (CoreValues__loki_stack_promtail_loki_address source_values) in
  let! client_json := lift (λ e, SerializePromtailConfigClientToJson e
                                   client.(PromtailConfigClient_url)) (client_to_json client) in
  do! append_to_array yq clients_key client_json file in
  let extra := CoreValues__promtail_extra_client_configs source_values in
  do! (if decide (extra = "") then Ret tt else
       let! j := lift (λ e, DeserializePromtailExtraConfig e extra) (json_from_yaml extra) in
       let! js := lift (λ e, SerializePromtailExtraConfigToJson e (json_show j))
                    (json_to_string j) in
       let! k := key ".loki-stack.promtail.config.clients[0]" in
       append_to_object yq k js file) in
  do! del yq file ".loki-stack.promtail.config.snippets.extraClientConfigs" in
  del yq file ".loki-stack.promtail.config.lokiAddress".

(** The entries of [crd_set_to_helm_toggle], with their keys checked in that order *)
Definition crd_sets : list (list string * string) :=
  [(["volumesnapshotclasses.snapshot.storage.k8s.io";
     "volumesnapshotcontents.snapshot.storage.k8s.io";
     "volumesnapshots.snapshot.storage.k8s.io"], ".crds.csi.volumeSnapshots.enabled");
   (["jaegers.jaegertracing.io"], ".crds.jaeger.enabled")].

Definition list_crd_names (fuel : nat) : job (list string) :=
  let! crds := KubeClient.list_pages fuel (λ lp,
    let! r := req (CrdsListMetadata lp) in lift ListCrds r) KubeClient.default_params in
  Ret (meta_name <$> crds).

Definition crd_exists (all_crd_names crd_set : list string) : bool :=
  existsb (λ name, bool_decide (name ∈ crd_set)) all_crd_names.

(** [safe_crd_install] *)
Definition safe_crd_install (fuel : nat) (file : string) (yq : YqV4) : job unit :=
  do! forM_ (λ s : list string * string, do! key s.2 in Ret tt) crd_sets in
  do! KubeClient.crds_api in
  let! all_crd_names := list_crd_names fuel in
  forM_ (λ s : list string * string,
    if crd_exists all_crd_names s.1 then set yq file s.2 (show_bool false) else Ret tt)
    (hash_order crd_sets).

(** The special cases of [generate_values_yaml_file], in its order; [file] is the
    merged values file. *)
Section Cases.
Variables (source_version target_version : Version) (source_values target_values : CoreValues).
Variables (yq : YqV4) (file : string).

(** versions 2.0.x *)
Definition case_2_0 (two_dot_o_rc_zero two_dot_one : Version) : job unit :=
  if v_ge source_version two_dot_o_rc_zero && v_lt source_version two_dot_one &&
     bool_decide (CoreValues__io_engine_log_level source_values = log_level_to_replace) &&
     bool_decide (CoreValues__io_engine_log_level target_values ≠ log_level_to_replace)
  then set yq file ".io_engine.logLevel" (CoreValues__io_engine_log_level target_values)
  else Ret tt.

(** to-version >= 2.1.x *)
Definition case_2_1 (two_dot_one : Version) : job unit :=
  if v_ge target_version two_dot_one then
    do! set yq file ".image.repoTags.controlPlane" (CoreValues__control_plane_repotag target_values) in
    do! set yq file ".image.repoTags.dataPlane" (CoreValues__data_plane_repotag target_values) in
    set yq file ".image.repoTags.extensions" (CoreValues__extensions_repotag target_values)
  else Ret tt.

(** versions 2.3.x *)
Definition case_2_3 (two_dot_three two_dot_four : Version) : job unit :=
  if v_ge source_version two_dot_three && v_lt source_version two_dot_four &&
     negb (Bool.eqb (CoreValues__eventing_enabled source_values)
                    (CoreValues__eventing_enabled target_values))
  then set yq file ".eventing.enabled" (show_bool (CoreValues__eventing_enabled target_values))
  else Ret tt.

(** versions below 2.5 *)
Definition case_2_5 (two_dot_o_rc_zero two_dot_five : Version) : job unit :=
  if v_ge source_version two_dot_o_rc_zero && v_lt source_version two_dot_five then
    do! (if bool_decide (CoreValues__loki_stack_promtail_scrape_configs source_values =
                         scrape_configs_to_replace) &&
            bool_decide (CoreValues__loki_stack_promtail_scrape_configs target_values ≠
                         scrape_configs_to_replace)
         then set yq file ".loki-stack.promtail.config.snippets.scrapeConfigs"
                (CoreValues__loki_stack_promtail_scrape_configs target_values)
         else Ret tt) in
    (if bool_decide (CoreValues__csi_node_nvme_io_timeout source_values = io_timeout_to_replace) &&
        bool_decide (CoreValues__csi_node_nvme_io_timeout target_values ≠ io_timeout_to_replace)
     then set yq file ".csi.node.nvme.io_timeout" (CoreValues__csi_node_nvme_io_timeout target_values)
     else Ret tt)
  else Ret tt.

(** versions below 2.6: the localpv-provisioner chart *)
Definition localpv_2_6 : job unit :=
  if bool_decide (CoreValues__localpv_release_version source_values = localpv_version_to_replace) &&
     bool_decide (CoreValues__localpv_release_version target_values ≠ localpv_version_to_replace)
  then
    do! set yq file ".localpv-provisioner.release.version"
          (CoreValues__localpv_release_version target_values) in
    do! set yq file ".localpv-provisioner.localpv.image.tag"
          (CoreValues__localpv_provisioner_image_tag target_values) in
    set yq file ".localpv-provisioner.helperPod.image.tag"
      (CoreValues__localpv_helper_image_tag target_values)
  else Ret tt.

(** versions below 2.6: the image tags of the loki-stack charts *)
Definition image_tags_2_6 : job unit :=
  do! set yq file ".loki-stack.loki.image.tag" (CoreValues__loki_stack_loki_image_tag target_values) in
  do! set yq file ".loki-stack.filebeat.imageTag" (CoreValues__filebeat_image_tag target_values) in
  do! set yq file ".loki-stack.logstash.imageTag" (CoreValues__logstash_image_tag target_values) in
  do! set yq file ".loki-stack.grafana.downloadDashboardsImage.tag"
        (CoreValues__grafana_download_dashboards_image_tag target_values) in
  do! set yq file ".loki-stack.grafana.image.tag" (CoreValues__grafana_image_tag target_values) in
  do! set yq file ".loki-stack.grafana.sidecar.image.tag"
        (CoreValues__grafana_sidecar_image_tag target_values) in
  do! set yq file ".loki-stack.prometheus.alertmanager.image.tag"
        (CoreValues__prometheus_alertmanager_image_tag target_values) in
  do! set yq file ".loki-stack.prometheus.nodeExporter.image.tag"
        (CoreValues__prometheus_node_exporter_image_tag target_values) in
  do! set yq file ".loki-stack.prometheus.pushgateway.image.tag"
        (CoreValues__prometheus_pushgateway_image_tag target_values) in
  set yq file ".loki-stack.prometheus.server.image.tag"
    (CoreValues__prometheus_server_image_tag target_values).

(** [for container in target_values.promtail_init_container()] *)
Definition init_containers_2_6 : job unit :=
  forM_ (λ container,
    let! init_container := lift (λ e, SerializePromtailInitContainerToJson e
                                        (container_show container)) (container_to_json container) in
    let! k := key ".loki-stack.promtail.initContainer" in
    append_to_object yq k init_container file)
    (CoreValues__promtail_init_container target_values).

(** versions below 2.6: keys which were renamed or removed *)
Definition renamed_keys_2_6 : job unit :=
  do! set yq file ".loki-stack.promtail.readinessProbe.httpGet.path"
        (CoreValues__promtail_readiness_probe_http_get_path target_values) in
  do! set yq file ".base.logging.silenceLevel"
        (CoreValues__deprecated_log_silence_level source_values) in
  do! del yq file ".base.logSilenceLevel" in
  do! set yq file ".csi.node.pluginMountPath"
        (CoreValues__deprecated_node_csi_mount_path source_values) in
  do! del yq file ".csi.node.pluginMounthPath" in
  set yq file ".jaeger-operator.image.tag" (CoreValues__jaeger_operator_image_tag source_values).

Definition case_2_6 (two_dot_o_rc_zero two_dot_six : Version) : job unit :=
  if v_ge source_version two_dot_o_rc_zero && v_lt source_version two_dot_six then
    do! localpv_2_6 in
    do! image_tags_2_6 in
    do! del yq file ".loki-stack.loki.config.ingester.lifecycler.ring.kvstore" in
    do! del yq file ".loki-stack.promtail.config.snippets.extraClientConfigs" in
    do! del yq file ".loki-stack.promtail.initContainer" in
    do! loki_address_to_clients source_values file yq in
    do! set yq file ".loki-stack.promtail.config.file"
          (CoreValues__loki_stack_promtail_config_file target_values) in
    do! init_containers_2_6 in
    renamed_keys_2_6
  else Ret tt.

(** the default options *)
Definition default_options : job unit :=
  do! set yq file ".image.tag" (CoreValues__image_tag target_values) in
  do! set yq file ".csi.image.provisionerTag" (CoreValues__csi_provisioner_image_tag target_values) in
  do! set yq file ".csi.image.attacherTag" (CoreValues__csi_attacher_image_tag target_values) in
  do! set yq file ".csi.image.snapshotterTag" (CoreValues__csi_snapshotter_image_tag target_values) in
  do! set yq file ".csi.image.snapshotControllerTag"
        (CoreValues__csi_snapshot_controller_image_tag target_values) in
  do! set yq file ".csi.image.registrarTag"
        (CoreValues__csi_node_driver_registrar_image_tag target_values) in
  set yq file ".csi.image.resizerTag" (CoreValues__csi_resizer_image_tag target_values).
End Cases.

Definition generate_values_yaml_file (fuel : nat)
    (source_version target_version : Version) (source_values target_values : CoreValues)
    (source_values_buf : bytes) (target_values_filepath chart_dir : string) : job string :=
  let! source_values_file := write_to_tempfile (Some chart_dir) source_values_buf in
  let! yq := Yq.new in
  let! upgrade_values_yaml := merge_files yq source_values_file target_values_filepath in
  let! file := write_to_tempfile (Some chart_dir) upgrade_values_yaml in
  let! two_dot_o_rc_zero := parse_version TWO_DOT_O_RC_ONE in
  let! two_dot_one := parse_version TWO_DOT_ONE in
  do! case_2_0 source_version source_values target_values yq file two_dot_o_rc_zero two_dot_one in
  do! case_2_1 target_version target_values yq file two_dot_one in
  let! two_dot_three := parse_version TWO_DOT_THREE in
  let! two_dot_four := parse_version TWO_DOT_FOUR in
  do! case_2_3 source_version source_values target_values yq file two_dot_three two_dot_four in
  let! two_dot_five := parse_version TWO_DOT_FIVE in
  do! case_2_5 source_version source_values target_values yq file two_dot_o_rc_zero two_dot_five in
  let! two_dot_six := parse_version TWO_DOT_SIX in
  do! case_2_6 source_version source_values target_values yq file two_dot_o_rc_zero two_dot_six in
  do! default_options target_values yq file in
  do! safe_crd_install fuel file yq in
  Ret file.
End Values.
End HelmValues.
