(* ===== verification/HelmValuesSpec.v ===== *)
(** * The upgrade job: which edits the values file receives

    The specification of [helm/values.rs] and the proof that the code implements
    it: [edits] lists the edits of the merged values file as data; the commands of
    every successful run of [generate_values_yaml_file] are the merge followed by
    exactly these edits, in this order ([generate_values_refines]).  What the edits
    do to single keys is then a property of lists. *)

From S2P Require Import Prelude Semver Text JobApi HelmChart HelmClient HelmValues.
From stdpp Require Import base gmap list strings.
From Stdlib Require Import ZArith Lia Ascii.
Open Scope string_scope.

(** ** Commands of a run *)
Definition command : Type := string * list string * list (string * string).

Definition command_of (e : ev JobSig) : option command :=
  match e with
  | Ev c _ => match c with RunCommand cmd args env => Some (cmd, args, env) | _ => None end
  end.
Definition commands (tr : list (ev JobSig)) : list command := omap command_of tr.

(** [issues p Q]: a successful run of [p] issues commands and has a result which
    satisfy [Q]. *)
Definition issues {A} (p : job A) (Q : list command → A → Prop) : Prop :=
  ∀ tr a, exec p tr (Done a) → Q (commands tr) a.

Section Issues.
Lemma commands_app tr tr' : commands (tr ++ tr')%list = (commands tr ++ commands tr')%list.
Proof. apply omap_app. Qed.

Lemma issues_bind {A B} (p : job A) (f : A → job B) P Q :
  issues p P → (∀ l a, P l a → issues (f a) (λ l', Q (l ++ l')%list)) → issues (bind f p) Q.
Proof.
  intros Hp Hf tr b Hx.
  apply exec_bind_inv in Hx as [(a & t1 & t2 & H1 & H2 & ->)|[(e & _ & ?)|[[_ ?]|[_ ?]]]]; try done.
  rewrite commands_app. by apply (Hf (commands t1) a); [apply Hp|].
Qed.

Lemma issues_ret {A} (a : A) (Q : list command → A → Prop) : Q [] a → issues (Ret a) Q.
Proof. intros HQ tr b [[_ ?]|[-> ?]]; by simplify_eq. Qed.

Lemma issues_throw {A} e (Q : list command → A → Prop) : issues (Throw e) Q.
Proof. intros tr b [[_ ?]|[_ ?]]; done. Qed.

Lemma issues_weaken {A} (p : job A) (P Q : list command → A → Prop) :
  issues p P → (∀ l a, P l a → Q l a) → issues p Q.
Proof. intros Hp HPQ tr a Hx. by apply HPQ, Hp. Qed.

Lemma issues_req c (Q : list command → job_res c → Prop) :
  (∀ r, Q (commands [Ev (S:=JobSig) c r]) r) → issues (req c) Q.
Proof. intros HQ tr r Hx. apply (exec_call_inv (S:=JobSig) (E:=Error) c) in Hx as ->. apply HQ. Qed.

Lemma issues_lift {X A} (f : X → Error) (r : X + A) Q :
  (∀ a, r = inr a → Q [] a) → issues (lift f r) Q.
Proof. intros HQ. destruct r; [apply issues_throw|by apply issues_ret, HQ]. Qed.

Lemma issues_ok_or {A} e (o : option A) Q :
  (∀ a, o = Some a → Q [] a) → issues (ok_or e o) Q.
Proof. intros HQ. destruct o; [by apply issues_ret, HQ|apply issues_throw]. Qed.

(** A program which issues exactly the commands [l]. *)
Definition exactly {A} (p : job A) (l : list command) : Prop := issues p (λ l' _, l' = l).

Lemma exactly_seq {A B} (p : job A) (q : job B) l1 l2 :
  exactly p l1 → exactly q l2 → exactly (bind (λ _, q) p) (l1 ++ l2)%list.
Proof.
  intros Hp Hq. eapply issues_bind; [exact Hp|]. cbn. intros l _ ->.
  eapply issues_weaken; [exact Hq|]. by intros ? _ ->.
Qed.

(** A program without commands in front. *)
Lemma exactly_bind0 {A B} (p : job A) (f : A → job B) (P : A → Prop) l :
  issues p (λ l' a, l' = [] ∧ P a) → (∀ a, P a → exactly (f a) l) → exactly (bind f p) l.
Proof. intros Hp Hf. eapply issues_bind; [exact Hp|]. cbn. intros ? a [-> ?]. by apply Hf. Qed.

Lemma exactly_if {A} (b : bool) (p q : job A) l l' :
  exactly p l → exactly q l' → exactly (if b then p else q) (if b then l else l').
Proof. by destruct b. Qed.

Lemma exactly_ret {A} (a : A) : exactly (Ret a) [].
Proof. by apply issues_ret. Qed.

Lemma exactly_forM {X} (f : X → job unit) g l :
  (∀ x, x ∈ l → exactly (f x) (g x)) → exactly (forM_ f l) (concat (g <$> l)).
Proof.
  unfold forM_. induction l as [|x l IH]; intros Hf; [apply exactly_ret|].
  cbn. eapply issues_bind; [apply Hf; by left|]. cbn. intros ? [] ->.
  eapply issues_weaken; [apply IH; intros y Hy; apply Hf; by right|]. by intros ? _ ->.
Qed.
End Issues.

(** A program which cannot issue commands. *)
Definition silent (c : op JobSig) : bool := match c with RunCommand _ _ _ => false | _ => true end.

Lemma commands_silent {A} (p : job A) tr o : uses silent p → exec p tr o → commands tr = [].
Proof.
  intros Hu Hx. pose proof (uses_sound silent p tr o Hu Hx) as Hall. clear Hx.
  induction Hall as [|[c r] tr' Hc _ IH]; [done|].
  unfold commands in *. destruct c.
  all: first [discriminate Hc | exact IH].
Qed.

Lemma exactly_eq {A} (p : job A) l l' : exactly p l → l = l' → exactly p l'.
Proof. by intros ? <-. Qed.

(** ** Edits *)
Inductive edit :=
| ESet (key value : string)
| EDel (key : string)
| EAppendArray (key value : string)
| EAppendObject (key value : string).

Definition edit_key (e : edit) : string :=
  match e with ESet k _ | EDel k | EAppendArray k _ | EAppendObject k _ => k end.

Definition yq4 : Yq.YqV4 := Yq.mkYqV4 "yq".

Definition render (file : string) (e : edit) : command :=
  match e with
  | ESet k v => ("yq", ["-i"; Yq.set_literal_expr k v; file], (Yq.literal v).2)
  | EDel k => ("yq", ["-i"; Yq.delete_object_expr k; file], [])
  | EAppendArray k v => ("yq", ["-i"; Yq.append_to_array_expr k v; file], [])
  | EAppendObject k v => ("yq", ["-i"; Yq.append_to_object_expr k v; file], [])
  end.

Definition when (b : bool) (l : list edit) : list edit := if b then l else [].

(** ** The specification of the edits *)
Section Edits.
Context `{Semver} `{SJ : SerdeJson}.

(** A version as the constants of the code write it. *)
Definition from (v : Version) (s : string) : bool :=
  match version_parse s with inr b => v_ge v b | inl _ => false end.
Definition below (v : Version) (s : string) : bool :=
  match version_parse s with inr b => v_lt v b | inl _ => false end.

(** The old default [d] of a value is replaced, another value of the user is kept. *)
Definition old_default (source target d : string) : bool :=
  bool_decide (source = d) && bool_decide (target ≠ d).

Definition json_of {X} (r : X + string) : string := match r with inr s => s | inl _ => "" end.

Section Lists.
Variables (sv tv : Version) (s t : CoreValues).

Definition edits_2_0 : list edit :=
  when (from sv TWO_DOT_O_RC_ONE && below sv TWO_DOT_ONE &&
        old_default (CoreValues__io_engine_log_level s) (CoreValues__io_engine_log_level t)
          log_level_to_replace)
    [ESet ".io_engine.logLevel" (CoreValues__io_engine_log_level t)].

Definition edits_2_1 : list edit :=
  when (from tv TWO_DOT_ONE)
    [ESet ".image.repoTags.controlPlane" (CoreValues__control_plane_repotag t);
     ESet ".image.repoTags.dataPlane" (CoreValues__data_plane_repotag t);
     ESet ".image.repoTags.extensions" (CoreValues__extensions_repotag t)].

Definition edits_2_3 : list edit :=
  when (from sv TWO_DOT_THREE && below sv TWO_DOT_FOUR &&
        negb (Bool.eqb (CoreValues__eventing_enabled s) (CoreValues__eventing_enabled t)))
    [ESet ".eventing.enabled" (HelmValues.show_bool (CoreValues__eventing_enabled t))].

Definition edits_2_5 : list edit :=
  when (from sv TWO_DOT_O_RC_ONE && below sv TWO_DOT_FIVE)
    (when (old_default (CoreValues__loki_stack_promtail_scrape_configs s)
             (CoreValues__loki_stack_promtail_scrape_configs t) scrape_configs_to_replace)
       [ESet ".loki-stack.promtail.config.snippets.scrapeConfigs"
          (CoreValues__loki_stack_promtail_scrape_configs t)] ++
     when (old_default (CoreValues__csi_node_nvme_io_timeout s)
             (CoreValues__csi_node_nvme_io_timeout t) io_timeout_to_replace)
       [ESet ".csi.node.nvme.io_timeout" (CoreValues__csi_node_nvme_io_timeout t)])%list.

Definition edits_clients : list edit :=
  ([EDel ".loki-stack.promtail.config.clients";
    EAppendArray ".loki-stack.promtail.config.clients"
      (json_of (client_to_json (PromtailConfigClient__with_url
                  (CoreValues__loki_stack_promtail_loki_address s))))] ++
   when (negb (bool_decide (CoreValues__promtail_extra_client_configs s = "")))
     [EAppendObject ".loki-stack.promtail.config.clients[0]"
        (match json_from_yaml (CoreValues__promtail_extra_client_configs s) with
         | inr j => json_of (json_to_string j)
         | inl _ => ""
         end)] ++
   [EDel ".loki-stack.promtail.config.snippets.extraClientConfigs";
    EDel ".loki-stack.promtail.config.lokiAddress"])%list.

Definition edits_2_6 : list edit :=
  when (from sv TWO_DOT_O_RC_ONE && below sv TWO_DOT_SIX)
    (when (old_default (CoreValues__localpv_release_version s)
             (CoreValues__localpv_release_version t) localpv_version_to_replace)
       [ESet ".localpv-provisioner.release.version" (CoreValues__localpv_release_version t);
        ESet ".localpv-provisioner.localpv.image.tag" (CoreValues__localpv_provisioner_image_tag t);
        ESet ".localpv-provisioner.helperPod.image.tag" (CoreValues__localpv_helper_image_tag t)] ++
     [ESet ".loki-stack.loki.image.tag" (CoreValues__loki_stack_loki_image_tag t);
      ESet ".loki-stack.filebeat.imageTag" (CoreValues__filebeat_image_tag t);
      ESet ".loki-stack.logstash.imageTag" (CoreValues__logstash_image_tag t);
      ESet ".loki-stack.grafana.downloadDashboardsImage.tag"
        (CoreValues__grafana_download_dashboards_image_tag t);
      ESet ".loki-stack.grafana.image.tag" (CoreValues__grafana_image_tag t);
      ESet ".loki-stack.grafana.sidecar.image.tag" (CoreValues__grafana_sidecar_image_tag t);
      ESet ".loki-stack.prometheus.alertmanager.image.tag"
        (CoreValues__prometheus_alertmanager_image_tag t);
      ESet ".loki-stack.prometheus.nodeExporter.image.tag"
        (CoreValues__prometheus_node_exporter_image_tag t);
      ESet ".loki-stack.prometheus.pushgateway.image.tag"
        (CoreValues__prometheus_pushgateway_image_tag t);
      ESet ".loki-stack.prometheus.server.image.tag" (CoreValues__prometheus_server_image_tag t)] ++
     [EDel ".loki-stack.loki.config.ingester.lifecycler.ring.kvstore";
      EDel ".loki-stack.promtail.config.snippets.extraClientConfigs";
      EDel ".loki-stack.promtail.initContainer"] ++
     edits_clients ++
     [ESet ".loki-stack.promtail.config.file" (CoreValues__loki_stack_promtail_config_file t)] ++
     ((λ c, EAppendObject ".loki-stack.promtail.initContainer" (json_of (container_to_json c))) <$>
        CoreValues__promtail_init_container t) ++
     [ESet ".loki-stack.promtail.readinessProbe.httpGet.path"
        (CoreValues__promtail_readiness_probe_http_get_path t);
      ESet ".base.logging.silenceLevel" (CoreValues__deprecated_log_silence_level s);
      EDel ".base.logSilenceLevel";
      ESet ".csi.node.pluginMountPath" (CoreValues__deprecated_node_csi_mount_path s);
      EDel ".csi.node.pluginMounthPath";
      ESet ".jaeger-operator.image.tag" (CoreValues__jaeger_operator_image_tag s)])%list.

Definition edits_default : list edit :=
  [ESet ".image.tag" (CoreValues__image_tag t);
   ESet ".csi.image.provisionerTag" (CoreValues__csi_provisioner_image_tag t);
   ESet ".csi.image.attacherTag" (CoreValues__csi_attacher_image_tag t);
   ESet ".csi.image.snapshotterTag" (CoreValues__csi_snapshotter_image_tag t);
   ESet ".csi.image.snapshotControllerTag" (CoreValues__csi_snapshot_controller_image_tag t);
   ESet ".csi.image.registrarTag" (CoreValues__csi_node_driver_registrar_image_tag t);
   ESet ".csi.image.resizerTag" (CoreValues__csi_resizer_image_tag t)].

Definition edits : list edit :=
  (edits_2_0 ++ edits_2_1 ++ edits_2_3 ++ edits_2_5 ++ edits_2_6 ++ edits_default)%list.
End Lists.

(** The toggles which are switched off for CRDs already in the cluster. *)
Definition toggles (crds : list string) (order : list (list string * string)) : list edit :=
  concat ((λ set, when (HelmValues.crd_exists crds set.1) [ESet set.2 "false"]) <$> order).
End Edits.

(** ** The code implements the specification *)
Module HelmValuesRefinement.
Import Yq HelmValues.
Section Refinement.
Context `{Semver} `{SJ : SerdeJson} `{RegexCrate} `{HashOrder}.

Lemma issues_key k : issues (key k) (λ l a, l = [] ∧ a = mkYamlKey k).
Proof.
  apply issues_lift. intros a. unfold YamlKey_try_from.
  destruct (regex_search yaml_key_regex k) as [|[]]; by intros [= <-].
Qed.

Lemma exactly_success output fail : exactly (ensure_success output fail) [].
Proof.
  unfold ensure_success. destruct (success output); [apply exactly_ret|].
  eapply exactly_bind0 with (P := λ _, True); [by apply issues_ok_or|].
  intros. apply issues_throw.
Qed.

Lemma issues_command env args :
  issues (command_output yq4 env args) (λ l _, l = [("yq", args, env)]).
Proof.
  unfold command_output. eapply issues_bind; [apply (issues_req (RunCommand "yq" args env)
    (λ l _, l = [("yq", args, env)])); done|].
  cbn. intros l a ->. by apply issues_lift.
Qed.

Lemma exactly_edit env expression file fail :
  exactly (edit_in_place yq4 env expression file fail) [("yq", ["-i"; expression; file], env)].
Proof.
  unfold edit_in_place. eapply issues_bind; [apply issues_command|]. cbn. intros l output ->.
  eapply issues_weaken; [apply exactly_success|]. by intros ? [] ->.
Qed.

(** An operation on a checked key. *)
Lemma exactly_keyed k (f : YamlKey → job unit) l :
  exactly (f (mkYamlKey k)) l → exactly (bind f (key k)) l.
Proof. intros Hf. eapply exactly_bind0; [apply issues_key|]. cbn. by intros ? ->. Qed.

Lemma exactly_set file k v : exactly (set yq4 file k v) (render file <$> [ESet k v]).
Proof. apply exactly_keyed, exactly_edit. Qed.
Lemma exactly_del file k : exactly (del yq4 file k) (render file <$> [EDel k]).
Proof. apply exactly_keyed, exactly_edit. Qed.

(** Sequences and conditions of edits. *)
Lemma edits_seq {A B} (p : job A) (q : job B) file l1 l2 :
  exactly p (render file <$> l1) → exactly q (render file <$> l2) →
  exactly (bind (λ _, q) p) (render file <$> (l1 ++ l2)%list).
Proof. intros ??. rewrite fmap_app. by apply exactly_seq. Qed.

Lemma edits_when (b : bool) (p : job unit) file l :
  exactly p (render file <$> l) → exactly (if b then p else Ret tt) (render file <$> when b l).
Proof. intros Hp. destruct b; [exact Hp|apply exactly_ret]. Qed.

Lemma issues_parse s : issues (parse_version s) (λ l v, l = [] ∧ version_parse s = inr v).
Proof. by apply issues_lift. Qed.

Lemma from_parsed v s b : version_parse s = inr b → from v s = v_ge v b.
Proof. unfold from. by intros ->. Qed.
Lemma below_parsed v s b : version_parse s = inr b → below v s = v_lt v b.
Proof. unfold below. by intros ->. Qed.
End Refinement.

(** Walk a program of edits along its list of edits. *)
Ltac split_edit l :=
  lazymatch l with
  | ?e :: ?l' => apply (edits_seq _ _ _ [e] l')
  | app [?e] ?l2 => apply (edits_seq _ _ _ [e] l2)
  | app (?e :: ?l') ?l2 => apply (edits_seq _ _ _ [e] (app l' l2))
  end.
Ltac edits_step :=
  first
    [ apply exactly_set | apply exactly_del | apply exactly_ret
    | apply edits_when
    | lazymatch goal with
      | |- exactly (bind _ (set _ _ _ _)) (_ <$> ?l) => split_edit l
      | |- exactly (bind _ (del _ _ _)) (_ <$> ?l) => split_edit l
      end
    | apply edits_seq ].
Ltac solve_edits := repeat edits_step.

Section Cases.
Context `{Semver} `{SJ : SerdeJson} `{RegexCrate} `{HashOrder}.
Variables (sv tv : Version) (s t : CoreValues) (file : string).

Lemma case_2_0_edits a b :
  version_parse TWO_DOT_O_RC_ONE = inr a → version_parse TWO_DOT_ONE = inr b →
  exactly (case_2_0 sv s t yq4 file a b) (render file <$> edits_2_0 sv s t).
Proof.
  intros Ha Hb. unfold case_2_0, edits_2_0, old_default.
  rewrite (from_parsed _ _ _ Ha), (below_parsed _ _ _ Hb), andb_assoc. solve_edits.
Qed.

Lemma case_2_1_edits b :
  version_parse TWO_DOT_ONE = inr b →
  exactly (case_2_1 tv t yq4 file b) (render file <$> edits_2_1 tv t).
Proof.
  intros Hb. unfold case_2_1, edits_2_1. rewrite (from_parsed _ _ _ Hb). solve_edits.
Qed.

Lemma case_2_3_edits a b :
  version_parse TWO_DOT_THREE = inr a → version_parse TWO_DOT_FOUR = inr b →
  exactly (case_2_3 sv s t yq4 file a b) (render file <$> edits_2_3 sv s t).
Proof.
  intros Ha Hb. unfold case_2_3, edits_2_3.
  rewrite (from_parsed _ _ _ Ha), (below_parsed _ _ _ Hb). solve_edits.
Qed.

Lemma case_2_5_edits a b :
  version_parse TWO_DOT_O_RC_ONE = inr a → version_parse TWO_DOT_FIVE = inr b →
  exactly (case_2_5 sv s t yq4 file a b) (render file <$> edits_2_5 sv s t).
Proof.
  intros Ha Hb. unfold case_2_5, edits_2_5, old_default.
  rewrite (from_parsed _ _ _ Ha), (below_parsed _ _ _ Hb). solve_edits.
Qed.

Lemma loki_address_to_clients_edits :
  exactly (loki_address_to_clients s file yq4) (render file <$> edits_clients s).
Proof.
  unfold loki_address_to_clients, edits_clients.
  apply exactly_keyed. apply (edits_seq _ _ _ [EDel _]); [apply exactly_edit|].
  eapply exactly_bind0; [apply issues_lift; intros j Hj; exact (conj eq_refl Hj)|].
  cbn beta. intros j ->. apply (edits_seq _ _ _ [EAppendArray _ _]); [apply exactly_edit|].
  apply edits_seq; [|solve_edits].
  destruct (decide (CoreValues__promtail_extra_client_configs s = "")) as [He|He].
  { rewrite He. apply exactly_ret. }
  rewrite bool_decide_false by done. cbn [negb when].
  eapply exactly_bind0; [apply issues_lift; intros j' Hj; exact (conj eq_refl Hj)|].
  cbn beta. intros j' ->.
  eapply exactly_bind0; [apply issues_lift; intros js Hj; exact (conj eq_refl Hj)|].
  cbn beta. intros js ->. apply exactly_keyed, exactly_edit.
Qed.

Lemma init_containers_edits :
  exactly (init_containers_2_6 t yq4 file)
    (render file <$> ((λ c, EAppendObject ".loki-stack.promtail.initContainer"
       (json_of (container_to_json c))) <$> CoreValues__promtail_init_container t)).
Proof.
  unfold init_containers_2_6. eapply exactly_eq.
  - apply exactly_forM with (g := λ c, [render file (EAppendObject
      ".loki-stack.promtail.initContainer" (json_of (container_to_json c)))]).
    intros c _. eapply exactly_bind0; [apply issues_lift; intros j Hj; exact (conj eq_refl Hj)|].
    cbn beta. intros j ->. apply exactly_keyed, exactly_edit.
  - induction (CoreValues__promtail_init_container t) as [|c l IH]; [done|].
    csimpl. f_equal. exact IH.
Qed.

Lemma case_2_6_edits a b :
  version_parse TWO_DOT_O_RC_ONE = inr a → version_parse TWO_DOT_SIX = inr b →
  exactly (case_2_6 sv s t yq4 file a b) (render file <$> edits_2_6 sv s t).
Proof.
  intros Ha Hb. unfold case_2_6, edits_2_6, old_default.
  rewrite (from_parsed _ _ _ Ha), (below_parsed _ _ _ Hb). apply edits_when.
  apply edits_seq; [unfold localpv_2_6; solve_edits|].
  apply edits_seq; [unfold image_tags_2_6; solve_edits|].
  solve_edits; [apply loki_address_to_clients_edits|apply init_containers_edits|].
  unfold renamed_keys_2_6. solve_edits.
Qed.
Lemma default_options_edits :
  exactly (default_options t yq4 file) (render file <$> edits_default t).
Proof. unfold default_options, edits_default. solve_edits. Qed.

Lemma write_to_tempfile_done dir buf tr h :
  exec (write_to_tempfile dir buf) tr (Done h) →
  ∃ n, tr = [Ev (S:=JobSig) (TempFileNewIn dir) (inr h); Ev (S:=JobSig) (FileWrite h buf) (inr n)].
Proof.
  unfold write_to_tempfile. intros Hx. job_inv.
  eauto.
Qed.

Lemma ensure_success_done output fail tr a :
  exec (ensure_success output fail) tr (Done a) → tr = [] ∧ output.(success) = true.
Proof.
  unfold ensure_success. destruct (success output); intros Hx; job_inv; done.
Qed.

Lemma yq_new_done tr yq :
  exec Yq.new tr (Done yq) →
  yq = yq4 ∧ ∃ out, tr = [Ev (S:=JobSig) (RunCommand "yq" ["-V"] []) (inr out)].
Proof.
  unfold Yq.new, command_output, utf8. intros Hx. job_inv.
  repeat match goal with H : exec (ensure_success _ _) _ _ |- _ =>
    apply ensure_success_done in H as [-> ?] end. cbn. eauto.
Qed.

Lemma merge_files_done high low tr merged :
  exec (merge_files yq4 high low) tr (Done merged) →
  ∃ err, tr = [Ev (S:=JobSig) (RunCommand "yq" (merge_args high low) [])
                 (inr (mkOutput true merged err))].
Proof.
  unfold merge_files, command_output. intros Hx. job_inv.
  repeat match goal with H : exec (ensure_success _ _) _ _ |- _ =>
    apply ensure_success_done in H as [-> ?] end.
  match goal with o : Output |- _ => destruct o; cbn in *; subst end. eauto.
Qed.

Lemma uses_keys (l : list (list string * string)) :
  uses silent (forM_ (λ s : list string * string, do! key s.2 in Ret tt) l).
Proof. unfold forM_, key. solve_uses. Qed.
Lemma uses_crds_api : uses silent KubeClient.crds_api.
Proof. unfold KubeClient.crds_api, KubeClient.client, req. solve_uses. Qed.
Lemma uses_list_crds fuel : uses silent (list_crd_names fuel).
Proof. unfold list_crd_names, KubeClient.list_pages, req. solve_uses. Qed.

Lemma toggles_edits crds l :
  exactly (forM_ (λ s : list string * string,
      if crd_exists crds s.1 then set yq4 file s.2 (show_bool false) else Ret tt) l)
    (render file <$> toggles crds l).
Proof.
  eapply exactly_eq.
  - apply exactly_forM with
      (g := λ s : list string * string, render file <$> when (crd_exists crds s.1) [ESet s.2 "false"]).
    intros [] _. solve_edits.
  - unfold toggles. induction l as [|x l IH]; [done|]. csimpl. by rewrite fmap_app, IH.
Qed.

(** The CRD toggles: the listing issues no command, then the toggles of the sets
    found. *)
Lemma safe_crd_install_done fuel tr a :
  exec (safe_crd_install fuel file yq4) tr (Done a) →
  ∃ t1 tc t2 crds, tr = (t1 ++ tc ++ t2)%list ∧ exec (list_crd_names fuel) tc (Done crds) ∧
    commands (t1 ++ tc)%list = [] ∧
    commands t2 = render file <$> toggles crds (hash_order crd_sets).
Proof.
  unfold safe_crd_install. intros Hx.
  apply exec_bind_done in Hx as ([] & t1 & ? & Hk & Hx & ->).
  apply exec_bind_done in Hx as ([] & t1' & ? & Ha & Hx & ->).
  apply exec_bind_done in Hx as (crds & tc & t2 & Hl & Hx & ->).
  exists (t1 ++ t1')%list, tc, t2, crds. split_and!; [by rewrite <-app_assoc|done| |].
  - rewrite !commands_app, (commands_silent _ _ _ (uses_keys crd_sets) Hk),
      (commands_silent _ _ _ uses_crds_api Ha), (commands_silent _ _ _ (uses_list_crds fuel) Hl).
    done.
  - by apply (toggles_edits crds (hash_order crd_sets) _ tt); destruct a.
Qed.
End Cases.
End HelmValuesRefinement.

(** ** What the edits do to single keys *)
Module ValuesSpec.
Import Yq HelmValues HelmValuesRefinement.

(** The segments of a key: [.a.b[0]] is [a], [b], [0]]. *)
Fixpoint segments (l : list ascii) : list (list ascii) :=
  match l with
  | [] => [[]]
  | a :: l' =>
      if bool_decide (a = "."%char ∨ a = "["%char) then [] :: segments l'
      else match segments l' with [] => [[a]] | x :: xs => (a :: x) :: xs end
  end.

Fixpoint is_prefix (p l : list (list ascii)) : bool :=
  match p, l with
  | [], _ => true
  | x :: p', y :: l' => bool_decide (x = y) && is_prefix p' l'
  | _ :: _, [] => false
  end.

(** An edit of one key changes the value at the other: one is a prefix of the
    other. *)
Definition overlaps (k k' : string) : bool :=
  let s := segments (chars k) in
  let s' := segments (chars k') in
  is_prefix s s' || is_prefix s' s.

Definition touching (k : string) (l : list edit) : list edit :=
  base.filter (λ e, overlaps k (edit_key e) = true) l.

(** Invert the next step of the generation: a version constant, or a group of edits. *)
Ltac next_version Hx v E :=
  let Hv := fresh in
  apply exec_bind_done in Hx as (v & ? & ? & Hv & Hx & ->);
  apply exec_lift_done in Hv as [-> E]; rewrite app_nil_l.
Ltac next_edits Hx tr lem :=
  let Hv := fresh in
  let u := fresh in
  apply exec_bind_done in Hx as (u & tr & ? & Hv & Hx & ->); apply lem in Hv; cbn beta in Hv.

Section Spec.
Context `{Semver} `{SJ : SerdeJson} `{RegexCrate} `{HashOrder}.

(** A successful run: the merge, the edits, the toggles. *)
Lemma generate_values_trace fuel sv tv s t buf tvf dir tr file :
  exec (generate_values_yaml_file fuel sv tv s t buf tvf dir) tr (Done file) →
  ∃ src n1 ver merged err n2 t1 tc t2 crds,
    tr = ([Ev (S:=JobSig) (TempFileNewIn (Some dir)) (inr src);
           Ev (S:=JobSig) (FileWrite src buf) (inr n1);
           Ev (S:=JobSig) (RunCommand "yq" ["-V"] []) (inr ver);
           Ev (S:=JobSig) (RunCommand "yq" (merge_args src tvf) []) (inr (mkOutput true merged err));
           Ev (S:=JobSig) (TempFileNewIn (Some dir)) (inr file);
           Ev (S:=JobSig) (FileWrite file merged) (inr n2)] ++ t1 ++ tc ++ t2)%list ∧
    exec (list_crd_names fuel) tc (Done crds) ∧
    commands t1 = render file <$> edits sv tv s t ∧ commands tc = [] ∧
    commands t2 = render file <$> toggles crds (hash_order crd_sets).
Proof.
  unfold generate_values_yaml_file. intros Hx.
  apply exec_bind_done in Hx as (src & ? & ? & Hs & Hx & ->).
  apply write_to_tempfile_done in Hs as [n1 ->].
  apply exec_bind_done in Hx as (yq & ? & ? & Hs & Hx & ->).
  apply yq_new_done in Hs as (-> & ver & ->).
  apply exec_bind_done in Hx as (merged & ? & ? & Hs & Hx & ->).
  apply merge_files_done in Hs as [err ->].
  apply exec_bind_done in Hx as (file' & ? & rest & Hs & Hx & ->).
  apply write_to_tempfile_done in Hs as [n2 ->].
  cut (file' = file ∧ ∃ t1 tc t2 crds, rest = (t1 ++ tc ++ t2)%list ∧
    exec (list_crd_names fuel) tc (Done crds) ∧
    commands t1 = render file <$> edits sv tv s t ∧ commands tc = [] ∧
    commands t2 = render file <$> toggles crds (hash_order crd_sets)).
  { intros (-> & t1 & tc & t2 & crds & -> & ?). exists src, n1, ver, merged, err, n2, t1, tc, t2, crds.
    split_and!; [done|tauto..]. }
  clear -Hx.
  next_version Hx v20 E20. next_version Hx v21 E21.
  next_edits Hx t20 (case_2_0_edits sv s t file' v20 v21 E20 E21).
  next_edits Hx t21 (case_2_1_edits tv t file' v21 E21).
  next_version Hx v23 E23. next_version Hx v24 E24.
  next_edits Hx t23 (case_2_3_edits sv s t file' v23 v24 E23 E24).
  next_version Hx v25 E25.
  next_edits Hx t25 (case_2_5_edits sv s t file' v20 v25 E20 E25).
  next_version Hx v26 E26.
  next_edits Hx t26 (case_2_6_edits sv s t file' v20 v26 E20 E26).
  next_edits Hx tdef (default_options_edits t file').
  apply exec_bind_done in Hx as ([] & tcrd & ? & Hcrd & Hx & ->).
  apply exec_ret_done in Hx as [-> ->].
  apply safe_crd_install_done in Hcrd as (t1 & tc & t2 & crds & -> & Hl & Hnil & Ht2).
  rewrite commands_app in Hnil. apply app_nil in Hnil as [Hn1 Hn2].
  split; [done|]. exists (t20 ++ t21 ++ t23 ++ t25 ++ t26 ++ tdef ++ t1)%list, tc, t2, crds.
  split_and!; [by rewrite <-!(assoc_L app), ?app_nil_r|done| |done|done].
  unfold edits. rewrite !commands_app, !fmap_app, Hn1, app_nil_r. congruence.
Qed.

(** The commands of a run which edits [file]: the version of [yq], the merge, and
    the edits. *)
Definition edited (tr : list (ev JobSig)) (tvf file : string) (es : list edit) : Prop :=
  ∃ src, commands tr =
    (("yq", ["-V"], []) :: ("yq", merge_args src tvf, []) :: (render file <$> es))%list.

Lemma generated_edits fuel sv tv s t buf tvf dir tr file :
  exec (generate_values_yaml_file fuel sv tv s t buf tvf dir) tr (Done file) →
  ∃ crds, edited tr tvf file (edits sv tv s t ++ toggles crds (hash_order crd_sets))%list.
Proof.
  intros (src & n1 & ver & merged & err & n2 & t1 & tc & t2 & crds & -> & _ & H1' & H2' & H3')%generate_values_trace.
  exists crds, src. rewrite !commands_app, H1', H2', H3', fmap_app. done.
Qed.

(** C3: The values file passed to [helm upgrade] is what the specification says: in
    every successful run the values of the installed release are written to a
    temporary file, merged over the chart's defaults with a [yq] of version 4, the
    result of the merge is written to a second temporary file, which is the one
    returned, and the commands after that are exactly the edits of the
    specification on that file, in order, with the CRD toggles (for the CRDs
    listed from the cluster) last. *)
Theorem generate_values_refines fuel sv tv s t buf tvf dir tr file :
  exec (generate_values_yaml_file fuel sv tv s t buf tvf dir) tr (Done file) →
  ∃ src n1 ver merged err n2 t1 tc t2 crds,
    tr = ([Ev (S:=JobSig) (TempFileNewIn (Some dir)) (inr src);
           Ev (S:=JobSig) (FileWrite src buf) (inr n1);
           Ev (S:=JobSig) (RunCommand "yq" ["-V"] []) (inr ver);
           Ev (S:=JobSig) (RunCommand "yq" (merge_args src tvf) []) (inr (mkOutput true merged err));
           Ev (S:=JobSig) (TempFileNewIn (Some dir)) (inr file);
           Ev (S:=JobSig) (FileWrite file merged) (inr n2)] ++ t1 ++ tc ++ t2)%list ∧
    exec (list_crd_names fuel) tc (Done crds) ∧
    commands t1 = render file <$> edits sv tv s t ∧ commands tc = [] ∧
    commands t2 = render file <$> toggles crds (hash_order crd_sets).
Proof. apply generate_values_trace. Qed.

(** Edits whose keys do not overlap. *)
Definition apart (k : string) (l : list edit) : Prop :=
  Forall (λ e, overlaps k (edit_key e) = false) l.

Lemma apart_touching k l : apart k l → touching k l = [].
Proof.
  intros Hl. apply list_filter_none. intros e He. unfold apart in Hl.
  rewrite Forall_forall in Hl. rewrite (Hl e He). done.
Qed.

Lemma apart_app k l l' : apart k l → apart k l' → apart k (l ++ l')%list.
Proof. apply Forall_app_2. Qed.

Lemma apart_when k b l : apart k l → apart k (when b l).
Proof. destruct b; [done|constructor]. Qed.

Lemma apart_cons k e l : overlaps k (edit_key e) = false → apart k l → apart k (e :: l).
Proof. by constructor. Qed.

Lemma apart_fmap {X} k (f : X → edit) k' l :
  (∀ x, edit_key (f x) = k') → overlaps k k' = false → apart k (f <$> l).
Proof.
  intros Hf Hk. induction l as [|x l IH]; [constructor|]. constructor; [by rewrite Hf|exact IH].
Qed.

Lemma apart_toggles k crds l :
  Forall (λ s : list string * string, overlaps k s.2 = false) l → apart k (toggles crds l).
Proof.
  intros Hl. unfold toggles. induction Hl as [|x l Hx _ IH]; [constructor|].
  apply apart_app; [|exact IH]. apply apart_when. by apply apart_cons; [|constructor].
Qed.

Lemma apart_toggles_perm k crds :
  forallb (λ s : list string * string, negb (overlaps k s.2)) crd_sets = true →
  apart k (toggles crds (hash_order crd_sets)).
Proof.
  intros Hk. apply apart_toggles. rewrite hash_order_perm. apply Forall_forall.
  intros x Hx. rewrite forallb_forall in Hk. apply negb_true_iff, Hk. by apply list_elem_of_In.
Qed.
End Spec.

(** The keys of an edit list are apart from a given key: walk the list, compare
    the keys. *)
Ltac solve_apart :=
  repeat first
    [ apply apart_app | apply apart_when
    | apply apart_cons; [vm_compute; reflexivity|]
    | constructor
    | eapply apart_fmap; [intros; cbn; reflexivity|vm_compute; reflexivity] ].

Section Keys.
Context `{Semver} `{SJ : SerdeJson} `{RegexCrate} `{HashOrder}.

Lemma default_keys t k v :
  ESet k v ∈ edits_default t →
  forallb (λ s : list string * string, negb (overlaps k s.2)) crd_sets = true ∧
  touching k (edits_default t) = [ESet k v].
Proof.
  unfold edits_default. intros Hin.
  repeat (apply elem_of_cons in Hin as [[= -> ->]|Hin]; [by split; vm_compute|]).
  by apply elem_of_nil in Hin.
Qed.

(** C11: The images of the upgraded release are those of the target chart: whatever
    the versions and the user's values, for the image tag and each CSI sidecar tag
    the last edit of the values file which affects the key sets it to the value of
    the target chart. *)
Theorem image_tags_from_target fuel sv tv s t buf tvf dir tr file k v :
  exec (generate_values_yaml_file fuel sv tv s t buf tvf dir) tr (Done file) →
  ESet k v ∈ edits_default t →
  ∃ es, edited tr tvf file es ∧ last (touching k es) = Some (ESet k v).
Proof.
  intros [crds He]%generated_edits [Hcrd Hk]%default_keys. eexists. split; [exact He|].
  unfold edits, touching. rewrite !filter_app.
  fold (touching k (edits_default t)) (touching k (toggles crds (hash_order crd_sets))).
  rewrite Hk, (apart_touching _ _ (apart_toggles_perm k crds Hcrd)), app_nil_r, !app_assoc.
  apply last_snoc.
Qed.

(** The values of which an old default is replaced: their keys, how they are read,
    and the old default. *)
Definition replaced_defaults : list (string * (CoreValues → string) * string) :=
  [(".io_engine.logLevel", CoreValues__io_engine_log_level, log_level_to_replace);
   (".loki-stack.promtail.config.snippets.scrapeConfigs",
     CoreValues__loki_stack_promtail_scrape_configs, scrape_configs_to_replace);
   (".csi.node.nvme.io_timeout", CoreValues__csi_node_nvme_io_timeout, io_timeout_to_replace);
   (".localpv-provisioner.release.version", CoreValues__localpv_release_version,
     localpv_version_to_replace)].
(** The tags which are replaced together with the version of the localpv provisioner *)
Definition replaced_with_version : list string :=
  [".localpv-provisioner.localpv.image.tag"; ".localpv-provisioner.helperPod.image.tag"].
(** The keys which an upgrade may edit whatever the user has set there: versions of images,
    renamed and removed keys, the eventing flag and the toggles of CRDs *)
Definition overwritten_keys : list string :=
  [".image.repoTags.controlPlane"; ".image.repoTags.dataPlane"; ".image.repoTags.extensions";
   ".eventing.enabled";
   ".loki-stack.loki.image.tag"; ".loki-stack.filebeat.imageTag"; ".loki-stack.logstash.imageTag";
   ".loki-stack.grafana.downloadDashboardsImage.tag"; ".loki-stack.grafana.image.tag";
   ".loki-stack.grafana.sidecar.image.tag"; ".loki-stack.prometheus.alertmanager.image.tag";
   ".loki-stack.prometheus.nodeExporter.image.tag"; ".loki-stack.prometheus.pushgateway.image.tag";
   ".loki-stack.prometheus.server.image.tag";
   ".loki-stack.loki.config.ingester.lifecycler.ring.kvstore";
   ".loki-stack.promtail.config.snippets.extraClientConfigs"; ".loki-stack.promtail.initContainer";
   ".loki-stack.promtail.config.clients"; ".loki-stack.promtail.config.clients[0]";
   ".loki-stack.promtail.config.lokiAddress"; ".loki-stack.promtail.config.file";
   ".loki-stack.promtail.readinessProbe.httpGet.path";
   ".base.logging.silenceLevel"; ".base.logSilenceLevel"; ".csi.node.pluginMountPath";
   ".csi.node.pluginMounthPath"; ".jaeger-operator.image.tag";
   ".image.tag"; ".csi.image.provisionerTag"; ".csi.image.attacherTag"; ".csi.image.snapshotterTag";
   ".csi.image.snapshotControllerTag"; ".csi.image.registrarTag"; ".csi.image.resizerTag"]
  ++ crd_sets.*2.

(** An edit of such a key, or one whose old default the user has *)
Definition foreseen (s : CoreValues) (e : edit) : Prop :=
  edit_key e ∈ overwritten_keys ∨
  (∃ get d, (edit_key e, get, d) ∈ replaced_defaults ∧ get s = d) ∨
  (edit_key e ∈ replaced_with_version ∧ CoreValues__localpv_release_version s = localpv_version_to_replace).

Lemma foreseen_overwritten s e : bool_decide (edit_key e ∈ overwritten_keys) = true → foreseen s e.
Proof. intros He%bool_decide_eq_true. by left. Qed.
Lemma old_default_eq source target d : old_default source target d = true → source = d.
Proof. unfold old_default. by intros [Hd%bool_decide_eq_true _]%andb_prop. Qed.
Lemma foreseen_default s e get t d :
  old_default (get s) t d = true → (edit_key e, get, d) ∈ replaced_defaults → foreseen s e.
Proof. intros Hd%old_default_eq Hin. right; left. eauto. Qed.
Lemma foreseen_when s b l : (b = true → Forall (foreseen s) l) → Forall (foreseen s) (when b l).
Proof. destruct b; cbn; [auto|constructor]. Qed.
Lemma foreseen_toggles s crds l : l ⊆ crd_sets → Forall (foreseen s) (toggles crds l).
Proof.
  unfold toggles. induction l as [|x l IH]; intros Hl; [constructor|]. apply Forall_app_2; [|apply IH; set_solver].
  apply foreseen_when. intros _. apply Forall_cons_2; [|constructor]. left. unfold overwritten_keys.
  apply elem_of_app. right. apply (list_elem_of_fmap_2 snd), Hl. by left.
Qed.

Ltac solve_foreseen :=
  repeat first
    [ apply Forall_app_2 | apply Forall_nil_2 | apply foreseen_when; intros ?
    | apply Forall_cons_2; [first [apply foreseen_overwritten; vm_compute; reflexivity|idtac]|] ].

Lemma edits_foreseen sv tv s t : Forall (foreseen s) (edits sv tv s t).
Proof.
  unfold edits, edits_2_0, edits_2_1, edits_2_3, edits_2_5, edits_2_6, edits_clients, edits_default.
  solve_foreseen; repeat match goal with H : _ && _ = true |- _ => apply andb_prop in H as [? ?] end.
  1-4: by eapply foreseen_default; [eassumption|unfold replaced_defaults; cbn; set_solver].
  1-2: right; right; split; [unfold replaced_with_version; cbn; set_solver|by eapply old_default_eq].
  apply Forall_fmap, Forall_true. intros c. by apply foreseen_overwritten.
Qed.

Lemma old_default_ne source target d : source ≠ d → old_default source target d = false.
Proof. intros Hne. unfold old_default. by rewrite bool_decide_false. Qed.

(** C12: Which values of the user an upgrade keeps.  An edit of the values file affects a
    key only if the key overlaps one of [overwritten_keys], which an upgrade may set or
    remove whatever the user has there (versions of images, renamed and removed keys, the
    eventing flag, the toggles of CRDs), or one of the keys of which an old default is
    replaced and whose value in the installed release still is that old default (the two
    image tags of the localpv provisioner follow its version).  So for each of the four
    values whose old default is replaced (log level, scrape configs, I/O timeout, version
    of the localpv provisioner) a value which the user has changed is kept, and every value
    outside of these lists is kept, for any versions. *)
Theorem custom_values_kept fuel sv tv s t buf tvf dir tr file :
  exec (generate_values_yaml_file fuel sv tv s t buf tvf dir) tr (Done file) →
  ∃ es, edited tr tvf file es ∧
    (∀ k get d, (k, get, d) ∈ replaced_defaults → get s ≠ d → touching k es = []) ∧
    (∀ k, (∀ k', k' ∈ overwritten_keys → overlaps k k' = false) →
       (∀ k' get d, (k', get, d) ∈ replaced_defaults → overlaps k k' = true → get s ≠ d) →
       (∀ k', k' ∈ replaced_with_version → overlaps k k' = true →
          CoreValues__localpv_release_version s ≠ localpv_version_to_replace) →
       touching k es = []).
Proof.
  intros [crds He]%generated_edits. eexists. split; [exact He|]. split.
  - intros k get d Hin Hne. apply apart_touching. unfold replaced_defaults in Hin.
    repeat (apply elem_of_cons in Hin as [[= -> -> ->]|Hin]); [..|by apply elem_of_nil in Hin].
    all: unfold edits, edits_2_0, edits_2_1, edits_2_3, edits_2_5, edits_2_6, edits_clients,
      edits_default; rewrite (old_default_ne _ _ _ Hne), ?andb_false_r; cbn [when].
    all: apply apart_app; [|apply apart_toggles_perm; vm_compute; reflexivity].
    all: solve_apart.
  - intros k Ho Hd Hv. apply apart_touching. unfold apart. eapply Forall_impl.
    + apply Forall_app_2; [apply edits_foreseen|apply (foreseen_toggles s)]. by rewrite hash_order_perm.
    + intros e [Hk|[(get & d & Hin & Hs)|[Hk Hs]]]; [by apply Ho| |];
        (destruct (overlaps k (edit_key e)) eqn:E; [exfalso|done]); [by eapply Hd|by eapply Hv].
Qed.
(** The version constants of the code are versions, in increasing order. *)
Class VersionConstants : Prop := {
  constants_increasing :
    ∃ v20 v21 v23 v24 v25 v26,
      version_parse TWO_DOT_O_RC_ONE = inr v20 ∧ version_parse TWO_DOT_ONE = inr v21 ∧
      version_parse TWO_DOT_THREE = inr v23 ∧ version_parse TWO_DOT_FOUR = inr v24 ∧
      version_parse TWO_DOT_FIVE = inr v25 ∧ version_parse TWO_DOT_SIX = inr v26 ∧
      v_lt v20 v21 = true ∧ v_lt v21 v23 = true ∧ v_lt v23 v24 = true ∧
      v_lt v24 v25 = true ∧ v_lt v25 v26 = true
}.

Lemma recent_edits `{!VersionConstants} sv tv s t :
  from sv TWO_DOT_SIX = true → edits sv tv s t = (edits_2_1 tv t ++ edits_default t)%list.
Proof.
  destruct constants_increasing as
    (v20 & v21 & v23 & v24 & v25 & v26 & E20 & E21 & E23 & E24 & E25 & E26 & H01 & H13 & H34 & H45 & H56).
  rewrite (from_parsed _ _ _ E26). intros Hge.
  assert (Hbelow : ∀ x, v_lt x v26 = true → v_lt sv x = false).
  { intros x Hx. destruct (v_lt sv x) eqn:E; [|done].
    rewrite v_ge_lt, (v_lt_trans sv x v26) in Hge; done. }
  assert (Hself : v_lt sv v26 = false) by (rewrite v_ge_lt in Hge; by apply negb_true_iff).
  assert (H46 : v_lt v24 v26 = true) by (by apply (v_lt_trans v24 v25 v26)).
  assert (H16 : v_lt v21 v26 = true)
    by (apply (v_lt_trans v21 v23 v26), (v_lt_trans v23 v24 v26); done).
  unfold edits, edits_2_0, edits_2_3, edits_2_5, edits_2_6.
  rewrite (below_parsed _ _ _ E21), (below_parsed _ _ _ E24), (below_parsed _ _ _ E25),
    (below_parsed _ _ _ E26), (Hbelow v21 H16), (Hbelow v24 H46), (Hbelow v25 H56), Hself,
    !andb_false_r. done.
Qed.

(** From a release of version 2.6 or later the upgrade leaves every value of the
    user alone but the image tags: the edits are the repository tags (to versions
    from 2.1 on), the image tag and the CSI sidecar tags, and the CRD toggles. *)
Theorem recent_upgrade_edits `{!VersionConstants} fuel sv tv s t buf tvf dir tr file :
  exec (generate_values_yaml_file fuel sv tv s t buf tvf dir) tr (Done file) →
  from sv TWO_DOT_SIX = true →
  ∃ crds, edited tr tvf file
    (edits_2_1 tv t ++ edits_default t ++ toggles crds (hash_order crd_sets))%list.
Proof.
  intros [crds He]%generated_edits Hsv. exists crds. by rewrite recent_edits, <-app_assoc in He.
Qed.
End Keys.
End ValuesSpec.
