(* ===== verification/HelmUpgrade.v ===== *)
(** * The upgrade job: the helm upgrade

    Models [upgrade/path.rs] and [helm/upgrade.rs] of
    [k8s/upgrade/src/bin/upgrade-job]: the versions of the installed release and of
    the target chart, the check of the upgrade path, and the builder which prepares
    a dry run and the upgrade proper. *)

From S2P Require Import Prelude Semver Text JobApi HelmChart HelmClient HelmValues.
From S2P Require Import HelmValuesSpec.
From stdpp Require Import base gmap list strings.
From Stdlib Require Import ZArith Lia Ascii.
Open Scope string_scope.

(** ** [upgrade/path.rs] *)
Module Path.
Section Path.
Context `{Semver} `{SerdeYaml}.

(** [upgrade/config/unsupported_versions.yaml], compiled into the binary. *)
Definition unsupported_version_buf : bytes :=
"unsupported_versions:
  # add the list of unsupported versions as shown below
  - 0.0.0
".

(** [struct UnsupportedVersions] is its list; [UnsupportedVersions::try_from]. *)
Definition UnsupportedVersions_decode (y : yaml) : ext_error + list Version :=
  let? m := as_map y in
  field "unsupported_versions" (λ y, let? l := as_seq y in decode_all version_decode l) m.

Definition is_valid_for_core_chart (from : Version) : Error + bool :=
  match (let? y := yaml_from_slice unsupported_version_buf in UnsupportedVersions_decode y) with
  | inl e => inl (YamlParseBufferForUnsupportedVersion e)
  | inr unsupported_versions => inr (negb (existsb (λ v, v_eq v from) unsupported_versions))
  end.

Definition version_from_chart_yaml_file (path : string) : job Version :=
  let! to_chart := parse_file Chart_decode path in
  Ret (Chart__version to_chart).

Definition version_from_release_chart (chart_name : string) : Error + Version :=
  match cut_at "-"%char chart_name with
  | None => inl (HelmChartNameSplit chart_name "-"%char)
  | Some (_, version) =>
      match version_parse version with
      | inl e => inl (SemverParse e version)
      | inr v => inr v
      end
  end.
End Path.
End Path.

(** ** [helm/upgrade.rs] *)
Module HelmUpgrade.
Import Path.
Section HelmUpgrade.
Context `{Deps} `{Semver} `{SJ : SerdeJson} `{RegexCrate} `{HashOrder}.

Record HelmUpgraderBuilder := mkHelmUpgraderBuilder {
  b_release_name : option string;
  b_namespace : option string;
  b_core_chart_dir : option string;
  b_skip_upgrade_path_validation : bool;
  b_helm_args_set : option string;
  b_helm_args_set_file : option string
}.

Definition builder_default : HelmUpgraderBuilder := mkHelmUpgraderBuilder None None None false None None.

Definition with_namespace (ns : string) (b : HelmUpgraderBuilder) : HelmUpgraderBuilder :=
  mkHelmUpgraderBuilder b.(b_release_name) (Some ns) b.(b_core_chart_dir)
    b.(b_skip_upgrade_path_validation) b.(b_helm_args_set) b.(b_helm_args_set_file).
Definition with_release_name (r : string) (b : HelmUpgraderBuilder) : HelmUpgraderBuilder :=
  mkHelmUpgraderBuilder (Some r) b.(b_namespace) b.(b_core_chart_dir)
    b.(b_skip_upgrade_path_validation) b.(b_helm_args_set) b.(b_helm_args_set_file).
Definition with_core_chart_dir (d : string) (b : HelmUpgraderBuilder) : HelmUpgraderBuilder :=
  mkHelmUpgraderBuilder b.(b_release_name) b.(b_namespace) (Some d)
    b.(b_skip_upgrade_path_validation) b.(b_helm_args_set) b.(b_helm_args_set_file).
Definition with_skip_upgrade_path_validation (s : bool) (b : HelmUpgraderBuilder)
  : HelmUpgraderBuilder :=
  mkHelmUpgraderBuilder b.(b_release_name) b.(b_namespace) b.(b_core_chart_dir)
    s b.(b_helm_args_set) b.(b_helm_args_set_file).
Definition with_helm_args_set (a : string) (b : HelmUpgraderBuilder) : HelmUpgraderBuilder :=
  mkHelmUpgraderBuilder b.(b_release_name) b.(b_namespace) b.(b_core_chart_dir)
    b.(b_skip_upgrade_path_validation) (Some a) b.(b_helm_args_set_file).
Definition with_helm_args_set_file (a : string) (b : HelmUpgraderBuilder) : HelmUpgraderBuilder :=
  mkHelmUpgraderBuilder b.(b_release_name) b.(b_namespace) b.(b_core_chart_dir)
    b.(b_skip_upgrade_path_validation) b.(b_helm_args_set) (Some a).

Record CoreHelmUpgrader := mkCoreHelmUpgrader {
  already_upgraded : bool;
  chart_dir : string;
  c_release_name : string;
  c_client : string;
  helm_upgrade_extra_args : list string;
  c_source_version : Version;
  c_target_version : Version;
  source_values : CoreValues;
  upgrade_values_file : string
}.

Record UmbrellaHelmUpgrader := mkUmbrellaHelmUpgrader {
  u_release_name : string;
  u_client : string;
  u_source_version : Version;
  u_target_version : Version
}.

(** [Box<dyn HelmUpgrader>] *)
Inductive HelmUpgrader := CoreUpgrader (c : CoreHelmUpgrader) | UmbrellaUpgrader (u : UmbrellaHelmUpgrader).

Definition umbrella_regex : string := "^(" +:+ UMBRELLA_CHART_NAME +:+ "-[0-9]+\.[0-9]+\.[0-9]+)$".
Definition core_regex : string :=
  "^(" +:+ CORE_CHART_NAME +:+ "-[0-9]+\.[0-9]+\.[0-9]+(-[a-zA-Z0-9]+(\.[0-9]+)?)*)$".

(** The check of the upgrade path *)
Definition validate_upgrade_path (source_version target_version : Version) : job unit :=
  do! ensure (v_ge target_version source_version)
        (RollbackForbidden (version_to_string source_version) (version_to_string target_version)) in
  let! upgrade_path_is_valid := lift id (is_valid_for_core_chart source_version) in
  ensure upgrade_path_is_valid InvalidUpgradePath.

(** The arguments of [helm upgrade] *)
Definition extra_args (values_file args_set args_set_file : string) : list string :=
  ["-f"; values_file; "--set"; args_set; "--set-file"; args_set_file; "--atomic"].

Definition build_core (fuel : nat) (b : HelmUpgraderBuilder) (release_name namespace dir : string)
    (source_version target_version : Version) (source_values_buf : bytes) : job HelmUpgrader :=
  do! (if b.(b_skip_upgrade_path_validation) then Ret tt
       else validate_upgrade_path source_version target_version) in
  let target_values_filepath := path_join dir "values.yaml" in
  let! target_values := CoreValues_try_from_path target_values_filepath in
  let! source_values := lift id (CoreValues_try_from_slice source_values_buf) in
  let! file := HelmValues.generate_values_yaml_file fuel source_version target_version
                 source_values target_values source_values_buf target_values_filepath dir in
  Ret (CoreUpgrader (mkCoreHelmUpgrader (v_eq target_version source_version) dir release_name
         namespace (extra_args file (default "" b.(b_helm_args_set))
                      (default "" b.(b_helm_args_set_file)))
         source_version target_version source_values file)).

Definition build (fuel : nat) (b : HelmUpgraderBuilder) : job HelmUpgrader :=
  let! release_name := ok_or HelmUpgradeOptionReleaseNameAbsent b.(b_release_name) in
  let! namespace := ok_or HelmUpgradeOptionNamespaceAbsent b.(b_namespace) in
  let! dir := ok_or (NoInputHelmChartDir CORE_CHART_NAME) b.(b_core_chart_dir) in
  let! client := lift id (HelmReleaseClient.client_build (Some namespace)) in
  let! helm_release := HelmReleaseClient.release_info client release_name in
  let chart := helm_release.(HelmReleaseClient.chart) in
  let! source_version := lift id (version_from_release_chart chart) in
  let! source_values_buf := HelmReleaseClient.get_values_as_yaml client release_name None in
  let! target_version := version_from_chart_yaml_file (path_join dir "Chart.yaml") in
  let! is_umbrella := lift id (Regex.is_match umbrella_regex chart) in
  if (is_umbrella : bool) then
    do! ensure (v_eq target_version source_version) UmbrellaChartNotUpgraded in
    Ret (UmbrellaUpgrader (mkUmbrellaHelmUpgrader release_name client source_version target_version))
  else
    let! is_core := lift id (Regex.is_match core_regex chart) in
    if (is_core : bool) then
      build_core fuel b release_name client dir source_version target_version source_values_buf
    else Throw (NotAKnownHelmChart chart).

(** [HelmUpgrader::dry_run]: the result is the upgrade itself, still to be run. *)
Definition dry_run (u : HelmUpgrader) : job (job HelmValuesCollection) :=
  match u with
  | CoreUpgrader c =>
      if c.(already_upgraded) then Ret (Ret (dyn_core c.(source_values)))
      else
        do! HelmReleaseClient.upgrade c.(c_client) c.(c_release_name) c.(chart_dir)
              (Some (c.(helm_upgrade_extra_args) ++ ["--dry-run"])%list) in
        Ret (do! HelmReleaseClient.upgrade c.(c_client) c.(c_release_name) c.(chart_dir)
                   (Some c.(helm_upgrade_extra_args)) in
             let! final_values_buf :=
               HelmReleaseClient.get_values_as_yaml c.(c_client) c.(c_release_name) None in
             let! final_values := lift id (CoreValues_try_from_slice final_values_buf) in
             Ret (dyn_core final_values))
  | UmbrellaUpgrader u =>
      Ret (let! final_values_buf :=
             HelmReleaseClient.get_values_as_yaml u.(u_client) u.(u_release_name) None in
           let! final_values := lift id (UmbrellaValues_try_from_slice final_values_buf) in
           Ret (dyn_umbrella final_values))
  end.

Definition source_version (u : HelmUpgrader) : Version :=
  match u with CoreUpgrader c => c.(c_source_version) | UmbrellaUpgrader u => u.(u_source_version) end.
Definition target_version (u : HelmUpgrader) : Version :=
  match u with CoreUpgrader c => c.(c_target_version) | UmbrellaUpgrader u => u.(u_target_version) end.
End HelmUpgrade.
End HelmUpgrade.
