(* ===== verification/JobUtils.v ===== *)
(** * The upgrade job: volume, pod and cordon utilities

Models [k8s/upgrade/src/bin/upgrade-job/upgrade/utils.rs]: the detection of
volume rebuilds, the pod readiness check and the cordoning of storage
nodes. *)

From S2P Require Import Prelude JobApi.
From stdpp Require Import base gmap list strings.
From Stdlib Require Import ZArith Lia.

Module Utils.
(** [RebuildResult] *)
Record RebuildResult := mkRebuildResult {
  rebuilding : bool;
  discarded_volumes : list Volume
}.
Definition RebuildResult_default : RebuildResult := mkRebuildResult false [].

(** [max_entries]: volumes per [GET /volumes] request. *)
Definition max_entries : Z := 200.

Definition is_unhealthy (v : Volume) : bool :=
  match v.(vol_state).(vs_status) with
  | VsFaulted | VsDegraded => true
  | _ => false
  end.

(** One round of [while starting_token.is_some()]: the page is filtered by
    [keep] before it is appended. *)
Definition volumes_step (keep : Volume → bool) (i : list Volume * option Z)
  : job (list Volume * option Z + list Volume) :=
  let '(acc, starting_token) := i in
  match starting_token with
  | None => Ret (inr acc)
  | Some _ =>
      let! r := req (GetVolumes max_entries starting_token) in
      let! volumes := lift ListStorageVolumes r in
      Ret (inl (acc ++ base.filter (λ v, keep v = true) volumes.(entries), volumes.(next_token)))
  end.

Definition volumes_loop (fuel : nat) (keep : Volume → bool) : job (list Volume) :=
  loop fuel (volumes_step keep) ([], Some 0%Z).

Definition list_unhealthy_volumes (fuel : nat) (discarded_volumes : list Volume)
  : job (list Volume) :=
  let! unhealthy_volumes := volumes_loop fuel is_unhealthy in
  Ret (base.filter (λ v, v ∉ discarded_volumes) unhealthy_volumes).

Definition list_all_volumes (fuel : nat) : job (list Volume) :=
  volumes_loop fuel (λ _, true).

Definition replica_rebuild_count (volume : Volume) : Z :=
  match volume.(vol_state).(vs_target) with
  | Some target =>
      foldl (λ n child, if child.(rebuild_progress) is Some _ then n + 1 else n)%Z 0%Z
        target.(children)
  | None => 0%Z
  end.

(** [for _i in 0 .. 11]: sleep a minute, look at the rebuild count again. *)
Fixpoint await_rebuild_start (n : nat) (volume : Volume) : job bool :=
  match n with
  | O => Ret false
  | S n' =>
      do! req (Sleep 60) in
      if (replica_rebuild_count volume >? 0)%Z then Ret true
      else await_rebuild_start n' volume
  end.

Definition topology_nodes (volume : Volume) : list string :=
  omap (λ kt : string * ReplicaTopology, kt.2.(topology_node))
    (map_to_list volume.(vol_state).(replica_topology)).

(** The [for volume in unhealthy_volumes.iter()] loop: [inl] is the early
    return, [inr] the loop state at its end. *)
Fixpoint scan_volumes (node_name : string) (volumes : list Volume)
    (volume_over_nodes : gset string) (stale_volumes : list Volume)
  : job (RebuildResult + gset string * list Volume) :=
  match volumes with
  | [] => Ret (inr (volume_over_nodes, stale_volumes))
  | volume :: rest =>
      match volume.(vol_state).(vs_target) with
      | None => scan_volumes node_name rest volume_over_nodes stale_volumes
      | Some target =>
          let volume_over_nodes := {[target.(nexus_node)]} ∪ volume_over_nodes in
          let volume_over_nodes := list_to_set (topology_nodes volume) ∪ volume_over_nodes in
          if decide (node_name ∈ volume_over_nodes) then
            if (replica_rebuild_count volume =? 0)%Z then
              let! started := await_rebuild_start 11 volume in
              if (started : bool) then Ret (inl (mkRebuildResult true stale_volumes))
              else scan_volumes node_name rest volume_over_nodes (stale_volumes ++ [volume])
            else Ret (inl (mkRebuildResult true stale_volumes))
          else scan_volumes node_name rest volume_over_nodes stale_volumes
      end
  end.

(** [stale_volumes] is a mutable reference; at every return its value is the
    [discarded_volumes] of the result. *)
Definition rebuild_step (fuel : nat) (node_name : string) (stale_volumes : list Volume)
  : job (list Volume + RebuildResult) :=
  let! unhealthy_volumes := list_unhealthy_volumes fuel stale_volumes in
  if decide (unhealthy_volumes = []) then Ret (inr (mkRebuildResult false stale_volumes))
  else
    let! r := scan_volumes node_name unhealthy_volumes ∅ stale_volumes in
    match r with
    | inl result => Ret (inr result)
    | inr (volume_over_nodes, stale_volumes) =>
        if decide (volume_over_nodes = ∅)
        then Ret (inr (mkRebuildResult false stale_volumes))
        else Ret (inl stale_volumes)
    end.

Definition rebuild_result (fuel : nat) (stale_volumes : list Volume) (node_name : string)
  : job RebuildResult :=
  loop fuel (rebuild_step fuel node_name) stale_volumes.

(** The scan of one pod's conditions: stop at the first [Ready] condition. *)
Fixpoint ready_in (conditions : list PodCondition) : bool :=
  match conditions with
  | [] => true
  | condition :: rest =>
      if decide (condition.(type_) = "Ready")
      then bool_decide (condition.(status) = "True")
      else ready_in rest
  end.

Fixpoint all_pods_are_ready (pod_list : list Pod) : bool :=
  match pod_list with
  | [] => true
  | pod :: rest =>
      match pod.(pod_status) ≫= conditions with
      | Some conditions => if ready_in conditions then all_pods_are_ready rest else false
      | None => false
      end
  end.

Definition get_node_state (node_id : string) : job (option CordonDrainState) :=
  let! r := req (GetNode node_id) in
  let! storage_node := lift (λ e, GetStorageNode e node_id) r in
  let! spec := ok_or (EmptyStorageNodeSpec node_id) storage_node.(node_spec) in
  Ret spec.(cordondrainstate).

Definition is_cordoned_with (label : string) (s : option CordonDrainState) : bool :=
  match s with
  | Some (cordonedstate cordonlabels) => bool_decide (label ∈ cordonlabels)
  | _ => false
  end.

Definition cordon_storage_node (node_id cordon_label : string) : job unit :=
  let! state := get_node_state node_id in
  if is_cordoned_with cordon_label state then Ret tt
  else
    let! r := req (PutNodeCordon node_id cordon_label) in
    lift (λ e, CordonStorageNode e node_id) r.

Definition uncordon_storage_node (node_id cordon_label : string) : job unit :=
  let! state := get_node_state node_id in
  if is_cordoned_with cordon_label state then
    let! r := req (DeleteNodeCordon node_id cordon_label) in
    lift (λ e, StorageNodeUncordon e node_id) r
  else Ret tt.
End Utils.

Module UtilsFacts.
Import Utils.

(** ** Listing volumes *)
Section Pages.
Context {W : Type} (h : handler JobSig W).

(** The REST server answers the requests from this token on with these
    pages. *)
Inductive serves_volumes : option Z → W → list (list Volume) → W → Prop :=
| serves_none w : serves_volumes None w [] w
| serves_some tok w vs next w' ps w'' :
    h (GetVolumes max_entries (Some tok)) w = (inr (mkVolumes vs next), w') →
    serves_volumes next w' ps w'' →
    serves_volumes (Some tok) w (vs :: ps) w''.

Lemma volumes_loop_run fuel keep w pages w' :
  serves_volumes (Some 0%Z) w pages w' → length pages < fuel →
  ∃ tr, run h (volumes_loop fuel keep) w =
          (Done (base.filter (λ v, keep v = true) (concat pages)), w', tr).
Proof.
  unfold volumes_loop.
  rewrite <-(app_nil_l (base.filter _ (concat pages))). generalize (@nil Volume) as acc.
  generalize (Some 0%Z) as tok. intros tok acc Hs; revert acc fuel.
  induction Hs as [w|tok w vs next w' ps w'' Hr Hs IH];
    intros acc [|fuel] Hf; cbn in Hf; try lia.
  - cbn. rewrite app_nil_r. eauto.
  - cbn. rewrite Hr. cbn.
    destruct (IH (acc ++ base.filter (λ v, keep v = true) vs) fuel) as [tr Hr']; [lia|].
    rewrite Hr', <-app_assoc. cbn. rewrite filter_app. eauto.
Qed.
End Pages.

(** ** The rebuild recount *)

(** The recount looks at the same snapshot, so it never sees a rebuild start. *)
Lemma await_rebuild_start_false n volume :
  replica_rebuild_count volume = 0%Z →
  await_rebuild_start n volume = foldr (λ _ k, do! req (Sleep 60) in k) (Ret false) (seq 0 n).
Proof.
  intros Hc. generalize 0 as i. induction n as [|n IH]; intros i; [done|].
  cbn. rewrite Hc. cbn. by rewrite (IH (S i)).
Qed.

Definition nodes_of (v : Volume) : gset string :=
  match v.(vol_state).(vs_target) with
  | Some t => {[t.(nexus_node)]} ∪ list_to_set (topology_nodes v)
  | None => ∅
  end.

(** Volumes which do not involve the node are scanned without any request. *)
Lemma scan_other_nodes node_name volumes over stale :
  (∀ v, v ∈ volumes → node_name ∉ nodes_of v) → node_name ∉ over →
  scan_volumes node_name volumes over stale =
    Ret (inr (foldl (λ s v, nodes_of v ∪ s) over volumes, stale)).
Proof.
  revert over; induction volumes as [|v vs IH]; intros over Hv Hover; cbn; [done|].
  assert (node_name ∉ nodes_of v) as Hn by (apply Hv; set_solver).
  unfold nodes_of at 2. unfold nodes_of in Hn.
  destruct (vs_target (vol_state v)) as [t|].
  - rewrite decide_False by set_solver.
    replace (list_to_set (topology_nodes v) ∪ ({[nexus_node t]} ∪ over))
      with ({[nexus_node t]} ∪ list_to_set (topology_nodes v) ∪ over) by set_solver.
    apply IH; set_solver.
  - replace (∅ ∪ over) with over by set_solver. apply IH; set_solver.
Qed.

Lemma foldl_nodes_of_ne volumes over :
  (∃ v t, v ∈ volumes ∧ v.(vol_state).(vs_target) = Some t) →
  foldl (λ s v, nodes_of v ∪ s) over volumes ≠ ∅.
Proof.
  assert (∀ vs s, s ⊆ foldl (λ s v, nodes_of v ∪ s) s vs) as Hmono.
  { induction vs as [|v vs IH]; intros s; cbn; [done|]. etrans; [|apply IH]. set_solver. }
  revert over; induction volumes as [|v vs IH]; intros over (v'&t&Hin&Ht); [set_solver|].
  cbn. apply elem_of_cons in Hin as [->|Hin]; [|eauto].
  assert (nexus_node t ∈ nodes_of v) as Hn by (unfold nodes_of; rewrite Ht; set_solver).
  specialize (Hmono vs (nodes_of v ∪ over)). set_solver.
Qed.

(** ** What a rebuild check has seen

    The observer of the volume listings: [current] is the content of the listing
    in progress (it starts anew with the request for token 0), [seen] all the
    volumes ever listed. *)
Record listing := mkListing { current : list Volume; seen : list Volume }.

Definition listing_step (m : listing) (e : ev JobSig) : option listing :=
  match e with
  | Ev (GetVolumes _ tok) (inr vols) =>
      Some (mkListing
              (if decide (tok = Some 0%Z) then vols.(entries) else m.(current) ++ vols.(entries))
              (m.(seen) ++ vols.(entries)))
  | _ => Some m
  end.
Definition listings : protocol JobSig := Protocol JobSig listing listing_step.

Definition no_listing : listing := mkListing [] [].

Lemma list_unhealthy_observed fuel discarded (m : listing) :
  respects listings (list_unhealthy_volumes fuel discarded) m
    (λ l m', (∀ v, v ∈ m'.(current) → is_unhealthy v = true → v ∈ discarded ∨ v ∈ l) ∧
             (∀ v, v ∈ l → v ∈ m'.(seen) ∧ is_unhealthy v = true ∧ v ∉ discarded) ∧
             m.(seen) ⊆ m'.(seen))
    (λ _ _, True).
Proof.
  apply respects_bind. unfold volumes_loop.
  set (J := λ (i : list Volume * option Z) (m' : listing),
    ((i = ([], Some 0%Z)) ∨ ∀ v, v ∈ m'.(current) → is_unhealthy v = true → v ∈ i.1) ∧
    (∀ v, v ∈ i.1 → v ∈ m'.(seen) ∧ is_unhealthy v = true) ∧ m.(seen) ⊆ m'.(seen)).
  apply (respects_loop listings _ _ J).
  { split_and!; [by left| |done]. intros v Hv. by apply elem_of_nil in Hv. }
  intros [acc [tok|]] m' (HJ1 & HJ2 & HJ3); cbn.
  - intros [e|vols]; cbn; [done|]. unfold J; cbn. split_and!.
    + right. intros v Hv Hu. case_decide as Htok.
      * apply elem_of_app; right. by apply list_elem_of_filter.
      * destruct HJ1 as [?|HJ1]; [by simplify_eq|].
        apply elem_of_app in Hv as [Hv|Hv]; apply elem_of_app; [left; auto|right].
        by apply list_elem_of_filter.
    + intros v [Hv|[Hu Hv]%list_elem_of_filter]%elem_of_app.
      * destruct (HJ2 v Hv). split; [|done]. apply elem_of_app; by left.
      * split; [|done]. apply elem_of_app; by right.
    + intros v Hv. apply elem_of_app; left; auto.
  - destruct HJ1 as [?|HJ1]; [by simplify_eq|]. split_and!; [| |done].
    + intros v Hv Hu. destruct (decide (v ∈ discarded)); [by left|right].
      apply list_elem_of_filter. auto.
    + intros v [Hd Hv]%list_elem_of_filter. by destruct (HJ2 v Hv).
Qed.

(** Volumes are only ever discarded when nothing rebuilds on them. *)
Definition discards (vols stale stale' : list Volume) : Prop :=
  ∃ l, stale' = stale ++ l ∧
    Forall (λ v, v ∈ vols ∧ replica_rebuild_count v = 0%Z ∧ is_Some v.(vol_state).(vs_target)) l.

Lemma discards_refl vols stale : discards vols stale stale.
Proof. exists []. by rewrite app_nil_r. Qed.

Lemma discards_trans vols vols' s1 s2 s3 :
  vols ⊆ vols' → discards vols' s1 s2 → discards vols s2 s3 → discards vols' s1 s3.
Proof.
  intros Hsub (l1&->&H1) (l2&->&H2). exists (l1 ++ l2). split; [by rewrite app_assoc|].
  apply Forall_app; split; [done|]. eapply Forall_impl; [exact H2|].
  intros v (?&?&?); auto.
Qed.

(** The scan of a listing: a rebuild is reported only for a volume that is
    rebuilding, and an empty node set means that no volume had a target. *)
Definition scan_post (vols : list Volume) (over : gset string) (stale : list Volume)
    (r : RebuildResult + gset string * list Volume) : Prop :=
  match r with
  | inl res =>
      discards vols stale res.(discarded_volumes) ∧ res.(rebuilding) = true ∧
      ∃ v, v ∈ vols ∧ replica_rebuild_count v ≠ 0%Z
  | inr (over', stale') =>
      discards vols stale stale' ∧ over ⊆ over' ∧
      (over' = ∅ → ∀ v, v ∈ vols → v.(vol_state).(vs_target) = None)
  end.

Lemma scan_post_cons v vols over over1 stale stale1 r :
  scan_post vols over1 stale1 r → discards (v :: vols) stale stale1 → over ⊆ over1 →
  (over1 = ∅ → v.(vol_state).(vs_target) = None) → scan_post (v :: vols) over stale r.
Proof.
  intros H Hd Hover Hv. assert (vols ⊆ v :: vols) as Hsub by (intros x; by right).
  destruct r as [res|[over' stale']]; cbn in *.
  - destruct H as (H1&H2&v'&H3&H4). split_and!; eauto using discards_trans.
  - destruct H as (H1&H2&H3). split_and!; eauto using discards_trans.
    + by etrans.
    + intros -> v' [->|Hin]%elem_of_cons; [|auto]. apply Hv. set_solver.
Qed.

Lemma scan_volumes_observed node_name vols over stale (m : listing) :
  respects listings (scan_volumes node_name vols over stale) m
    (λ r m', m' = m ∧ scan_post vols over stale r) (λ _ _, True).
Proof.
  revert over stale; induction vols as [|v vols IH]; intros over stale.
  { cbn. split_and!; [done|apply discards_refl|done|].
    intros _ v Hv. by apply elem_of_nil in Hv. }
  cbn [scan_volumes]. destruct (vs_target (vol_state v)) as [t|] eqn:Ht.
  2: { eapply respects_weaken; [apply IH| |done].
       intros r m' [-> Hr]. split; [done|].
       eapply scan_post_cons; [done|apply discards_refl|done|done]. }
  set (over1 := list_to_set (topology_nodes v) ∪ ({[nexus_node t]} ∪ over)).
  assert (over ⊆ over1) as Hsub by (unfold over1; clear; set_solver).
  assert (over1 ≠ ∅) as Hne by (unfold over1; clear; set_solver).
  case_decide as Hnode; [destruct (Z.eqb_spec (replica_rebuild_count v) 0) as [Hc|Hc]|].
  - apply (respects_seq listings _ _ _ (λ b m', b = false ∧ m' = m) _ (λ _ _, True)); [| |done].
    { rewrite (await_rebuild_start_false 11 v Hc). cbn. by intros. }
    intros b m' [-> ->]. eapply respects_weaken; [apply IH| |done].
    intros r m' [-> Hr]. split; [done|]. eapply scan_post_cons; [done| |done|done].
    exists [v]. split; [done|]. repeat constructor; [done|rewrite Ht; eauto].
  - cbn. split_and!; [done|apply discards_refl|done|]. exists v. split; [by left|done].
  - eapply respects_weaken; [apply IH| |done].
    intros r m' [-> Hr]. split; [done|].
    eapply scan_post_cons; [done|apply discards_refl|done|done].
Qed.


Lemma discards_sub vols vols' s1 s2 : vols ⊆ vols' → discards vols s1 s2 → discards vols' s1 s2.
Proof.
  intros Hsub (l&->&H). exists l. split; [done|]. eapply Forall_impl; [exact H|].
  intros v (?&?&?); auto.
Qed.

Lemma rebuild_result_respects fuel stale node_name (m : listing) :
  respects listings (rebuild_result fuel stale node_name) m
    (λ r m', discards m'.(seen) stale r.(discarded_volumes) ∧
      if r.(rebuilding)
      then ∃ v, v ∈ m'.(seen) ∧ is_unhealthy v = true ∧ replica_rebuild_count v ≠ 0%Z
      else ∀ v, v ∈ m'.(current) → is_unhealthy v = true →
             v ∈ r.(discarded_volumes) ∨ v.(vol_state).(vs_target) = None)
    (λ _ _, True).
Proof.
  unfold rebuild_result.
  apply (respects_loop listings _ _ (λ stale' m', discards m'.(seen) stale stale')).
  { apply discards_refl. }
  intros stale1 m1 Hd. eapply respects_seq; [apply list_unhealthy_observed| |done].
  intros l m2 (Hcur & Hl & Hseen). case_decide as El.
  { cbn. split; [eauto using discards_sub|]. subst l. intros v Hv Hu.
    destruct (Hcur v Hv Hu) as [?|Hin]; [by left|by apply elem_of_nil in Hin]. }
  eapply respects_seq; [apply scan_volumes_observed| |done].
  assert (l ⊆ m2.(seen)) as Hls by (intros v Hv; by apply Hl).
  intros [res|[over stale2]] m3 [-> Hr]; cbn in Hr.
  - destruct Hr as (Hr & Hreb & v & Hv & Hc). cbn. rewrite Hreb. split.
    + eapply (discards_trans l); eauto using discards_sub.
    + destruct (Hl v Hv) as (?&?&?). eauto.
  - destruct Hr as (Hr & _ & Hemp).
    assert (discards m2.(seen) stale stale2) as Hd2
      by (eapply (discards_trans l); eauto using discards_sub).
    case_decide as Eo; cbn; [|done]. split; [done|].
    intros v Hv Hu. destruct (Hcur v Hv Hu) as [Hin|Hin]; [left|right; auto].
    destruct Hr as (l'&->&_). apply elem_of_app. by left.
Qed.

(** ** A listing which does not change *)
Section Constant.
Context {W : Type} (h : handler JobSig W) (vols : list Volume).
Hypothesis Hconst :
  ∀ w, h (GetVolumes max_entries (Some 0%Z)) w = (inr (mkVolumes vols None), w).

Definition not_sleep (e : ev JobSig) : Prop :=
  match e with Ev (Sleep _) _ => False | _ => True end.

Lemma list_unhealthy_constant fuel discarded w :
  ∃ tr, Forall not_sleep tr ∧
    run h (list_unhealthy_volumes fuel discarded) w =
      (if decide (2 ≤ fuel)
       then Done (base.filter (λ v, v ∉ discarded)
                    (base.filter (λ v, is_unhealthy v = true) vols))
       else Exhausted, w, tr).
Proof.
  destruct fuel as [|[|fuel]]; cbn; rewrite ?Hconst; cbn.
  - eauto.
  - eexists. split; [|done]. repeat constructor.
  - eexists. split; [|done]. repeat constructor.
Qed.

Lemma rebuild_loop_spins F n node_name w v t :
  v ∈ vols → is_unhealthy v = true → v.(vol_state).(vs_target) = Some t →
  (∀ u, u ∈ vols → is_unhealthy u = true → node_name ∉ nodes_of u) →
  ∃ tr, Forall not_sleep tr ∧
    run h (loop n (rebuild_step F node_name) []) w = (Exhausted, w, tr).
Proof.
  intros Hv Hu Ht Hnode. induction n as [|n (tr & Htr & IH)]; [by exists []|].
  cbn [loop]. rewrite run_bind. unfold rebuild_step at 1. rewrite run_bind.
  destruct (list_unhealthy_constant F [] w) as (tr1 & Htr1 & ->).
  case_decide; [|by exists tr1].
  rewrite (list_filter_iff (λ v, v ∉ []) (λ _, True)) by (split; [done|by intros _ ?%elem_of_nil]).
  set (l := base.filter (λ _, True) _).
  assert (∀ u, u ∈ l → u ∈ vols ∧ is_unhealthy u = true) as Hl.
  { intros u [_ [??]%list_elem_of_filter]%list_elem_of_filter. done. }
  assert (v ∈ l) as Hvl by (repeat (apply list_elem_of_filter; split); done).
  rewrite decide_False by (intros El; rewrite El in Hvl; by apply elem_of_nil in Hvl).
  rewrite scan_other_nodes; [|intros u [??]%Hl; auto|set_solver].
  cbn. rewrite decide_False by (apply foldl_nodes_of_ne; eauto).
  cbn. rewrite IH. exists (tr1 ++ tr). rewrite app_nil_r. split; [by apply Forall_app|done].
Qed.
End Constant.
End UtilsFacts.

Module UtilsSpec.
Import Utils UtilsFacts.

(** When the REST server serves the volumes in pages, [list_unhealthy_volumes]
    returns (it does not run out of fuel once the fuel exceeds the number of
    pages) exactly the faulted and degraded volumes of all the pages, in order,
    without the discarded ones. *)
Theorem list_unhealthy_volumes_complete {W} (h : handler JobSig W) fuel discarded w pages w' :
  serves_volumes h (Some 0%Z) w pages w' → length pages < fuel →
  result_of (run h (list_unhealthy_volumes fuel discarded) w) =
    Done (base.filter (λ v, is_unhealthy v = true ∧ v ∉ discarded) (concat pages)).
Proof.
  intros Hs Hf. destruct (volumes_loop_run h fuel is_unhealthy w pages w' Hs Hf) as [tr Hr].
  unfold list_unhealthy_volumes. rewrite run_bind, Hr. cbn. f_equal.
  rewrite list_filter_filter. apply list_filter_iff. naive_solver.
Qed.

(** What a rebuild check may conclude, for every sequence of REST answers. The
    volumes it discards are listed volumes with no rebuilding replica. If it
    reports a rebuild then some listed unhealthy volume is rebuilding a
    replica.  If it reports no rebuild then every unhealthy volume of its last
    listing was discarded or has no target. *)
Theorem rebuild_result_observed fuel stale node_name tr r :
  exec (rebuild_result fuel stale node_name) tr (Done r) →
  ∃ m, accepts listings no_listing tr = Some m ∧
    discards m.(seen) stale r.(discarded_volumes) ∧
    if r.(rebuilding)
    then ∃ v, v ∈ m.(seen) ∧ is_unhealthy v = true ∧ replica_rebuild_count v ≠ 0%Z
    else ∀ v, v ∈ m.(current) → is_unhealthy v = true →
           v ∈ r.(discarded_volumes) ∨ v.(vol_state).(vs_target) = None.
Proof.
  intros Hx.
  destruct (respects_sound listings _ no_listing _ _ tr _
              (rebuild_result_respects fuel stale node_name no_listing) Hx) as (m & Hm & Hq).
  eauto.
Qed.

(** A volume with no rebuilding replica is never reported as rebuilding: the
    recheck, which is meant to wait for a rebuild to start, looks at the same
    listing snapshot eleven times, so it sleeps for eleven minutes and the
    volume is discarded whatever happens in the cluster meanwhile. *)
Theorem rebuild_recheck_never_starts node_name volume t rest over stale :
  replica_rebuild_count volume = 0%Z → volume.(vol_state).(vs_target) = Some t →
  t.(nexus_node) = node_name →
  scan_volumes node_name (volume :: rest) over stale =
    foldr (λ _ k, do! req (Sleep 60) in k)
      (scan_volumes node_name rest
         (list_to_set (topology_nodes volume) ∪ ({[node_name]} ∪ over)) (stale ++ [volume]))
      (seq 0 11).
Proof.
  intros Hc Ht <-. cbn [scan_volumes]. rewrite Ht, Hc.
  rewrite decide_True by set_solver. cbn [Z.eqb].
  by rewrite (await_rebuild_start_false 11 volume Hc).
Qed.

(** C35: A rebuild check can spin: while the listing holds an unhealthy volume
    with a target, and no unhealthy volume has a target or a replica on the
    node, [rebuild_result] loops forever (no fuel is enough), and without
    sleeping between the requests. *)
Theorem rebuild_result_spins {W} (h : handler JobSig W) fuel node_name w vols v t :
  (∀ w', h (GetVolumes max_entries (Some 0%Z)) w' = (inr (mkVolumes vols None), w')) →
  v ∈ vols → is_unhealthy v = true → v.(vol_state).(vs_target) = Some t →
  (∀ u, u ∈ vols → is_unhealthy u = true → node_name ∉ nodes_of u) →
  result_of (run h (rebuild_result fuel [] node_name) w) = Exhausted ∧
  ∀ secs, Ev (S:=JobSig) (Sleep secs) tt ∉ trace_of (run h (rebuild_result fuel [] node_name) w).
Proof.
  intros Hconst Hv Hu Ht Hnode.
  destruct (rebuild_loop_spins h vols Hconst fuel fuel node_name w v t)
    as (tr & Htr & Hrun); [done..|].
  unfold rebuild_result. rewrite Hrun. split; [done|].
  intros secs Hin. rewrite Forall_forall in Htr. by apply Htr in Hin.
Qed.

(** The first [Ready] condition of a pod, if its status lists conditions. *)
Definition first_ready (p : Pod) : option (option PodCondition) :=
  cs ← p.(pod_status) ≫= conditions; Some (list_find (λ c, c.(type_) = "Ready") cs ≫= λ x, Some x.2).

(** [all_pods_are_ready] decides exactly this: every pod's status lists
    conditions, and the first [Ready] condition, where there is one, has status
    [True].  A pod whose conditions hold no [Ready] entry passes. *)
Theorem all_pods_are_ready_spec pods :
  all_pods_are_ready pods = true ↔
  ∀ p, p ∈ pods → ∃ c, first_ready p = Some c ∧
    match c with Some c => c.(status) = "True" | None => True end.
Proof.
  assert (∀ cs, ready_in cs = true ↔
    match list_find (λ c, c.(type_) = "Ready") cs ≫= (λ x, Some x.2) with
    | Some c => c.(status) = "True" | None => True end) as Hr.
  { induction cs as [|c cs IH]; [done|]. cbn. case_decide; cbn.
    - by rewrite bool_decide_eq_true.
    - rewrite IH. by destruct (list_find _ cs) as [[??]|]. }
  induction pods as [|p pods IH]; cbn; [by split; [intros _ p ?%elem_of_nil|]|].
  unfold first_ready in *. destruct (pod_status p ≫= conditions) as [cs|] eqn:E.
  2: { split; [done|]. intros H. destruct (H p) as (c & Hc & _); [by left|].
       by rewrite E in Hc. }
  destruct (ready_in cs) eqn:Er.
  - rewrite IH. split; [intros H q [->|Hq]%elem_of_cons|intros H q Hq; apply H; by right].
    + rewrite E. cbn. eexists; split; [done|]. by apply Hr.
    + by apply H.
  - split; [done|]. intros H. destruct (H p) as (c & Hc & Hs); [by left|].
    rewrite E in Hc. cbn in Hc. simplify_eq. apply Hr in Hs. congruence.
Qed.

(** The readiness check accepts a pod about whose readiness nothing is known,
    and an empty list of pods. *)
Theorem all_pods_are_ready_unknown :
  all_pods_are_ready [] = true ∧
  all_pods_are_ready
    [mkPod "agent-core-0" None None
       (Some (mkPodStatus (Some [mkPodCondition "PodScheduled" "True"])))] = true.
Proof. done. Qed.
End UtilsSpec.
