(* ===== verification/JobDataPlane.v ===== *)
(** * The upgrade job: rolling restart of the data plane

Models [k8s/upgrade/src/bin/upgrade-job/upgrade/data_plane.rs]: the io-engine
pods are restarted one at a time, each after the control plane is verified,
the rebuilds on its node are over and (where that is safe) the node is
drained. *)

From S2P Require Import Prelude JobApi JobUtils.
From stdpp Require Import base gmap list strings.
From Stdlib Require Import ZArith Lia.

Module DataPlane.
Import KubeClient Utils.
Section DataPlane.
Context `{Deps}.

Definition is_drained_with (label : string) (s : option CordonDrainState) : bool :=
  match s with
  | Some (drainedstate _ drainlabels) => bool_decide (label ∈ drainlabels)
  | _ => false
  end.

Definition is_draining_with (label : string) (s : option CordonDrainState) : bool :=
  match s with
  | Some (drainingstate _ drainlabels) => bool_decide (label ∈ drainlabels)
  | _ => false
  end.

(** Remove the drain label until the node is no longer drained by it. *)
Definition uncordon_drained_storage_node (fuel : nat) (node_id : string) : job unit :=
  loop fuel (λ _ : unit,
    let! state := get_node_state node_id in
    if is_drained_with drain_for_upgrade state then
      let! r := req (DeleteNodeCordon node_id drain_for_upgrade) in
      do! lift (λ e, StorageNodeUncordon e node_id) r in
      do! req (Sleep 1) in
      Ret (inl tt)
    else Ret (inr tt)) tt.

Definition delete_data_plane_pod (node_name : string) (pod : Pod) (namespace : string)
  : job unit :=
  do! pods_api namespace in
  let! r := req (PodsDelete namespace pod.(pod_name_any)) in
  lift (λ e, PodDelete e pod.(pod_name_any) node_name) r.

Definition node_name_field (node : string) : string := "spec.nodeName=" +:+ node.
Definition upgraded_pod_label (hash : string) : string :=
  IO_ENGINE_LABEL +:+ "," +:+ DS_CONTROLLER_REVISION_HASH_LABEL_KEY +:+ "=" +:+ hash.

(** The selector of the pods of older revisions, built in [upgrade.rs]. *)
Definition yet_to_upgrade_label (hash : string) : string :=
  IO_ENGINE_LABEL +:+ "," +:+ DS_CONTROLLER_REVISION_HASH_LABEL_KEY +:+ "!=" +:+ hash.

Definition data_plane_pod_is_running (fuel : nat) (node namespace hash : string) : job bool :=
  let! pod_list :=
    list_pods fuel namespace (Some (upgraded_pod_label hash)) (Some (node_name_field node)) in
  match pod_list with
  | [] => Ret false
  | [_] => Ret (all_pods_are_ready pod_list)
  | _ => Throw (TooManyIoEnginePods node)
  end.

(** [while !check().await? { sleep(duration).await }] *)
Definition poll (fuel : nat) (check : job bool) (secs : N) : job unit :=
  loop fuel (λ _ : unit,
    let! ok := check in
    if (ok : bool) then Ret (inr tt) else do! req (Sleep secs) in Ret (inl tt)) tt.

Definition verify_data_plane_pod_is_running (fuel : nat) (node_name namespace hash : string)
  : job unit :=
  poll fuel (data_plane_pod_is_running fuel node_name namespace hash) 5.

(** The discarded volumes are carried over from one check to the next. *)
Definition wait_for_rebuild (fuel : nat) (node_name : string) : job unit :=
  do! req (Sleep 60) in
  loop fuel (λ discarded,
    let! rebuild := rebuild_result fuel discarded node_name in
    if rebuild.(rebuilding) then
      do! req (Sleep 10) in Ret (inl rebuild.(discarded_volumes))
    else Ret (inr tt)) RebuildResult_default.(discarded_volumes).

Definition drain_storage_node (fuel : nat) (node_id : string) : job unit :=
  loop fuel (λ _ : unit,
    let! state := get_node_state node_id in
    if is_draining_with drain_for_upgrade state then
      do! req (Sleep 5) in Ret (inl tt)
    else if is_drained_with drain_for_upgrade state then Ret (inr tt)
    else
      let! r := req (PutNodeDrain node_id drain_for_upgrade) in
      do! lift (λ e, DrainStorageNode e node_id) r in
      Ret (inl tt)) tt.

Definition control_plane_is_running (fuel : nat) (namespace : string) : job bool :=
  let! pod_list := list_pods fuel namespace (Some AGENT_CORE_LABEL) None in
  let core_is_ready := all_pods_are_ready pod_list in
  let! pod_list := list_pods fuel namespace (Some API_REST_LABEL) None in
  let rest_is_ready := all_pods_are_ready pod_list in
  let! pod_list := list_pods fuel namespace (Some ETCD_LABEL) None in
  let etcd_is_ready := all_pods_are_ready pod_list in
  Ret (core_is_ready && rest_is_ready && etcd_is_ready).

Definition verify_control_plane_is_running (fuel : nat) (namespace : string) : job unit :=
  poll fuel (control_plane_is_running fuel namespace) 3.

(** The frontend nodes of the volumes whose target is on the node. *)
Definition target_frontends (node_name : string) (volumes : list Volume) : list string :=
  foldl (λ acc volume,
    match volume.(vol_spec).(spec_target) with
    | Some target =>
        if decide (target.(target_node) = node_name)
        then acc ++ default [] target.(frontend_nodes) else acc
    | None => acc
    end) [] volumes.

Definition frontend_nodes_ana_check (fuel : nat) (node_name : string)
    (ana_disabled_nodes : list ObjMeta) : job bool :=
  let! volumes := list_all_volumes fuel in
  let frontend_nodes := target_frontends node_name volumes in
  Ret (negb (existsb (λ node, bool_decide (node.(meta_name) ∈ frontend_nodes)) ana_disabled_nodes)).

Definition is_node_drainable (fuel : nat) (ha_is_enabled : bool) (node_name : string) : job bool :=
  if negb ha_is_enabled then Ret false
  else
    let! ana_disabled_nodes :=
      list_nodes_metadata fuel (Some (csi_node_nvme_ana +:+ "=false")) None in
    match ana_disabled_nodes with
    | [] => Ret true
    | _ =>
        do! cordon_storage_node node_name cordon_ana_check in
        let! result := attempt (frontend_nodes_ana_check fuel node_name ana_disabled_nodes) in
        do! uncordon_storage_node node_name cordon_ana_check in
        lift id result
    end.

(** The body of the loop over the pods which are yet to be upgraded. *)
Definition upgrade_data_plane_pod (fuel : nat) (namespace hash : string) (ha_is_enabled : bool)
    (pod : Pod) : job unit :=
  do! verify_control_plane_is_running fuel namespace in
  let! spec := ok_or (EmptyPodSpec pod.(pod_name_any) namespace) pod.(pod_spec) in
  let! node_name := ok_or (EmptyPodNodeName pod.(pod_name_any) namespace) spec.(node_name) in
  do! wait_for_rebuild fuel node_name in
  let! drainable := is_node_drainable fuel ha_is_enabled node_name in
  do! (if drainable : bool then drain_storage_node fuel node_name else Ret tt) in
  do! delete_data_plane_pod node_name pod namespace in
  do! verify_data_plane_pod_is_running fuel node_name namespace hash in
  uncordon_drained_storage_node fuel node_name.

(** One round of the outer loop: list the pods of older revisions, upgrade them
    one by one; nothing left to upgrade is the exit. *)
Definition upgrade_round (fuel : nat) (namespace hash : string) (ha_is_enabled : bool)
    (label : string) (_ : unit) : job (unit + unit) :=
  let! initial_io_engine_pod_list := list_pods fuel namespace (Some label) None in
  match initial_io_engine_pod_list with
  | [] => Ret (inr tt)
  | _ =>
      do! forM_ (upgrade_data_plane_pod fuel namespace hash ha_is_enabled)
            initial_io_engine_pod_list in
      Ret (inl tt)
  end.

Definition upgrade_data_plane (fuel : nat)
    (namespace rest_endpoint latest_io_engine_ctrl_rev_hash : string) (ha_is_enabled : bool)
    (yet_to_upgrade_io_engine_label : string) (yet_to_upgrade_io_engine_pods : list Pod)
  : job unit :=
  match yet_to_upgrade_io_engine_pods with
  | [] => Ret tt
  | _ =>
      do! RestClientSet.new_with_url rest_endpoint in
      let! r := req GetNodes in
      let! storage_nodes := lift ListStorageNodes r in
      do! forM_ (λ n, uncordon_drained_storage_node fuel n.(node_id)) storage_nodes in
      loop fuel (upgrade_round fuel namespace latest_io_engine_ctrl_rev_hash ha_is_enabled
                   yet_to_upgrade_io_engine_label) tt
  end.
End DataPlane.
End DataPlane.

(** ** The rolling restart protocol

An observer of the requests, independent of how the job is written.  It keeps
the latest listing of pods per selector and the name of the pod that was
deleted and whose replacement has not been seen ready yet.

- a pod may be deleted only when no other pod is pending and the latest
  listings of the three control-plane components were all ready;
- a node may be drained only when no pod is pending and HA is enabled;
- the pending pod is settled by a complete listing of the up-to-date pods on
  its node which shows exactly one pod, ready. *)
Module Rolling.
Import KubeClient Utils DataPlane.
Section Rolling.
Context `{Deps}.
Variables (hash : string) (ha_is_enabled : bool).

Record roll := mkRoll {
  pods_seen : list Pod;
  listed : gmap (option string * option string) (list Pod);
  pending : option string
}.

Definition start : roll := mkRoll [] ∅ None.

Definition cp_key (label : string) : option string * option string := (Some label, None).
Definition cp_ready (m : roll) : bool :=
  forallb (λ l, match m.(listed) !! cp_key l with
                | Some pods => all_pods_are_ready pods
                | None => false
                end) [AGENT_CORE_LABEL; API_REST_LABEL; ETCD_LABEL].

(** The pod of this name was seen on the node of this field selector. *)
Definition runs_on (name : string) (field : option string) (p : Pod) : bool :=
  bool_decide (p.(pod_name_any) = name) &&
  match p.(pod_spec) ≫= node_name with
  | Some node => bool_decide (field = Some (node_name_field node))
  | None => false
  end.

Definition settles (seen : list Pod) (key : option string * option string) (pods : list Pod)
    (name : string) : bool :=
  bool_decide (key.1 = Some (upgraded_pod_label hash)) &&
  existsb (runs_on name key.2) seen &&
  match pods with [_] => all_pods_are_ready pods | _ => false end.

Definition settle (seen : list Pod) key (pods : list Pod) (p : option string) : option string :=
  name ← p; if settles seen key pods name then None else Some name.

Definition on_page (m : roll) (lp : ListParams) (l : ObjectList Pod) : roll :=
  let key := (lp.(label_selector), lp.(field_selector)) in
  let sofar := match lp.(continue_token) with
               | Some _ => default [] (m.(listed) !! key)
               | None => []
               end in
  let pods := sofar ++ l.(items) in
  let seen := m.(pods_seen) ++ l.(items) in
  mkRoll seen (<[key := pods]> m.(listed))
    (match l.(continue_) with Some _ => m.(pending) | None => settle seen key pods m.(pending) end).

Definition roll_step (m : roll) (e : ev JobSig) : option roll :=
  match e with
  | Ev (PodsList _ lp) (inr l) => Some (on_page m lp l)
  | Ev (PodsDelete _ name) r =>
      if cp_ready m && bool_decide (m.(pending) = None)
      then match r with
           | inr _ => Some (mkRoll m.(pods_seen) m.(listed) (Some name))
           | inl _ => Some m
           end
      else None
  | Ev (PutNodeDrain _ _) _ =>
      if ha_is_enabled && bool_decide (m.(pending) = None) then Some m else None
  | _ => Some m
  end.
Definition rolling : protocol JobSig := Protocol JobSig roll roll_step.

(** *** Listings *)

(** A complete listing: it is the latest one for its selector, its pods have
    been seen, and it may have settled the pending pod. *)
Definition listing_post (m : roll) (key : option string * option string) (pods : list Pod)
    (m' : roll) : Prop :=
  m'.(listed) = <[key := pods]> m.(listed) ∧
  (∀ p, p ∈ m.(pods_seen) ∨ p ∈ pods → p ∈ m'.(pods_seen)) ∧
  m'.(pending) = settle m'.(pods_seen) key pods m.(pending).

Lemma list_pods_rolling fuel ns l f (m : roll) :
  respects rolling (list_pods fuel ns l f) m
    (λ pods m', listing_post m (l, f) pods m') (λ _ _, True).
Proof.
  unfold list_pods, list_pages.
  set (J := λ (i : list Pod * ListParams) (m' : roll),
    (i.2.(label_selector), i.2.(field_selector)) = (l, f) ∧
    m'.(pending) = m.(pending) ∧
    (∀ p, p ∈ m.(pods_seen) ∨ p ∈ i.1 → p ∈ m'.(pods_seen)) ∧
    match i.2.(continue_token) with
    | None => i.1 = [] ∧ m'.(listed) = m.(listed)
    | Some _ => m'.(listed) = <[(l, f) := i.1]> m.(listed)
    end).
  apply (respects_loop rolling _ _ J).
  { unfold J. split_and!; [by destruct l, f|done| |by destruct l, f].
    cbn. intros p [?|?%elem_of_nil]; done. }
  intros [acc lp] m1 (Hkey & Hpend & Hseen & Htok). cbn in Hkey, Hseen, Htok.
  cbn. intros [?|?]; cbn; [done|]. intros [?|pg]; cbn; [done|].
  unfold on_page. rewrite Hkey.
  assert (match continue_token lp with Some _ => default [] (listed m1 !! (l, f)) | None => [] end
          = acc) as ->.
  { destruct (continue_token lp); [rewrite Htok, lookup_insert_eq; done|by destruct Htok]. }
  assert (<[(l, f) := acc ++ items pg]> (listed m1) = <[(l, f) := acc ++ items pg]> (listed m)) as ->.
  { destruct (continue_token lp); [rewrite Htok; apply insert_insert_eq|by destruct Htok as [_ ->]]. }
  assert (∀ p, p ∈ pods_seen m ∨ p ∈ acc ++ items pg → p ∈ pods_seen m1 ++ items pg) as Hseen'.
  { intros p. rewrite !elem_of_app. naive_solver. }
  destruct (continue_ pg) as [tok|]; cbn.
  - unfold J; cbn. split_and!; done.
  - unfold listing_post; cbn. rewrite Hpend. done.
Qed.

Lemma settle_other key pods seen p :
  key.2 = None → settle seen key pods p = p.
Proof.
  intros Hk. destruct p as [name|]; [|done]. cbn. unfold settles. rewrite Hk.
  replace (existsb (runs_on name None) seen) with false; [by rewrite andb_false_r|].
  symmetry. apply not_true_iff_false. intros (p & _ & Hp)%existsb_exists.
  unfold runs_on in Hp. destruct (pod_spec p ≫= node_name); cbn in Hp;
    by rewrite ?andb_false_r in Hp.
Qed.

Lemma control_plane_rolling fuel ns (m : roll) :
  m.(pending) = None →
  respects rolling (control_plane_is_running fuel ns) m
    (λ ok m', m'.(pending) = None ∧ (ok = true → cp_ready m' = true) ∧
              (∀ p, p ∈ m.(pods_seen) → p ∈ m'.(pods_seen)))
    (λ _ _, True).
Proof.
  intros Hp. unfold control_plane_is_running.
  eapply respects_seq; [apply list_pods_rolling| |done]. intros pods1 m1 (Hl1 & Hs1 & Hp1).
  eapply respects_seq; [apply list_pods_rolling| |done]. intros pods2 m2 (Hl2 & Hs2 & Hp2).
  eapply respects_seq; [apply list_pods_rolling| |done]. intros pods3 m3 (Hl3 & Hs3 & Hp3).
  rewrite settle_other in Hp1, Hp2, Hp3 by done.
  cbn. split_and!; [congruence| |auto 10].
  intros [[H1 H2]%andb_prop H3]%andb_prop.
  rewrite Hl3, Hl2, Hl1. unfold cp_key. rewrite !lookup_insert.
  repeat case_decide; rewrite ?H1, ?H2, ?H3; done.
Qed.

(** *** Requests the protocol ignores *)
Definition inert (c : op JobSig) : bool :=
  match c with PodsList _ _ | PodsDelete _ _ | PutNodeDrain _ _ => false | _ => true end.

Lemma rolling_inert c r (m : mst rolling) :
  inert c = true → mstep rolling m (Ev c r) = Some m.
Proof. by destruct c. Qed.

Lemma respects_inert {A} (p : job A) (m : roll) :
  uses inert p → respects rolling p m (λ _ m', m' = m) (λ _ _, True).
Proof.
  intros Hu. apply (respects_weaken rolling p m (λ _ m', m' = m) _ (λ _ m', m' = m)); [|done..].
  apply (respects_uses inert rolling); [apply rolling_inert|done].
Qed.

Lemma uses_get_node_state id : uses inert (get_node_state id).
Proof. unfold get_node_state. solve_uses. Qed.
Hint Resolve uses_get_node_state : uses.

Lemma uses_volumes_loop fuel keep : uses inert (volumes_loop fuel keep).
Proof. unfold volumes_loop, volumes_step. solve_uses. Qed.
Hint Resolve uses_volumes_loop : uses.

Lemma uses_await n v : uses inert (await_rebuild_start n v).
Proof. induction n; cbn [await_rebuild_start]; solve_uses. Qed.
Hint Resolve uses_await : uses.

Lemma uses_scan node vols over stale : uses inert (scan_volumes node vols over stale).
Proof. revert over stale; induction vols; intros; cbn [scan_volumes]; solve_uses. Qed.
Hint Resolve uses_scan : uses.

Lemma uses_wait_for_rebuild fuel node : uses inert (wait_for_rebuild fuel node).
Proof.
  unfold wait_for_rebuild, rebuild_result, rebuild_step, list_unhealthy_volumes. solve_uses.
Qed.

Lemma uses_is_node_drainable fuel ha node : uses inert (is_node_drainable fuel ha node).
Proof.
  unfold is_node_drainable, list_nodes_metadata, list_pages, nodes_api, client,
    cordon_storage_node, uncordon_storage_node, frontend_nodes_ana_check, list_all_volumes.
  solve_uses.
Qed.

Lemma uses_uncordon_drained fuel node : uses inert (uncordon_drained_storage_node fuel node).
Proof. unfold uncordon_drained_storage_node. solve_uses. Qed.

(** *** The steps of one pod *)

Lemma respects_poll fuel check secs (J Q : roll → Prop) (m : roll) :
  J m →
  (∀ m, J m → respects rolling check m (λ ok m', if (ok : bool) then Q m' else J m') (λ _ _, True)) →
  respects rolling (poll fuel check secs) m (λ _ m', Q m') (λ _ _, True).
Proof.
  intros HJ Hc. apply (respects_loop rolling _ _ (λ _ m', J m')); [done|].
  intros _ m1 H1. eapply respects_seq; [by apply Hc| |done].
  intros [] m2 H2; cbn; [done|]. by intros _.
Qed.

Lemma verify_control_plane_rolling fuel ns (m : roll) :
  m.(pending) = None →
  respects rolling (verify_control_plane_is_running fuel ns) m
    (λ _ m', m'.(pending) = None ∧ cp_ready m' = true ∧
             (∀ p, p ∈ m.(pods_seen) → p ∈ m'.(pods_seen))) (λ _ _, True).
Proof.
  intros Hp.
  apply (respects_poll _ _ _ (λ m', m'.(pending) = None ∧
                                (∀ p, p ∈ m.(pods_seen) → p ∈ m'.(pods_seen)))); [done|].
  intros m1 [Hp1 Hs1]. eapply respects_weaken; [by apply control_plane_rolling| |done].
  intros [] m2 (Hp2 & Hr & Hs2); auto.
Qed.

Lemma verify_data_plane_rolling fuel node ns pod (m : roll) :
  m.(pending) = Some pod.(pod_name_any) → pod ∈ m.(pods_seen) →
  pod.(pod_spec) ≫= node_name = Some node →
  respects rolling (verify_data_plane_pod_is_running fuel node ns hash) m
    (λ _ m', m'.(pending) = None ∧ (∀ p, p ∈ m.(pods_seen) → p ∈ m'.(pods_seen))) (λ _ _, True).
Proof.
  intros Hp Hs Hn.
  apply (respects_poll _ _ _ (λ m', m'.(pending) = Some pod.(pod_name_any) ∧
                                (∀ p, p ∈ m.(pods_seen) → p ∈ m'.(pods_seen)))); [done|].
  intros m1 [Hp1 Hs1]. unfold data_plane_pod_is_running.
  eapply respects_seq; [apply list_pods_rolling| |done].
  intros pods m2 (_ & Hs2 & Hp2). rewrite Hp1 in Hp2. cbn in Hp2.
  assert (existsb (runs_on pod.(pod_name_any) (Some (node_name_field node))) m2.(pods_seen) = true)
    as Hex.
  { apply existsb_exists. exists pod. split; [apply list_elem_of_In; auto|].
    unfold runs_on. rewrite Hn, !bool_decide_true by done. done. }
  unfold settles in Hp2. cbn [fst snd] in Hp2.
  rewrite Hex, bool_decide_true in Hp2 by done. cbn in Hp2.
  destruct pods as [|p [|p' pods]]; cbn; [auto| |done].
  cbn in Hp2. destruct (match pod_status p ≫= conditions with Some cs => _ | None => false end);
    auto.
Qed.

Lemma drain_rolling fuel node (m : roll) :
  ha_is_enabled = true → m.(pending) = None →
  respects rolling (drain_storage_node fuel node) m (λ _ m', m' = m) (λ _ _, True).
Proof.
  intros Hha Hp. apply (respects_loop rolling _ _ (λ _ m', m' = m)); [done|].
  intros _ m1 ->. eapply respects_seq; [apply respects_inert, uses_get_node_state| |done].
  intros st m2 ->. destruct (is_draining_with _ _); [cbn; by intros|].
  destruct (is_drained_with _ _); [done|].
  cbn. intros r. rewrite Hha, Hp. cbn. by destruct r.
Qed.

Lemma upgrade_pod_rolling fuel ns pod (m : roll) :
  m.(pending) = None → pod ∈ m.(pods_seen) →
  respects rolling (upgrade_data_plane_pod fuel ns hash ha_is_enabled pod) m
    (λ _ m', m'.(pending) = None ∧ (∀ p, p ∈ m.(pods_seen) → p ∈ m'.(pods_seen))) (λ _ _, True).
Proof.
  intros Hp Hs. unfold upgrade_data_plane_pod.
  eapply respects_seq; [by apply verify_control_plane_rolling| |done].
  intros _ m1 (Hp1 & Hcp & Hs1).
  destruct (pod_spec pod) as [sp|] eqn:Esp; cbn [ok_or bind]; [|done].
  destruct (node_name sp) as [node|] eqn:En; cbn [ok_or bind]; [|done].
  eapply respects_seq; [apply respects_inert, uses_wait_for_rebuild| |done]. intros _ m2 ->.
  apply (respects_seq rolling _ _ _ (λ b m', m' = m1 ∧ (b = true → ha_is_enabled = true)) _ (λ _ _, True));
    [| |done].
  { destruct ha_is_enabled; [|by cbn].
    eapply respects_weaken; [apply respects_inert, uses_is_node_drainable| |done]. done. }
  intros b m2 [-> Hb].
  apply (respects_seq rolling _ _ _ (λ _ m', m' = m1) _ (λ _ _, True)); [| |done].
  { destruct b; [apply drain_rolling; auto|done]. }
  intros _ m2 ->.
  apply (respects_seq rolling _ _ _
           (λ _ m', m' = mkRoll m1.(pods_seen) m1.(listed) (Some pod.(pod_name_any))) _ (λ _ _, True));
    [| |done].
  { unfold delete_data_plane_pod. eapply respects_seq; [apply respects_inert| |done].
    { unfold pods_api, client. solve_uses. }
    intros _ m2 ->. cbn -[cp_ready]. intros r. rewrite Hcp, Hp1. cbn. by destruct r. }
  intros _ m2 ->.
  eapply respects_seq; [apply (verify_data_plane_rolling fuel node ns pod); cbn; auto| |done].
  { by rewrite Esp. }
  intros _ m3 [Hp3 Hs3]. eapply respects_weaken; [apply respects_inert, uses_uncordon_drained| |done].
  intros _ m4 ->. auto.
Qed.

Lemma upgrade_data_plane_rolling fuel ns url label pods :
  respects rolling (upgrade_data_plane fuel ns url hash ha_is_enabled label pods) start
    (λ _ m', m'.(pending) = None ∧
             (pods ≠ [] → m'.(listed) !! (Some label, None) = Some []))
    (λ _ _, True).
Proof.
  destruct pods as [|pod0 pods0]; [done|]. unfold upgrade_data_plane.
  eapply respects_seq; [apply respects_inert; unfold RestClientSet.new_with_url; solve_uses| |done].
  intros _ m ->.
  cbn [bind req call respects]. intros r. cbn [mstep rolling roll_step].
  apply respects_bind, respects_lift; [|done]. intros nodes _.
  eapply respects_seq; [apply respects_inert; unfold forM_; solve_uses; apply uses_uncordon_drained| |done].
  intros _ m ->.
  apply (respects_loop rolling _ _ (λ _ m', m'.(pending) = None)); [done|].
  intros [] m1 Hp1. unfold upgrade_round. eapply respects_seq; [apply list_pods_rolling| |done].
  intros pods m2 (Hl2 & Hs2 & Hp2). rewrite settle_other, Hp1 in Hp2 by done.
  destruct pods as [|pod pods].
  { cbn. rewrite Hl2, lookup_insert_eq. done. }
  eapply respects_seq; [| |done].
  { apply (respects_forM rolling _ (λ m', m'.(pending) = None ∧
             ∀ p, p ∈ pod :: pods → p ∈ m'.(pods_seen))); [auto|].
    intros p m3 Hin [Hp3 Hs3]. eapply respects_weaken; [apply upgrade_pod_rolling; auto| |done].
    intros _ m4 [??]; auto. }
  intros _ m3 [Hp3 _]. done.
Qed.
End Rolling.
End Rolling.

(** ** Drain and cordon *)
Module DrainFacts.
Import KubeClient Utils DataPlane.
Section DrainFacts.
Context `{Deps}.

(** The observer of one storage node: what the latest [GET /nodes/{id}] showed,
    and whether the ANA-check cordon label is on the node as far as the job
    can know. *)
Record node_view := mkView { state_seen : option (option CordonDrainState); held : bool }.

Definition view_step (id : string) (v : node_view) (e : ev JobSig) : option node_view :=
  match e with
  | Ev (GetNode i) (inr n) =>
      if decide (i = id) then
        match n.(node_spec) with
        | Some sp => Some (mkView (Some sp.(cordondrainstate))
                             (is_cordoned_with cordon_ana_check sp.(cordondrainstate)))
        | None => Some v
        end
      else Some v
  | Ev (PutNodeCordon i l) (inr _) =>
      if decide (i = id ∧ l = cordon_ana_check) then Some (mkView v.(state_seen) true) else Some v
  | Ev (DeleteNodeCordon i l) (inr _) =>
      if decide (i = id ∧ l = cordon_ana_check) then Some (mkView v.(state_seen) false) else Some v
  | _ => Some v
  end.
Definition node_views (id : string) : protocol JobSig := Protocol JobSig node_view (view_step id).

Lemma get_node_state_view id (v : node_view) (R : Error → node_view → Prop) :
  (∀ e, R (GetStorageNode e id) v) → R (EmptyStorageNodeSpec id) v →
  respects (node_views id) (get_node_state id) v
    (λ st v', v' = mkView (Some st) (is_cordoned_with cordon_ana_check st)) R.
Proof.
  intros H1 H2. cbn. intros [e|n]; cbn; [apply H1|].
  rewrite decide_True by done. destruct (node_spec n) as [sp|]; cbn; [done|]. apply H2.
Qed.

Lemma drain_storage_node_view fuel id (v : node_view) :
  respects (node_views id) (drain_storage_node fuel id) v
    (λ _ v', ∃ st, v'.(state_seen) = Some st ∧ is_drained_with drain_for_upgrade st = true)
    (λ _ _, True).
Proof.
  apply (respects_loop (node_views id) _ _ (λ _ _, True)); [done|]. intros _ v1 _.
  eapply respects_seq; [by apply (get_node_state_view id v1 (λ _ _, True))| |done].
  intros st v2 ->. destruct (is_draining_with _ st); [by cbn|].
  destruct (is_drained_with _ st) eqn:E; [cbn; eauto|].
  cbn. by intros [?|?].
Qed.

Lemma uncordon_drained_view fuel id (v : node_view) :
  respects (node_views id) (uncordon_drained_storage_node fuel id) v
    (λ _ v', ∃ st, v'.(state_seen) = Some st ∧ is_drained_with drain_for_upgrade st = false)
    (λ _ _, True).
Proof.
  apply (respects_loop (node_views id) _ _ (λ _ _, True)); [done|]. intros _ v1 _.
  eapply respects_seq; [by apply (get_node_state_view id v1 (λ _ _, True))| |done].
  intros st v2 ->. destruct (is_drained_with _ st) eqn:E; [|cbn; eauto].
  cbn. intros [?|?]; cbn; [done|]. by case_decide.
Qed.

(** The errors of the cordon requests themselves: only these can leave the
    ANA-check label behind. *)
Definition cordon_error (e : Error) : Prop :=
  match e with
  | GetStorageNode _ _ | EmptyStorageNodeSpec _ | CordonStorageNode _ _ | StorageNodeUncordon _ _ => True
  | _ => False
  end.

Definition unseen (c : op JobSig) : bool :=
  match c with GetNode _ | PutNodeCordon _ _ | DeleteNodeCordon _ _ => false | _ => true end.

Lemma respects_unseen {A} id (p : job A) (v : node_view) (R : Error → node_view → Prop) :
  (∀ e, R e v) → uses unseen p → respects (node_views id) p v (λ _ v', v' = v) R.
Proof.
  intros HR Hu.
  apply (respects_weaken (node_views id) p v (λ _ v', v' = v) _ (λ _ v', v' = v));
    [|done|by intros e ? ->].
  apply (respects_uses unseen (node_views id)); [by intros []|done].
Qed.

Lemma is_node_drainable_view fuel ha id (v : node_view) :
  v.(held) = false →
  respects (node_views id) (is_node_drainable fuel ha id) v
    (λ _ v', v'.(held) = false) (λ e v', cordon_error e ∨ v'.(held) = false).
Proof.
  intros Hv. unfold is_node_drainable. destruct ha; [|done]. cbn [negb].
  eapply respects_seq; [apply (respects_unseen id _ v (λ e v', v'.(held) = false)); [done|]| |auto].
  { unfold list_nodes_metadata, list_pages, nodes_api, client. solve_uses. }
  intros nodes v1 ->. destruct nodes as [|n nodes]; [done|].
  apply (respects_seq (node_views id) _ _ _ (λ _ _, True) _ (λ e _, cordon_error e)); [| |auto].
  { unfold cordon_storage_node.
    eapply respects_seq; [by apply (get_node_state_view id v (λ e _, cordon_error e))| |done].
    intros st v2 ->. destruct (is_cordoned_with _ st); [done|]. cbn.
    intros [?|?]; cbn; [done|]. by case_decide. }
  intros _ v2 _.
  apply (respects_seq (node_views id) _ _ _ (λ _ _, True) _ (λ _ _, False)); [| |done].
  { apply respects_attempt.
    eapply respects_weaken; [apply (respects_unseen id _ v2 (λ _ _, True)); [done|]|done|done].
    unfold frontend_nodes_ana_check, list_all_volumes, volumes_loop, volumes_step. solve_uses. }
  intros result v3 _.
  apply (respects_seq (node_views id) _ _ _ (λ _ v', v'.(held) = false) _ (λ e _, cordon_error e));
    [| |auto].
  { unfold uncordon_storage_node.
    eapply respects_seq; [by apply (get_node_state_view id v3 (λ e _, cordon_error e))| |done].
    intros st v4 ->. destruct (is_cordoned_with _ st) eqn:E; [|by cbn].
    cbn. intros [?|?]; cbn; [done|]. by rewrite decide_True. }
  intros _ v4 Hv4. destruct result; cbn; auto.
Qed.
End DrainFacts.
End DrainFacts.
