(* ===== verification/JobUpgrade.v ===== *)
(** * The upgrade job: the whole upgrade

    Models [upgrade.rs], [opts.rs], [opts/validators.rs] and [main.rs] of
    [k8s/upgrade/src/bin/upgrade-job]: the validation of the arguments, then helm
    upgrade with dry run, then the data-plane upgrade, with the events published
    on the way. *)

From S2P Require Import Prelude Semver Text JobApi JobEvents HelmChart HelmClient HelmValues.
From S2P Require Import HelmValuesSpec HelmUpgrade JobUtils JobDataPlane.
From stdpp Require Import base gmap list strings.
From Stdlib Require Import ZArith Lia Ascii.
Open Scope string_scope.

(** ** [opts.rs]: the arguments which the job reads *)
Record CliArgs := mkCliArgs {
  rest_endpoint : string;
  namespace : string;
  release_name : string;
  core_chart_dir : string;
  skip_data_plane_restart : bool;
  skip_upgrade_path_validation : bool;
  pod_name : string;
  helm_args_set : string;
  helm_args_set_file : string
}.

(** ** [opts/validators.rs] *)
Module Validators.
Section Validators.
Context `{Deps} `{Semver} `{SerdeYaml} `{RegexCrate}.

Definition validate_helm_release (name namespace : string) : job unit :=
  let args := ["list"; "-n"; namespace; "--deployed"; "--short"] in
  let! output := HelmReleaseClient.helm args in
  let! stdout_str := utf8 output.(stdout) in
  do! ensure_success output (HelmListCommand "helm" args) in
  let regex := "(\n)?" +:+ name +:+ "(\n)?" in
  let! found := lift (λ e, RegexCompile e regex) (regex_search regex output.(stdout)) in
  if (found : bool) then Ret tt else Throw (HelmRelease name namespace).

Definition helmv3_regex : string := "^(v3\.[0-9]+\.[0-9])".

Definition validate_helmv3_in_path : job unit :=
  let args := ["version"; "--short"] in
  let! output := HelmReleaseClient.helm args in
  let! stdout_str := utf8 output.(stdout) in
  do! ensure_success output (HelmVersionCommand "helm" args) in
  let! found := lift (λ e, RegexCompile e helmv3_regex) (regex_search helmv3_regex output.(stdout)) in
  if (found : bool) then Ret tt else Throw (HelmVersion stdout_str).

Definition path_exists_and_is_dir (path : string) : job bool :=
  let! r := req (FsMetadata path) in
  let! m := lift (λ e, ValidateDirPath e path) r in
  Ret (match m with IsDir => true | _ => false end).

Definition path_exists_and_is_file (path : string) : job bool :=
  let! r := req (FsMetadata path) in
  let! m := lift (λ e, ValidateFilePath e path) r in
  Ret (match m with IsFile => true | _ => false end).

Definition ensure_dir (path : string) : job unit :=
  let! b := path_exists_and_is_dir path in ensure b (NotADirectory path).
Definition ensure_file (path : string) : job unit :=
  let! b := path_exists_and_is_file path in ensure b (NotAFile path).

Definition validate_core_helm_chart_variant_in_dir (dir_path : string) : job unit :=
  do! ensure_dir dir_path in
  let chart_yaml_path := path_join dir_path "Chart.yaml" in
  do! ensure_file chart_yaml_path in
  let! chart_yaml := parse_file Chart_decode chart_yaml_path in
  do! ensure (bool_decide (Chart__name chart_yaml = CORE_CHART_NAME)) (FindingHelmChart dir_path) in
  do! ensure_dir (path_join dir_path "charts") in
  do! ensure_file (path_join dir_path "values.yaml") in
  do! ensure_file (path_join dir_path "README.md") in
  do! ensure_dir (path_join dir_path "charts/crds") in
  ensure_dir (path_join dir_path "templates").

Definition validate_helm_chart_dir (core_dir : string) : job unit :=
  validate_core_helm_chart_variant_in_dir core_dir.

Definition validate_namespace (ns : string) : job unit :=
  do! KubeClient.namespaces_api in
  let! r := req (NamespaceGet ns) in
  lift (λ e, GetNamespace e ns) r.

Definition validate_rest_endpoint (rest_endpoint : string) : job unit :=
  do! RestClientSet.new_with_url rest_endpoint in
  let! r := req GetNodes in
  do! lift ListStorageNodes r in
  Ret tt.

(** [parse_cli_args] of [main.rs], after the parsing by [clap] *)
Definition parse_cli_args (opts : CliArgs) : job CliArgs :=
  do! validate_namespace opts.(namespace) in
  do! validate_rest_endpoint opts.(rest_endpoint) in
  do! validate_helmv3_in_path in
  do! validate_helm_release opts.(release_name) opts.(namespace) in
  do! validate_helm_chart_dir opts.(core_chart_dir) in
  Ret opts.
End Validators.
End Validators.

(** ** [upgrade.rs] *)
Module Upgrade.
Import Recorder.
Section Upgrade.
Context `{Deps} `{EventDeps} `{Semver} `{SJ : SerdeJson} `{RegexCrate} `{HashOrder} `{SortUnstable}.

(** [PARTIAL_REBUILD_DISABLE_EXTENTS] *)
Definition partial_rebuild_disable_extents : Version * Version :=
  (version_new 2 2 0, version_new 2 5 0).

Definition partial_rebuild_check (source_version : Version) (partial_rebuild_is_enabled : bool)
  : Error + unit :=
  let '(lower, upper) := partial_rebuild_disable_extents in
  let partial_rebuild_disable_required := v_ge source_version lower && v_le source_version upper in
  if partial_rebuild_disable_required && partial_rebuild_is_enabled
  then inl (PartialRebuildNotAllowed CORE_CHART_NAME (version_to_string lower)
              (version_to_string upper))
  else inr tt.

Definition starting_msg : string := "Starting " +:+ product_train +:+ " upgrade...".
Definition upgrading_cp_msg : string := "Upgrading " +:+ product_train +:+ " control-plane".
Definition upgraded_cp_msg : string := "Upgraded " +:+ product_train +:+ " control-plane".
Definition upgrading_dp_msg : string := "Upgrading " +:+ product_train +:+ " data-plane".
Definition upgraded_dp_msg : string := "Upgraded " +:+ product_train +:+ " data-plane".
Definition success_msg : string := "Successfully upgraded " +:+ product_train.

(** An error is published before it is returned. *)
Definition or_publish {A} (er : EventRecorder) (validation_error : bool) (m : job A) : job A :=
  let! r := attempt m in
  match r with
  | inl error => do! publish_unrecoverable er error validation_error in Throw error
  | inr a => Ret a
  end.

(** The part of [upgrade_product] which restarts the data plane *)
Definition upgrade_io_engines (fuel : nat) (opts : CliArgs) (er : EventRecorder)
    (source_version : Version) (final_values : HelmValuesCollection) : job unit :=
  do! lift id (partial_rebuild_check source_version final_values.(partial_rebuild_is_enabled)) in
  let! hash := KubeClient.latest_controller_revision_hash fuel opts.(namespace)
                 (Some IO_ENGINE_LABEL) None DS_CONTROLLER_REVISION_HASH_LABEL_KEY in
  let label := DataPlane.yet_to_upgrade_label hash in
  let! pods := KubeClient.list_pods fuel opts.(namespace) (Some label) None in
  do! publish_normal er upgrading_dp_msg UpgradingDP in
  do! or_publish er false
        (DataPlane.upgrade_data_plane fuel opts.(namespace) opts.(rest_endpoint) hash
           final_values.(ha_is_enabled) label pods) in
  publish_normal er upgraded_dp_msg UpgradedDP.

Definition upgrade_product (fuel : nat) (opts : CliArgs) (event : EventRecorder) : job unit :=
  let! helm_upgrader := HelmUpgrade.build fuel
    (HelmUpgrade.with_helm_args_set_file opts.(helm_args_set_file)
    (HelmUpgrade.with_helm_args_set opts.(helm_args_set)
    (HelmUpgrade.with_skip_upgrade_path_validation opts.(skip_upgrade_path_validation)
    (HelmUpgrade.with_core_chart_dir opts.(core_chart_dir)
    (HelmUpgrade.with_release_name opts.(release_name)
    (HelmUpgrade.with_namespace opts.(namespace) HelmUpgrade.builder_default)))))) in
  let source_version := HelmUpgrade.source_version helm_upgrader in
  let target_version := HelmUpgrade.target_version helm_upgrader in
  let event := set_target_version (version_to_string target_version)
                 (set_source_version (version_to_string source_version) event) in
  let! run_helm_upgrade := or_publish event true (HelmUpgrade.dry_run helm_upgrader) in
  do! publish_normal event starting_msg UpgradingCP in
  do! publish_normal event upgrading_cp_msg UpgradingCP in
  let! final_values := or_publish event false run_helm_upgrade in
  do! publish_normal event upgraded_cp_msg UpgradedCP in
  do! (if opts.(skip_data_plane_restart) then Ret tt
       else upgrade_io_engines fuel opts event source_version final_values) in
  publish_normal event success_msg Successful.

Definition upgrade (fuel : nat) (opts : CliArgs) : job unit :=
  let! event := Recorder.build
    (Recorder.with_namespace opts.(namespace)
    (Recorder.with_pod_name opts.(pod_name) Recorder.builder)) in
  let! result := attempt (upgrade_product fuel opts event) in
  do! shutdown_worker event in
  lift id result.

(** [main]: the process, after [CliArgs::parse] *)
Definition main (fuel : nat) (args : CliArgs) : job unit :=
  let! opts := Validators.parse_cli_args args in
  upgrade fuel opts.
End Upgrade.
End Upgrade.
