(* ===== verification/JobUpgradeSpec.v ===== *)
(** * The upgrade job: properties of the whole upgrade

    The order in which an upgrade acts on the cluster, as a protocol on its requests
    ([Stages]): what may happen before the dry run, between the events, and after a
    failure.  Then the upgrade path and the reporting of errors. *)

From S2P Require Import Prelude Semver Text JobApi JobEvents HelmChart HelmClient HelmValues.
From S2P Require Import HelmValuesSpec HelmUpgrade JobUtils JobDataPlane JobUpgrade JobErrorText.
From stdpp Require Import base gmap list strings.
From Stdlib Require Import ZArith Lia Ascii.
Open Scope string_scope.

(** ** The stages of an upgrade *)
Module Stages.
Inductive phase :=
| Preparing | Starting | ControlPlane | ControlPlaneDone | DataPlane | DataPlaneDone
| Succeeded (data_plane_restarted : bool)
| Reported (validation : bool)
| Lost.

#[global] Instance phase_eq_dec : EqDecision phase.
Proof. solve_decision. Defined.

(** [dry_ok]: the arguments of a [helm upgrade] which a dry run accepted; [closed]: the
    event worker has been shut down. *)
Record stage := mkStage { at_phase : phase; dry_ok : option (list string); closed : bool }.
Definition start : stage := mkStage Preparing None false.

(** The arguments of a [helm upgrade] command. *)
Definition upgrade_cmd (c : job_call) : option (list string) :=
  match c with
  | RunCommand cmd (a :: args) _ =>
      if bool_decide (cmd = "helm" ∧ a = "upgrade") then Some args else None
  | _ => None
  end.
Definition dry_args (args : list string) : bool := bool_decide (last args = Some "--dry-run").

(** Requests which change the state of pods or of storage nodes. *)
Definition restarts (c : job_call) : bool :=
  match c with
  | PodsDelete _ _ | PutNodeCordon _ _ | DeleteNodeCordon _ _ | PutNodeDrain _ _ => true
  | _ => false
  end.

(** Which event may come in which phase. *)
Definition next_phase (p : phase) (e : Event) : option phase :=
  let ev_is t a := bool_decide (e.(ev_type) = t ∧ e.(ev_action) = action_to_string a) in
  match p with
  | Preparing =>
      if ev_is Normal UpgradingCP then Some Starting
      else if ev_is Warning ValidationFailed then Some (Reported true) else None
  | Starting => if ev_is Normal UpgradingCP then Some ControlPlane else None
  | ControlPlane =>
      if ev_is Normal UpgradedCP then Some ControlPlaneDone
      else if ev_is Warning ActFailed then Some (Reported false) else None
  | ControlPlaneDone =>
      if ev_is Normal UpgradingDP then Some DataPlane
      else if ev_is Normal Successful then Some (Succeeded false) else None
  | DataPlane =>
      if ev_is Normal UpgradedDP then Some DataPlaneDone
      else if ev_is Warning ActFailed then Some (Reported false) else None
  | DataPlaneDone => if ev_is Normal Successful then Some (Succeeded true) else None
  | Succeeded _ | Reported _ | Lost => None
  end.

(** - [helm upgrade --dry-run] only before the first event; [helm upgrade] only between
      the second event and the report of the control plane, and only with the
      arguments which a dry run accepted;
    - pods and storage nodes are touched only between the events which announce
      and report the data-plane upgrade;
    - events only in the order of [next_phase], an event which could not be sent
      is the last one;
    - nothing after the event worker has been shut down. *)
Definition stage_step (m : stage) (e : ev JobSig) : option stage :=
  match e with
  | Ev c r =>
      if m.(closed) then None else
      match upgrade_cmd c with
      | Some args =>
          if dry_args args then
            match m.(at_phase), c return job_res c → option stage with
            | Preparing, RunCommand _ _ _ => λ r,
                Some (mkStage Preparing
                  (match r with
                   | inr out => if out.(success) then Some args else None
                   | inl _ => None
                   end) false)
            | _, _ => λ _, None
            end r
          else if bool_decide (m.(at_phase) = ControlPlane ∧
                               m.(dry_ok) = Some (args ++ ["--dry-run"])%list)
          then Some m else None
      | None =>
          if restarts c then
            if bool_decide (m.(at_phase) = DataPlane) then Some m else None
          else match c return job_res c → option stage with
          | SendEvent e => λ sent : bool,
              match next_phase m.(at_phase) e with
              | Some p => Some (mkStage (if sent then p else Lost) m.(dry_ok) false)
              | None => None
              end
          | ShutdownWorker => λ _, Some (mkStage m.(at_phase) m.(dry_ok) true)
          | _ => λ _, Some m
          end r
      end
  end.
Definition stages : protocol JobSig := Protocol JobSig stage stage_step.

(** *** Requests which are allowed everywhere *)
Definition neutral (c : op JobSig) : bool :=
  match upgrade_cmd c with
  | Some _ => false
  | None => negb (restarts c) && match c with SendEvent _ | ShutdownWorker => false | _ => true end
  end.

Lemma stages_neutral (m : stage) c r :
  m.(closed) = false → neutral c = true → mstep stages m (Ev c r) = Some m.
Proof.
  intros Hc Hn. cbn. rewrite Hc. unfold neutral in Hn.
  destruct (upgrade_cmd c); [done|]. apply andb_prop in Hn as [Hr Hn].
  apply negb_true_iff in Hr. rewrite Hr. by destruct c.
Qed.

Lemma respects_neutral {A} (p : job A) (m : stage) :
  m.(closed) = false → uses neutral p →
  respects stages p m (λ _ m', m' = m) (λ _ m', m' = m).
Proof.
  intros Hc Hu. apply (respects_uses_at neutral stages); [|done].
  intros c r. by apply stages_neutral.
Qed.

(** Within the data-plane phase, the data-plane requests are allowed. *)
Definition data_plane_op (c : op JobSig) : bool :=
  match c with
  | NamespaceGet _ | CrdsListMetadata _ | PodGet _ _ | RunCommand _ _ _ | FsRead _ | FsMetadata _
  | TempFileNewIn _ | FileWrite _ _ | SendEvent _ | ShutdownWorker => false
  | _ => true
  end.

Lemma respects_data_plane {A} (p : job A) (m : stage) :
  m.(closed) = false → m.(at_phase) = DataPlane → uses data_plane_op p →
  respects stages p m (λ _ m', m' = m) (λ _ m', m' = m).
Proof.
  intros Hc Hp Hu. apply (respects_uses_at data_plane_op stages); [|done].
  intros c r Hd. cbn. rewrite Hc, Hp. by destruct c.
Qed.

Section Uses.
Context `{Deps} `{EventDeps} `{Semver} `{SJ : SerdeJson} `{RegexCrate} `{HashOrder} `{SortUnstable}.

Lemma uses_helm_get ns rel extra : uses neutral (HelmReleaseClient.get_values_as_yaml ns rel extra).
Proof.
  unfold HelmReleaseClient.get_values_as_yaml, HelmReleaseClient.helm, ensure_success, utf8.
  solve_uses.
Qed.
Lemma uses_helm_list ns extra : uses neutral (HelmReleaseClient.list_as_yaml ns extra).
Proof.
  unfold HelmReleaseClient.list_as_yaml, HelmReleaseClient.helm, ensure_success, utf8. solve_uses.
Qed.
Hint Resolve uses_helm_get uses_helm_list : uses.

(** The [yq] commands and the files. *)
Lemma uses_edit env expression file fail :
  uses neutral (Yq.edit_in_place yq4 env expression file fail).
Proof. unfold Yq.edit_in_place, Yq.command_output, ensure_success, utf8. solve_uses. Qed.
Hint Resolve uses_edit : uses.

Lemma uses_set file k v : uses neutral (HelmValues.set yq4 file k v).
Proof. unfold HelmValues.set, HelmValues.key, Yq.set_literal_value. solve_uses. Qed.
Lemma uses_del file k : uses neutral (HelmValues.del yq4 file k).
Proof. unfold HelmValues.del, HelmValues.key, Yq.delete_object. solve_uses. Qed.
Hint Resolve uses_set uses_del : uses.

Lemma uses_clients s file : uses neutral (HelmValues.loki_address_to_clients s file yq4).
Proof.
  unfold HelmValues.loki_address_to_clients, HelmValues.key, Yq.delete_object, Yq.append_to_array,
    Yq.append_to_object. solve_uses.
Qed.
Lemma uses_containers t file : uses neutral (HelmValues.init_containers_2_6 t yq4 file).
Proof.
  unfold HelmValues.init_containers_2_6, forM_, HelmValues.key, Yq.append_to_object. solve_uses.
Qed.
Lemma uses_crd_install fuel file : uses neutral (HelmValues.safe_crd_install fuel file yq4).
Proof.
  unfold HelmValues.safe_crd_install, HelmValues.list_crd_names, KubeClient.list_pages,
    KubeClient.crds_api, KubeClient.client, forM_, HelmValues.key. solve_uses.
Qed.
Hint Resolve uses_clients uses_containers uses_crd_install : uses.

Lemma yields_yq : yields Yq.new (λ y, y = yq4).
Proof. unfold Yq.new. repeat (apply yields_then; intros ?). done. Qed.

Lemma uses_generate fuel sv tv s t buf tvf dir :
  uses neutral (HelmValues.generate_values_yaml_file fuel sv tv s t buf tvf dir).
Proof.
  unfold HelmValues.generate_values_yaml_file, write_to_tempfile, HelmValues.parse_version.
  apply uses_bind; [solve_uses|intros src].
  eapply uses_bind_yields; [|apply yields_yq|].
  { unfold Yq.new, Yq.command_output, ensure_success, utf8. solve_uses. }
  intros ? ->.
  unfold Yq.merge_files, Yq.command_output, ensure_success, utf8, HelmValues.case_2_0,
    HelmValues.case_2_1, HelmValues.case_2_3, HelmValues.case_2_5, HelmValues.case_2_6,
    HelmValues.localpv_2_6, HelmValues.image_tags_2_6, HelmValues.renamed_keys_2_6,
    HelmValues.default_options.
  solve_uses.
Qed.
Hint Resolve uses_generate : uses.

Lemma uses_build fuel b : uses neutral (HelmUpgrade.build fuel b).
Proof.
  unfold HelmUpgrade.build, HelmReleaseClient.release_info, Path.version_from_chart_yaml_file,
    parse_file, HelmUpgrade.build_core, HelmUpgrade.validate_upgrade_path, CoreValues_try_from_path,
    parse_file.
  solve_uses.
Qed.
(** The data plane issues neither commands nor events, and drains a node only in
    [drain_storage_node]. *)
Definition drainless (c : op JobSig) : bool :=
  match c with PutNodeDrain _ _ => false | _ => data_plane_op c end.

Lemma uses_dp_list_pods fuel ns l f : uses drainless (KubeClient.list_pods fuel ns l f).
Proof. unfold KubeClient.list_pods, KubeClient.list_pages, KubeClient.pods_api, KubeClient.client. solve_uses. Qed.
Lemma uses_dp_await n v : uses drainless (Utils.await_rebuild_start n v).
Proof. induction n; cbn [Utils.await_rebuild_start]; solve_uses. Qed.
Hint Resolve uses_dp_await : uses.
Lemma uses_dp_scan node vols over stale : uses drainless (Utils.scan_volumes node vols over stale).
Proof. revert over stale; induction vols; intros; cbn [Utils.scan_volumes]; solve_uses. Qed.
Lemma uses_dp_volumes fuel keep : uses drainless (Utils.volumes_loop fuel keep).
Proof. unfold Utils.volumes_loop, Utils.volumes_step. solve_uses. Qed.
Hint Resolve uses_dp_list_pods uses_dp_scan uses_dp_volumes : uses.

Lemma uses_dp_rebuild fuel node : uses drainless (DataPlane.wait_for_rebuild fuel node).
Proof.
  unfold DataPlane.wait_for_rebuild, Utils.rebuild_result, Utils.rebuild_step,
    Utils.list_unhealthy_volumes. solve_uses.
Qed.
Lemma uses_dp_drainable fuel ha node : uses drainless (DataPlane.is_node_drainable fuel ha node).
Proof.
  unfold DataPlane.is_node_drainable, KubeClient.list_nodes_metadata, KubeClient.list_pages,
    KubeClient.nodes_api, KubeClient.client, Utils.cordon_storage_node,
    Utils.uncordon_storage_node, DataPlane.frontend_nodes_ana_check, Utils.list_all_volumes,
    Utils.get_node_state. solve_uses.
Qed.
Lemma uses_dp_uncordon fuel node :
  uses drainless (DataPlane.uncordon_drained_storage_node fuel node).
Proof. unfold DataPlane.uncordon_drained_storage_node, Utils.get_node_state. solve_uses. Qed.
Lemma uses_dp_verify fuel ns :
  uses drainless (DataPlane.verify_control_plane_is_running fuel ns).
Proof.
  unfold DataPlane.verify_control_plane_is_running, DataPlane.poll,
    DataPlane.control_plane_is_running. solve_uses.
Qed.
Lemma uses_dp_verify_pod fuel node ns hash :
  uses drainless (DataPlane.verify_data_plane_pod_is_running fuel node ns hash).
Proof.
  unfold DataPlane.verify_data_plane_pod_is_running, DataPlane.poll,
    DataPlane.data_plane_pod_is_running. solve_uses.
Qed.
Hint Resolve uses_dp_rebuild uses_dp_drainable uses_dp_uncordon uses_dp_verify
  uses_dp_verify_pod : uses.

Section DataPlaneUses.
Context (ok : op JobSig → bool) (ok_drainless : ∀ c, drainless c = true → ok c = true).

Lemma uses_dp_weaken {A} (p : job A) : uses drainless p → uses ok p.
Proof. by apply uses_weaken. Qed.

Lemma uses_dp_drain fuel node :
  ok (PutNodeDrain node drain_for_upgrade) = true →
  uses ok (DataPlane.drain_storage_node fuel node).
Proof.
  intros Hd. unfold DataPlane.drain_storage_node, Utils.get_node_state. apply uses_loop. intros _.
  apply uses_bind; [apply uses_dp_weaken; solve_uses|intros st].
  assert (uses ok (req (PutNodeDrain node drain_for_upgrade))) by by split.
  assert (∀ n, uses ok (req (Sleep n))) by by intros n; split; [apply ok_drainless|].
  solve_uses.
Qed.

Lemma uses_dp_pod fuel ns hash ha pod :
  (∀ spec node, pod.(pod_spec) = Some spec → spec.(node_name) = Some node →
     ok (PutNodeDrain node drain_for_upgrade) = true) →
  uses ok (DataPlane.upgrade_data_plane_pod fuel ns hash ha pod).
Proof.
  intros Hd. unfold DataPlane.upgrade_data_plane_pod.
  apply uses_bind; [apply uses_dp_weaken, uses_dp_verify|intros _].
  destruct (pod_spec pod) as [spec|] eqn:Es; [|done]. cbn [ok_or bind].
  destruct (node_name spec) as [node|] eqn:En; [|done]. cbn [ok_or bind].
  apply uses_bind; [apply uses_dp_weaken, uses_dp_rebuild|intros _].
  apply uses_bind; [apply uses_dp_weaken, uses_dp_drainable|intros drainable].
  apply uses_bind; [destruct drainable; [by apply uses_dp_drain, (Hd spec)|done]|intros _].
  apply uses_dp_weaken. unfold DataPlane.delete_data_plane_pod, KubeClient.pods_api, KubeClient.client.
  solve_uses.
Qed.
End DataPlaneUses.

Lemma uses_dp_upgrade fuel ns url hash ha label pods :
  uses data_plane_op (DataPlane.upgrade_data_plane fuel ns url hash ha label pods).
Proof.
  assert (∀ c, drainless c = true → data_plane_op c = true) as Hok by by intros [].
  unfold DataPlane.upgrade_data_plane. destruct pods as [|pod pods]; [done|].
  apply uses_bind; [unfold RestClientSet.new_with_url; solve_uses|intros _].
  apply uses_bind; [done|intros r]. apply uses_bind; [apply uses_lift|intros nodes].
  apply uses_bind; [apply uses_foldM; intros ? nd; apply uses_dp_weaken; [done|apply uses_dp_uncordon]|].
  intros _. apply uses_loop. intros ?. unfold DataPlane.upgrade_round.
  apply uses_bind; [apply uses_dp_weaken; [done|apply uses_dp_list_pods]|intros l].
  destruct l as [|p l]; [done|]. apply uses_bind; [|done].
  apply uses_foldM. intros ? q. by apply uses_dp_pod.
Qed.

Lemma uses_hash fuel ns l f key :
  uses neutral (KubeClient.latest_controller_revision_hash fuel ns l f key).
Proof.
  unfold KubeClient.latest_controller_revision_hash, KubeClient.list_controller_revisions,
    KubeClient.list_pages, KubeClient.controller_revisions_api, KubeClient.client. solve_uses.
Qed.
Lemma uses_list_pods fuel ns l f : uses neutral (KubeClient.list_pods fuel ns l f).
Proof.
  unfold KubeClient.list_pods, KubeClient.list_pages, KubeClient.pods_api, KubeClient.client.
  solve_uses.
Qed.
Lemma uses_recorder_build b : uses neutral (Recorder.build b).
Proof. unfold Recorder.build, KubeClient.pods_api, KubeClient.client. solve_uses. Qed.

(** *** Events *)

(** Publishing an event which is due: it is sent, or the note could not be
    serialized, or the channel is gone. *)
Lemma publish_typed_stage t er msg a (m : stage) p :
  m.(closed) = false → er.(Recorder.event_sender) = true →
  (∀ note, next_phase m.(at_phase) (mkEvent t upgrade_event_reason note (action_to_string a)) = Some p) →
  respects stages (Recorder.publish_typed t er msg a) m
    (λ _ m', m' = mkStage p m.(dry_ok) false)
    (λ _ m', m' = m ∨ m' = mkStage Lost m.(dry_ok) false).
Proof.
  intros Hc Hs Hp. unfold Recorder.publish_typed, Recorder.publish. rewrite Hs.
  destruct (note_to_json _) as [e|note]; cbn; [by left|].
  intros sent. rewrite Hc, Hp. destruct sent; cbn; [done|by right].
Qed.

(** Publishing a failure never fails itself. *)
Lemma publish_unrecoverable_stage er e v (m : stage) p :
  m.(closed) = false → er.(Recorder.event_sender) = true →
  (∀ note, next_phase m.(at_phase) (mkEvent Warning upgrade_event_reason note
     (action_to_string (if v : bool then ValidationFailed else ActFailed))) = Some p) →
  respects stages (Recorder.publish_unrecoverable er e v) m
    (λ _ m', m' = m ∨ m' = mkStage p m.(dry_ok) false ∨ m' = mkStage Lost m.(dry_ok) false)
    (λ _ _, False).
Proof.
  intros Hc Hs Hp. unfold Recorder.publish_unrecoverable, Recorder.publish_warning.
  apply respects_bind, respects_attempt.
  eapply respects_weaken; [by eapply publish_typed_stage| |]; cbn; intuition.
Qed.

(** The phases in which an upgrade can stop short. *)
Definition stopped (m : stage) : Prop :=
  m.(closed) = false ∧ ∀ b, m.(at_phase) ≠ Succeeded b.

Lemma or_publish_stage {A} er v (q : job A) (m : stage) p (Q : A → stage → Prop) (R : stage → Prop) :
  er.(Recorder.event_sender) = true → (∀ b, p ≠ Succeeded b) →
  respects stages q m Q (λ _ m', R m') →
  (∀ m', R m' → stopped m' ∧ ∀ note, next_phase m'.(at_phase) (mkEvent Warning upgrade_event_reason note
     (action_to_string (if v : bool then ValidationFailed else ActFailed))) = Some p) →
  respects stages (Upgrade.or_publish er v q) m Q (λ _ m', stopped m').
Proof.
  intros Hs Hp Hq HR. unfold Upgrade.or_publish.
  apply respects_bind, respects_attempt. eapply respects_weaken; [exact Hq|done|].
  intros e m' HRm. destruct (HR m' HRm) as [Hstop Hn]. cbn.
  eapply respects_seq; [apply publish_unrecoverable_stage; [apply Hstop|done|exact Hn]| |done].
  cbn. intros _ m'' [-> | [-> | ->]]; [done|by split|by split].
Qed.

(** *** The helm upgrade *)

(** The arguments after [helm upgrade]. *)
Definition args_of (ns rel dir : string) (extra : list string) : list string :=
  ([rel; dir; "-n"; ns; "--timeout"; "15m"] ++ extra)%list.

Lemma last_args_of ns rel dir l x : last (args_of ns rel dir (l ++ [x])%list) = Some x.
Proof. unfold args_of. rewrite app_assoc. apply last_snoc. Qed.

(** What is left of a helm command after its request. *)
Lemma helm_upgrade_tail output args (m : stage) :
  respects stages
    (let! stdout_str := utf8 output.(stdout) in
     ensure_success output (HelmUpgradeCommand "helm" args)) m
    (λ _ m', m' = m ∧ output.(success) = true) (λ _ m', m' = m).
Proof.
  unfold ensure_success, utf8. destruct (from_utf8 (stdout output)); cbn; [|done].
  destruct (success output); cbn; [done|]. by destruct (from_utf8 (stderr output)).
Qed.

Definition prepared (m : stage) : Prop := m.(at_phase) = Preparing ∧ m.(closed) = false.

Lemma step_dry_run (m : stage) args env r :
  prepared m → dry_args args = true →
  mstep stages m (Ev (S:=JobSig) (RunCommand "helm" ("upgrade" :: args) env) r) =
    Some (mkStage Preparing
      (match (r : ext_error + Output) with
       | inr out => if out.(success) then Some args else None
       | inl _ => None
       end) false).
Proof.
  intros [Hp Hc] Hd. cbn -[dry_args bool_decide]. rewrite Hc, bool_decide_true by done.
  by rewrite Hd, Hp.
Qed.

Lemma step_upgrade (m : stage) args env r :
  m.(at_phase) = ControlPlane → m.(closed) = false → m.(dry_ok) = Some (args ++ ["--dry-run"])%list →
  dry_args args = false →
  mstep stages m (Ev (S:=JobSig) (RunCommand "helm" ("upgrade" :: args) env) r) = Some m.
Proof.
  intros Hp Hc Hd Hdry. cbn -[dry_args bool_decide]. rewrite Hc, bool_decide_true by done.
  cbn -[dry_args bool_decide]. by rewrite Hdry, bool_decide_true.
Qed.

(** A [helm upgrade]: its request, then the check of its outcome. *)
Lemma respects_helm_upgrade ns rel dir l (m : stage) (Q : unit → stage → Prop) (R : Error → stage → Prop) :
  (∀ r, ∃ m', mstep stages m (Ev (S:=JobSig)
      (RunCommand "helm" ("upgrade" :: args_of ns rel dir l) []) r) = Some m' ∧
     match (r : ext_error + Output) with
     | inr out => out.(success) = true → Q tt m'
     | inl _ => True
     end ∧ ∀ e, R e m') →
  respects stages (HelmReleaseClient.upgrade ns rel dir (Some l)) m Q R.
Proof.
  intros Hstep. unfold HelmReleaseClient.upgrade, HelmReleaseClient.helm.
  apply respects_bind, respects_bind.
  change (respects stages (call (S:=JobSig) (RunCommand "helm" ("upgrade" :: args_of ns rel dir l) []))
    m (λ r m', respects stages (lift (λ e, HelmCommand e "helm" ("upgrade" :: args_of ns rel dir l))
        (r : ext_error + Output)) m'
      (λ a m'', respects stages (do! utf8 (stdout a) in
         ensure_success a (HelmUpgradeCommand "helm" ("upgrade" :: args_of ns rel dir l))) m'' Q R) R) R).
  apply respects_call. intros r. destruct (Hstep r) as (m' & -> & HQ & HR).
  destruct r as [e|output]; [apply HR|].
  apply (respects_weaken stages (do! utf8 (stdout output) in ensure_success output
      (HelmUpgradeCommand "helm" ("upgrade" :: args_of ns rel dir l))) m'
    (λ _ m'', m'' = m' ∧ output.(success) = true) _ (λ _ m'', m'' = m')); [apply helm_upgrade_tail| |].
  - intros [] m'' [-> ?]. by apply HQ.
  - intros e m'' ->. apply HR.
Qed.

Lemma helm_dry_run_stage ns rel dir l (m : stage) :
  prepared m →
  respects stages (HelmReleaseClient.upgrade ns rel dir (Some (l ++ ["--dry-run"])%list)) m
    (λ _ m', m' = mkStage Preparing (Some (args_of ns rel dir (l ++ ["--dry-run"])%list)) false)
    (λ _ m', prepared m').
Proof.
  intros Hm. apply respects_helm_upgrade. intros r. eexists. split_and!.
  - apply step_dry_run; [done|]. apply bool_decide_eq_true, last_args_of.
  - destruct r as [e|output]; [done|]. by intros ->.
  - done.
Qed.

Lemma helm_upgrade_stage ns rel dir l x (m : stage) :
  m.(at_phase) = ControlPlane → m.(closed) = false →
  m.(dry_ok) = Some (args_of ns rel dir ((l ++ [x]) ++ ["--dry-run"])%list) → x ≠ "--dry-run" →
  respects stages (HelmReleaseClient.upgrade ns rel dir (Some (l ++ [x])%list)) m
    (λ _ m', m' = m) (λ _ m', m' = m).
Proof.
  intros Hp Hc Hd Hx. apply respects_helm_upgrade. intros r. exists m. split_and!.
  - apply step_upgrade; [done|done| |].
    + rewrite Hd. unfold args_of. by rewrite !app_assoc.
    + apply bool_decide_eq_false. rewrite last_args_of. congruence.
  - by destruct r.
  - done.
Qed.

(** What the builder passes to helm does not end in [--dry-run]. *)
Definition proper_args (u : HelmUpgrade.HelmUpgrader) : Prop :=
  match u with
  | HelmUpgrade.CoreUpgrader c =>
      ∃ f a b, c.(HelmUpgrade.helm_upgrade_extra_args) = HelmUpgrade.extra_args f a b
  | HelmUpgrade.UmbrellaUpgrader _ => True
  end.

Lemma yields_build_args fuel b : yields (HelmUpgrade.build fuel b) proper_args.
Proof.
  unfold HelmUpgrade.build. repeat (apply yields_then; intros ?).
  case_match; [by apply yields_then; intros ?|]. apply yields_then; intros ?.
  case_match; [|done]. unfold HelmUpgrade.build_core. repeat (apply yields_then; intros ?).
  cbn. eauto.
Qed.

(** The runner may be run once the control-plane upgrade has been announced. *)
Definition runnable (run : job HelmValuesCollection) (dry : option (list string)) : Prop :=
  respects stages run (mkStage ControlPlane dry false)
    (λ _ m, m = mkStage ControlPlane dry false) (λ _ m, m = mkStage ControlPlane dry false).

Lemma dry_run_stage u (m : stage) :
  proper_args u → prepared m →
  respects stages (HelmUpgrade.dry_run u) m
    (λ run m', prepared m' ∧ runnable run m'.(dry_ok)) (λ _ m', prepared m').
Proof.
  intros Hargs Hm. destruct u as [c|u]; cbn [HelmUpgrade.dry_run].
  - destruct (HelmUpgrade.already_upgraded c); [done|].
    destruct Hargs as (f & a & b & ->).
    eapply respects_seq; [by apply helm_dry_run_stage| |done]. cbn beta. intros _ m' ->.
    split; [done|]. unfold runnable. cbn [dry_ok].
    set (m2 := mkStage ControlPlane _ false).
    apply (respects_seq stages _ _ m2 (λ _ m, m = m2) _ (λ _ m, m = m2)); [|intros [] ? ->|done].
    + apply (helm_upgrade_stage _ _ _ ["-f"; f; "--set"; a; "--set-file"; b] "--atomic"); done.
    + apply respects_neutral; [done|]. solve_uses.
  - split; [done|]. apply respects_neutral; [done|]. solve_uses.
Qed.

(** *** The whole upgrade *)
Lemma publish_stage t er msg a dry p p' :
  er.(Recorder.event_sender) = true →
  (∀ note, next_phase p (mkEvent t upgrade_event_reason note (action_to_string a)) = Some p') →
  (∀ b, p ≠ Succeeded b) →
  respects stages (Recorder.publish_typed t er msg a) (mkStage p dry false)
    (λ _ m', m' = mkStage p' dry false) (λ _ m', stopped m').
Proof.
  intros Hs Hn Hp. eapply respects_weaken; [by apply publish_typed_stage|done|].
  cbn. intros _ m' [-> | ->]; by split.
Qed.

Lemma upgrade_io_engines_stage fuel opts er sv values dry :
  er.(Recorder.event_sender) = true →
  respects stages (Upgrade.upgrade_io_engines fuel opts er sv values)
    (mkStage ControlPlaneDone dry false)
    (λ _ m', m' = mkStage DataPlaneDone dry false) (λ _ m', stopped m').
Proof.
  intros Hs. unfold Upgrade.upgrade_io_engines.
  assert (stopped (mkStage ControlPlaneDone dry false)) as Hst by done.
  assert (stopped (mkStage DataPlane dry false)) as Hst' by done.
  eapply respects_seq; [apply respects_neutral; [done|apply uses_lift]| |by intros ?? ->].
  intros _ ? ->.
  eapply respects_seq; [apply respects_neutral; [done|apply uses_hash]| |by intros ?? ->].
  intros hash ? ->.
  eapply respects_seq; [apply respects_neutral; [done|apply uses_list_pods]| |by intros ?? ->].
  intros pods ? ->.
  eapply respects_seq; [by apply (publish_stage _ _ _ _ _ ControlPlaneDone DataPlane)| |done].
  intros _ ? ->.
  eapply respects_seq.
  - apply (or_publish_stage _ _ _ _ (Reported false) (λ _ m', m' = mkStage DataPlane dry false)
      (λ m', m' = mkStage DataPlane dry false)); [done|done| |by intros ? ->].
    by apply respects_data_plane; [..|apply uses_dp_upgrade].
  - intros [] ? ->. by apply (publish_stage _ _ _ _ _ DataPlane DataPlaneDone).
  - done.
Qed.

Lemma upgrade_product_stage fuel opts er :
  er.(Recorder.event_sender) = true →
  respects stages (Upgrade.upgrade_product fuel opts er) start
    (λ _ m', m'.(at_phase) = Succeeded (negb opts.(skip_data_plane_restart)) ∧ m'.(closed) = false)
    (λ _ m', stopped m').
Proof.
  intros Hs. unfold Upgrade.upgrade_product.
  eapply respects_seq.
  { apply respects_yields; [apply respects_neutral; [done|apply uses_build]|apply yields_build_args]. }
  2: { by intros ? ? ->. }
  intros u ? [-> Hargs]. set (er' := Recorder.set_target_version _ _).
  assert (er'.(Recorder.event_sender) = true) as Hs' by done. clearbody er'.
  eapply respects_seq.
  { apply (or_publish_stage _ _ _ _ (Reported true)
      (λ run m', prepared m' ∧ runnable run m'.(dry_ok)) prepared); [done|done| |].
    - by apply dry_run_stage.
    - intros m' [Hp Hc]. split; [split; [done|]; by rewrite Hp|]. by rewrite Hp. }
  2: { done. }
  intros run m' [[Hp Hc] Hrun].
  destruct m' as [ph dry cl]. cbn in Hp, Hc, Hrun. subst ph cl.
  eapply respects_seq; [by apply (publish_stage _ _ _ _ _ Preparing Starting)|intros _ ? ->|done].
  eapply respects_seq; [by apply (publish_stage _ _ _ _ _ Starting ControlPlane)|intros _ ? ->|done].
  eapply respects_seq.
  { apply (or_publish_stage _ _ _ _ (Reported false) (λ _ m', m' = mkStage ControlPlane dry false)
      (λ m', m' = mkStage ControlPlane dry false)); [done|done|exact Hrun|by intros ? ->]. }
  2: { done. }
  intros values ? ->.
  eapply respects_seq; [by apply (publish_stage _ _ _ _ _ ControlPlane ControlPlaneDone)|intros _ ? ->|done].
  destruct (skip_data_plane_restart opts); cbn [bind negb].
  - eapply respects_weaken; [by apply (publish_stage _ _ _ _ _ ControlPlaneDone (Succeeded false))| |done].
    by intros _ ? ->.
  - eapply respects_seq; [by apply upgrade_io_engines_stage|intros _ ? ->|done].
    eapply respects_weaken; [by apply (publish_stage _ _ _ _ _ DataPlaneDone (Succeeded true))| |done].
    by intros _ ? ->.
Qed.

Lemma yields_recorder b : yields (Recorder.build b) (λ er, er.(Recorder.event_sender) = true).
Proof.
  unfold Recorder.build. repeat case_match; try done. repeat (apply yields_then; intros ?). done.
Qed.

(** The end of a run: a success has been reported and nothing follows it; an error
    is not reported as a success. *)
Definition finished (restart : bool) (m : stage) : Prop :=
  m.(at_phase) = Succeeded restart ∧ m.(closed) = true.
Definition aborted (m : stage) : Prop :=
  (∀ b, m.(at_phase) ≠ Succeeded b) ∧ (m.(closed) = true ∨ m = start).

Lemma upgrade_stage fuel opts :
  respects stages (Upgrade.upgrade fuel opts) start
    (λ _ m', finished (negb opts.(skip_data_plane_restart)) m') (λ _ m', aborted m').
Proof.
  unfold Upgrade.upgrade. eapply respects_seq.
  { apply respects_yields; [apply respects_neutral; [done|apply uses_recorder_build]|apply yields_recorder]. }
  2: { intros ? ? ->. split; [done|by right]. }
  intros er ? [-> Hs]. apply respects_bind, respects_attempt.
  eapply respects_weaken; [by apply upgrade_product_stage| |].
  - intros [] m' [Hp Hc]. cbn. intros _. by rewrite Hc.
  - intros e m' [Hc Hp]. cbn. intros _. rewrite Hc. split; [done|by left].
Qed.

(** The validation of the arguments changes nothing. *)
Lemma uses_validate args : uses neutral (Validators.parse_cli_args args).
Proof.
  unfold Validators.parse_cli_args, Validators.validate_namespace, Validators.validate_rest_endpoint,
    Validators.validate_helmv3_in_path, Validators.validate_helm_release,
    Validators.validate_helm_chart_dir, Validators.validate_core_helm_chart_variant_in_dir,
    Validators.ensure_dir, Validators.ensure_file, Validators.path_exists_and_is_dir,
    Validators.path_exists_and_is_file, HelmReleaseClient.helm, ensure_success, utf8, parse_file,
    KubeClient.namespaces_api, KubeClient.client, RestClientSet.new_with_url.
  solve_uses.
Qed.

Lemma main_stage fuel args :
  respects stages (Upgrade.main fuel args) start
    (λ _ m', finished (negb args.(skip_data_plane_restart)) m') (λ _ m', aborted m').
Proof.
  unfold Upgrade.main. eapply respects_seq.
  { apply respects_yields; [apply respects_neutral; [done|apply uses_validate]|].
    unfold Validators.parse_cli_args. repeat (apply yields_then; intros ?).
    exact (eq_refl args). }
  2: { intros ? ? ->. split; [done|by right]. }
  intros ? ? [-> <-]. apply upgrade_stage.
Qed.
End Uses.
End Stages.

(** ** Properties of the upgrade *)
Module UpgradeSpec.
Import Stages.
Section Spec.
Context `{Deps} `{EventDeps} `{Semver} `{SJ : SerdeJson} `{RegexCrate} `{HashOrder} `{SortUnstable}.

(** C2: Every run of the upgrade job, complete or cut short, whatever the services
    answer, keeps the order of the stages: [helm upgrade] runs only after its two
    announcements and before its report, and only with the very arguments a dry run
    has accepted; pods are deleted and storage nodes cordoned or drained only after
    the control plane was reported upgraded and the data-plane upgrade was
    announced; the events come in their order; nothing is requested after the event
    worker was shut down.  A successful run has reported its success, with the data
    plane restarted unless that is to be skipped, and has shut the worker down; a
    failed one never reports success. *)
Theorem upgrade_stage_order fuel args tr o :
  exec (Upgrade.main fuel args) tr o →
  ∃ m, accepts stages start tr = Some m ∧
    match o with
    | Done _ => finished (negb args.(skip_data_plane_restart)) m
    | Failed _ => aborted m
    | _ => True
    end.
Proof. apply respects_sound, main_stage. Qed.

(** A failed dry run, helm upgrade or data-plane upgrade is reported before the
    job gives up: if the step fails with an error, the same error is returned after
    one warning event with the upgrade's versions and the error's text, whether or
    not the event could be sent. *)
Theorem failure_is_reported {W A} (h : handler JobSig W) er validation (m : job A) w e w' tr note :
  run h m w = (Failed e, w', tr) → er.(Recorder.event_sender) = true →
  note_to_json (Recorder.note_of er ("Failed to upgrade: " +:+ JobErrorText.display e)) = inr note →
  ∃ r w'', run h (Upgrade.or_publish er validation m) w =
    (Failed e, w'', (tr ++ [Ev (S:=JobSig) (SendEvent (mkEvent Warning upgrade_event_reason (Some note)
       (action_to_string (if validation then ValidationFailed else ActFailed)))) r])%list).
Proof.
  intros Hm Hs Hn. unfold Upgrade.or_publish. rewrite run_bind, (run_attempt h m), Hm. cbn.
  unfold Recorder.publish_unrecoverable, Recorder.publish_warning, Recorder.publish_typed,
    Recorder.publish. rewrite Hn, Hs. cbn.
  destruct (h (SendEvent _) w') as [[] w'']; cbn; eauto.
Qed.

(** What is known of a prepared helm upgrade. *)
Definition upgrade_path_ok (b : HelmUpgrade.HelmUpgraderBuilder) (u : HelmUpgrade.HelmUpgrader) : Prop :=
  ∃ e, Some e.(HelmReleaseClient.name) = b.(HelmUpgrade.b_release_name) ∧
    Path.version_from_release_chart e.(HelmReleaseClient.chart) = inr (HelmUpgrade.source_version u) ∧
    match u with
    | HelmUpgrade.UmbrellaUpgrader _ =>
        Regex.is_match HelmUpgrade.umbrella_regex e.(HelmReleaseClient.chart) = inr true ∧
        HelmUpgrade.target_version u = HelmUpgrade.source_version u
    | HelmUpgrade.CoreUpgrader c =>
        Regex.is_match HelmUpgrade.core_regex e.(HelmReleaseClient.chart) = inr true ∧
        c.(HelmUpgrade.already_upgraded) =
          v_eq (HelmUpgrade.target_version u) (HelmUpgrade.source_version u) ∧
        (b.(HelmUpgrade.b_skip_upgrade_path_validation) = false →
         v_ge (HelmUpgrade.target_version u) (HelmUpgrade.source_version u) = true ∧
         Path.is_valid_for_core_chart (HelmUpgrade.source_version u) = inr true)
    end.

Lemma find_release_name n l e :
  HelmReleaseClient.find_release n l = Some e → e.(HelmReleaseClient.name) = n.
Proof.
  induction l as [|x l IH]; cbn; [done|]. case_decide; [by intros [= <-]|exact IH].
Qed.

Lemma yields_ok_or {A} e (o : option A) : yields (S:=JobSig) (E:=Error) (ok_or e o) (λ a, o = Some a).
Proof. by destruct o. Qed.

Lemma yields_lift_inr {X A} (f : X → Error) (r : X + A) :
  yields (S:=JobSig) (lift f r) (λ a, r = inr a).
Proof. by apply yields_lift. Qed.

Lemma yields_build_path fuel b : yields (HelmUpgrade.build fuel b) (upgrade_path_ok b).
Proof.
  unfold HelmUpgrade.build.
  eapply yields_bind; [apply yields_ok_or|intros rel Hrel].
  apply yields_then; intros ns. apply yields_then; intros dir. apply yields_then; intros client.
  eapply (yields_bind _ _ (λ e, e.(HelmReleaseClient.name) = rel)).
  { unfold HelmReleaseClient.release_info. apply yields_then; intros l.
    eapply yields_weaken; [apply yields_ok_or|]. intros e. apply find_release_name. }
  intros e He. eapply yields_bind; [apply yields_lift_inr|intros sv Hsv].
  apply yields_then; intros buf. apply yields_then; intros tv.
  eapply yields_bind; [apply yields_lift_inr|intros [] Hu].
  { eapply yields_bind; [apply yields_ensure|]. cbn beta. intros _ Hv%v_eq_true.
    exists e. split_and!; [congruence|done|done|done]. }
  eapply yields_bind; [apply yields_lift_inr|intros [] Hc]; [|done].
  unfold HelmUpgrade.build_core.
  eapply (yields_bind _ _ (λ _, b.(HelmUpgrade.b_skip_upgrade_path_validation) = false →
    v_ge tv sv = true ∧ Path.is_valid_for_core_chart sv = inr true)).
  { destruct (HelmUpgrade.b_skip_upgrade_path_validation b); [done|].
    unfold HelmUpgrade.validate_upgrade_path.
    eapply yields_bind; [apply yields_ensure|]. cbn beta. intros _ Hge.
    eapply yields_bind; [apply yields_lift_inr|intros [] Hok]; done. }
  intros _ Hpath. repeat (apply yields_then; intros ?).
  exists e. split_and!; [congruence|done|done|done|exact Hpath].
Qed.


(** C34: Upgrades from a version between 2.2.0 and 2.5.0, both included, do not restart
    the data plane while partial rebuild is enabled: the check fails exactly in that
    case, and then the data-plane stage ends with that error before its first
    request (no event, no pod, no node).  *)
Theorem partial_rebuild_blocks_restart fuel opts er sv values :
  (v_ge sv (version_new 2 2 0) && v_le sv (version_new 2 5 0) &&
   values.(partial_rebuild_is_enabled) = true →
   ∃ e, Upgrade.upgrade_io_engines fuel opts er sv values = Throw e) ∧
  (Upgrade.partial_rebuild_check sv values.(partial_rebuild_is_enabled) = inr tt ↔
   ¬ (v_ge sv (version_new 2 2 0) && v_le sv (version_new 2 5 0) &&
      values.(partial_rebuild_is_enabled) = true)).
Proof.
  unfold Upgrade.upgrade_io_engines, Upgrade.partial_rebuild_check. cbn [Upgrade.partial_rebuild_disable_extents].
  destruct (v_ge _ _ && v_le _ _ && partial_rebuild_is_enabled values); split.
  - cbn. eauto.
  - split; [done|]. intros Hn. by destruct Hn.
  - done.
  - by split.
Qed.

(** The version of a release is what follows the first dash of its chart, for any
    chart name without a dash; a chart without a dash is an error, and so is a text
    which is no version. *)
Theorem version_from_release_chart_spec name version :
  "-"%char ∉ chars name →
  Path.version_from_release_chart (name +:+ "-" +:+ version) =
    match version_parse version with inr v => inr v | inl e => inl (SemverParse e version) end ∧
  Path.version_from_release_chart name = inl (HelmChartNameSplit name "-"%char).
Proof.
  intros Hn. unfold Path.version_from_release_chart.
  replace (cut_at "-" (name +:+ "-" +:+ version)) with (Some (name, version))
    by (symmetry; by apply cut_at_some).
  split; [by destruct (version_parse version)|].
  destruct (cut_at "-" name) as [[x y]|] eqn:Hc; [|done].
  apply cut_at_some in Hc as [-> _]. exfalso. apply Hn, elem_of_chars_app.
Qed.
End Spec.
End UpgradeSpec.
