(* ===== verification/JobNeeds.v ===== *)
(** * The upgrade job: nothing is changed needlessly

    The upgrade job is run again when its pod was killed, and a user can start it again
    after a success.  Whatever it finds then, it runs [helm upgrade] only if the installed
    release is not of the target version yet, and touches pods and nodes only if pods of
    older revisions were listed. *)

From S2P Require Import Prelude Semver Text JobApi JobEvents HelmChart HelmClient HelmValues.
From S2P Require Import HelmUpgrade JobUtils JobDataPlane JobUpgrade JobUpgradeSpec.
From stdpp Require Import base gmap list strings.
From Stdlib Require Import ZArith Lia.
Open Scope list_scope.

Module JobNeeds.
Import Stages.
Section Needs.
Context `{Deps} `{EventDeps} `{Semver} `{SJ : SerdeJson} `{RegexCrate} `{HashOrder} `{SortUnstable}.

(** The helm upgrader which the job builds from its arguments. *)
Definition upgrader_of (fuel : nat) (opts : CliArgs) (tr : list (ev JobSig))
    (u : HelmUpgrade.HelmUpgrader) : Prop :=
  ∃ tr0 tr1 tr2, tr = tr0 ++ tr1 ++ tr2 ∧
    exec (HelmUpgrade.build fuel
      (HelmUpgrade.with_helm_args_set_file opts.(helm_args_set_file)
      (HelmUpgrade.with_helm_args_set opts.(helm_args_set)
      (HelmUpgrade.with_skip_upgrade_path_validation opts.(skip_upgrade_path_validation)
      (HelmUpgrade.with_core_chart_dir opts.(core_chart_dir)
      (HelmUpgrade.with_release_name opts.(release_name)
      (HelmUpgrade.with_namespace opts.(JobUpgrade.namespace) HelmUpgrade.builder_default)))))))
      tr1 (Done u).

Lemma upgrader_of_mono fuel opts tr tr' tr'' u :
  upgrader_of fuel opts tr u → upgrader_of fuel opts (tr' ++ tr ++ tr'') u.
Proof.
  intros (t0 & t1 & t2 & -> & Hx). exists (tr' ++ t0), t1, (t2 ++ tr''). split; [|done].
  by rewrite <-!app_assoc.
Qed.

(** ** Which parts can issue a request *)
Definition helmless (c : op JobSig) : bool :=
  match upgrade_cmd c with Some _ => false | None => true end.
Definition restless (c : op JobSig) : bool := negb (restarts c).

(** Events may be sent, and what is allowed everywhere is allowed. *)
Definition permits (ok : op JobSig → bool) : Prop :=
  (∀ c, neutral c = true → ok c = true) ∧ (∀ e, ok (SendEvent e) = true).

Lemma permits_helmless : permits helmless.
Proof.
  split; [|done]. intros c. unfold neutral, helmless. by destruct (upgrade_cmd c).
Qed.
Lemma permits_restless : permits restless.
Proof.
  split; [|done]. intros c. unfold neutral, restless. destruct (upgrade_cmd c); [done|].
  by intros [? _]%andb_prop.
Qed.

Section Permits.
Context (ok : op JobSig → bool) (Hok : permits ok).

Lemma permits_neutral {A} (p : job A) : uses neutral p → uses ok p.
Proof. apply uses_weaken, Hok. Qed.
Lemma permits_publish t er msg a : uses ok (Recorder.publish_typed t er msg a).
Proof.
  unfold Recorder.publish_typed, Recorder.publish. apply uses_bind; [apply uses_lift|intros s].
  destruct (Recorder.event_sender er); [|done]. split; [apply Hok|by intros []].
Qed.
Lemma permits_or_publish {A} er v (p : job A) : uses ok p → uses ok (Upgrade.or_publish er v p).
Proof.
  intros Hp. unfold Upgrade.or_publish. apply uses_bind; [by apply uses_attempt|]. intros [e|a]; [|done].
  apply uses_bind; [|done]. unfold Recorder.publish_unrecoverable.
  apply uses_bind; [apply uses_attempt, permits_publish|done].
Qed.
Lemma permits_io_engines fuel opts er sv values :
  (∀ c, data_plane_op c = true → ok c = true) →
  uses ok (Upgrade.upgrade_io_engines fuel opts er sv values).
Proof.
  intros Hd. unfold Upgrade.upgrade_io_engines. apply uses_bind; [apply uses_lift|intros _].
  apply uses_bind; [apply permits_neutral, uses_hash|intros hash].
  apply uses_bind; [apply permits_neutral, uses_list_pods|intros pods].
  apply uses_bind; [apply permits_publish|intros _].
  apply uses_bind; [|by intros _; apply permits_publish].
  apply permits_or_publish, (uses_weaken _ _ _ Hd), uses_dp_upgrade.
Qed.
End Permits.
#[local] Hint Resolve permits_helmless permits_restless : core.

(** A helm upgrade is to be run. *)
Definition needs_upgrade (u : HelmUpgrade.HelmUpgrader) : Prop :=
  ∃ k, u = HelmUpgrade.CoreUpgrader k ∧ k.(HelmUpgrade.already_upgraded) = false.
#[local] Instance needs_upgrade_dec u : Decision (needs_upgrade u).
Proof.
  destruct u as [k|]; [destruct (HelmUpgrade.already_upgraded k) eqn:E|].
  - right. intros (? & [= <-] & ?). congruence.
  - left. by exists k.
  - right. by intros (? & ? & _).
Defined.

Lemma helmless_dry_run u :
  ¬ needs_upgrade u →
  uses helmless (HelmUpgrade.dry_run u) ∧ yields (HelmUpgrade.dry_run u) (λ run, uses helmless run).
Proof.
  intros Hn. unfold HelmUpgrade.dry_run, HelmReleaseClient.get_values_as_yaml,
    HelmReleaseClient.helm, ensure_success, utf8. destruct u as [k|u].
  - destruct (HelmUpgrade.already_upgraded k) eqn:E; [done|]. destruct Hn. by exists k.
  - split; [done|]. cbn [yields]. solve_uses.
Qed.
Lemma restless_dry_run u :
  uses restless (HelmUpgrade.dry_run u) ∧ yields (HelmUpgrade.dry_run u) (λ run, uses restless run).
Proof.
  unfold HelmUpgrade.dry_run, HelmReleaseClient.upgrade, HelmReleaseClient.get_values_as_yaml,
    HelmReleaseClient.helm, ensure_success, utf8.
  destruct u as [k|u]; [destruct (HelmUpgrade.already_upgraded k); [done|]|]; split; try solve_uses.
  apply yields_then. intros _. cbn [yields]. solve_uses.
Qed.

(** ** Where in a run a change can be *)

(** The validation returns the arguments as they are. *)
Lemma yields_args args : yields (Validators.parse_cli_args args) (λ o, o = args).
Proof. unfold Validators.parse_cli_args. by repeat (apply yields_then; intros ?). Qed.

(** A change in a run of [main] is one in the upgrade of the product. *)
Lemma main_product ok fuel args tr1 c r tr2 o :
  (∀ c, neutral c = true → ok c = true) → (ok ShutdownWorker = true) → ok c = false →
  exec (Upgrade.main fuel args) (tr1 ++ Ev (S:=JobSig) c r :: tr2) o →
  ∃ er t0 t tr2' o', tr1 = t0 ++ t ∧ er.(Recorder.event_sender) = true ∧
    exec (Upgrade.upgrade_product fuel args er) (t ++ Ev (S:=JobSig) c r :: tr2') o'.
Proof.
  intros Hok Hsd Hc Hx. unfold Upgrade.main, Upgrade.upgrade in Hx.
  apply (exec_gated ok) in Hx as (opts & ta & t & Ha & -> & Hx);
    [|by eapply uses_weaken, uses_validate|done].
  apply (yields_sound _ _ _ _ (yields_args args)) in Ha as ->.
  apply (exec_gated ok) in Hx as (er & tb & t' & Her & -> & Hx);
    [|by eapply uses_weaken, uses_recorder_build|done].
  apply (yields_sound _ _ _ _ (yields_recorder _)) in Her.
  apply (exec_within ok) in Hx as (tr2' & o' & Hx);
    [|intros a; apply uses_bind; [by split|intros _; apply uses_lift]|done].
  apply exec_attempt_run in Hx as [o'' Hx]. exists er, (ta ++ tb), t', tr2', o''.
  by rewrite app_assoc.
Qed.

(** *** A helm upgrade, dry or not *)
Lemma upgrade_needed fuel args er tr1 c r tr2 o a :
  exec (Upgrade.upgrade_product fuel args er) (tr1 ++ Ev (S:=JobSig) c r :: tr2) o →
  upgrade_cmd c = Some a →
  ∃ u, upgrader_of fuel args tr1 u ∧ needs_upgrade u.
Proof.
  intros Hx Hcmd. assert (helmless c = false) as Hc by (unfold helmless; by rewrite Hcmd).
  unfold Upgrade.upgrade_product in Hx.
  apply (exec_gated helmless) in Hx as (u & ta & t & Ha & -> & Hx);
    [|by apply permits_neutral, uses_build|done].
  exists u. split; [exists [], ta; by eexists|].
  destruct (decide (needs_upgrade u)) as [|Hn]; [done|]. exfalso.
  destruct (helmless_dry_run u Hn) as [Hu Hy].
  eapply (uses_refuses helmless) in Hx; [done| |done].
  eapply uses_bind_yields; [by apply permits_or_publish| |intros run Hrun].
  { unfold Upgrade.or_publish. eapply yields_bind; [apply yields_attempt, Hy|].
    intros [e|p]; [by intros _; apply yields_then|done]. }
  do 2 (apply uses_bind; [by apply permits_publish|intros _]).
  apply uses_bind; [by apply permits_or_publish|intros values].
  apply uses_bind; [by apply permits_publish|intros _].
  apply uses_bind; [|by intros _; apply permits_publish].
  destruct (JobUpgrade.skip_data_plane_restart args); [done|]. apply permits_io_engines; [done|].
  intros c' Hc'. unfold helmless. by destruct c'.
Qed.

(** *** A restart of the data plane *)
Definition old_pods_listed (fuel : nat) (opts : CliArgs) (tr : list (ev JobSig)) : Prop :=
  ∃ t0 th tp t1 hash pods, tr = t0 ++ th ++ tp ++ t1 ∧
    exec (KubeClient.latest_controller_revision_hash fuel opts.(JobUpgrade.namespace)
            (Some IO_ENGINE_LABEL) None DS_CONTROLLER_REVISION_HASH_LABEL_KEY) th (Done hash) ∧
    exec (KubeClient.list_pods fuel opts.(JobUpgrade.namespace)
            (Some (DataPlane.yet_to_upgrade_label hash)) None) tp (Done pods) ∧
    pods ≠ [].

Lemma restart_needed_io fuel opts er sv values tr1 c r tr2 o :
  exec (Upgrade.upgrade_io_engines fuel opts er sv values) (tr1 ++ Ev (S:=JobSig) c r :: tr2) o →
  restarts c = true → old_pods_listed fuel opts tr1.
Proof.
  intros Hx Hr. assert (restless c = false) as Hc by (unfold restless; by rewrite Hr).
  unfold Upgrade.upgrade_io_engines in Hx.
  apply (exec_gated restless) in Hx as (? & t0 & t & _ & -> & Hx); [|apply uses_lift|done].
  apply (exec_gated restless) in Hx as (hash & th & t' & Hh & -> & Hx);
    [|by apply permits_neutral, uses_hash|done].
  apply (exec_gated restless) in Hx as (pods & tp & t1 & Hp & -> & Hx);
    [|by apply permits_neutral, uses_list_pods|done].
  exists t0, th, tp, t1, hash, pods. split_and!; [done..|]. intros ->.
  eapply (uses_refuses restless) in Hx; [done| |done].
  do 2 (apply uses_bind; [first [by apply permits_publish|by apply permits_or_publish]|intros _]).
  by apply permits_publish.
Qed.

Lemma restart_needed fuel args er tr1 c r tr2 o :
  exec (Upgrade.upgrade_product fuel args er) (tr1 ++ Ev (S:=JobSig) c r :: tr2) o →
  restarts c = true →
  args.(JobUpgrade.skip_data_plane_restart) = false ∧ old_pods_listed fuel args tr1.
Proof.
  intros Hx Hr. assert (restless c = false) as Hc by (unfold restless; by rewrite Hr).
  unfold Upgrade.upgrade_product in Hx.
  apply (exec_gated restless) in Hx as (u & ta & t & Ha & -> & Hx);
    [|by apply permits_neutral, uses_build|done].
  destruct (restless_dry_run u) as [Hu Hy].
  apply (exec_gated restless) in Hx as (run & tb & t' & Hb & -> & Hx); [|by apply permits_or_publish|done].
  assert (uses restless run) as Hrun.
  { eapply yields_sound, Hb. unfold Upgrade.or_publish. eapply yields_bind; [apply yields_attempt, Hy|].
    intros [e|p]; [by intros _; apply yields_then|done]. }
  apply (exec_gated restless) in Hx as (? & tc & t2 & _ & -> & Hx); [|by apply permits_publish|done].
  apply (exec_gated restless) in Hx as (? & td & t3 & _ & -> & Hx); [|by apply permits_publish|done].
  apply (exec_gated restless) in Hx as (values & te & t4 & _ & -> & Hx); [|by apply permits_or_publish|done].
  apply (exec_gated restless) in Hx as (? & tf & t5 & _ & -> & Hx); [|by apply permits_publish|done].
  apply (exec_within restless) in Hx as (tr2' & o' & Hx); [|intros; by apply permits_publish|done].
  destruct (JobUpgrade.skip_data_plane_restart args).
  { by eapply (uses_refuses restless) in Hx. }
  split; [done|]. apply restart_needed_io in Hx as (t0 & th & tp & t1 & hash & pods & -> & Hx); [|done].
  exists (ta ++ tb ++ tc ++ td ++ te ++ tf ++ t0), th, tp, t1, hash, pods.
  split; [by rewrite <-!app_assoc|done].
Qed.
End Needs.

Section Properties.
Context `{Deps} `{EventDeps} `{Semver} `{SJ : SerdeJson} `{RegexCrate} `{HashOrder} `{SortUnstable}.

(** C7: A job which is run again changes nothing that is done already.  In every run of the
    job, up to the point where it was killed or to its end, a [helm upgrade], also a dry
    one, is run only if the release which the job found is not of the target version
    yet; and a pod is deleted, a node cordoned, drained or uncordoned only if the restart of
    the data plane was not skipped and pods were listed before, in this run, which do not
    carry the newest revision of the io-engine. *)
Theorem changes_needed fuel args tr1 c r tr2 o :
  exec (Upgrade.main fuel args) (tr1 ++ Ev (S:=JobSig) c r :: tr2) o →
  (∀ a, upgrade_cmd c = Some a →
     ∃ u, upgrader_of fuel args tr1 u ∧
       v_eq (HelmUpgrade.target_version u) (HelmUpgrade.source_version u) = false) ∧
  (restarts c = true →
     args.(JobUpgrade.skip_data_plane_restart) = false ∧ old_pods_listed fuel args tr1).
Proof.
  intros Hx. split.
  - intros a Ha. assert (helmless c = false) as Hc by (unfold helmless; by rewrite Ha).
    apply (main_product helmless) in Hx as (er & t0 & t & tr2' & o' & -> & _ & Hx);
      [|apply permits_helmless|done|done].
    eapply upgrade_needed in Hx as (u & Hu & k & -> & Hk); [|done].
    exists (HelmUpgrade.CoreUpgrader k). split.
    + rewrite <-(app_nil_r t). by apply upgrader_of_mono.
    + destruct Hu as (? & ? & ? & _ & Hb). apply (yields_sound _ _ _ _ (UpgradeSpec.yields_build_path _ _)) in Hb.
      destruct Hb as (e & _ & _ & _ & Heq & _). by rewrite <-Heq.
  - intros Hr. assert (restless c = false) as Hc by (unfold restless; by rewrite Hr).
    apply (main_product restless) in Hx as (er & t0 & t & tr2' & o' & -> & _ & Hx);
      [|apply permits_restless|done|done].
    apply restart_needed in Hx as (Hs & t1 & th & tp & t2 & hash & pods & -> & Hp); [|done].
    split; [done|]. exists (t0 ++ t1), th, tp, t2, hash, pods. by rewrite <-!app_assoc.
Qed.
End Properties.
End JobNeeds.
