(* ===== verification/JobSim.v ===== *)
(** * A simulated cluster

A concrete environment for the upgrade job: a DaemonSet whose pods are
recreated from the latest revision when they are deleted, and storage nodes
which drain at once.  It serves to show that the job completes, and to
evaluate the model. *)

From S2P Require Import Prelude JobApi JobUtils JobDataPlane.
From stdpp Require Import base gmap list strings.
From Stdlib Require Import ZArith Lia.

(** The constants of the [utils] crate, as the product is named today. *)
Definition mayastor_deps : Deps := {|
  PRODUCT_NAME := "mayastor";
  PRODUCT_DOMAIN_NAME := "openebs.io";
  to_train_case := λ s, if decide (s = "mayastor") then "Mayastor" else s;
  API_REST_LABEL := "app=api-rest";
  ETCD_LABEL := "app=etcd";
  csi_node_nvme_ana := "openebs.io/csi-node.nvme-ana"
|}.

Module Sim.
Import KubeClient Utils DataPlane.
#[local] Existing Instance mayastor_deps.

(** A pod is its name and its node. *)
Record world := mkWorld {
  old_pods : list (string * string);
  new_pods : list (string * string);
  node_states : gmap string CordonDrainState
}.

Definition ready_pod (p : string * string) : Pod :=
  mkPod p.1 None (Some (mkPodSpec (Some p.2)))
    (Some (mkPodStatus (Some [mkPodCondition "Ready" "True"]))).

Section Sim.
Variable hash : string.

Definition pods_for (w : world) (lp : ListParams) : list Pod :=
  if decide (lp.(label_selector) = Some (yet_to_upgrade_label hash))
  then ready_pod <$> w.(old_pods)
  else if decide (lp.(label_selector) = Some (upgraded_pod_label hash))
  then ready_pod <$> base.filter (λ p, lp.(field_selector) = Some (node_name_field p.2)) w.(new_pods)
  else [ready_pod ("control-plane-0", "cp")].

(** The DaemonSet controller replaces a deleted pod. *)
Definition replace_pod (name : string) (w : world) : world :=
  mkWorld (base.filter (λ p, p.1 ≠ name) w.(old_pods))
    (w.(new_pods) ++ base.filter (λ p, p.1 = name) w.(old_pods)) w.(node_states).

Definition sim : handler JobSig world := λ c w,
  match c return job_res c * world with
  | ClientTryDefault => (inr tt, w)
  | PodsList _ lp => (inr (mkObjectList (pods_for w lp) None), w)
  | NodesListMetadata _ | CrdsListMetadata _ => (inr (mkObjectList [] None), w)
  | CtrlRevsList _ _ =>
      (inr (mkObjectList [mkControllerRevision "io-engine-1"
              {[DS_CONTROLLER_REVISION_HASH_LABEL_KEY := "old"]} 1;
            mkControllerRevision "io-engine-2"
              {[DS_CONTROLLER_REVISION_HASH_LABEL_KEY := hash]} 2] None), w)
  | NamespaceGet _ => (inr tt, w)
  | PodGet _ name => (inr (ready_pod (name, "cp")), w)
  | PodsDelete _ name => (inr tt, replace_pod name w)
  | UrlTryFrom _ | RestConfigBuild _ => (inr tt, w)
  | GetNodes =>
      (inr ((λ p : string * string, mkStorageNode p.2 None) <$> (w.(old_pods) ++ w.(new_pods))), w)
  | GetNode id => (inr (mkStorageNode id (Some (mkNodeSpec (w.(node_states) !! id)))), w)
  | PutNodeCordon _ _ => (inr tt, w)
  | DeleteNodeCordon id _ =>
      (inr tt, mkWorld w.(old_pods) w.(new_pods) (delete id w.(node_states)))
  | PutNodeDrain id l =>
      (inr tt, mkWorld w.(old_pods) w.(new_pods) (<[id := drainedstate [] [l]]> w.(node_states)))
  | GetVolumes _ _ => (inr (mkVolumes [] None), w)
  | RunCommand _ _ _ => (inr (mkOutput true "" ""), w)
  | FsRead _ => (inr "", w)
  | FsMetadata _ => (inr IsFile, w)
  | TempFileNewIn _ => (inr "/tmp/values", w)
  | FileWrite _ b => (inr (N.of_nat (String.length b)), w)
  | Sleep _ | ShutdownWorker => (tt, w)
  | SendEvent _ => (true, w)
  end.

Lemma list_pods_sim fuel ns l f w :
  fuel ≠ 0 →
  ∃ tr, run sim (list_pods fuel ns l f) w =
          (Done (pods_for w (fields f (labels l default_params))), w, tr).
Proof. destruct fuel; [done|]. intros _. destruct l, f; cbn; eauto. Qed.

Abbreviation Q := (Done tt).
#[local] Arguments lookup : simpl never.
#[local] Arguments delete : simpl never.
#[local] Arguments insert : simpl never.

(** Each step of one pod, in a world without drained nodes. *)
Lemma verify_control_plane_sim fuel ns w :
  fuel ≠ 0 → ∃ tr, run (sim) (verify_control_plane_is_running fuel ns) w = (Q, w, tr).
Proof.
  intros Hf. unfold verify_control_plane_is_running, poll.
  destruct fuel as [|fuel]; [done|]. cbn [loop]. rewrite !run_bind.
  unfold control_plane_is_running.
  destruct (list_pods_sim (S fuel) ns (Some AGENT_CORE_LABEL) None w Hf) as [tr1 H1].
  destruct (list_pods_sim (S fuel) ns (Some API_REST_LABEL) None w Hf) as [tr2 H2].
  destruct (list_pods_sim (S fuel) ns (Some ETCD_LABEL) None w Hf) as [tr3 H3].
  rewrite !run_bind, H1, run_bind, H2, run_bind, H3. cbn. eauto.
Qed.

Lemma wait_for_rebuild_sim fuel node w :
  2 ≤ fuel → ∃ tr, run sim (wait_for_rebuild fuel node) w = (Q, w, tr).
Proof. destruct fuel as [|[|fuel]]; [lia..|]. intros _. cbn. eauto. Qed.

Lemma drain_sim fuel node w :
  2 ≤ fuel → w.(node_states) = ∅ →
  ∃ tr, run sim (drain_storage_node fuel node) w =
    (Q, mkWorld w.(old_pods) w.(new_pods) {[node := drainedstate [] [drain_for_upgrade]]}, tr).
Proof.
  destruct w as [o n st]. cbn. intros Hf ->.
  destruct fuel as [|[|fuel]]; [lia..|]. cbn. rewrite lookup_empty. cbn.
  rewrite lookup_insert_eq. cbn. eauto.
Qed.

Lemma uncordon_drained_sim fuel node o n st :
  2 ≤ fuel → st = ∅ ∨ st = {[node := drainedstate [] [drain_for_upgrade]]} →
  ∃ tr, run sim (uncordon_drained_storage_node fuel node) (mkWorld o n st) =
    (Q, mkWorld o n ∅, tr).
Proof.
  intros Hf Hst. destruct fuel as [|[|fuel]]; [lia..|]. cbn.
  destruct Hst as [-> | ->]; [rewrite lookup_empty|rewrite lookup_singleton_eq]; cbn; [eauto|].
  rewrite bool_decide_true by by left. cbn.
  rewrite delete_singleton_eq, lookup_empty. cbn. eauto.
Qed.

(** The pod is deleted, and its replacement is found. *)
Lemma replace_pod_head p rest n st :
  p.1 ∉ rest.*1 →
  replace_pod p.1 (mkWorld (p :: rest) n st) = mkWorld rest (n ++ [p]) st.
Proof.
  intros Hp. unfold replace_pod; cbn [old_pods new_pods node_states]. f_equal.
  - rewrite filter_cons_False by naive_solver.
    apply list_filter_all. intros q Hq Hc. apply Hp. rewrite <-Hc. apply list_elem_of_fmap. eauto.
  - rewrite filter_cons_True by done. do 2 f_equal.
    apply list_filter_none. intros q Hq Hc. apply Hp. rewrite <-Hc. apply list_elem_of_fmap. eauto.
Qed.

Lemma node_name_field_inj n1 n2 : node_name_field n1 = node_name_field n2 → n1 = n2.
Proof. intros Heq. by injection Heq. Qed.

Lemma pods_for_upgraded p rest n st :
  p.2 ∉ n.*2 →
  pods_for (mkWorld rest (n ++ [p]) st)
    (fields (Some (node_name_field p.2)) (labels (Some (upgraded_pod_label hash)) default_params))
  = [ready_pod p].
Proof.
  intros Hp. unfold pods_for; cbn [fields labels label_selector field_selector default_params].
  rewrite decide_False, decide_True by done. cbn [new_pods].
  rewrite filter_app, list_filter_none.
  - rewrite filter_cons_True by done. done.
  - intros q Hq Hc. simplify_eq. apply Hp. 
    assert (p.2 = q.2) as -> by (by apply node_name_field_inj; congruence).
    apply list_elem_of_fmap. eauto.
Qed.

Lemma upgrade_pod_sim fuel ns ha p rest n :
  2 ≤ fuel → p.1 ∉ rest.*1 → p.2 ∉ n.*2 →
  ∃ tr, run sim (upgrade_data_plane_pod fuel ns hash ha (ready_pod p)) (mkWorld (p :: rest) n ∅) =
          (Q, mkWorld rest (n ++ [p]) ∅, tr).
Proof.
  intros Hf Hname Hnode. unfold upgrade_data_plane_pod.
  destruct (verify_control_plane_sim fuel ns (mkWorld (p :: rest) n ∅)) as [tr1 H1]; [lia|].
  rewrite run_bind, H1. cbn [ok_or bind ready_pod pod_spec node_name].
  destruct (wait_for_rebuild_sim fuel p.2 (mkWorld (p :: rest) n ∅)) as [tr2 H2]; [lia|].
  rewrite run_bind, H2.
  assert (∃ tr, run sim (is_node_drainable fuel ha p.2) (mkWorld (p :: rest) n ∅) =
                  (Done ha, mkWorld (p :: rest) n ∅, tr)) as [tr3 H3].
  { destruct ha; [|cbn; eauto]. destruct fuel; [lia|]. cbn. eauto. }
  rewrite run_bind, H3.
  set (st := if ha then {[p.2 := drainedstate [] [drain_for_upgrade]]} else ∅ : gmap string _).
  assert (∃ tr, run sim (if ha then drain_storage_node fuel p.2 else Ret tt) (mkWorld (p :: rest) n ∅) =
                  (Q, mkWorld (p :: rest) n st, tr)) as [tr4 H4].
  { destruct ha; [|cbn; eauto].
    destruct (drain_sim fuel p.2 (mkWorld (p :: rest) n ∅)) as [tr ->]; [lia|done|]. eauto. }
  rewrite run_bind, H4.
  assert (∃ tr, run sim (delete_data_plane_pod p.2 (ready_pod p) ns) (mkWorld (p :: rest) n st) =
                  (Q, mkWorld rest (n ++ [p]) st, tr)) as [tr5 H5].
  { cbn -[replace_pod]. rewrite replace_pod_head by done. eauto. }
  rewrite run_bind, H5.
  assert (∃ tr, run sim (verify_data_plane_pod_is_running fuel p.2 ns hash) (mkWorld rest (n ++ [p]) st) =
                  (Q, mkWorld rest (n ++ [p]) st, tr)) as [tr6 H6].
  { unfold verify_data_plane_pod_is_running, poll. destruct fuel as [|fuel']; [lia|].
    cbn [loop]. rewrite !run_bind. unfold data_plane_pod_is_running. rewrite run_bind.
    destruct (list_pods_sim (S fuel') ns (Some (upgraded_pod_label hash)) (Some (node_name_field p.2))
                (mkWorld rest (n ++ [p]) st)) as [tr ->]; [done|].
    rewrite pods_for_upgraded by done. cbn. eauto. }
  rewrite run_bind, H6.
  destruct (uncordon_drained_sim fuel p.2 rest (n ++ [p]) st) as [tr7 H7]; [lia|by destruct ha; auto|].
  rewrite H7. eauto.
Qed.

Lemma upgrade_pods_sim fuel ns ha old n :
  2 ≤ fuel → NoDup old.*1 → NoDup (old.*2 ++ n.*2) →
  ∃ tr, run sim (forM_ (upgrade_data_plane_pod fuel ns hash ha) (ready_pod <$> old)) (mkWorld old n ∅) =
          (Q, mkWorld [] (n ++ old) ∅, tr).
Proof.
  intros Hf. revert n. unfold forM_. induction old as [|p old IH]; intros n Hnames Hnodes.
  { cbn. rewrite app_nil_r. eauto. }
  cbn [fmap list_fmap foldM]. rewrite run_bind.
  cbn in Hnames, Hnodes. apply NoDup_cons in Hnames as [Hp Hnames].
  apply NoDup_cons in Hnodes as [Hn Hnodes]. rewrite elem_of_app in Hn.
  destruct (upgrade_pod_sim fuel ns ha p old n) as [tr1 ->]; [done|done|tauto|].
  destruct (IH (n ++ [p])) as [tr2 H2]; [done| |].
  { rewrite fmap_app. cbn. rewrite app_assoc, (comm (++) _ [_]). cbn.
    apply NoDup_cons. rewrite elem_of_app. done. }
  cbn in H2. rewrite H2, <-app_assoc. eauto.
Qed.

(** Drain labels left behind are removed. *)
Lemma uncordon_left_sim fuel node o n st :
  2 ≤ fuel → (∀ x, st !! node = Some x → x = drainedstate [] [drain_for_upgrade]) →
  ∃ tr, run sim (uncordon_drained_storage_node fuel node) (mkWorld o n st) =
    (Q, mkWorld o n (delete node st), tr).
Proof.
  intros Hf Hst. destruct fuel as [|[|fuel]]; [lia..|]. cbn.
  destruct (st !! node) as [x|] eqn:Ex; cbn.
  - rewrite (Hst x eq_refl). cbn. rewrite bool_decide_true by by left. cbn.
    rewrite lookup_delete_eq. cbn. eauto.
  - rewrite (delete_id st node) by done. eauto.
Qed.

Lemma uncordon_all_sim fuel nodes o n st :
  2 ≤ fuel →
  (∀ i x, st !! i = Some x → x = drainedstate [] [drain_for_upgrade] ∧ i ∈ node_id <$> nodes) →
  ∃ tr, run sim (forM_ (λ nd, uncordon_drained_storage_node fuel nd.(node_id)) nodes) (mkWorld o n st) =
          (Q, mkWorld o n ∅, tr).
Proof.
  intros Hf. unfold forM_. revert st. induction nodes as [|nd nodes IH]; intros st Hst; cbn [foldM].
  - assert (st = ∅) as ->; [|cbn; eauto]. apply map_empty. intros i.
    destruct (st !! i) as [x|] eqn:Ex; [|done]. by destruct (Hst i x Ex) as [_ ?%elem_of_nil].
  - rewrite run_bind.
    destruct (uncordon_left_sim fuel nd.(node_id) o n st Hf) as [tr1 ->]; [by intros x [? _]%Hst|].
    destruct (IH (delete nd.(node_id) st)) as [tr2 ->]; [|eauto].
    intros i x [Hne Hi]%lookup_delete_Some. destruct (Hst i x Hi) as [? Hin]. split; [done|].
    by apply elem_of_cons in Hin as [->|?].
Qed.

Lemma upgrade_round_sim fuel ns ha old n :
  2 ≤ fuel → NoDup old.*1 → NoDup (old.*2 ++ n.*2) →
  ∃ tr, run sim (upgrade_round fuel ns hash ha (yet_to_upgrade_label hash) tt) (mkWorld old n ∅) =
          (Done (if old is [] then inr tt else inl tt), mkWorld [] (n ++ old) ∅, tr).
Proof.
  intros Hf Hnames Hnodes. unfold upgrade_round. rewrite run_bind.
  destruct (list_pods_sim fuel ns (Some (yet_to_upgrade_label hash)) None (mkWorld old n ∅))
    as [tr1 ->]; [lia|].
  unfold pods_for; cbn [labels fields label_selector default_params].
  rewrite decide_True by done. cbn [old_pods].
  destruct old as [|p old]; [cbn; rewrite !app_nil_r; eauto|].
  destruct (upgrade_pods_sim fuel ns ha (p :: old) n) as [tr2 H2]; [done..|].
  cbn [fmap list_fmap] in *. rewrite run_bind, H2. cbn. eauto.
Qed.

Lemma upgrade_rounds_sim fuel ns ha old n :
  2 ≤ fuel → old ≠ [] → NoDup old.*1 → NoDup (old.*2 ++ n.*2) →
  ∃ tr, run sim (loop fuel (upgrade_round fuel ns hash ha (yet_to_upgrade_label hash)) tt)
          (mkWorld old n ∅) = (Q, mkWorld [] (n ++ old) ∅, tr).
Proof.
  intros Hf Hne Hnames Hnodes.
  destruct (upgrade_round_sim fuel ns ha old n) as [tr2 H2]; [done..|].
  destruct (upgrade_round_sim fuel ns ha [] (n ++ old)) as [tr3 H3]; [done|constructor| |].
  { cbn. apply NoDup_app in Hnodes as (?&Hd&?). rewrite fmap_app. apply NoDup_app.
    split_and!; [done|set_solver|done]. }
  set (body := upgrade_round fuel ns hash ha _) in *. clearbody body.
  destruct fuel as [|[|fuel]]; [lia..|]. cbn [loop].
  rewrite run_bind, H2. destruct old as [|p old]; [done|].
  rewrite run_bind, H3. cbn. rewrite app_nil_r. eauto.
Qed.

(** The upgrade from a world in which nodes may still be drained for an upgrade *)
Lemma upgrade_data_plane_sim fuel ns url ha old n st :
  2 ≤ fuel → old ≠ [] → NoDup old.*1 → NoDup (old.*2 ++ n.*2) →
  (∀ i x, st !! i = Some x → x = drainedstate [] [drain_for_upgrade] ∧ i ∈ (old ++ n).*2) →
  ∃ tr, run sim (upgrade_data_plane fuel ns url hash ha (yet_to_upgrade_label hash) (ready_pod <$> old))
          (mkWorld old n st) = (Q, mkWorld [] (n ++ old) ∅, tr).
Proof.
  intros Hf Hne Hnames Hnodes Hst. unfold upgrade_data_plane.
  destruct (upgrade_rounds_sim fuel ns ha old n Hf Hne Hnames Hnodes) as [tr4 H4].
  destruct (ready_pod <$> old) as [|q qs] eqn:Eo; [by apply fmap_nil_inv in Eo|]. clear Eo.
  cbn -[uncordon_drained_storage_node forM_ loop upgrade_round fmap]. rewrite run_bind.
  match goal with |- context [forM_ _ ?nodes] =>
    destruct (uncordon_all_sim fuel nodes old n st Hf) as [tr1 H1] end.
  { intros i x [Hx Hi]%Hst. split; [done|]. by rewrite <-list_fmap_compose. }
  rewrite H1, H4. eauto.
Qed.
End Sim.
End Sim.
