(* ===== verification/JobDataPlaneSpec.v ===== *)
(** * The upgrade job: properties of the data plane upgrade

Statements about [JobDataPlane], each for every sequence of answers of the
services, and about the simulated cluster of [JobSim]. *)

From S2P Require Import Prelude JobApi JobUtils JobDataPlane JobSim.
From stdpp Require Import base gmap list strings.
From Stdlib Require Import ZArith Lia.

(** ** More fuel does not change a finished run *)
Module FuelFacts.
Import KubeClient Utils DataPlane.
Section Fuel.
Context `{Deps} (n n' : nat) (Hn : n ≤ n').
#[local] Hint Resolve Hn : fuel.

Lemma approx_list_pods ns l f : approx (list_pods n ns l f) (list_pods n' ns l f).
Proof using Hn. unfold list_pods, list_pages. solve_fuel. Qed.
Lemma approx_list_nodes l f : approx (list_nodes_metadata n l f) (list_nodes_metadata n' l f).
Proof using Hn. unfold list_nodes_metadata, list_pages. solve_fuel. Qed.
Lemma approx_volumes_loop keep : approx (volumes_loop n keep) (volumes_loop n' keep).
Proof using Hn. unfold volumes_loop. solve_fuel. Qed.
#[local] Hint Resolve approx_list_pods approx_list_nodes approx_volumes_loop : fuel.

Lemma approx_rebuild_result stale node : approx (rebuild_result n stale node) (rebuild_result n' stale node).
Proof using Hn. unfold rebuild_result, rebuild_step, list_unhealthy_volumes. solve_fuel. Qed.
#[local] Hint Resolve approx_rebuild_result : fuel.

Lemma approx_wait_for_rebuild node : approx (wait_for_rebuild n node) (wait_for_rebuild n' node).
Proof using Hn. unfold wait_for_rebuild. solve_fuel. Qed.
Lemma approx_drain node : approx (drain_storage_node n node) (drain_storage_node n' node).
Proof using Hn. unfold drain_storage_node. solve_fuel. Qed.
Lemma approx_uncordon node :
  approx (uncordon_drained_storage_node n node) (uncordon_drained_storage_node n' node).
Proof using Hn. unfold uncordon_drained_storage_node. solve_fuel. Qed.
Lemma approx_drainable ha node : approx (is_node_drainable n ha node) (is_node_drainable n' ha node).
Proof using Hn.
  unfold is_node_drainable, frontend_nodes_ana_check, list_all_volumes. solve_fuel.
Qed.
Lemma approx_verify_cp ns :
  approx (verify_control_plane_is_running n ns) (verify_control_plane_is_running n' ns).
Proof using Hn. unfold verify_control_plane_is_running, poll, control_plane_is_running. solve_fuel. Qed.
Lemma approx_verify_dp node ns hash :
  approx (verify_data_plane_pod_is_running n node ns hash)
    (verify_data_plane_pod_is_running n' node ns hash).
Proof using Hn. unfold verify_data_plane_pod_is_running, poll, data_plane_pod_is_running. solve_fuel. Qed.
#[local] Hint Resolve approx_wait_for_rebuild approx_drain approx_uncordon approx_drainable
  approx_verify_cp approx_verify_dp : fuel.

Lemma approx_upgrade_data_plane ns url hash ha label pods :
  approx (upgrade_data_plane n ns url hash ha label pods) (upgrade_data_plane n' ns url hash ha label pods).
Proof using Hn.
  unfold upgrade_data_plane, upgrade_round, upgrade_data_plane_pod, forM_. solve_fuel.
Qed.
End Fuel.
End FuelFacts.

Module DataPlaneSpec.
Import KubeClient Utils UtilsFacts DataPlane Rolling DrainFacts.

(** C1: The data plane is upgraded one pod at a time. In every run of
    [upgrade_data_plane], also one that fails or is cut short anywhere and
    whatever the services answer, the requests follow the protocol [rolling]:
    an io-engine pod is deleted only while the latest listings of agent-core,
    api-rest and etcd pods were all ready and no other deleted pod is still
    without a ready replacement of the latest revision on its node; a node is
    drained only with HA enabled and under the same condition.  A successful run
    ends with no pod pending, and (if there was work to do) with a listing that
    shows no pod left to upgrade. *)
Theorem rolling_upgrade_safe `{Deps} fuel ns url hash ha label pods tr o :
  exec (upgrade_data_plane fuel ns url hash ha label pods) tr o →
  ∃ m, accepts (rolling hash ha) start tr = Some m ∧
    (o = Done tt → m.(pending) = None ∧
       (pods ≠ [] → m.(listed) !! (Some label, None) = Some [])).
Proof.
  intros Hx.
  destruct (respects_sound (rolling hash ha) _ start _ _ tr o
              (upgrade_data_plane_rolling hash ha fuel ns url label pods) Hx) as (m & Hm & Hq).
  exists m. split; [done|]. by intros ->.
Qed.

(** C5: On a cluster whose DaemonSet replaces deleted pods and whose nodes drain,
    the data plane upgrade completes: with fuel 2 or more for each loop it
    returns [Ok], every pod has been replaced exactly once, in order, and no
    drain label is left on any node. *)
Theorem upgrade_data_plane_completes fuel ns url hash ha old new :
  2 ≤ fuel → old ≠ [] → NoDup old.*1 → NoDup (old.*2 ++ new.*2) →
  let r := run (Sim.sim hash)
             (upgrade_data_plane (H:=mayastor_deps) fuel ns url hash ha
                (yet_to_upgrade_label hash) (Sim.ready_pod <$> old))
             (Sim.mkWorld old new ∅) in
  result_of r = Done tt ∧ world_of r = Sim.mkWorld [] (new ++ old) ∅.
Proof.
  intros Hf Hne Hnames Hnodes. cbn zeta.
  destruct (Sim.upgrade_data_plane_sim hash fuel ns url ha old new ∅) as [tr ->]; done.
Qed.


(** The cordon which [is_node_drainable] puts on a node for the ANA check is
    taken off again, on success and when listing the volumes fails: at the end
    the label is known to be off the node, unless one of the cordon and uncordon
    requests themselves failed. *)
Theorem ana_cordon_released `{Deps} fuel ha id tr o :
  exec (is_node_drainable fuel ha id) tr o →
  ∃ v, accepts (node_views id) (mkView None false) tr = Some v ∧
    match o with
    | Done _ => v.(held) = false
    | Failed e => cordon_error e ∨ v.(held) = false
    | _ => True
    end.
Proof.
  intros Hx.
  exact (respects_sound (node_views id) _ _ _ _ tr o
           (is_node_drainable_view fuel ha id (mkView None false) eq_refl) Hx).
Qed.

Lemma target_frontends_elem node volumes name :
  name ∈ target_frontends node volumes ↔
  ∃ v t, v ∈ volumes ∧ v.(vol_spec).(spec_target) = Some t ∧ t.(target_node) = node ∧
    name ∈ default [] t.(frontend_nodes).
Proof.
  unfold target_frontends.
  assert (∀ acc, name ∈ foldl (λ acc volume,
      match volume.(vol_spec).(spec_target) with
      | Some target => if decide (target.(target_node) = node)
                       then acc ++ default [] target.(frontend_nodes) else acc
      | None => acc end) acc volumes ↔ name ∈ acc ∨
    ∃ v t, v ∈ volumes ∧ v.(vol_spec).(spec_target) = Some t ∧ t.(target_node) = node ∧
      name ∈ default [] t.(frontend_nodes)) as Hgen.
  { induction volumes as [|v vs IH]; intros acc; cbn.
    { split; [by left|]. intros [?|(v&t&?%elem_of_nil&_)]; done. }
    rewrite IH. setoid_rewrite elem_of_cons.
    destruct (spec_target (vol_spec v)) as [t|] eqn:Et; [case_decide|]; rewrite ?elem_of_app;
      split; intros; destruct_or?; destruct_and?; naive_solver. }
  rewrite Hgen. split; [intros [?%elem_of_nil|?]; done|by right].
Qed.

(** The ANA check lets a node be drained exactly when no frontend node of a
    volume target on it is among the ANA-incapable nodes; the listing of the
    volumes is complete, so the answer takes all of them into account.  (The
    comment above the function says the opposite about the sign.) *)
Theorem frontend_nodes_ana_check_spec {W} (h : handler JobSig W) fuel node ana w pages w' :
  serves_volumes h (Some 0%Z) w pages w' → length pages < fuel →
  ∃ b, result_of (run h (frontend_nodes_ana_check fuel node ana) w) = Done b ∧
    (b = false ↔ ∃ v t n, v ∈ concat pages ∧ v.(vol_spec).(spec_target) = Some t ∧
       t.(target_node) = node ∧ n ∈ ana ∧ n.(meta_name) ∈ default [] t.(frontend_nodes)).
Proof.
  intros Hs Hf. destruct (volumes_loop_run h fuel (λ _, true) w pages w' Hs Hf) as [tr Hr].
  unfold frontend_nodes_ana_check, list_all_volumes. rewrite run_bind, Hr. cbn.
  rewrite (list_filter_all (λ _, true = true)) by done.
  eexists; split; [done|]. rewrite negb_false_iff, existsb_exists.
  setoid_rewrite bool_decide_eq_true. setoid_rewrite target_frontends_elem.
  setoid_rewrite <-list_elem_of_In. naive_solver.
Qed.

(** The result of a data plane upgrade does not depend on the fuel: a run
    that ended within some fuel is, request by request, the run for every
    larger fuel. *)
Theorem upgrade_data_plane_fuel `{Deps} {W} (h : handler JobSig W) n n' ns url hash ha label pods w :
  n ≤ n' →
  result_of (run h (upgrade_data_plane n ns url hash ha label pods) w) ≠ Exhausted →
  run h (upgrade_data_plane n' ns url hash ha label pods) w =
    run h (upgrade_data_plane n ns url hash ha label pods) w.
Proof.
  intros Hn Hr. apply approx_run; [|done]. by apply FuelFacts.approx_upgrade_data_plane.
Qed.
End DataPlaneSpec.

(** ** The statements at concrete clusters *)
Module DataPlaneWitness.
Import Utils UtilsFacts UtilsSpec DataPlane Rolling DrainFacts DataPlaneSpec.
#[local] Existing Instance mayastor_deps.

Definition old : list (string * string) := [("io-a", "node-a"); ("io-b", "node-b")].
Definition cluster : Sim.world := Sim.mkWorld old [("io-c", "node-c")] ∅.
Definition upgrade (fuel : nat) : job unit :=
  upgrade_data_plane fuel "mayastor" "http://rest" "h2" true (yet_to_upgrade_label "h2")
    (Sim.ready_pod <$> old).
Definition upgrade_run := run (Sim.sim "h2") (upgrade 2) cluster.

Lemma rolling_upgrade_safe_witness :
  result_of upgrade_run = Done tt ∧
  ∃ m, accepts (rolling "h2" true) start (trace_of upgrade_run) = Some m ∧
    (result_of upgrade_run = Done tt → m.(pending) = None ∧
       (Sim.ready_pod <$> old ≠ [] →
        m.(listed) !! (Some (yet_to_upgrade_label "h2"), None) = Some [])).
Proof.
  split; [vm_compute; reflexivity|].
  apply (rolling_upgrade_safe 2 "mayastor" "http://rest" "h2" true (yet_to_upgrade_label "h2")).
  apply run_exec.
Defined.

Lemma upgrade_data_plane_completes_witness :
  let r := run (Sim.sim "h2") (upgrade 2) cluster in
  result_of r = Done tt ∧ world_of r = Sim.mkWorld [] ([("io-c", "node-c")] ++ old) ∅.
Proof.
  apply (upgrade_data_plane_completes 2 "mayastor" "http://rest" "h2" true old [("io-c", "node-c")]);
    [lia|done|apply (bool_decide_unpack _); vm_compute; done..].
Defined.

Definition drain_run := run (Sim.sim "h2") (drain_storage_node 2 "node-a") cluster.
Definition undrain_run :=
  run (Sim.sim "h2") (uncordon_drained_storage_node 2 "node-a") (world_of drain_run).


(** A cluster with an ANA-incapable node and paged volumes. *)
Definition volume (name node : string) (st : VolumeStatus) (rebuild : option Z)
    (frontends : list string) : Volume :=
  mkVolume (mkVolumeSpec name 2 (Some (mkVolumeTarget node (Some frontends))) "")
    (mkVolumeState st (Some (mkNexus node [mkChild "replica-0" rebuild])) ∅).

Definition vol1 := volume "v1" "node-a" VsDegraded None ["node-x"].
Definition vol2 := volume "v2" "node-b" VsOnline None ["node-y"].
Definition vol3 := volume "v3" "node-b" VsFaulted (Some 10%Z) ["node-y"].

Definition paged (ana : list ObjMeta) : handler JobSig unit := λ c w,
  match c return job_res c * unit with
  | GetVolumes _ (Some 0%Z) => (inr (mkVolumes [vol1; vol2] (Some 2%Z)), w)
  | GetVolumes _ _ => (inr (mkVolumes [vol3] None), w)
  | NodesListMetadata _ => (inr (mkObjectList ana None), w)
  | c => let '(r, _) := Sim.sim "h2" c cluster in (r, w)
  end.

Lemma paged_serves ana : serves_volumes (paged ana) (Some 0%Z) tt [[vol1; vol2]; [vol3]] tt.
Proof. repeat (econstructor; try reflexivity). Qed.

Lemma list_unhealthy_volumes_complete_witness :
  result_of (run (paged []) (list_unhealthy_volumes 3 [vol1]) tt) =
    Done (base.filter (λ v, is_unhealthy v = true ∧ v ∉ [vol1]) (concat [[vol1; vol2]; [vol3]])) ∧
  base.filter (λ v, is_unhealthy v = true ∧ v ∉ [vol1]) (concat [[vol1; vol2]; [vol3]]) = [vol3].
Proof.
  split; [|vm_compute; reflexivity].
  apply (list_unhealthy_volumes_complete (paged []) 3 [vol1] tt _ tt (paged_serves [])). cbn; lia.
Defined.

Lemma frontend_nodes_ana_check_spec_witness :
  ∃ b, result_of (run (paged []) (frontend_nodes_ana_check 3 "node-a" [mkObjMeta "node-x"]) tt) = Done b ∧
    (b = false ↔ ∃ v t n, v ∈ concat [[vol1; vol2]; [vol3]] ∧ v.(vol_spec).(spec_target) = Some t ∧
       t.(target_node) = "node-a" ∧ n ∈ [mkObjMeta "node-x"] ∧
       n.(meta_name) ∈ default [] t.(frontend_nodes)).
Proof.
  apply (frontend_nodes_ana_check_spec (paged []) 3 "node-a" [mkObjMeta "node-x"] tt _ tt (paged_serves [])).
  cbn; lia.
Defined.

Definition ana_run := run (paged [mkObjMeta "node-x"]) (is_node_drainable 3 true "node-a") tt.

Lemma ana_cordon_released_witness :
  result_of ana_run = Done false ∧
  ∃ v, accepts (node_views "node-a") (mkView None false) (trace_of ana_run) = Some v ∧
    match result_of ana_run with
    | Done _ => v.(held) = false
    | Failed e => cordon_error e ∨ v.(held) = false
    | _ => True
    end.
Proof.
  split; [vm_compute; reflexivity|].
  apply (ana_cordon_released 3 true "node-a"). apply run_exec.
Defined.

Definition rebuild_run := run (paged []) (rebuild_result 4 [] "node-b") tt.

Lemma rebuild_result_observed_witness :
  result_of rebuild_run = Done (mkRebuildResult true []) ∧
  ∃ m, accepts listings no_listing (trace_of rebuild_run) = Some m ∧
    discards m.(seen) [] [] ∧
    ∃ v, v ∈ m.(seen) ∧ is_unhealthy v = true ∧ replica_rebuild_count v ≠ 0%Z.
Proof.
  assert (result_of rebuild_run = Done (mkRebuildResult true [])) as Hr
    by (vm_compute; reflexivity).
  split; [exact Hr|].
  apply (rebuild_result_observed 4 [] "node-b" (trace_of rebuild_run) (mkRebuildResult true [])).
  rewrite <-Hr. apply run_exec.
Defined.

Lemma rebuild_recheck_never_starts_witness :
  scan_volumes "node-a" [vol1] ∅ [] =
    foldr (λ _ k, do! req (Sleep 60) in k)
      (scan_volumes "node-a" [] (list_to_set (topology_nodes vol1) ∪ ({["node-a"]} ∪ ∅)) ([] ++ [vol1]))
      (seq 0 11).
Proof.
  apply (rebuild_recheck_never_starts "node-a" vol1 (mkNexus "node-a" [mkChild "replica-0" None])); reflexivity.
Defined.

Definition stuck : handler JobSig unit := λ c w,
  match c return job_res c * unit with
  | GetVolumes _ _ => (inr (mkVolumes [vol1] None), w)
  | c => let '(r, _) := Sim.sim "h2" c cluster in (r, w)
  end.

Lemma rebuild_result_spins_witness :
  result_of (run stuck (rebuild_result 50 [] "node-b") tt) = Exhausted ∧
  ∀ secs, Ev (S:=JobSig) (Sleep secs) tt ∉ trace_of (run stuck (rebuild_result 50 [] "node-b") tt).
Proof.
  apply (rebuild_result_spins stuck 50 "node-b" tt [vol1] vol1 (mkNexus "node-a" [mkChild "replica-0" None]));
    [reflexivity|by left|reflexivity|reflexivity|].
  intros u [->|Hu]%elem_of_cons _; [|by apply elem_of_nil in Hu].
  apply (bool_decide_unpack _). vm_compute. done.
Defined.

Lemma upgrade_data_plane_fuel_witness :
  run (Sim.sim "h2") (upgrade 7) cluster = run (Sim.sim "h2") (upgrade 2) cluster.
Proof.
  refine (upgrade_data_plane_fuel (Sim.sim "h2") 2 7 "mayastor" "http://rest" "h2" true
            (yet_to_upgrade_label "h2") (Sim.ready_pod <$> old) cluster _ _);
    [lia|vm_compute; discriminate].
Defined.
End DataPlaneWitness.
