(* ===== verification/JobRecovery.v ===== *)
(** * The upgrade job: recovery of an interrupted data-plane upgrade

    The job may be killed at any request, and Kubernetes runs it again.  In the
    simulated cluster every world of a run is one from which the next run goes on:
    with pods left to upgrade it completes and removes the drain labels which the
    interrupted runs have left behind. *)

From S2P Require Import Prelude JobApi JobUtils JobDataPlane JobUpgradeSpec JobSim.
From stdpp Require Import base gmap list relations strings.
From Stdlib Require Import ZArith Lia.

Module Recovery.
Import KubeClient Utils DataPlane Sim.
#[local] Existing Instance mayastor_deps.

Section Recovery.
Variable hash : string.

(** The nodes of the cluster, and what an interrupted upgrade leaves behind: each pod
    is old or replaced, and nodes may be drained for the upgrade. *)
Definition nodes_of (w : world) : list string := w.(old_pods).*2 ++ w.(new_pods).*2.

Definition upgrade_drain : CordonDrainState := drainedstate [] [drain_for_upgrade].

Definition recoverable (pods : list (string * string)) (w : world) : Prop :=
  NoDup w.(old_pods).*1 ∧ NoDup (nodes_of w) ∧ w.(old_pods) ++ w.(new_pods) ≡ₚ pods ∧
  ∀ id st, w.(node_states) !! id = Some st → st = upgrade_drain ∧ id ∈ pods.*2.

(** The requests of an upgrade of these pods. *)
Definition upgrades (pods : list (string * string)) (c : op JobSig) : bool :=
  match c with
  | PutNodeDrain id l => bool_decide (id ∈ pods.*2 ∧ l = drain_for_upgrade)
  | _ => true
  end.

Lemma recoverable_step pods c w :
  upgrades pods c = true → recoverable pods w → recoverable pods (sim hash c w).2.
Proof.
  intros Hc (Hn & Hd & Hp & Hs). destruct c; try done; cbn.
  - (* PodsDelete *)
    assert (base.filter (λ p, p.1 ≠ name) (old_pods w) ++ new_pods w ++
              base.filter (λ p, p.1 = name) (old_pods w) ≡ₚ old_pods w ++ new_pods w) as Hperm.
    { rewrite (Permutation_app_comm (new_pods w)), app_assoc. apply Permutation_app_tail.
      clear. induction (old_pods w) as [|p l IH]; [done|].
      destruct (decide (p.1 = name)).
      - rewrite filter_cons_False by naive_solver. rewrite filter_cons_True by done.
        by rewrite <-Permutation_middle, IH.
      - rewrite filter_cons_True by done. rewrite filter_cons_False by done. cbn. by rewrite IH. }
    unfold replace_pod. split_and!; cbn [old_pods new_pods node_states].
    + clear -Hn. induction (old_pods w) as [|p l IH]; [done|]. cbn in Hn.
      apply NoDup_cons in Hn as [Hp Hn]. destruct (decide (p.1 = name)).
      * rewrite filter_cons_False by naive_solver. auto.
      * rewrite filter_cons_True by done. cbn. apply NoDup_cons. split; [|auto].
        intros Hin. apply Hp. apply list_elem_of_fmap in Hin as (q & -> & Hq).
        apply list_elem_of_filter in Hq as [_ Hq]. apply list_elem_of_fmap. eauto.
    + unfold nodes_of in *. cbn [old_pods new_pods]. rewrite <-fmap_app in *. by rewrite Hperm.
    + by rewrite Hperm.
    + done.
  - (* DeleteNodeCordon *)
    split_and!; try done. cbn. intros i st [_ Hl]%lookup_delete_Some. eauto.
  - (* PutNodeDrain *)
    apply bool_decide_eq_true in Hc as [Hid ->]. split_and!; try done. cbn.
    intros i st [[<- <-]|[_ Hl]]%lookup_insert_Some; [done|eauto].
Qed.

Lemma upgrades_drainless pods c : Stages.drainless c = true → upgrades pods c = true.
Proof. by destruct c. Qed.

Lemma always_upgrades {A} pods (p : job A) w :
  uses (upgrades pods) p → recoverable pods w → always (sim hash) (recoverable pods) p w (λ _ _, True).
Proof. intros Hu. apply (always_uses _ _ (upgrades pods)); [done|]. intros c w' Hc. by apply recoverable_step. Qed.

Lemma always_quiet {A} pods (p : job A) w :
  uses Stages.drainless p → recoverable pods w → always (sim hash) (recoverable pods) p w (λ _ _, True).
Proof. intros Hu. apply always_upgrades. eapply uses_weaken; [apply upgrades_drainless|done]. Qed.

(** A round drains nodes of pods it has listed. *)
Lemma round_recoverable pods fuel ns ha w :
  fuel ≠ 0 → recoverable pods w →
  always (sim hash) (recoverable pods)
    (upgrade_round fuel ns hash ha (yet_to_upgrade_label hash) tt) w (λ _ _, True).
Proof.
  intros Hf Hw. unfold upgrade_round.
  destruct (list_pods_sim hash fuel ns (Some (yet_to_upgrade_label hash)) None w Hf) as [tr Hl].
  eapply always_bind.
  { eapply (always_result _ _ _ _ _ _ _ (λ l w', l = ready_pod <$> w.(old_pods)));
      [apply always_quiet; [apply Stages.uses_dp_list_pods|done]|exact Hl|].
    unfold pods_for. cbn [labels fields label_selector default_params]. by rewrite decide_True. }
  intros l w' Hw' ->. destruct (ready_pod <$> old_pods w) as [|q qs] eqn:El; [done|].
  apply always_upgrades; [|done]. apply uses_bind; [|done]. rewrite <-El.
  assert (∀ p, p ∈ old_pods w → p.2 ∈ pods.*2) as Hin.
  { intros p Hp. destruct Hw as (_ & _ & Hperm & _). rewrite <-Hperm, fmap_app. apply elem_of_app.
    left. apply list_elem_of_fmap. eauto. }
  clear El Hl. unfold forM_. induction (old_pods w) as [|p l IH]; [done|]. cbn [fmap list_fmap foldM].
  apply uses_bind; [|intros []; apply IH; intros; apply Hin; by right].
  apply Stages.uses_dp_pod; [apply upgrades_drainless|]. intros spec node [= <-] [= <-].
  apply bool_decide_eq_true. split; [|done]. apply Hin. by left.
Qed.

Definition upgrade_of (fuel : nat) (ns url : string) (ha : bool) (w : world) : job unit :=
  upgrade_data_plane fuel ns url hash ha (yet_to_upgrade_label hash) (ready_pod <$> w.(old_pods)).

Lemma upgrade_recoverable pods fuel ns url ha w :
  recoverable pods w →
  always (sim hash) (recoverable pods) (upgrade_of fuel ns url ha w) w (λ _ _, True).
Proof.
  intros Hw. unfold upgrade_of, upgrade_data_plane.
  destruct (ready_pod <$> old_pods w) as [|q qs]; [done|].
  eapply always_bind; [apply always_quiet; [unfold RestClientSet.new_with_url; solve_uses|done]|].
  intros _ w1 Hw1 _. eapply always_bind; [apply always_quiet; [done|done]|]. intros r w2 Hw2 _.
  eapply always_bind; [apply always_quiet; [apply uses_lift|done]|]. intros nodes w3 Hw3 _.
  eapply always_bind; [apply always_quiet; [|done]|].
  { apply uses_foldM. intros ? nd. apply Stages.uses_dp_uncordon. }
  intros _ w4 Hw4 _. destruct fuel as [|fuel]; [done|]. apply always_loop; [|done].
  intros [] w5 Hw5. by apply round_recoverable.
Qed.

(** ** Any number of interruptions *)

(** An upgrade which is killed: the pods it starts from are those which are old by then. *)
Definition interrupted (fuel : nat) (ns url : string) (ha : bool) (w w' : world) : Prop :=
  visits (sim hash) (upgrade_of fuel ns url ha w) w w'.

Lemma interrupted_recoverable pods fuel ns url ha w w' :
  rtc (interrupted fuel ns url ha) w w' → recoverable pods w → recoverable pods w'.
Proof. induction 1 as [|w w1 w' Hv _ IH]; [done|]. intros Hw. by eapply IH, always_visits, Hv; apply upgrade_recoverable. Qed.
End Recovery.

(** The data-plane upgrade survives being killed: however often it is interrupted, at
    any request of each run, the next complete run returns [Ok].  If a pod is still to
    be upgraded, that run leaves every pod of the cluster replaced once and no drain
    label on any node.  If none is, it changes nothing at all: what the interrupted
    run has not undone of the drain of the last node stays. *)
Theorem interrupted_upgrade_recovers hash fuel fuel' ns url ha old new w :
  2 ≤ fuel' → NoDup old.*1 → NoDup (old.*2 ++ new.*2) →
  rtc (interrupted hash fuel ns url ha) (mkWorld old new ∅) w →
  let r := run (sim hash) (upgrade_of hash fuel' ns url ha w) w in
  result_of r = Done tt ∧
  match w.(old_pods) with
  | [] => world_of r = w ∧ w.(new_pods) ≡ₚ old ++ new
  | _ => ∃ pods, world_of r = mkWorld [] pods ∅ ∧ pods ≡ₚ old ++ new
  end.
Proof.
  intros Hf Hn Hd Hi r.
  assert (recoverable (old ++ new) w) as (Hn' & Hd' & Hp & Hs).
  { eapply interrupted_recoverable; [exact Hi|]. split_and!; done. }
  subst r. unfold upgrade_of. destruct w as [o n st]; cbn [old_pods new_pods node_states] in *.
  destruct (decide (o = [])) as [->|Hne]; [done|].
  destruct (upgrade_data_plane_sim hash fuel' ns url ha o n st) as [tr ->]; try done.
  { intros i x [-> Hx]%Hs. split; [done|]. by rewrite Hp. }
  split; [done|]. destruct o as [|p o]; [done|]. eexists. split; [done|].
  rewrite <-Hp. by rewrite (comm (++)).
Qed.
End Recovery.

(** ** Two pods, and a job which is killed *)
Module RecoveryWitness.
Import KubeClient Utils DataPlane Sim Recovery.
#[local] Existing Instance mayastor_deps.

(** The world after [n] requests. *)
Fixpoint after {S E A W} (n : nat) (h : handler S W) (p : prog S E A) (w : W) : W :=
  match n, p with
  | Datatypes.S n', Call c k => after n' h (k (h c w).1) (h c w).2
  | _, _ => w
  end.
Lemma after_visits {S E A W} n (h : handler S W) (p : prog S E A) w : visits h p w (after n h p w).
Proof. revert n w. induction p as [| | |c k IH]; intros [|n] w; cbn; auto. Qed.

Definition old : list (string * string) := [("io-a", "node-a"); ("io-b", "node-b")].
Definition before : world := mkWorld old [] ∅.
Definition job_of : world → job unit := upgrade_of "h2" 2 "mayastor" "http://rest" true.
Definition killed (n : nat) (w : world) : world := after n (sim "h2") (job_of w) w.

(** Killed with the first pod replaced on a drained node, and again before that is
    undone: the third run completes. *)
Definition half : world :=
  mkWorld [("io-b", "node-b")] [("io-a", "node-a")] {["node-a"%string := upgrade_drain]}.

Lemma killed_once : interrupted "h2" 2 "mayastor" "http://rest" true before half.
Proof. assert (killed 23 before = half) as <- by (vm_compute; reflexivity). apply after_visits. Qed.
Lemma killed_again : interrupted "h2" 2 "mayastor" "http://rest" true half half.
Proof. assert (killed 4 half = half) as Hk by (vm_compute; reflexivity). rewrite <-Hk at 2. apply after_visits. Qed.

Lemma interrupted_upgrade_recovers_witness :
  ∃ pods, world_of (run (sim "h2") (job_of half) half) = mkWorld [] pods ∅ ∧ pods ≡ₚ old ++ [].
Proof.
  refine (proj2 (interrupted_upgrade_recovers "h2" 2 2 "mayastor" "http://rest" true old [] half _ _ _ _)).
  - lia.
  - apply (bool_decide_unpack _). vm_compute. exact I.
  - apply (bool_decide_unpack _). vm_compute. exact I.
  - exact (rtc_l _ _ _ _ killed_once (rtc_l _ _ _ _ killed_again (rtc_refl _ _))).
Defined.

(** Killed between the deletion of the last pod and the removal of the drain label: the
    next run succeeds and the node stays drained. *)
Example last_node_stays_drained :
  let w := killed 43 before in
  w.(old_pods) = [] ∧ w.(node_states) !! "node-b"%string = Some upgrade_drain ∧
  (run (sim "h2") (job_of w) w).1 = (Done tt, w).
Proof. vm_compute. done. Qed.
End RecoveryWitness.
