(* ===== verification/JobCompletion.v ===== *)
(** * The upgrade job: completion of the whole job, also after interruptions

    [JobRecovery] shows that the data-plane upgrade survives being killed.  Here the same
    is shown of the whole job: in an environment whose storage cluster behaves as the
    simulated one and in which the preparations and helm succeed, [main] returns with the
    data plane upgraded, however often and wherever it was killed before. *)

From S2P Require Import Prelude Semver Text JobApi JobEvents HelmChart HelmClient HelmValues.
From S2P Require Import HelmUpgrade JobUtils JobDataPlane JobUpgrade JobUpgradeSpec JobNeeds.
From S2P Require Import JobSim JobRecovery.
From stdpp Require Import base gmap list relations sorting strings.
From Stdlib Require Import ZArith Lia.
Open Scope list_scope.

Module Completion.
Import Stages JobNeeds Sim Recovery.
#[local] Existing Instance mayastor_deps.

Section Completion.
Context `{EventDeps} `{Semver} `{SJ : SerdeJson} `{RegexCrate} `{HashOrder} `{SortUnstable}.
Context (hash : string) {W : Type} (h : handler JobSig W) (cluster : W → world).

(** ** The environment

    [cluster] is the part of the world which the data plane sees: the pods of the
    io-engine and the storage nodes.  Everything else (helm and its releases, files,
    events) is arbitrary, and does not change that part. *)
Record environment : Prop := {
  env_cluster c w : data_plane_op c = true →
    (h c w).1 = (sim hash c (cluster w)).1 ∧ cluster (h c w).2 = (sim hash c (cluster w)).2;
  env_rest c w : data_plane_op c = false → cluster (h c w).2 = cluster w;
  env_send e w : (h (SendEvent e) w).1 = true;
  env_note n : ∃ s, note_to_json n = inr s
}.

(** The preparations and helm succeed, in whatever state of the world they are tried. *)
Definition succeeds {A} (p : job A) (P : A → Prop) : Prop :=
  ∀ w, ∃ a w' tr, run h p w = (Done a, w', tr) ∧ P a.

Record works (fuel : nat) (args : CliArgs) : Prop := {
  works_args : succeeds (Validators.parse_cli_args args) (λ _, True);
  works_recorder : succeeds (Recorder.build
    (Recorder.with_namespace args.(JobUpgrade.namespace)
    (Recorder.with_pod_name args.(pod_name) Recorder.builder))) (λ _, True);
  works_helm : succeeds
    (HelmUpgrade.build fuel
      (HelmUpgrade.with_helm_args_set_file args.(helm_args_set_file)
      (HelmUpgrade.with_helm_args_set args.(helm_args_set)
      (HelmUpgrade.with_skip_upgrade_path_validation args.(skip_upgrade_path_validation)
      (HelmUpgrade.with_core_chart_dir args.(core_chart_dir)
      (HelmUpgrade.with_release_name args.(release_name)
      (HelmUpgrade.with_namespace args.(JobUpgrade.namespace) HelmUpgrade.builder_default)))))))
    (λ u, succeeds (HelmUpgrade.dry_run u) (λ upgrade, succeeds upgrade (λ values,
       Upgrade.partial_rebuild_check (HelmUpgrade.source_version u)
         values.(partial_rebuild_is_enabled) = inr tt)))
}.

Context (Henv : environment).

(** ** The cluster during a run *)
Lemma restless_cluster c w : restless c = true → cluster (h c w).2 = cluster w.
Proof.
  intros Hc. destruct (data_plane_op c) eqn:Hd; [|by apply (env_rest Henv)].
  rewrite (proj2 (env_cluster Henv c w Hd)). by destruct c.
Qed.

Lemma run_restless {A} (p : job A) w :
  uses restless p → cluster (world_of (run h p w)) = cluster w.
Proof.
  revert w; induction p as [| | |c k IH]; intros w Hu; cbn; try done. destruct Hu as [Hc Hk].
  pose proof (restless_cluster c w Hc) as Hw. destruct (h c w) as [r w'].
  specialize (IH r w' (Hk r)). destruct (run h (k r) w') as [[o w2] tr]. cbn in *. congruence.
Qed.

Lemma run_cluster {A} (p : job A) w :
  uses data_plane_op p →
  run (sim hash) p (cluster w) =
    (result_of (run h p w), cluster (world_of (run h p w)), trace_of (run h p w)).
Proof.
  revert w; induction p as [| | |c k IH]; intros w Hu; cbn [run]; try done. destruct Hu as [Hc Hk].
  destruct (env_cluster Henv c w Hc) as [Hr Hw].
  destruct (h c w) as [r w'], (sim hash c (cluster w)) as [r' cw]. cbn in Hr, Hw. subst r' cw.
  rewrite (IH r w' (Hk r)). by destruct (run h (k r) w') as [[o w2] tr].
Qed.

(** What is known of a run of a part, of its result and of the cluster after it *)
Definition goes {A} (p : job A) (w : W) (P : A → W → Prop) : Prop :=
  ∃ a, result_of (run h p w) = Done a ∧ P a (world_of (run h p w)).

Lemma goes_bind {A B} (p : job A) (f : A → job B) w P Q :
  goes p w P → (∀ a w', P a w' → goes (f a) w' Q) → goes (bind f p) w Q.
Proof.
  intros (a & Ha & Hp) Hf. unfold goes. rewrite run_bind.
  destruct (run h p w) as [[o w'] tr]. cbn in Ha, Hp. subst o.
  destruct (Hf a w' Hp) as (b & Hb & Hq). exists b.
  destruct (run h (f a) w') as [[o2 w2] tr2]. done.
Qed.

Lemma goes_quiet {A} (p : job A) w (P : A → Prop) :
  uses restless p → succeeds p P → goes p w (λ a w', P a ∧ cluster w' = cluster w).
Proof.
  intros Hu Hs. destruct (Hs w) as (a & w' & tr & Hr & Ha). exists a.
  pose proof (run_restless p w Hu) as Hc. rewrite Hr in *. done.
Qed.

Lemma goes_cluster {A} (p : job A) w a cw tr :
  uses data_plane_op p → run (sim hash) p (cluster w) = (Done a, cw, tr) →
  goes p w (λ b w', b = a ∧ cluster w' = cw).
Proof.
  intros Hu Hr. rewrite (run_cluster p w Hu) in Hr. injection Hr as Hr Hw _. exists a.
  split; [exact Hr|]. split; [done|exact Hw].
Qed.

Lemma goes_publish t er msg a w :
  goes (Recorder.publish_typed t er msg a) w (λ _ w', cluster w' = cluster w).
Proof.
  unfold goes.
  pose proof (run_restless _ w (permits_publish restless permits_restless t er msg a)) as Hc.
  unfold Recorder.publish_typed, Recorder.publish in *.
  destruct (env_note Henv (Recorder.note_of er msg)) as [s Hs]. rewrite Hs in *.
  cbn [lift bind] in *. destruct (Recorder.event_sender er); [|by exists tt].
  match goal with |- context [SendEvent ?e] => pose proof (env_send Henv e w) as Hsent end.
  cbn in *. destruct (h _ w) as [r w']. cbn in Hsent. subst r. by exists tt.
Qed.

Lemma goes_or_publish {A} er v (p : job A) w P :
  goes p w P → goes (Upgrade.or_publish er v p) w P.
Proof.
  intros (a & Ha & Hp). unfold Upgrade.or_publish, goes. rewrite run_bind, run_attempt.
  destruct (run h p w) as [[o w'] tr]. cbn in Ha, Hp. subst o. by exists a.
Qed.
(** ** The data plane *)
Lemma newest_first (a b : ControllerRevision) :
  (revision a < revision b)%Z →
  sort_unstable_by (λ x y, Z.compare y.(revision) x.(revision)) [a; b] = [b; a].
Proof.
  intros Hab. set (cmp := λ x y : ControllerRevision, (revision y ?= revision x)%Z).
  pose proof (sort_unstable_perm cmp [a; b]) as Hp.
  assert (StronglySorted (λ x y, cmp x y ≠ Gt) (sort_unstable_by cmp [a; b])) as Hs.
  { apply sort_unstable_sorted; unfold cmp.
    - intros x y. destruct (Z.compare_spec (revision y) (revision x)), (Z.compare_spec (revision x) (revision y));
        first [by left|by right|lia].
    - intros x y z. unfold not. rewrite !Z.compare_gt_iff. lia. }
  symmetry in Hp. apply Permutation_length_2_inv in Hp as [Hp|Hp]; rewrite Hp in *; [|done].
  apply StronglySorted_inv in Hs as [_ [Hs _]%Forall_cons].
  exfalso. apply Hs. by apply Z.compare_gt_iff.
Qed.

Lemma goes_hash fuel ns w :
  fuel ≠ 0 →
  goes (KubeClient.latest_controller_revision_hash fuel ns (Some IO_ENGINE_LABEL) None
          DS_CONTROLLER_REVISION_HASH_LABEL_KEY) w
    (λ x w', x = hash ∧ cluster w' = cluster w).
Proof.
  intros Hf. destruct fuel as [|fuel]; [done|].
  eapply goes_cluster.
  - unfold KubeClient.latest_controller_revision_hash, KubeClient.list_controller_revisions,
      KubeClient.list_pages, KubeClient.controller_revisions_api, KubeClient.client. solve_uses.
  - unfold KubeClient.latest_controller_revision_hash. rewrite run_bind. cbn.
    rewrite newest_first by done. done.
Qed.

Lemma goes_list_pods fuel ns l w :
  fuel ≠ 0 →
  goes (KubeClient.list_pods fuel ns (Some l) None) w
    (λ x w', x = pods_for hash (cluster w) (KubeClient.labels (Some l) KubeClient.default_params) ∧
             cluster w' = cluster w).
Proof.
  intros Hf. destruct (list_pods_sim hash fuel ns (Some l) None (cluster w) Hf) as [tr Htr].
  eapply goes_cluster, Htr.
  eapply uses_weaken, Stages.uses_dp_list_pods. intros c. by destruct c.
Qed.

(** The pods are replaced and no drain is left; without an old pod nothing happens. *)
Definition upgraded (w w' : world) : Prop :=
  match w.(old_pods) with
  | [] => w' = w
  | _ => w' = mkWorld [] (w.(new_pods) ++ w.(old_pods)) ∅
  end.

Lemma goes_data_plane fuel ns url ha w :
  2 ≤ fuel → recoverable (old_pods (cluster w) ++ new_pods (cluster w)) (cluster w) →
  goes (DataPlane.upgrade_data_plane fuel ns url hash ha (DataPlane.yet_to_upgrade_label hash)
          (ready_pod <$> old_pods (cluster w))) w
    (λ _ w', upgraded (cluster w) (cluster w')).
Proof.
  intros Hf (Hn & Hd & _ & Hs). unfold upgraded.
  destruct (cluster w) as [o n st] eqn:Ew. cbn [old_pods new_pods node_states] in *.
  destruct (decide (o = [])) as [->|Hne]; [by exists tt|].
  destruct (upgrade_data_plane_sim hash fuel ns url ha o n st) as [tr Htr]; [done..|].
  assert (goes (DataPlane.upgrade_data_plane fuel ns url hash ha (DataPlane.yet_to_upgrade_label hash)
            (ready_pod <$> o)) w (λ b w', b = tt ∧ cluster w' = mkWorld [] (n ++ o) ∅)) as (b & Hb & _ & Hw).
  { eapply goes_cluster; [apply uses_dp_upgrade|]. by rewrite Ew. }
  exists b. split; [done|]. by destruct o.
Qed.
Lemma goes_publish_last t er msg a w P :
  P (cluster w) → goes (Recorder.publish_typed t er msg a) w (λ _ w', P (cluster w')).
Proof. intros Hp. destruct (goes_publish t er msg a w) as (x & Hx & Hw). exists x. by rewrite Hw. Qed.

Lemma succeeds_yields {A} (p : job A) P Q : succeeds p P → yields p Q → succeeds p (λ a, P a ∧ Q a).
Proof.
  intros Hs Hy w. destruct (Hs w) as (a & w' & tr & Hr & Ha). exists a, w', tr. split_and!; [done..|].
  pose proof (run_exec h p w) as Hx. rewrite Hr in Hx. by eapply yields_sound.
Qed.

Lemma goes_io_engines fuel opts er sv values w :
  2 ≤ fuel → recoverable (old_pods (cluster w) ++ new_pods (cluster w)) (cluster w) →
  Upgrade.partial_rebuild_check sv values.(partial_rebuild_is_enabled) = inr tt →
  goes (Upgrade.upgrade_io_engines fuel opts er sv values) w (λ _ w', upgraded (cluster w) (cluster w')).
Proof.
  intros Hf Hw Hr. unfold Upgrade.upgrade_io_engines. rewrite Hr. cbn [lift bind].
  eapply goes_bind; [apply goes_hash; lia|]. intros ? w1 [-> H1'].
  eapply goes_bind; [apply goes_list_pods; lia|]. intros ? w2 [-> H2'].
  eapply goes_bind; [apply goes_publish|]. intros [] w3 H3'.
  assert (cluster w3 = cluster w) as Hc by congruence.
  unfold pods_for. cbn [KubeClient.labels KubeClient.default_params label_selector].
  rewrite decide_True by done. rewrite H1', <-Hc. rewrite <-Hc in Hw.
  eapply goes_bind; [by apply goes_or_publish, goes_data_plane|]. intros [] w4 H4'.
  by apply (goes_publish_last _ _ _ _ _ (upgraded (cluster w3))).
Qed.

Lemma goes_product fuel args er w :
  2 ≤ fuel → works fuel args → args.(JobUpgrade.skip_data_plane_restart) = false →
  recoverable (old_pods (cluster w) ++ new_pods (cluster w)) (cluster w) →
  goes (Upgrade.upgrade_product fuel args er) w (λ _ w', upgraded (cluster w) (cluster w')).
Proof.
  intros Hf Hworks Hskip Hw. unfold Upgrade.upgrade_product. rewrite Hskip.
  eapply goes_bind; [apply goes_quiet, (works_helm fuel args Hworks)|].
  { apply permits_neutral, uses_build. apply permits_restless. }
  intros u w1 [Hu H1']. destruct (restless_dry_run u) as [Hq Hy].
  eapply goes_bind; [apply goes_or_publish, goes_quiet, succeeds_yields, Hy; [exact Hq|exact Hu]|].
  intros upgrade w2 [[Hup Hquiet] H2'].
  do 2 (eapply goes_bind; [apply goes_publish|]; intros [] ? ?).
  eapply goes_bind; [apply goes_or_publish, goes_quiet, Hup; exact Hquiet|].
  intros values w5 [Hv H5'].
  eapply goes_bind; [apply goes_publish|]. intros [] w6 H6'.
  assert (cluster w6 = cluster w) as Hc by congruence.
  eapply goes_bind; [apply goes_io_engines; [done|by rewrite Hc|done]|].
  intros [] w7 H7'. rewrite Hc in H7'.
  by apply (goes_publish_last _ _ _ _ _ (upgraded (cluster w))).
Qed.

Lemma goes_main fuel args w :
  2 ≤ fuel → works fuel args → args.(JobUpgrade.skip_data_plane_restart) = false →
  recoverable (old_pods (cluster w) ++ new_pods (cluster w)) (cluster w) →
  goes (Upgrade.main fuel args) w (λ _ w', upgraded (cluster w) (cluster w')).
Proof.
  intros Hf Hworks Hskip Hw. unfold Upgrade.main, Upgrade.upgrade.
  eapply goes_bind; [apply goes_quiet, succeeds_yields, (yields_args args); [|by apply works_args in Hworks]|].
  { apply permits_neutral, uses_validate. apply permits_restless. }
  intros ? w1 [[_ ->] H1'].
  eapply goes_bind; [apply goes_quiet, (works_recorder fuel args Hworks)|].
  { apply permits_neutral, uses_recorder_build. apply permits_restless. }
  intros er w2 [_ H2']. assert (cluster w2 = cluster w) as Hc by congruence. rewrite <-Hc in *.
  destruct (goes_product fuel args er w2 Hf Hworks Hskip Hw) as ([] & Hr & Hup).
  unfold goes. rewrite run_bind, run_attempt.
  destruct (run h (Upgrade.upgrade_product fuel args er) w2) as [[o w3] tr]. cbn in Hr, Hup. subst o.
  pose proof (run_restless (Recorder.shutdown_worker er) w3 ltac:(by split)) as Hs.
  rewrite run_bind. cbn in *. destruct (h ShutdownWorker w3) as [[] w4]. cbn in *.
  exists tt. by rewrite Hs.
Qed.
(** ** A run which is killed leaves a cluster from which the next run goes on *)
Section Killed.
Context (pods : list (string * string)).
Definition fine (w : W) : Prop := recoverable pods (cluster w).

Lemma always_attempt {A} (p : job A) w :
  always h fine p w (λ _ _, True) → always h fine (attempt (E':=Error) p) w (λ _ _, True).
Proof. revert w; induction p as [| | |c k IH]; intros w [Hi Ha]; split; auto. Qed.

(** A part without restarts does not change the cluster. *)
Lemma always_restless {A} (p : job A) w :
  uses restless p → fine w → always h fine p w (λ _ w', cluster w' = cluster w).
Proof.
  revert w; induction p as [| | |c k IH]; intros w Hu Hw; split; try done. destruct Hu as [Hc Hk].
  pose proof (restless_cluster c w Hc) as He. rewrite <-He. apply IH; [done|].
  unfold fine. by rewrite He.
Qed.

Lemma always_restless_true {A} (p : job A) w :
  uses restless p → fine w → always h fine p w (λ _ _, True).
Proof.
  intros Hu. apply (always_uses _ _ restless); [done|]. intros c w' Hc. unfold fine.
  by rewrite restless_cluster.
Qed.

Lemma always_goes {A} (p : job A) w P :
  uses restless p → fine w → goes p w P → always h fine p w P.
Proof.
  intros Hu Hw (a & Ha & Hp). destruct (run h p w) as [[o w'] tr] eqn:Hr. cbn in Ha, Hp. subst o.
  eapply always_result; [by apply always_restless_true|exact Hr|exact Hp].
Qed.

Lemma always_yields {A} (p : job A) w (Q : A → Prop) :
  uses restless p → fine w → yields p Q → always h fine p w (λ a _, Q a).
Proof.
  revert w; induction p as [| | |c k IH]; intros w Hu Hw Hy; split; try done. destruct Hu as [Hc Hk].
  apply IH; [done| |apply Hy]. unfold fine. by rewrite restless_cluster.
Qed.

(** What holds in the simulated cluster holds of the cluster. *)
Lemma always_cluster {A} (p : job A) w :
  uses data_plane_op p → always (sim hash) (recoverable pods) p (cluster w) (λ _ _, True) →
  always h fine p w (λ _ _, True).
Proof.
  revert w; induction p as [| | |c k IH]; intros w Hu [Hi Ha]; split; try done. destruct Hu as [Hc Hk].
  destruct (env_cluster Henv c w Hc) as [Hr Hw]. apply IH; [done|]. by rewrite Hr, Hw.
Qed.

Lemma always_or_publish {A} er v (p : job A) w :
  always h fine p w (λ _ _, True) → always h fine (Upgrade.or_publish er v p) w (λ _ _, True).
Proof.
  intros Hp. unfold Upgrade.or_publish. eapply always_bind; [by apply always_attempt|].
  intros [e|a] w' Hw' _; [|done]. eapply always_bind; [apply always_restless; [|done]|by intros].
  unfold Recorder.publish_unrecoverable. apply uses_bind; [|done].
  apply uses_attempt, permits_publish, permits_restless.
Qed.

Lemma always_io_engines fuel opts er sv values w :
  fuel ≠ 0 → fine w →
  always h fine (Upgrade.upgrade_io_engines fuel opts er sv values) w (λ _ _, True).
Proof.
  intros Hf Hw. unfold Upgrade.upgrade_io_engines.
  eapply always_bind; [apply always_restless; [apply uses_lift|done]|]. intros _ w0 Hw0 _.
  eapply always_bind; [eapply always_goes; [|done|apply goes_hash, Hf]|].
  { apply permits_neutral, uses_hash. apply permits_restless. }
  intros ? w1 Hw1 [-> _].
  eapply always_bind; [eapply always_goes; [|done|apply goes_list_pods, Hf]|].
  { apply permits_neutral, uses_list_pods. apply permits_restless. }
  intros ? w2 Hw2 [-> H2'].
  eapply always_bind; [apply always_restless; [apply permits_publish, permits_restless|done]|].
  intros u3 w3 Hw3 H3'. cbn in H3'. rewrite <-H2', <-H3'. unfold pods_for.
  cbn [KubeClient.labels KubeClient.default_params label_selector]. rewrite decide_True by done.
  eapply always_bind; [apply always_or_publish, always_cluster; [apply uses_dp_upgrade|]|].
  { by apply upgrade_recoverable. }
  intros _ w4 Hw4 _. eapply always_restless_true; [|done]. apply permits_publish, permits_restless.
Qed.

Lemma always_main fuel args w :
  fuel ≠ 0 → fine w → always h fine (Upgrade.main fuel args) w (λ _ _, True).
Proof.
  intros Hf Hw. unfold Upgrade.main, Upgrade.upgrade.
  eapply always_bind; [apply always_restless; [apply permits_neutral, uses_validate; apply permits_restless|done]|].
  intros opts w1 Hw1 _.
  eapply always_bind; [apply always_restless; [apply permits_neutral, uses_recorder_build; apply permits_restless|done]|].
  intros er w2 Hw2 _. eapply always_bind; [apply always_attempt|].
  - unfold Upgrade.upgrade_product.
    eapply always_bind; [apply always_restless; [apply permits_neutral, uses_build; apply permits_restless|done]|].
    intros u w3 Hw3 _. destruct (restless_dry_run u) as [Hq Hy].
    eapply always_bind; [eapply always_yields;
      [apply permits_or_publish; [apply permits_restless|exact Hq]|done|]|].
    { unfold Upgrade.or_publish. eapply yields_bind; [apply yields_attempt, Hy|].
      intros [e|p]; [by intros _; apply yields_then|done]. }
    intros upgrade w4 Hw4 Hup.
    do 2 (eapply always_bind; [apply always_restless; [apply permits_publish, permits_restless|done]|];
      intros ? ? ? _).
    eapply always_bind; [apply always_restless; [by apply permits_or_publish; [apply permits_restless|]|done]|].
    intros values w7 Hw7 _.
    eapply always_bind; [apply always_restless; [apply permits_publish, permits_restless|done]|].
    intros ? w8 Hw8 _.
    eapply (always_bind _ _ _ _ _ (λ _ _, True)).
    + destruct (JobUpgrade.skip_data_plane_restart opts); [by split|by apply always_io_engines].
    + intros ? w9 Hw9 _. eapply always_restless_true; [|done]. apply permits_publish, permits_restless.
  - intros r w3 Hw3 _. eapply always_restless_true; [|done].
    apply uses_bind; [by split|intros _; apply uses_lift].
Qed.

(** The job is killed at any of its requests. *)
Definition killed (fuel : nat) (args : CliArgs) : W → W → Prop := visits h (Upgrade.main fuel args).

Lemma killed_fine fuel args w w' : fuel ≠ 0 → rtc (killed fuel args) w w' → fine w → fine w'.
Proof.
  intros Hf. induction 1 as [|w w1 w' Hv _ IH]; [done|]. intros Hw.
  by eapply IH, always_visits, Hv; apply always_main.
Qed.
End Killed.
End Completion.

Lemma recoverable_self pods w :
  recoverable pods w → recoverable (w.(old_pods) ++ w.(new_pods)) w.
Proof.
  intros (Hn & Hd & Hp & Hs). split_and!; [done..|]. intros id st [-> Hid]%Hs. split; [done|].
  by rewrite Hp.
Qed.

Section Properties.
Context `{EventDeps} `{Semver} `{SJ : SerdeJson} `{RegexCrate} `{HashOrder} `{SortUnstable}.

(** C6: The whole upgrade job survives being killed: in an environment whose storage cluster
    behaves as the simulated one and in which the preparations and helm succeed, however
    often the job is killed, at any request of each run, the next run which is not killed
    ends with success.  If pods were left to be upgraded, that run leaves every pod of the
    cluster replaced once and no drain label on any node; if none was, it leaves the
    cluster as it is.  What helm, the files and the events make of the interruptions
    does not matter, and whatever else the runs do does not touch the cluster. *)
Theorem job_recovers hash {W} (h : handler JobSig W) cluster fuel fuel' args old new w0 w :
  environment hash h cluster → works h fuel' args →
  args.(JobUpgrade.skip_data_plane_restart) = false → fuel ≠ 0 → 2 ≤ fuel' →
  cluster w0 = mkWorld old new ∅ → NoDup old.*1 → NoDup (old.*2 ++ new.*2) →
  rtc (killed h fuel args) w0 w →
  let r := run h (Upgrade.main fuel' args) w in
  result_of r = Done tt ∧
  match old_pods (cluster w) with
  | [] => cluster (world_of r) = cluster w ∧ new_pods (cluster w) ≡ₚ old ++ new
  | _ => ∃ pods, cluster (world_of r) = mkWorld [] pods ∅ ∧ pods ≡ₚ old ++ new
  end.
Proof.
  intros Henv Hworks Hskip Hf Hf' Hw0 Hn Hd Hk r.
  assert (recoverable (old ++ new) (cluster w)) as Hrec.
  { apply (killed_fine hash h cluster Henv _ fuel args w0 w Hf Hk). unfold fine. rewrite Hw0.
    split_and!; done. }
  destruct (goes_main hash h cluster Henv fuel' args w Hf' Hworks Hskip (recoverable_self _ _ Hrec))
    as ([] & Hr & Hup).
  split; [exact Hr|]. fold r in Hup. unfold upgraded in Hup. destruct Hrec as (_ & _ & Hp & _).
  destruct (old_pods (cluster w)) as [|p o]; [done|]. eexists. split; [exact Hup|].
  rewrite <-Hp. by rewrite (comm (++)).
Qed.
End Properties.
End Completion.
