(* ===== verification/JobFixture.v ===== *)
(** * A concrete upgrade

    Instances of the libraries the upgrade job depends on, and a simulated cluster
    with a [helm] and a [yq], in which the whole job runs: a release of mayastor
    2.7.0 is upgraded to 2.8.0, with two io-engine pods to restart.  The properties
    of the helm upgrade and of the job are applied to this run. *)

From S2P Require Import Prelude Semver Text JobApi JobEvents HelmChart HelmClient HelmValues.
From S2P Require Import HelmValuesSpec HelmUpgrade JobUtils JobDataPlane JobUpgrade.
From S2P Require Import JobErrorText JobUpgradeSpec JobNeeds JobSim.
From stdpp Require Import base gmap list strings.
From Stdlib Require Import ZArith Lia Ascii.
Open Scope string_scope.

Module Fixture.
Import SemverRef.
#[export] Existing Instance mayastor_deps.

(** ** Documents *)
#[warnings="-register-all"] Inductive doc :=
| DStr (s : string)
| DBool (b : bool)
| DSeq (l : list doc)
| DMap (l : list (string * doc)).

Definition doc_map (d : doc) : ext_error + gmap string doc :=
  match d with DMap l => inr (list_to_map l) | _ => inl "invalid type, expected a map" end.
Definition doc_seq (d : doc) : ext_error + list doc :=
  match d with DSeq l => inr l | _ => inl "invalid type, expected a sequence" end.
Definition doc_string (d : doc) : ext_error + string :=
  match d with DStr s => inr s | _ => inl "invalid type, expected a string" end.
Definition doc_bool (d : doc) : ext_error + bool :=
  match d with DBool b => inr b | _ => inl "invalid type, expected a boolean" end.

Definition values_doc (image_tag io_timeout : string) (rebuild : list (string * doc)) : doc :=
  DMap [("agents", DMap [("core", DMap rebuild); ("ha", DMap [("enabled", DBool true)])]);
        ("base", DMap []);
        ("image", DMap [("tag", DStr image_tag)]);
        ("io_engine", DMap [("logLevel", DStr "info")]);
        ("csi", DMap [
           ("image", DMap [("provisionerTag", DStr "v3.5.0"); ("attacherTag", DStr "v4.3.0");
                           ("registrarTag", DStr "v2.8.0")]);
           ("node", DMap [("nvme", DMap [("io_timeout", DStr io_timeout)])])])].

Definition partial (b : bool) : list (string * doc) :=
  [("rebuild", DMap [("partial", DMap [("enabled", DBool b)])])].

(** The texts of the documents, and what they parse to. *)
Definition library : list (bytes * doc) :=
  [(Path.unsupported_version_buf, DMap [("unsupported_versions", DSeq [DStr "0.0.0"])]);
   ("<releases>", DSeq [DMap [("name", DStr "other"); ("chart", DStr "redis-1.0.0")];
                        DMap [("name", DStr "mayastor"); ("chart", DStr "mayastor-2.7.0")]]);
   ("<releases after>", DSeq [DMap [("name", DStr "mayastor"); ("chart", DStr "mayastor-2.8.0")]]);
   ("<chart>", DMap [("name", DStr "mayastor"); ("version", DStr "2.8.0")]);
   ("<source values>", values_doc "v2.7.0" "110s" []);
   ("<target values>", values_doc "v2.8.0" "110s" (partial true))].

Fixpoint find_doc (l : list (bytes * doc)) (b : bytes) : ext_error + doc :=
  match l with
  | [] => inl "unknown document"
  | (b', d) :: l' => if decide (b = b') then inr d else find_doc l' b
  end.

#[export] Instance yaml_docs : SerdeYaml := {|
  yaml := doc;
  Container := string;
  yaml_from_slice := find_doc library;
  as_map := doc_map;
  as_seq := doc_seq;
  as_string := doc_string;
  as_bool := doc_bool;
  as_container := doc_string;
  as_probe := λ _, inr Probe_default
|}.

#[export] Instance json_docs : SerdeJson := {|
  json := string;
  container_to_json := inr;
  container_show := λ c, c;
  client_to_json := λ c, inr c.(PromtailConfigClient_url);
  json_from_yaml := inr;
  json_to_string := inr;
  json_show := λ j, j
|}.

#[export] Instance in_order : HashOrder := {|
  hash_order A l := l;
  hash_order_perm A l := reflexivity l
|}.

#[export] Instance event_docs : EventDeps := {|
  note_to_json := λ n, inr (n.(from_version) +:+ " " +:+ n.(to_version) +:+ " " +:+ n.(message))
|}.

(** ** Patterns: the regular expressions of the job, by their documented meaning *)
Definition lit (s : string) : re := Lit (chars s).
Definition alnum : re := Chr (λ a, is_alpha a || is_digit a).
Definition release_re : re :=
  Cat Digits (Cat (lit ".") (Cat Digits (Cat (lit ".") Digits))).
Definition umbrella_re : re := Cat (lit "openebs-") release_re.
Definition core_re : re :=
  Cat (lit "mayastor-") (Cat release_re
    (Star (Cat (lit "-") (Cat (Plus alnum) (Opt (Cat (lit ".") Digits)))))).
Definition yaml_key_re : re := Plus (Cat (lit ".") (Plus Dot)).
Definition yq_version_re : re :=
  Cat (Plus Dot) (Cat (lit "4.") (Cat Digits (Cat (lit ".") (Cat Digits (Star Dot))))).
Definition helmv3_re : re :=
  Cat (lit "v3.") (Cat Digits (Cat (lit ".") (Cat (Chr is_digit) Anything))).
Definition release_name_re : re := Cat Anything (Cat (lit "mayastor") Anything).

Definition patterns : list (string * re) :=
  [(HelmUpgrade.umbrella_regex, umbrella_re); (HelmUpgrade.core_regex, core_re);
   (Yq.yaml_key_regex, yaml_key_re); (Yq.yq_version_regex, yq_version_re);
   (Validators.helmv3_regex, helmv3_re); ("(\n)?mayastor(\n)?", release_name_re)].

Fixpoint find_pattern (l : list (string * re)) (p : string) : string + re :=
  match l with
  | [] => inl "unknown pattern"
  | (p', r) :: l' => if decide (p = p') then inr r else find_pattern l' p
  end.

#[export] Instance regexes : RegexCrate := {|
  regex := re;
  regex_new := find_pattern patterns;
  regex_is_match := matches
|}.

(** ** The cluster *)
Definition ok (out : bytes) : ext_error + Output := inr (mkOutput true out "").

Definition answer (cmd : string) (args : list string) : ext_error + Output :=
  if decide (cmd = "yq") then
    match args with
    | ["-V"] => ok "yq (https://github.com/mikefarah/yq/) version v4.27.3"
    | _ => ok "<merged>"
    end
  else match args with
  | "version" :: _ => ok "v3.12.0+gc9f554d"
  | "list" :: _ => if decide (last args = Some "--short") then ok "mayastor" else ok "<releases>"
  | "get" :: _ => ok "<source values>"
  | _ => ok "Release upgraded"
  end.

Definition cluster : handler JobSig Sim.world := λ c w,
  match c return job_res c * Sim.world with
  | RunCommand cmd args _ => (answer cmd args, w)
  | FsRead path =>
      (inr (if decide (path = "/charts/Chart.yaml") then "<chart>" else "<target values>"), w)
  | FsMetadata path =>
      (inr (if decide (path ∈ ["/charts/Chart.yaml"; "/charts/values.yaml"; "/charts/README.md"])
            then IsFile else IsDir), w)
  | PodGet _ name =>
      (inr (mkPod name (Some [mkOwnerReference "batch/v1" "Job" "upgrade" "uid"]) None None), w)
  | CrdsListMetadata _ => (inr (mkObjectList [mkObjMeta "jaegers.jaegertracing.io"] None), w)
  | c => Sim.sim "h2" c w
  end.

Definition before : Sim.world :=
  Sim.mkWorld [("io-engine-a", "node-a"); ("io-engine-b", "node-b")] [] ∅.

Definition args : CliArgs :=
  mkCliArgs "http://rest" "mayastor" "mayastor" "/charts" false false "upgrade-job-0" "" "".

(** The job succeeds, and all the pods are the upgraded ones. *)
Definition the_run := run cluster (Upgrade.main 3 args) before.

Example the_run_succeeds :
  result_of the_run = Done tt ∧
  Sim.old_pods (world_of the_run) = [] ∧
  Sim.new_pods (world_of the_run) = [("io-engine-a", "node-a"); ("io-engine-b", "node-b")].
Proof. vm_compute. done. Qed.

(** The same job, run again on the cluster which it left. *)
Definition cluster_after : handler JobSig Sim.world := λ c w,
  match c return job_res c * Sim.world with
  | RunCommand cmd args env =>
      (if decide (args = ["list"; "-n"; "mayastor"; "--deployed"; "-o"; "yaml"])
       then ok "<releases after>" else answer cmd args, w)
  | c => cluster c w
  end.
Definition again := run cluster_after (Upgrade.main 3 args) (world_of the_run).

Definition changes (e : ev JobSig) : bool :=
  match e with
  | Ev c _ => Stages.restarts c || match Stages.upgrade_cmd c with Some _ => true | None => false end
  end.
Example again_changes_nothing :
  result_of again = Done tt ∧ existsb changes (trace_of again) = false ∧
  existsb changes (trace_of the_run) = true.
Proof. vm_compute. done. Qed.

(** The pattern of the release name is not anchored: with another release deployed whose
    name contains it, the validation passes. *)
Definition other_release : handler JobSig Sim.world := λ c w,
  match c return job_res c * Sim.world with
  | RunCommand _ _ _ => (ok "mayastor-staging", w)
  | c => cluster c w
  end.
Example release_name_substring :
  result_of (run other_release (Validators.validate_helm_release "mayastor" "mayastor") before) = Done tt.
Proof. vm_compute. done. Qed.
End Fixture.

(** ** The properties at this upgrade *)
Module FixtureWitness.
Import SemverRef Fixture Stages UpgradeSpec.

Lemma upgrade_stage_order_witness :
  ∃ m, accepts stages start (trace_of the_run) = Some m ∧ finished true m.
Proof.
  pose proof (upgrade_stage_order 3 args (trace_of the_run) (result_of the_run)
                (run_exec cluster _ before)) as (m & Ha & Hm).
  exists m. split; [exact Ha|].
  assert (result_of the_run = Done tt) as Hr by (vm_compute; reflexivity).
  rewrite Hr in Hm. exact Hm.
Defined.

(** The dry run is the 42nd request of the job, the first drain its 71st. *)
Definition dry_arguments : list string :=
  ["mayastor"; "/charts"; "-n"; "mayastor"; "--timeout"; "15m"; "-f"; "/tmp/values";
   "--set"; ""; "--set-file"; ""; "--atomic"; "--dry-run"].
Lemma changes_needed_witness :
  (∃ u, JobNeeds.upgrader_of 3 args (take 41 (trace_of the_run)) u ∧
     v_eq (HelmUpgrade.target_version u) (HelmUpgrade.source_version u) = false) ∧
  JobNeeds.old_pods_listed 3 args (take 70 (trace_of the_run)).
Proof.
  split.
  - destruct (JobNeeds.changes_needed 3 args (take 41 (trace_of the_run))
      (RunCommand "helm" ("upgrade" :: dry_arguments) []) (ok "Release upgraded")
      (drop 42 (trace_of the_run)) (result_of the_run)) as [Hu _];
      [|exact (Hu dry_arguments eq_refl)].
    rewrite (take_drop_middle _ 41); [apply run_exec|vm_compute; reflexivity].
  - destruct (JobNeeds.changes_needed 3 args (take 70 (trace_of the_run))
      (PutNodeDrain "node-a" drain_for_upgrade) (inr tt) (drop 71 (trace_of the_run)) (result_of the_run))
      as [_ Hp]; [|exact (proj2 (Hp eq_refl))].
    rewrite (take_drop_middle _ 70); [apply run_exec|vm_compute; reflexivity].
Defined.

(** A cluster whose helm upgrades fail. *)
Definition no_helm : handler JobSig unit := λ c w,
  match c return job_res c * unit with
  | RunCommand _ _ _ => (inr (mkOutput false "" "denied"), w)
  | SendEvent _ => (true, w)
  | c => let '(r, _) := cluster c before in (r, w)
  end.
Definition recorder : Recorder.EventRecorder := Recorder.mkEventRecorder true "2.7.0" "2.8.0".
Definition failing : job unit := HelmReleaseClient.upgrade "mayastor" "mayastor" "/charts" None.
Definition failure : Error :=
  HelmUpgradeCommand "helm" (HelmReleaseClient.upgrade_args "mayastor" "mayastor" "/charts" None) "denied".

Lemma display_names_cause_witness :
  JobErrorText.reason_given failure = Some "denied" ∧ within "denied" (JobErrorText.display failure).
Proof.
  split; [reflexivity|]. apply (JobErrorText.display_names_cause failure "denied"). reflexivity.
Defined.

Definition failing_note : string :=
  "2.7.0 2.8.0 Failed to upgrade: " +:+ JobErrorText.display failure.

Lemma failure_is_reported_witness :
  ∃ r w tr', run no_helm (Upgrade.or_publish recorder true failing) tt =
    (Failed failure, w, (tr' ++ [Ev (S:=JobSig) (SendEvent (mkEvent Warning "MayastorUpgrade"
       (Some failing_note) "Validation Failed")) r])%list).
Proof.
  edestruct (failure_is_reported no_helm recorder true failing tt failure tt
    (trace_of (run no_helm failing tt)) failing_note) as (r & w & Hr);
    [vm_compute; reflexivity|reflexivity|vm_compute; reflexivity|].
  eexists r, w, _. exact Hr.
Defined.

Definition the_builder : HelmUpgrade.HelmUpgraderBuilder :=
  HelmUpgrade.mkHelmUpgraderBuilder (Some "mayastor") (Some "mayastor") (Some "/charts") false None None.
Definition build_run := run cluster (HelmUpgrade.build 3 the_builder) before.

Definition the_upgrader : HelmUpgrade.HelmUpgrader :=
  match result_of build_run with
  | Done u => u
  | _ => HelmUpgrade.UmbrellaUpgrader
           (HelmUpgrade.mkUmbrellaHelmUpgrader "" "" (version_new 0 0 0) (version_new 0 0 0))
  end.


Lemma partial_rebuild_blocks_restart_witness :
  ∃ e, Upgrade.upgrade_io_engines 3 args recorder (version_new 2 3 0) (mkHelmValuesCollection true true)
    = Throw e.
Proof. apply (partial_rebuild_blocks_restart 3 args recorder (version_new 2 3 0)). reflexivity. Defined.

Lemma version_from_release_chart_spec_witness :
  Path.version_from_release_chart "mayastor-2.0.0-rc.1" =
    match version_parse "2.0.0-rc.1" with inr v => inr v | inl e => inl (SemverParse e "2.0.0-rc.1") end ∧
  Path.version_from_release_chart "mayastor" = inl (HelmChartNameSplit "mayastor" "-"%char).
Proof.
  apply (version_from_release_chart_spec "mayastor" "2.0.0-rc.1").
  apply (bool_decide_unpack _). vm_compute. exact I.
Defined.

(** *** The values file *)
Definition source_doc : yaml (SerdeYaml := yaml_docs) := values_doc "v2.7.0" "110s" [].

(** The values as records. *)
Definition values (image_tag io_timeout : string) (partial_rebuild : bool) : CoreValues :=
  mkCoreValues (mkAgents (mkCore (mkRebuild (mkRebuildPartial partial_rebuild))) (mkHa true)) (mkBase "")
    (mkImage image_tag RepoTags_default) (mkIoEngine "info") Eventing_default
    (mkCsi (mkCsiImage "v3.5.0" "v4.3.0" "" "" "v2.8.0" "") (mkCsiNode (mkCsiNodeNvme io_timeout) ""))
    JaegerOperator_default LokiStack_default LocalpvProvisioner_default.

Lemma core_values_flags_witness :
  bool_at ["agents"; "ha"; "enabled"] source_doc = Some true ∧
  (bool_at ["agents"; "core"; "rebuild"; "partial"; "enabled"] source_doc = Some true ∨
   at_path ["agents"; "core"; "rebuild"] source_doc = None ∧ true = true).
Proof.
  apply (HelmChartSpec.core_values_flags source_doc (values "v2.7.0" "110s" true)).
  vm_compute. reflexivity.
Defined.

Definition generate (sv tv : Version) (s t : CoreValues) : job string :=
  HelmValues.generate_values_yaml_file 3 sv tv s t "<source values>" "/charts/values.yaml" "/charts".
Definition old_values : CoreValues := values "v2.3.0" "30" true.
Definition new_values : CoreValues := values "v2.8.0" "110s" true.
Definition generate_run :=
  run cluster (generate (version_new 2 3 0) (version_new 2 8 0) old_values new_values) before.

Lemma generate_values_refines_witness :
  ∃ src n1 ver merged err n2 t1 tc t2 crds,
    trace_of generate_run =
      ([Ev (S:=JobSig) (TempFileNewIn (Some "/charts")) (inr src);
        Ev (S:=JobSig) (FileWrite src "<source values>") (inr n1);
        Ev (S:=JobSig) (RunCommand "yq" ["-V"] []) (inr ver);
        Ev (S:=JobSig) (RunCommand "yq" (Yq.merge_args src "/charts/values.yaml") [])
          (inr (mkOutput true merged err));
        Ev (S:=JobSig) (TempFileNewIn (Some "/charts")) (inr "/tmp/values");
        Ev (S:=JobSig) (FileWrite "/tmp/values" merged) (inr n2)] ++ t1 ++ tc ++ t2)%list ∧
    exec (HelmValues.list_crd_names 3) tc (Done crds) ∧
    commands t1 = render "/tmp/values" <$>
      edits (version_new 2 3 0) (version_new 2 8 0) old_values new_values ∧
    commands tc = [] ∧
    commands t2 = render "/tmp/values" <$> toggles crds (hash_order HelmValues.crd_sets).
Proof.
  apply (ValuesSpec.generate_values_refines 3 (version_new 2 3 0) (version_new 2 8 0) old_values
           new_values "<source values>" "/charts/values.yaml" "/charts" (trace_of generate_run)
           "/tmp/values").
  assert (result_of generate_run = Done "/tmp/values") as <- by (vm_compute; reflexivity).
  apply run_exec.
Defined.

Lemma generate_run_exec :
  exec (generate (version_new 2 3 0) (version_new 2 8 0) old_values new_values)
    (trace_of generate_run) (Done "/tmp/values").
Proof.
  assert (result_of generate_run = Done "/tmp/values") as <- by (vm_compute; reflexivity).
  apply run_exec.
Qed.

Lemma image_tags_from_target_witness :
  ∃ es, ValuesSpec.edited (trace_of generate_run) "/charts/values.yaml" "/tmp/values" es ∧
    last (ValuesSpec.touching ".image.tag" es) = Some (ESet ".image.tag" "v2.8.0").
Proof.
  apply (ValuesSpec.image_tags_from_target 3 (version_new 2 3 0) (version_new 2 8 0) old_values new_values
    "<source values>" "/charts/values.yaml" "/charts"); [exact generate_run_exec|by left].
Defined.

Lemma custom_values_kept_witness :
  ∃ es, ValuesSpec.edited (trace_of generate_run) "/charts/values.yaml" "/tmp/values" es ∧
    ValuesSpec.touching ".io_engine.logLevel" es = [] ∧ ValuesSpec.touching ".io_engine.coreList" es = [].
Proof.
  destruct (ValuesSpec.custom_values_kept 3 (version_new 2 3 0) (version_new 2 8 0) old_values new_values
    "<source values>" "/charts/values.yaml" "/charts" (trace_of generate_run) "/tmp/values"
    generate_run_exec) as (es & He & Hd & Ho).
  exists es. split; [exact He|]. split.
  - apply (Hd _ CoreValues__io_engine_log_level log_level_to_replace); [by left|discriminate].
  - apply Ho.
    + apply Forall_forall, (bool_decide_unpack _). vm_compute. exact I.
    + intros k' get d Hin. unfold ValuesSpec.replaced_defaults in Hin.
      repeat (apply elem_of_cons in Hin as [[= -> -> ->]|Hin]); [vm_compute; discriminate..|].
      by apply elem_of_nil in Hin.
    + intros k' Hin. repeat (apply elem_of_cons in Hin as [->|Hin]); [vm_compute; discriminate..|].
      by apply elem_of_nil in Hin.
Defined.

#[export] Instance version_constants : ValuesSpec.VersionConstants.
Proof.
  constructor. do 6 eexists. split_and!; vm_compute; reflexivity.
Defined.

Definition recent_run :=
  run cluster (generate (version_new 2 7 0) (version_new 2 8 0) old_values new_values) before.

Lemma recent_upgrade_edits_witness :
  ∃ crds, ValuesSpec.edited (trace_of recent_run) "/charts/values.yaml" "/tmp/values"
    (edits_2_1 (version_new 2 8 0) new_values ++ edits_default new_values ++
     toggles crds (hash_order HelmValues.crd_sets))%list.
Proof.
  apply (ValuesSpec.recent_upgrade_edits 3 (version_new 2 7 0) (version_new 2 8 0) old_values new_values
    "<source values>" "/charts/values.yaml" "/charts"); [|vm_compute; reflexivity].
  assert (result_of recent_run = Done "/tmp/values") as <- by (vm_compute; reflexivity).
  apply run_exec.
Defined.
End FixtureWitness.
