(* ===== verification/CompletionFixture.v ===== *)
(** * The fixture's cluster as an environment of the whole job

    The hypotheses of [JobCompletion] hold of the cluster of [JobFixture], and a job which
    is killed after its first pod completes there. *)

From S2P Require Import Prelude Semver Text JobApi JobEvents HelmChart HelmClient HelmValues.
From S2P Require Import HelmUpgrade JobUtils JobDataPlane JobUpgrade JobUpgradeSpec JobSim.
From S2P Require Import JobRecovery JobCompletion JobFixture.
From stdpp Require Import base gmap list relations strings.
From Stdlib Require Import ZArith Lia.
Open Scope list_scope.

Module CompletionWitness.
Import SemverRef Fixture Completion.

Lemma cluster_environment : environment "h2" cluster (λ w, w).
Proof. split; [by intros []|by intros []|done|by eexists]. Qed.

(** A part whose result does not depend on the world it starts in *)
Definition ends_with {A} (P : A → bool) (o : outcome Error A) : bool :=
  match o with Done a => P a | _ => false end.

Lemma succeeds_everywhere {A} (P : A → bool) (p : job A) :
  (∀ w, ends_with P (result_of (run cluster p w)) = true) → succeeds cluster p (λ a, P a = true).
Proof.
  intros Hp w. specialize (Hp w). destruct (run cluster p w) as [[[a|e| |] w'] tr]; try done.
  by exists a, w', tr.
Qed.
Lemma succeeds_weaken {A} (P Q : A → Prop) (p : job A) :
  succeeds cluster p P → (∀ a, P a → Q a) → succeeds cluster p Q.
Proof. intros Hs HQ w. destruct (Hs w) as (a & w' & tr & Hr & Ha). exists a, w', tr. auto. Qed.
Lemma succeeds_then {A B} (p : job A) (b : B) (P : B → Prop) :
  succeeds cluster p (λ _, True) → P b → succeeds cluster (do! p in Ret b) P.
Proof.
  intros Hs Hb w. destruct (Hs w) as (a & w' & tr & Hr & _). rewrite run_bind, Hr. cbn. eauto 10.
Qed.

(** What the job finds. *)
Definition job_build : job HelmUpgrade.HelmUpgrader :=
  HelmUpgrade.build 3
    (HelmUpgrade.with_helm_args_set_file args.(helm_args_set_file)
    (HelmUpgrade.with_helm_args_set args.(helm_args_set)
    (HelmUpgrade.with_skip_upgrade_path_validation args.(skip_upgrade_path_validation)
    (HelmUpgrade.with_core_chart_dir args.(core_chart_dir)
    (HelmUpgrade.with_release_name args.(release_name)
    (HelmUpgrade.with_namespace args.(JobUpgrade.namespace) HelmUpgrade.builder_default)))))).

(** The upgrader is to be run, and its source version lets the data plane be restarted
    whatever the values are. *)
Definition passes (v : Version) (partial_rebuild : bool) : bool :=
  match Upgrade.partial_rebuild_check v partial_rebuild with inr _ => true | inl _ => false end.
Definition goes_on (u : HelmUpgrade.HelmUpgrader) : bool :=
  match u with
  | HelmUpgrade.CoreUpgrader k =>
      negb k.(HelmUpgrade.already_upgraded) && passes k.(HelmUpgrade.c_source_version) true &&
      passes k.(HelmUpgrade.c_source_version) false
  | HelmUpgrade.UmbrellaUpgrader _ => false
  end.

Lemma build_succeeds : succeeds cluster job_build (λ u, goes_on u = true).
Proof. apply succeeds_everywhere. intros w. vm_compute. reflexivity. Qed.

Lemma upgrade_succeeds k :
  goes_on (HelmUpgrade.CoreUpgrader k) = true →
  succeeds cluster (HelmUpgrade.dry_run (HelmUpgrade.CoreUpgrader k)) (λ upgrade,
    succeeds cluster upgrade (λ values,
      Upgrade.partial_rebuild_check k.(HelmUpgrade.c_source_version)
        values.(partial_rebuild_is_enabled) = inr tt)).
Proof.
  intros [[Hk Ht]%andb_prop Hf]%andb_prop. apply negb_true_iff in Hk.
  unfold HelmUpgrade.dry_run. rewrite Hk. apply succeeds_then.
  - intros w. do 3 eexists. cbn. split; [reflexivity|done].
  - intros w. rewrite run_bind. cbn -[partial_rebuild_is_enabled Upgrade.partial_rebuild_check].
    do 3 eexists. split; [reflexivity|]. unfold passes in *.
    destruct (partial_rebuild_is_enabled _);
      [destruct (Upgrade.partial_rebuild_check _ true) as [|[]]
      |destruct (Upgrade.partial_rebuild_check _ false) as [|[]]]; done.
Qed.

Lemma cluster_works : works cluster 3 args.
Proof.
  split.
  - eapply succeeds_weaken; [apply (succeeds_everywhere (λ _, true)); intros w; vm_compute; reflexivity|done].
  - eapply succeeds_weaken; [apply (succeeds_everywhere (λ _, true)); intros w; vm_compute; reflexivity|done].
  - eapply succeeds_weaken; [apply build_succeeds|]. intros [k|k] Hk; [by apply upgrade_succeeds|done].
Qed.

(** Killed after the first pod was replaced *)
Definition killed_world : Sim.world := RecoveryWitness.after 80 cluster (Upgrade.main 3 args) before.

Lemma job_recovers_witness :
  ∃ pods, world_of (run cluster (Upgrade.main 3 args) killed_world) = Sim.mkWorld [] pods ∅ ∧
    pods ≡ₚ Sim.old_pods before.
Proof.
  destruct (job_recovers "h2" cluster (λ w, w) 3 3 args (Sim.old_pods before) [] before
    killed_world cluster_environment cluster_works) as [_ Hw].
  - reflexivity.
  - discriminate.
  - apply Nat.leb_le. reflexivity.
  - reflexivity.
  - apply (bool_decide_unpack _). vm_compute. exact I.
  - apply (bool_decide_unpack _). vm_compute. exact I.
  - apply rtc_once. apply RecoveryWitness.after_visits.
  - assert (Sim.old_pods killed_world = [("io-engine-b", "node-b")]) as Ho by (vm_compute; reflexivity).
    rewrite Ho, app_nil_r in Hw. exact Hw.
Defined.
End CompletionWitness.
