(* ===== verification/PluginApi.v ===== *)
(** * The kubectl plugin: errors, objects and requests of the upgrade commands

    Models [error.rs], [constants.rs] and [objects.rs] of
    [k8s/upgrade/src/plugin]: the errors with their exit codes, the names and
    images of the upgrade resources, and the Kubernetes objects which run the
    upgrade job; with every request the upgrade commands issue. *)

From S2P Require Import Prelude Semver Text JobApi.
From stdpp Require Import base gmap list strings pretty.
From Stdlib Require Import ZArith Lia Ascii.
Open Scope string_scope.

(** ** [error.rs] *)
Module PluginError.
Inductive Error : Type :=
| UpgradeEventNotPresent
| NoDeploymentPresent
| MessageInEventNotPresent
| NodesInCordonedState
| SingleReplicaVolumeErr
| VolumeRebuildInProgress
| K8sClient (source : ext_error)
| EventSerdeDeserialization (event : string) (source : ext_error)
| ServiceAccountCreate (name : string) (source : ext_error)
| ServiceAccountDelete (name : string) (source : ext_error)
| ClusterRoleCreate (name : string) (source : ext_error)
| ClusterRoleDelete (name : string) (source : ext_error)
| ClusterRoleBindingDelete (name : string) (source : ext_error)
| ClusterRoleBindingCreate (name : string) (source : ext_error)
| UpgradeConfigMapCreate (name : string) (source : ext_error)
| UpgradeJobCreate (name : string) (source : ext_error)
| UpgradeJobDelete (name : string) (source : ext_error)
| UpgradeConfigMapDelete (name : string) (source : ext_error)
| ReferenceDeploymentInvalidImage
| ReferenceDeploymentNoImage
| ReferenceDeploymentNoSpec
| ReferenceDeploymentNoPodTemplateSpec
| ReferenceDeploymentNoContainers
| NodeSpecNotPresent (node : string)
| PodNameNotPresent
| UpgradeJobStatusNotPresent (name : string)
| UpgradeJobNotPresent (name : string) (namespace : string)
| ListPodsWithLabel (source : ext_error) (label : string) (namespace : string)
| ListDeploymantsWithLabel (source : ext_error) (label : string) (namespace : string)
| ListEventsWithFieldSelector (source : ext_error) (field : string)
| DeleteEventsWithFieldSelector (source : ext_error) (field : string)
| ListPVC (source : ext_error)
| ListVolumes (source : ext_error)
| GetUpgradeJob (source : ext_error) (name : string)
| GetUpgradeConfigMap (source : ext_error) (name : string)
| GetServiceAccount (source : ext_error) (name : string)
| GetClusterRole (source : ext_error) (name : string)
| GetClusterRoleBinding (source : ext_error) (name : string)
| K8sClientGeneration (source : ext_error)
| RestClientConfiguration (source : ext_error)
| ListStorageNodes (source : ext_error)
| OpenapiClientConfiguration (source : ext_error)
| OpeningFile (source : ext_error) (filepath : string)
| YamlParseFromFile (source : ext_error) (filepath : string)
| ReadFromFile (source : ext_error) (filepath : string)
| YamlParseBufferForUnsupportedVersion (source : ext_error)
| SemverParse (source : ext_error) (version_string : string)
| SourceTargetVersionSame
| NotAValidSourceForUpgrade
| InvalidUpgradePath
| InvalidSetFileArguments (arguments : string)
| SpecifiedKeyNotPresent.

(** [impl From<Error> for i32] *)
Definition exit_code (e : Error) : Z :=
  match e with
  | YamlParseBufferForUnsupportedVersion _ => 401
  | UpgradeEventNotPresent => 402
  | NoDeploymentPresent => 403
  | MessageInEventNotPresent => 404
  | NodesInCordonedState => 405
  | SingleReplicaVolumeErr => 406
  | VolumeRebuildInProgress => 407
  | K8sClient _ => 408
  | EventSerdeDeserialization _ _ => 409
  | ServiceAccountCreate _ _ => 410
  | ServiceAccountDelete _ _ => 411
  | ClusterRoleCreate _ _ => 412
  | ClusterRoleDelete _ _ => 413
  | ClusterRoleBindingDelete _ _ => 414
  | ClusterRoleBindingCreate _ _ => 415
  | UpgradeJobCreate _ _ => 416
  | UpgradeJobDelete _ _ => 417
  | ReferenceDeploymentInvalidImage => 418
  | ReferenceDeploymentNoImage => 419
  | ReferenceDeploymentNoSpec => 420
  | ReferenceDeploymentNoPodTemplateSpec => 421
  | ReferenceDeploymentNoContainers => 422
  | NodeSpecNotPresent _ => 423
  | PodNameNotPresent => 424
  | UpgradeJobStatusNotPresent _ => 425
  | UpgradeJobNotPresent _ _ => 426
  | ListPodsWithLabel _ _ _ => 427
  | ListDeploymantsWithLabel _ _ _ => 428
  | ListEventsWithFieldSelector _ _ => 429
  | ListPVC _ => 430
  | ListVolumes _ => 431
  | GetUpgradeJob _ _ => 432
  | GetServiceAccount _ _ => 433
  | GetClusterRole _ _ => 434
  | GetClusterRoleBinding _ _ => 435
  | K8sClientGeneration _ => 436
  | RestClientConfiguration _ => 437
  | ListStorageNodes _ => 438
  | OpenapiClientConfiguration _ => 439
  | OpeningFile _ _ => 440
  | YamlParseFromFile _ _ => 441
  | SemverParse _ _ => 442
  | SourceTargetVersionSame => 443
  | NotAValidSourceForUpgrade => 444
  | InvalidUpgradePath => 445
  | DeleteEventsWithFieldSelector _ _ => 446
  | ReadFromFile _ _ => 447
  | GetUpgradeConfigMap _ _ => 448
  | UpgradeConfigMapCreate _ _ => 449
  | UpgradeConfigMapDelete _ _ => 450
  | InvalidSetFileArguments _ => 451
  | SpecifiedKeyNotPresent => 452
  end%Z.
End PluginError.
Abbreviation PError := PluginError.Error.

(** A command ends with an error, or the process panics ([unwrap] on [None]). *)
Inductive failure := Returned (e : PError) | Panicked.

(** ** Objects of the Kubernetes API: the fields which are set or read *)
Record ObjectMeta := mkObjectMeta {
  labels : option (gmap string string);
  name : option string;
  namespace : option string
}.

Record ServiceAccount := mkServiceAccount { sa_meta : ObjectMeta }.

Record PolicyRule := mkPolicyRule {
  api_groups : list string; resources : list string; verbs : list string
}.
Record ClusterRole := mkClusterRole { cr_meta : ObjectMeta; rules : list PolicyRule }.

Record RoleRef := mkRoleRef { ref_api_group : string; ref_kind : string; ref_name : string }.
Record Subject := mkSubject {
  subject_kind : string; subject_name : string; subject_namespace : option string
}.
Record ClusterRoleBinding := mkClusterRoleBinding {
  crb_meta : ObjectMeta; role_ref : RoleRef; subjects : list Subject
}.

Record ConfigMap := mkConfigMap {
  cm_meta : ObjectMeta; data : option (gmap string string); immutable : option bool
}.

(** An environment variable with its value or the field it is taken from. *)
Record EnvVar := mkEnvVar { env_name : string; env_value : option string; env_field : option string }.
Record VolumeMount := mkVolumeMount { mount_path : string; mount_name : string; read_only : bool }.
Record ConfigMapVolume := mkConfigMapVolume { volume_name : string; config_map_name : option string }.
Record JobSpec := mkJobSpec {
  backoff_limit : Z;
  pod_labels : gmap string string;
  image_pull_secrets : option (list string);
  restart_policy : string;
  container_args : list string;
  container_image : string;
  image_pull_policy : option string;
  container_name : string;
  container_env : list EnvVar;
  liveness_command : list string;
  liveness_delay : Z;
  liveness_period : Z;
  volume_mounts : list VolumeMount;
  service_account_name : option string;
  volumes : list ConfigMapVolume
}.
Record JobStatus := mkJobStatus { succeeded : option Z }.
Record Job := mkJob { job_meta : ObjectMeta; job_spec : option JobSpec; job_status : option JobStatus }.

(** The objects the plugin only reads. *)
Record ContainerImage := mkContainerImage { image : option string; pull_policy_of : option string }.
Record PodTemplate := mkPodTemplate {
  containers : list ContainerImage; template_pull_secrets : option (list string)
}.
(** [Deployment]: its metadata, and [spec.template.spec] *)
Record Deployment := mkDeployment {
  dep_meta : ObjectMeta; dep_spec : option (option PodTemplate)
}.
Record PluginEvent := mkPluginEvent {
  action : option string; event_message : option string; reason : option string;
  event_time : option Z
}.
Record Pvc := mkPvc { pvc_uid : option string; pvc_name : option string }.

(** ** Requests *)
Inductive kind := KServiceAccount | KClusterRole | KClusterRoleBinding | KConfigMap | KJob.
#[global] Instance kind_eq_dec : EqDecision kind.
Proof. solve_decision. Defined.

Definition object (k : kind) : Type :=
  match k with
  | KServiceAccount => ServiceAccount
  | KClusterRole => ClusterRole
  | KClusterRoleBinding => ClusterRoleBinding
  | KConfigMap => ConfigMap
  | KJob => Job
  end.

Definition meta_of (k : kind) : object k → ObjectMeta :=
  match k with
  | KServiceAccount => sa_meta
  | KClusterRole => cr_meta
  | KClusterRoleBinding => crb_meta
  | KConfigMap => cm_meta
  | KJob => job_meta
  end.

Inductive plugin_call : Type :=
| TryDefault
| DeploymentsList (ns label : string)
| PodNamesList (ns label : string)
| PvcList
| EventsDeleteCollection (ns field_selector : string)
| EventsList (ns field_selector : string)
| GetOpt (k : kind) (name : string)
| CreateObj (k : kind) (o : object k)
| DeleteObj (k : kind) (name : string)
| OpenapiConfigBuild
| PluginGetVolumes (max_entries : Z) (starting_token : option Z)
| PluginGetNodes
| ReadToString (path : string)
| PluginSleep (secs : N)
(** the console: log lines with their level, and plain lines *)
| ConsoleInfo (title text : string)
| ConsoleError (title text : string)
| Println (line : string).

Definition plugin_res (c : plugin_call) : Type :=
  match c with
  | TryDefault => ext_error + unit
  | DeploymentsList _ _ => ext_error + list Deployment
  | PodNamesList _ _ => ext_error + list (option string)
  | PvcList => ext_error + list Pvc
  | EventsDeleteCollection _ _ => ext_error + unit
  | EventsList _ _ => ext_error + list PluginEvent
  | GetOpt k _ => ext_error + option (object k)
  | CreateObj k _ => ext_error + object k
  | DeleteObj _ _ => ext_error + unit
  | OpenapiConfigBuild => ext_error + unit
  | PluginGetVolumes _ _ => ext_error + Volumes
  | PluginGetNodes => ext_error + list StorageNode
  | ReadToString _ => ext_error + string
  | PluginSleep _ | ConsoleInfo _ _ | ConsoleError _ _ | Println _ => unit
  end.

Definition PluginSig : Sig := MkSig plugin_call plugin_res.
Abbreviation plugin := (prog PluginSig failure).
Definition ask (c : plugin_call) : plugin (plugin_res c) := call (S:=PluginSig) c.

(** [.context(..)?], [.ok_or(..)?], [..fail()] and [.unwrap()] *)
Definition context {X A} (f : X → PError) (r : X + A) : plugin A := lift (λ x, Returned (f x)) r.
Definition some_or {A} (e : PError) (o : option A) : plugin A := ok_or (Returned e) o.
Definition fail {A} (e : PError) : plugin A := Throw (Returned e).
Definition unwrap {A} (o : option A) : plugin A := ok_or Panicked o.

(** ** [constants.rs] *)

(** The version of the plugin's own build ([utils::version_info!]) and the JSON
    deserializer of the event note. *)
Class PluginDeps := {
  version_tag : option string;
  note_from_json : string → ext_error + EventNote
}.

Section Constants.
Context `{Deps} `{PluginDeps}.

Definition UPGRADE_JOB_IMAGE_TAG : string := "develop".
Definition DEFAULT_IMAGE_REGISTRY : string := "docker.io".
Definition UPGRADE_JOB_IMAGE_REPO : string := "openebs".
Definition UPGRADE_JOB_NAME_SUFFIX : string := "upgrade".
Definition UPGRADE_CONFIG_MAP : string := "upgrade-config-map".
Definition UPGRADE_CONFIG_MAP_MOUNT_PATH : string := "/upgrade-config-map".
Definition UPGRADE_JOB_SERVICEACCOUNT_NAME_SUFFIX : string := "upgrade-service-account".
Definition UPGRADE_JOB_CLUSTERROLE_NAME_SUFFIX : string := "upgrade-role".
Definition UPGRADE_JOB_CLUSTERROLEBINDING_NAME_SUFFIX : string := "upgrade-role-binding".
Definition UPGRADE_CONFIG_MAP_NAME_SUFFIX : string := "upgrade-config-map".
Definition UPGRADE_BINARY_NAME : string := "upgrade-job".
Definition API_REST_LABEL_SELECTOR : string := "app=api-rest".
Definition SINGLE_REPLICA_VOLUME : Z := 1.
Definition IO_ENGINE_POD_LABEL : string := "app=io-engine".
Definition AGENT_CORE_POD_LABEL : string := "app=agent-core".
Definition API_REST_POD_LABEL : string := "app=api-rest".
Definition UPGRADE_TO_DEVELOP_BRANCH : string := "develop".
Definition MAX_RETRY_ATTEMPTS : nat := 6.

(** [constants/src/lib.rs] *)
Definition upgrade_job_img : string := PRODUCT_NAME +:+ "-upgrade-job".
Definition upgrade_job_container_name : string := PRODUCT_NAME +:+ "-upgrade-job".
Definition DEFAULT_RELEASE_NAME : string := PRODUCT_NAME.
Definition helm_release_name_key : string := PRODUCT_DOMAIN_NAME +:+ "/release".
Definition helm_release_version_key : string := PRODUCT_DOMAIN_NAME +:+ "/version".
Definition loki_logging_key : string := PRODUCT_DOMAIN_NAME +:+ "/logging".

Definition release_version : option string := version_tag.
Definition get_image_version_tag : string :=
  match release_version with Some tag => tag | None => UPGRADE_JOB_IMAGE_TAG end.

(** [str::replace] of a character *)
Fixpoint replace_char (a b : ascii) (s : string) : string :=
  match s with
  | "" => ""
  | String c s' => String (if decide (c = a) then b else c) (replace_char a b s')
  end.
Definition upgrade_obj_suffix : string := replace_char "."%char "-"%char get_image_version_tag.

Definition upgrade_name_concat (release_name component_name : string) : string :=
  release_name +:+ "-" +:+ component_name +:+ "-" +:+ upgrade_obj_suffix.
Definition upgrade_image_concat (registry repo name tag : string) : string :=
  registry +:+ "/" +:+ repo +:+ "/" +:+ name +:+ ":" +:+ tag.
Definition upgrade_event_selector (release_name component_name : string) : string :=
  "involvedObject.kind=Job,involvedObject.name=" +:+ release_name +:+ "-" +:+ component_name +:+
  "-" +:+ upgrade_obj_suffix.

(** [upgrade_labels!] *)
Definition upgrade_labels : gmap string string :=
  <[loki_logging_key := "true"]> {["app" := UPGRADE_JOB_NAME_SUFFIX]}.
End Constants.

(** ** [objects.rs] *)
Module Objects.
Section Objects.
Context `{Deps} `{PluginDeps}.

Definition upgrade_job_service_account (ns : option string) (service_account_name : string)
  : ServiceAccount :=
  mkServiceAccount (mkObjectMeta (Some upgrade_labels) (Some service_account_name) ns).

Definition cluster_role_rules : list PolicyRule :=
  [mkPolicyRule ["apiextensions.k8s.io"] ["customresourcedefinitions"]
     ["create"; "list"; "delete"; "get"; "patch"];
   mkPolicyRule ["openebs.io"] ["upgradeactions"]
     ["get"; "create"; "list"; "watch"; "update"; "replace"; "patch"];
   mkPolicyRule ["openebs.io"] ["upgradeactions/status"]
     ["update"; "patch"];
   mkPolicyRule ["apps"] ["daemonsets"; "replicasets"; "statefulsets"; "deployments"]
     ["create"; "delete"; "get"; "list"; "patch"];
   mkPolicyRule [""] ["serviceaccounts"]
     ["create"; "get"; "list"; "delete"; "patch"];
   mkPolicyRule [""] ["pods"]
     ["create"; "get"; "list"; "delete"; "patch"; "deletecollection"];
   mkPolicyRule [""] ["nodes"]
     ["get"; "list"];
   mkPolicyRule [""] ["namespaces"]
     ["get"];
   mkPolicyRule ["events.k8s.io"] ["events"]
     ["create"];
   mkPolicyRule [""] ["secrets"; "persistentvolumes"; "persistentvolumeclaims"; "services"; "configmaps"]
     ["get"; "list"; "watch"; "create"; "delete"; "deletecollection"; "patch"; "update"];
   mkPolicyRule ["rbac.authorization.k8s.io"] ["roles"]
     ["create"; "list"; "delete"; "get"; "patch"; "escalate"; "bind"];
   mkPolicyRule ["monitoring.coreos.com"] ["prometheusrules"; "podmonitors"]
     ["create"; "list"; "delete"; "get"; "patch"];
   mkPolicyRule ["networking.k8s.io"] ["networkpolicies"]
     ["create"; "list"; "delete"; "get"; "patch"];
   mkPolicyRule ["batch"] ["cronjobs"]
     ["create"; "list"; "delete"; "get"; "patch"];
   mkPolicyRule ["jaegertracing.io"] ["jaegers"]
     ["create"; "list"; "delete"; "get"; "patch"];
   mkPolicyRule ["rbac.authorization.k8s.io"] ["rolebindings"]
     ["create"; "list"; "delete"; "get"; "patch"];
   mkPolicyRule ["rbac.authorization.k8s.io"] ["clusterroles"]
     ["create"; "list"; "delete"; "get"; "patch"; "escalate"; "bind"];
   mkPolicyRule ["rbac.authorization.k8s.io"] ["clusterrolebindings"]
     ["create"; "list"; "delete"; "get"; "patch"];
   mkPolicyRule ["storage.k8s.io"] ["storageclasses"]
     ["create"; "list"; "delete"; "get"; "patch"];
   mkPolicyRule ["scheduling.k8s.io"] ["priorityclasses"]
     ["create"; "list"; "delete"; "get"; "patch"];
   mkPolicyRule ["policy"] ["poddisruptionbudgets"]
     ["create"; "list"; "delete"; "get"; "patch"]].

Definition upgrade_job_cluster_role (ns : option string) (cluster_role_name : string) : ClusterRole :=
  mkClusterRole (mkObjectMeta (Some upgrade_labels) (Some cluster_role_name) ns) cluster_role_rules.

Definition upgrade_job_cluster_role_binding (ns : option string) (release_name : string)
  : ClusterRoleBinding :=
  mkClusterRoleBinding
    (mkObjectMeta (Some upgrade_labels)
       (Some (upgrade_name_concat release_name UPGRADE_JOB_CLUSTERROLEBINDING_NAME_SUFFIX)) ns)
    (mkRoleRef "rbac.authorization.k8s.io" "ClusterRole"
       (upgrade_name_concat release_name UPGRADE_JOB_CLUSTERROLE_NAME_SUFFIX))
    [mkSubject "ServiceAccount"
       (upgrade_name_concat release_name UPGRADE_JOB_SERVICEACCOUNT_NAME_SUFFIX) ns].

Definition upgrade_configmap (d : gmap string string) (ns release_name : string) : ConfigMap :=
  mkConfigMap
    (mkObjectMeta (Some upgrade_labels)
       (Some (upgrade_name_concat release_name UPGRADE_CONFIG_MAP_NAME_SUFFIX)) (Some ns))
    (Some d) (Some true).
End Objects.
End Objects.

(** [struct UpgradeArgs] *)
Record UpgradeArgs := mkUpgradeArgs {
  registry : option string;
  allow_unstable : bool;
  dry_run : bool;
  skip_data_plane_restart : bool;
  skip_single_replica_volume_validation : bool;
  skip_replica_rebuild : bool;
  skip_cordoned_node_validation : bool;
  skip_upgrade_path_validation_for_unsupported_version : bool;
  set : list string;
  set_file : list string
}.

(** [UpgradeArgs::new] *)
Definition UpgradeArgs_new : UpgradeArgs :=
  mkUpgradeArgs None false false false false false false false [] [].

(** [slice::join] *)
Fixpoint slice_join (sep : string) (l : list string) : string :=
  match l with
  | [] => ""
  | [x] => x
  | x :: l' => x +:+ sep +:+ slice_join sep l'
  end.

Module UpgradeJob.
Section UpgradeJob.
Context `{Deps} `{PluginDeps}.

Definition job_args (ns release_name : string) (args : UpgradeArgs) (set_file : string) : list string :=
  (["--rest-endpoint=http://" +:+ release_name +:+ "-api-rest:8081";
    "--namespace=" +:+ ns;
    "--release-name=" +:+ release_name;
    "--helm-args-set=" +:+ slice_join "," args.(set);
    "--helm-args-set-file=" +:+ set_file] ++
   (if args.(skip_data_plane_restart) then ["--skip-data-plane-restart"] else []) ++
   (if args.(skip_upgrade_path_validation_for_unsupported_version)
    then ["--skip-upgrade-path-validation"] else []))%list.

(** [objects::upgrade_job] *)
Definition upgrade_job (ns upgrade_image release_name : string) (args : UpgradeArgs) (set_file : string)
    (pull_secrets : option (list string)) (pull_policy : option string) : Job :=
  mkJob
    (mkObjectMeta (Some upgrade_labels)
       (Some (upgrade_name_concat release_name UPGRADE_JOB_NAME_SUFFIX)) (Some ns))
    (Some {|
       backoff_limit := 6;
       pod_labels := upgrade_labels;
       image_pull_secrets := pull_secrets;
       restart_policy := "OnFailure";
       container_args := job_args ns release_name args set_file;
       container_image := upgrade_image;
       image_pull_policy := pull_policy;
       container_name := upgrade_job_container_name;
       container_env := [mkEnvVar "RUST_LOG" (Some "info") None;
                         mkEnvVar "POD_NAME" None (Some "metadata.name")];
       liveness_command := ["pgrep"; UPGRADE_BINARY_NAME];
       liveness_delay := 10;
       liveness_period := 60;
       volume_mounts := [mkVolumeMount UPGRADE_CONFIG_MAP_MOUNT_PATH UPGRADE_CONFIG_MAP true];
       service_account_name :=
         Some (upgrade_name_concat release_name UPGRADE_JOB_SERVICEACCOUNT_NAME_SUFFIX);
       volumes := [mkConfigMapVolume UPGRADE_CONFIG_MAP
                     (Some (upgrade_name_concat release_name UPGRADE_CONFIG_MAP_NAME_SUFFIX))]
     |})
    None.
End UpgradeJob.
End UpgradeJob.
