(* ===== verification/PluginErrorText.v ===== *)
(** * The upgrade plugin: the texts of its errors

    The [display] attributes of [k8s/upgrade/src/plugin/error.rs], from which [snafu]
    derives the [Display] of the error type: what [kubectl] prints when a command of the
    plugin fails.  The texts of errors of other crates are carried by the error. *)

From S2P Require Import Prelude Text JobApi PluginApi.
From stdpp Require Import base list strings.
From Stdlib Require Import ZArith Lia Ascii.
Open Scope string_scope.

Module PluginErrorText.
Import PluginError.

(** Errors of the preflight validations, the created objects and the Deployment *)
Definition text_of_creation (e : Error) : option string :=
  match e with
  | UpgradeEventNotPresent =>
      Some ("No upgrade event present.")
  | NoDeploymentPresent =>
      Some ("No deployment present.")
  | MessageInEventNotPresent =>
      Some ("No Message present in event.")
  | NodesInCordonedState =>
      Some ("Nodes are in cordoned state.")
  | SingleReplicaVolumeErr =>
      Some ("Single replica volume present in cluster.")
  | VolumeRebuildInProgress =>
      Some ("Cluster is rebuilding replica of some volumes.")
  | K8sClient source =>
      Some ("K8Client Error: " +:+ source)
  | EventSerdeDeserialization event source =>
      Some ("Error in deserializing upgrade event " +:+ event +:+ " Error " +:+ source)
  | ServiceAccountCreate name source =>
      Some ("Service account: " +:+ name +:+ " creation failed Error: " +:+ source)
  | ServiceAccountDelete name source =>
      Some ("Service account: " +:+ name +:+ " deletion failed Error: " +:+ source)
  | ClusterRoleCreate name source =>
      Some ("Cluster role: " +:+ name +:+ " creation failed Error: " +:+ source)
  | ClusterRoleDelete name source =>
      Some ("Cluster role: " +:+ name +:+ " deletion Error: " +:+ source)
  | ClusterRoleBindingDelete name source =>
      Some ("Cluster role binding: " +:+ name +:+ " deletion failed Error: " +:+ source)
  | ClusterRoleBindingCreate name source =>
      Some ("Cluster role binding: " +:+ name +:+ " creation failed Error: " +:+ source)
  | UpgradeConfigMapCreate name source =>
      Some ("Config Map: " +:+ name +:+ " creation failed Error: " +:+ source)
  | UpgradeJobCreate name source =>
      Some ("Upgrade Job: " +:+ name +:+ " creation failed Error: " +:+ source)
  | UpgradeJobDelete name source =>
      Some ("Upgrade Job: " +:+ name +:+ " deletion failed Error: " +:+ source)
  | UpgradeConfigMapDelete name source =>
      Some ("Upgrade Config Map: " +:+ name +:+ " deletion failed Error: " +:+ source)
  | ReferenceDeploymentInvalidImage =>
      Some ("Failed to find a valid image in Deployment.")
  | ReferenceDeploymentNoImage =>
      Some ("Failed to find an image in Deployment.")
  | ReferenceDeploymentNoSpec =>
      Some ("No .spec found for the reference Deployment")
  | ReferenceDeploymentNoPodTemplateSpec =>
      Some ("No .spec.template.spec found for the reference Deployment")
  | ReferenceDeploymentNoContainers =>
      Some ("Failed to find the first container of the Deployment.")
  | NodeSpecNotPresent node =>
      Some ("Node spec not present, node: " +:+ node)
  | PodNameNotPresent =>
      Some ("Pod name not present.")
  | _ => None
  end.

(** Errors of requests, files, versions and arguments *)
Definition text_of_requests (e : Error) : option string :=
  match e with
  | UpgradeJobStatusNotPresent name =>
      Some ("Upgrade Job: " +:+ name +:+ " status not present.")
  | UpgradeJobNotPresent name namespace =>
      Some ("Upgrade Job: " +:+ name +:+ " in namespace " +:+ namespace +:+ " does not exist.")
  | ListPodsWithLabel source label namespace =>
      Some ("Failed to list Pods with label " +:+ label +:+ " in namespace " +:+ namespace +:+
      ": " +:+ source)
  | ListDeploymantsWithLabel source label namespace =>
      Some ("Failed to list Deployments with label " +:+ label +:+ " in namespace " +:+
      namespace +:+ ": " +:+ source)
  | ListEventsWithFieldSelector source field =>
      Some ("Failed to list Events with field selector " +:+ field +:+ ": " +:+ source)
  | DeleteEventsWithFieldSelector source field =>
      Some ("Failed to delete Events with field selector " +:+ field +:+ ": " +:+ source)
  | ListPVC source =>
      Some ("Failed to list pvc : " +:+ source)
  | ListVolumes source =>
      Some ("Failed to list volumes : " +:+ source)
  | GetUpgradeJob source name =>
      Some ("Failed to get Upgrade Job " +:+ name +:+ ": " +:+ source)
  | GetUpgradeConfigMap source name =>
      Some ("Failed to get Upgrade Config Map " +:+ name +:+ ": " +:+ source)
  | GetServiceAccount source name =>
      Some ("Failed to get service account " +:+ name +:+ ": " +:+ source)
  | GetClusterRole source name =>
      Some ("Failed to get cluster role " +:+ name +:+ ": " +:+ source)
  | GetClusterRoleBinding source name =>
      Some ("Failed to get cluster role binding " +:+ name +:+ ": " +:+ source)
  | K8sClientGeneration source =>
      Some ("Failed to generate kubernetes client: " +:+ source)
  | RestClientConfiguration source =>
      Some ("Failed to configure REST API client : " +:+ source)
  | ListStorageNodes source =>
      Some ("Failed to list Nodes: " +:+ source)
  | OpenapiClientConfiguration source =>
      Some ("openapi configuration Error: " +:+ source)
  | OpeningFile source filepath =>
      Some ("Failed to open file " +:+ filepath +:+ ": " +:+ source)
  | YamlParseFromFile source filepath =>
      Some ("Failed to parse YAML at " +:+ filepath +:+ ": " +:+ source)
  | ReadFromFile source filepath =>
      Some ("Failed to read file at " +:+ filepath +:+ ": " +:+ source)
  | YamlParseBufferForUnsupportedVersion source =>
      Some ("Failed to parse unsupported versions yaml: " +:+ source)
  | SemverParse source version_string =>
      Some ("Failed to parse " +:+ version_string +:+ " as a valid semver: " +:+ source)
  | SourceTargetVersionSame =>
      Some ("Source and target version are same for upgrade.")
  | NotAValidSourceForUpgrade =>
      Some ("Not a valid source version for upgrade.")
  | InvalidUpgradePath =>
      Some ("The upgrade path is invalid")
  | InvalidSetFileArguments arguments =>
      Some ("Error parsing set-file argument: " +:+ arguments +:+ " ")
  | SpecifiedKeyNotPresent =>
      Some ("Specified key not present.")
  | _ => None
  end.

(** [Display for Error] *)
Definition display (e : Error) : string := default "" (text_of_creation e ∪ text_of_requests e).

Lemma text_total e : is_Some (text_of_creation e ∪ text_of_requests e).
Proof. destruct e; cbn; eauto. Qed.

(** The [source] of an error, of which [snafu] makes [Error::source] *)
Definition source_of (e : Error) : option ext_error :=
  match e with
  | K8sClient s | EventSerdeDeserialization _ s | ServiceAccountCreate _ s
  | ServiceAccountDelete _ s | ClusterRoleCreate _ s | ClusterRoleDelete _ s
  | ClusterRoleBindingDelete _ s | ClusterRoleBindingCreate _ s | UpgradeConfigMapCreate _ s
  | UpgradeJobCreate _ s | UpgradeJobDelete _ s | UpgradeConfigMapDelete _ s
  | ListPodsWithLabel s _ _ | ListDeploymantsWithLabel s _ _ | ListEventsWithFieldSelector s _
  | DeleteEventsWithFieldSelector s _ | ListPVC s | ListVolumes s | GetUpgradeJob s _
  | GetUpgradeConfigMap s _ | GetServiceAccount s _ | GetClusterRole s _
  | GetClusterRoleBinding s _ | K8sClientGeneration s | RestClientConfiguration s
  | ListStorageNodes s | OpenapiClientConfiguration s | OpeningFile s _ | YamlParseFromFile s _
  | ReadFromFile s _ | YamlParseBufferForUnsupportedVersion s | SemverParse s _ => Some s
  | _ => None
  end.

(** The printed text contains the text of the error it was made from. *)
Lemma display_names_source e s : source_of e = Some s → within s (display e).
Proof. destruct e; intros [= <-]; cbn; auto 20 with text. Qed.
End PluginErrorText.
