(* ===== verification/PluginUpgrade.v ===== *)
(** * The kubectl plugin: the upgrade commands

    Models [upgrade.rs], [preflight_validations.rs] and the prompts of
    [user_prompt.rs] in [k8s/upgrade/src/plugin]: the preflight checks, the creation
    and deletion of the resources which run the upgrade job, the first upgrade
    event, and the upgrade status. *)

From S2P Require Import Prelude Semver Text JobApi HelmChart HelmUpgrade PluginApi.
From stdpp Require Import base gmap list strings pretty.
From Stdlib Require Import ZArith Lia Ascii.
Open Scope string_scope.

(** ** [user_prompt.rs] *)
Definition UPGRADE_WARNING : string :=
"
Volumes which make use of a single volume replica instance will be unavailable for some time during upgrade.
It is recommended that you do not create new volumes which make use of only one volume replica.".
Definition REBUILD_WARNING : string :=
"
The cluster is rebuilding replica of some volumes.
To skip this validation please run after some time or re-run with '--skip-replica-rebuild` flag.".
Definition SINGLE_REPLICA_VOLUME_WARNING : string :=
"
The list below shows the single replica volumes in cluster.
These single replica volumes may not be accessible during upgrade.
To skip this validation, please re-run with '--skip-single-replica-volume-validation` flag.".
Definition CORDONED_NODE_WARNING : string :=
"
One or more nodes in this cluster are in a Mayastor cordoned state.
This implies that the storage space of DiskPools on these nodes cannot be utilized for volume replica rebuilds.
Please ensure remaining storage nodes have enough available DiskPool space to accommodate volume replica rebuilds,
that get triggered during the upgrade process.
To skip this validation, please re-run with '--skip-cordoned-node-validation` flag.
Below is a list of the Mayastor cordoned nodes:".
Definition CONTROL_PLANE_PODS_LIST : string :=
"
List of control plane pods which will be restarted during upgrade.".
Definition DATA_PLANE_PODS_LIST : string :=
"
List of data plane pods which will be restarted during upgrade.".
Definition DATA_PLANE_PODS_LIST_SKIP_RESTART : string :=
"
List of data plane pods which need to be manually restarted to reflect upgrade as --skip-data-plane-restart flag is passed during upgrade.".
Definition UPGRADE_DRY_RUN_SUMMARY : string :=
"
Finally the cluster deployment will be upgraded to version".
Definition UPGRADE_JOB_STARTED : string :=
"
The upgrade has started. You can see the recent upgrade status using 'get upgrade-status` command.".
Definition UPGRADE_PATH_NOT_VALID : string :=
"
The upgrade path is not valid. The source version is in the list of unsupported versions:".
Definition UPGRADE_TO_UNSUPPORTED_VERSION : string :=
"
Upgrade failed as destination version is unsupported. Please try with `--skip-upgrade-path-validation-for-unsupported-version.`".
Definition DELETE_INCOMPLETE_JOB : string :=
"
Can't delete an incomplete upgrade job. Please try with `--force` flag to forcefully remove upgrade resources and bypass graceful deletion.".
Definition HELM_UPGRADE_VALIDATION_ERROR : string :=
"
The validation for upgrade Failed, hence deleting the upgrade resources. Please re-run upgrade with valid values.".
Definition STABLE_TO_UNSTABLE_UPGRADE : string :=
"Cannot upgrade from a stable version to an unstable version".
Definition HIGHER_TO_LOWER_SEMVER_UPGRADE : string :=
"Cannot upgrade from a higher version to a lower version. If this is intentional, try again with '--skip-upgrade-path-validation-for-unsupported-version'".

Definition upgrade_dry_run_summary `{PluginDeps} (message : string) : string :=
  message +:+ " : " +:+ default "develop" release_version.

Definition newline_str : string := String newline "".

(** [str::split] at a character *)
Fixpoint split_str (c : ascii) (s : string) : list string :=
  match s with
  | "" => [""]
  | String a s' =>
      if decide (a = c) then "" :: split_str c s'
      else match split_str c s' with [] => [String a ""] | x :: xs => String a x :: xs end
  end.

(** [slice::sort_by], a stable sort: an element is put before the later ones which
    do not compare less. *)
Fixpoint insert_by {A} (cmp : A → A → comparison) (x : A) (l : list A) : list A :=
  match l with
  | [] => [x]
  | y :: l' => if cmp x y is Gt then y :: insert_by cmp x l' else x :: y :: l'
  end.
Definition sort_by {A} (cmp : A → A → comparison) (l : list A) : list A :=
  foldr (insert_by cmp) [] l.

(** [Ord for Option<MicroTime>] *)
Definition time_cmp (a b : option Z) : comparison :=
  match a, b with
  | None, None => Eq
  | None, Some _ => Lt
  | Some _, None => Gt
  | Some x, Some y => Z.compare x y
  end.

Module PluginUpgrade.
Import PluginError.
Section Plugin.
Context `{Deps} `{PluginDeps} `{Semver} `{SerdeYaml}.

(** ** Reading the deployment *)
Definition get_deployment_for_rest (ns : string) : plugin Deployment :=
  let! r := ask TryDefault in
  do! context K8sClient r in
  let! r := ask (DeploymentsList ns API_REST_LABEL_SELECTOR) in
  let! l := context (λ e, ListDeploymantsWithLabel e API_REST_LABEL_SELECTOR ns) r in
  some_or NoDeploymentPresent (head l).

Definition get_release_name (ns : string) : plugin string :=
  let! deployment := get_deployment_for_rest ns in
  Ret match deployment.(dep_meta).(labels) with
      | Some label => default DEFAULT_RELEASE_NAME (label !! helm_release_name_key)
      | None => DEFAULT_RELEASE_NAME
      end.

Definition get_source_version (ns : string) : plugin string :=
  let! deployment := get_deployment_for_rest ns in
  let! label := some_or NoDeploymentPresent deployment.(dep_meta).(labels) in
  some_or NoDeploymentPresent (label !! helm_release_version_key).

(** [list_pods] appends to the names given. *)
Fixpoint pod_names (l : list (option string)) : option (list string) :=
  match l with
  | [] => Some []
  | None :: _ => None
  | Some n :: l' => match pod_names l' with Some ns => Some (n :: ns) | None => None end
  end.

Definition list_pods (label ns : string) (pods_names : list string) : plugin (list string) :=
  let! r := ask TryDefault in
  do! context K8sClient r in
  let! r := ask (PodNamesList ns label) in
  let! l := context (λ e, ListPodsWithLabel e label ns) r in
  let! names := some_or PodNameNotPresent (pod_names l) in
  Ret (pods_names ++ names)%list.

(** ** [ImageProperties] *)
Record ImageProperties := mkImageProperties {
  img_pull_secrets : option (list string);
  img_registry : string;
  img_pull_policy : option string
}.

Definition ImageProperties_try_from (d : Deployment) : PError + ImageProperties :=
  match d.(dep_spec) with
  | None => inl ReferenceDeploymentNoSpec
  | Some None => inl ReferenceDeploymentNoPodTemplateSpec
  | Some (Some pod_spec) =>
      match pod_spec.(containers) with
      | [] => inl ReferenceDeploymentNoContainers
      | container :: _ =>
          match container.(image) with
          | None => inl ReferenceDeploymentNoImage
          | Some img =>
              match split_str "/"%char img with
              | [] | [_] => inl ReferenceDeploymentInvalidImage
              | sections =>
                  let reg := match sections with
                             | [first; _; _] => first
                             | _ => DEFAULT_IMAGE_REGISTRY
                             end in
                  inr (mkImageProperties pod_spec.(template_pull_secrets) reg
                         container.(pull_policy_of))
              end
          end
      end
  end.

(** ** [--set-file] arguments *)

(** [let [key, filepath] = file.split('=').collect()[..]] *)
Definition key_and_path (file : string) : option (string * string) :=
  match split_str "="%char file with [key; path] => Some (key, path) | _ => None end.

(** The loop of [create_config_map_data]: the next index, the data of the config
    map, and the index of each file. *)
Definition config_map_step (st : Z * gmap string string * gmap string string) (file : string)
  : plugin (Z * gmap string string * gmap string string) :=
  let '(index, data_map, upgrade_map) := st in
  match key_and_path file with
  | None => fail (InvalidSetFileArguments file)
  | Some (_, filepath) =>
      let! r := ask (ReadToString filepath) in
      let! cm_values := context (λ e, ReadFromFile e filepath) r in
      Ret ((index + 1)%Z, <[pretty index := cm_values]> data_map,
           <[filepath := pretty index]> upgrade_map)
  end.

Definition create_config_map_data (args : UpgradeArgs)
  : plugin (gmap string string * gmap string string) :=
  let! st := foldM config_map_step args.(set_file) (1%Z, ∅, ∅) in
  let '(_, data_map, upgrade_map) := st in
  Ret (data_map, upgrade_map).

Definition set_file_arg (set_file_map : option (gmap string string)) (file : string)
  : PError + string :=
  match key_and_path file with
  | None => inl (InvalidSetFileArguments file)
  | Some (key, filepath) =>
      match set_file_map ≫= lookup filepath with
      | None => inl SpecifiedKeyNotPresent
      | Some mapped_file => inr (key +:+ "=" +:+ UPGRADE_CONFIG_MAP_MOUNT_PATH +:+ "/" +:+ mapped_file)
      end
  end.

Fixpoint set_file_args (set_file_map : option (gmap string string)) (files : list string)
  : PError + list string :=
  match files with
  | [] => inr []
  | file :: files' =>
      let? a := set_file_arg set_file_map file in
      let? rest := set_file_args set_file_map files' in
      inr (a :: rest)
  end.

Definition create_helm_set_file_args (args : UpgradeArgs) (set_file_map : option (gmap string string))
  : PError + option string :=
  match args.(set_file) with
  | [] => inr None
  | files => let? l := set_file_args set_file_map files in inr (Some (slice_join "," l))
  end.

(** ** [UpgradeResources] *)
Inductive Actions := CreateAction | DeleteAction.

(** [UpgradeResources::new]: the APIs are the requests, what is kept is the release
    name. *)
Definition resources_new (ns : string) : plugin string :=
  let! r := ask TryDefault in
  do! context K8sClientGeneration r in
  get_release_name ns.

(** The shape of the [.._actions] functions: look the object up, then create or
    delete it, or say what is there. *)
Definition resource_actions (k : kind) (name : string) (get_error delete_error : ext_error → PError)
    (already_exists : object k → plugin unit) (create : plugin unit) (deleted missing : string)
    (a : Actions) : plugin unit :=
  let! r := ask (GetOpt k name) in
  let! o := context get_error r in
  match o, a with
  | Some obj, CreateAction => already_exists obj
  | Some _, DeleteAction =>
      let! r := ask (DeleteObj k name) in
      do! context delete_error r in
      ask (Println deleted)
  | None, CreateAction => create
  | None, DeleteAction => ask (Println missing)
  end.

(** [println!] with [metadata.name.unwrap()], and with [metadata.namespace.unwrap()] *)
Definition print_named (m : ObjectMeta) (line : string → string) : plugin unit :=
  let! n := unwrap m.(PluginApi.name) in
  ask (Println (line n)).
Definition print_namespaced (m : ObjectMeta) (line : string → string → string) : plugin unit :=
  let! n := unwrap m.(PluginApi.name) in
  let! ns := unwrap m.(PluginApi.namespace) in
  ask (Println (line n ns)).

Definition service_account_actions (release ns : string) (a : Actions) : plugin unit :=
  let name := upgrade_name_concat release UPGRADE_JOB_SERVICEACCOUNT_NAME_SUFFIX in
  resource_actions KServiceAccount name (λ e, GetServiceAccount e name)
    (λ e, ServiceAccountDelete name e)
    (λ sa, print_namespaced sa.(sa_meta) (λ n ns,
       "ServiceAccount: " +:+ n +:+ " in namespace: " +:+ ns +:+ " already exist."))
    (let! r := ask (CreateObj KServiceAccount (Objects.upgrade_job_service_account (Some ns) name)) in
     let! sa := context (λ e, ServiceAccountCreate name e) r in
     print_namespaced sa.(sa_meta) (λ n ns,
       "ServiceAccount: " +:+ n +:+ " created in namespace: " +:+ ns))
    ("ServiceAccount " +:+ name +:+ " in namespace " +:+ ns +:+ " deleted")
    ("ServiceAccount " +:+ name +:+ " in namespace " +:+ ns +:+ " does not exist") a.

Definition cluster_role_actions (release ns : string) (a : Actions) : plugin unit :=
  let name := upgrade_name_concat release UPGRADE_JOB_CLUSTERROLE_NAME_SUFFIX in
  resource_actions KClusterRole name (λ e, GetClusterRole e name)
    (λ e, ClusterRoleDelete name e)
    (λ cr, print_named cr.(cr_meta) (λ n,
       "ClusterRole: " +:+ n +:+ "  in namespace " +:+ ns +:+ " already exist"))
    (let! r := ask (CreateObj KClusterRole (Objects.upgrade_job_cluster_role (Some ns) name)) in
     let! cr := context (λ e, ClusterRoleCreate name e) r in
     print_named cr.(cr_meta) (λ n, "Cluster Role: " +:+ n +:+ " in namespace " +:+ ns +:+ " created"))
    ("ClusterRole " +:+ name +:+ " in namespace " +:+ ns +:+ " deleted")
    ("cluster role " +:+ name +:+ " in namespace " +:+ ns +:+ " does not exist") a.

Definition cluster_role_binding_actions (release ns : string) (a : Actions) : plugin unit :=
  let name := upgrade_name_concat release UPGRADE_JOB_CLUSTERROLEBINDING_NAME_SUFFIX in
  resource_actions KClusterRoleBinding name (λ e, GetClusterRoleBinding e name)
    (λ e, ClusterRoleBindingDelete name e)
    (λ crb, print_named crb.(crb_meta) (λ n,
       "ClusterRoleBinding: " +:+ n +:+ " in namespace " +:+ ns +:+ " already exist"))
    (let! r := ask (CreateObj KClusterRoleBinding
                      (Objects.upgrade_job_cluster_role_binding (Some ns) release)) in
     let! crb := context (λ e, ClusterRoleBindingCreate name e) r in
     print_named crb.(crb_meta) (λ n,
       "ClusterRoleBinding: " +:+ n +:+ " in namespace " +:+ ns +:+ " created"))
    ("ClusterRoleBinding " +:+ name +:+ " in namespace " +:+ ns +:+ " deleted")
    ("ClusterRoleBinding " +:+ name +:+ " in namespace " +:+ ns +:+ " does not exist") a.

(** The config map is replaced when it exists.  Its data is computed before the
    lookup, and once more when it is created for the first time. *)
Definition config_map_create (release ns name : string) (d : gmap string string) : plugin unit :=
  let cm := Objects.upgrade_configmap d ns release in
  let! r := ask (CreateObj KConfigMap cm) in
  do! context (λ e, UpgradeConfigMapCreate name e) r in
  print_named cm.(cm_meta) (λ n, "ConfigMap: " +:+ n +:+ " in namespace " +:+ ns +:+ " created").

Definition config_map_actions (release ns : string) (a : Actions) (args : UpgradeArgs)
  : plugin (gmap string string) :=
  let name := upgrade_name_concat release UPGRADE_CONFIG_MAP_NAME_SUFFIX in
  let! d := create_config_map_data args in
  let! r := ask (GetOpt KConfigMap name) in
  let! cm := context (λ e, GetUpgradeConfigMap e name) r in
  do! match cm, a with
      | Some _, CreateAction =>
          let! r := ask (DeleteObj KConfigMap name) in
          do! context (λ e, UpgradeConfigMapDelete name e) r in
          config_map_create release ns name d.1
      | Some _, DeleteAction =>
          let! r := ask (DeleteObj KConfigMap name) in
          do! context (λ e, UpgradeConfigMapDelete name e) r in
          ask (Println ("ConfigMap " +:+ name +:+ " in namespace " +:+ ns +:+ " deleted"))
      | None, CreateAction =>
          let! d' := create_config_map_data args in
          config_map_create release ns name d'.1
      | None, DeleteAction =>
          ask (Println ("ConfigMap " +:+ name +:+ " in namespace " +:+ ns +:+ " does not exist"))
      end in
  Ret d.2.

Definition create_job (release ns name : string) (args : UpgradeArgs)
    (set_file_map : option (gmap string string)) : plugin unit :=
  let! rest_deployment := get_deployment_for_rest ns in
  let! img := context id (ImageProperties_try_from rest_deployment) in
  let! set_file := context id (create_helm_set_file_args args set_file_map) in
  let reg := default img.(img_registry) args.(registry) in
  let! r := ask (CreateObj KJob (UpgradeJob.upgrade_job ns
                   (upgrade_image_concat reg UPGRADE_JOB_IMAGE_REPO upgrade_job_img
                      get_image_version_tag)
                   release args (default "" set_file) img.(img_pull_secrets)
                   img.(img_pull_policy))) in
  let! dep := context (λ e, UpgradeJobCreate name e) r in
  print_namespaced dep.(job_meta) (λ n ns, "Job: " +:+ n +:+ " created in namespace: " +:+ ns).

Definition job_actions (release ns : string) (a : Actions) (args : UpgradeArgs)
    (set_file_map : option (gmap string string)) : plugin unit :=
  let name := upgrade_name_concat release UPGRADE_JOB_NAME_SUFFIX in
  resource_actions KJob name (λ e, GetUpgradeJob e name) (λ e, UpgradeJobDelete name e)
    (λ job, print_namespaced job.(job_meta) (λ n ns,
       "Job: " +:+ n +:+ " in namespace: " +:+ ns +:+ " already exist"))
    (create_job release ns name args set_file_map)
    ("Job " +:+ name +:+ " in namespace " +:+ ns +:+ " deleted")
    ("Job " +:+ name +:+ " in namespace " +:+ ns +:+ " does not exist") a.

Definition create_upgrade_resources (ns : string) (args : UpgradeArgs) : plugin unit :=
  let! release := resources_new ns in
  do! service_account_actions release ns CreateAction in
  do! cluster_role_actions release ns CreateAction in
  do! cluster_role_binding_actions release ns CreateAction in
  let! set_file_map := config_map_actions release ns CreateAction args in
  job_actions release ns CreateAction args (Some set_file_map).

Definition delete_upgrade_resources (ns : string) : plugin unit :=
  let! release := resources_new ns in
  let args := UpgradeArgs_new in
  do! job_actions release ns DeleteAction args None in
  do! config_map_actions release ns DeleteAction args in
  do! cluster_role_binding_actions release ns DeleteAction in
  do! cluster_role_actions release ns DeleteAction in
  service_account_actions release ns DeleteAction.

(** ** [delete upgrade] *)
Definition is_upgrade_job_completed (ns : string) : plugin bool :=
  let! release := resources_new ns in
  let job_name := upgrade_name_concat release UPGRADE_JOB_NAME_SUFFIX in
  let! r := ask (GetOpt KJob job_name) in
  let! option_job := context (λ e, GetUpgradeJob e job_name) r in
  match option_job with
  | Some job =>
      let! status := some_or (UpgradeJobStatusNotPresent job_name) job.(job_status) in
      Ret match status.(succeeded) with None => false | Some count => (count =? 1)%Z end
  | None => fail (UpgradeJobNotPresent job_name ns)
  end.

Definition delete_upgrade (force : bool) (ns : string) : plugin unit :=
  let! job_completed := is_upgrade_job_completed ns in
  do! (if negb job_completed && negb force then ask (ConsoleError "" DELETE_INCOMPLETE_JOB)
       else Ret tt) in
  if job_completed || force then delete_upgrade_resources ns else Ret tt.

(** ** Events *)
Definition event_client_new : plugin unit :=
  let! r := ask TryDefault in context K8sClientGeneration r.

Definition delete_upgrade_events (ns release : string) : plugin unit :=
  let selector := upgrade_event_selector release UPGRADE_JOB_NAME_SUFFIX in
  let! r := ask (EventsDeleteCollection ns selector) in
  context (λ e, DeleteEventsWithFieldSelector e selector) r.

(** The matching events, latest first. *)
Definition latest_event (l : list PluginEvent) : option PluginEvent :=
  head (sort_by (λ a b, time_cmp b.(event_time) a.(event_time))
          (base.filter (λ e, e.(reason) = Some upgrade_event_reason) l)).

Definition get_latest_upgrade_event (ns release : string) : plugin PluginEvent :=
  let selector := upgrade_event_selector release UPGRADE_JOB_NAME_SUFFIX in
  let! r := ask (EventsList ns selector) in
  let! l := context (λ e, ListEventsWithFieldSelector e selector) r in
  some_or UpgradeEventNotPresent (latest_event l).

(** A missing message is an error value which is dropped. *)
Definition log_upgrade_result (e : PluginEvent) : plugin unit :=
  match e.(event_message) with
  | Some d =>
      let! n := context (λ x, EventSerdeDeserialization d x) (note_from_json d) in
      do! ask (Println ("Upgrade From: " +:+ n.(from_version))) in
      do! ask (Println ("Upgrade To: " +:+ n.(to_version))) in
      ask (Println ("Upgrade Status: " +:+ n.(message)))
  | None => Ret tt
  end.

Definition create_get_upgrade_resource (ns : string) : plugin unit :=
  let! release := get_release_name ns in
  do! event_client_new in
  let! latest := get_latest_upgrade_event ns release in
  log_upgrade_result latest.

(** ** [upgrade] *)
Definition handle_upgrade_event (latest : PluginEvent) (ns : string) : plugin unit :=
  match latest.(action) with
  | Some a =>
      if decide (a = "Validation Failed") then
        match latest.(event_message) with
        | Some d =>
            let! n := context (λ x, EventSerdeDeserialization d x) (note_from_json d) in
            do! ask (ConsoleError HELM_UPGRADE_VALIDATION_ERROR n.(message)) in
            delete_upgrade_resources ns
        | None => fail MessageInEventNotPresent
        end
      else ask (ConsoleInfo UPGRADE_JOB_STARTED "")
  | None => Ret tt
  end.

(** [for _i in 0 .. MAX_RETRY_ATTEMPTS] *)
Fixpoint await_event (n : nat) (ns release : string) : plugin unit :=
  match n with
  | O => Ret tt
  | S n' =>
      do! ask (PluginSleep 10) in
      let! r := attempt (get_latest_upgrade_event ns release) in
      match r with
      | inr latest => handle_upgrade_event latest ns
      | inl _ => await_event n' ns release
      end
  end.

Definition apply (args : UpgradeArgs) (ns : string) : plugin unit :=
  do! event_client_new in
  let! release := get_release_name ns in
  do! delete_upgrade_events ns release in
  do! create_upgrade_resources ns args in
  await_event MAX_RETRY_ATTEMPTS ns release.

Definition dummy_apply (args : UpgradeArgs) (ns : string) : plugin unit :=
  let! pods := list_pods AGENT_CORE_POD_LABEL ns [] in
  let! pods := list_pods API_REST_POD_LABEL ns pods in
  do! ask (ConsoleInfo CONTROL_PLANE_PODS_LIST (slice_join newline_str pods)) in
  let! io_engines := list_pods IO_ENGINE_POD_LABEL ns [] in
  do! ask (ConsoleInfo (if args.(skip_data_plane_restart) then DATA_PLANE_PODS_LIST_SKIP_RESTART
                        else DATA_PLANE_PODS_LIST) (slice_join newline_str io_engines)) in
  ask (ConsoleInfo (upgrade_dry_run_summary UPGRADE_DRY_RUN_SUMMARY) "").

Definition execute (args : UpgradeArgs) (ns : string) : plugin unit :=
  if args.(dry_run) then dummy_apply args ns else apply args ns.

(** ** [preflight_validations.rs] *)
Definition already_cordoned_nodes_validation : plugin unit :=
  let! r := ask PluginGetNodes in
  let! nodelist := context ListStorageNodes r in
  let! cordoned := foldM (λ acc node,
    let! spec := some_or (NodeSpecNotPresent node.(node_id)) node.(node_spec) in
    Ret match spec.(cordondrainstate) with
        | Some (cordonedstate _) => (acc ++ [node.(node_id)])%list
        | _ => acc
        end) nodelist [] in
  match cordoned with
  | [] => Ret tt
  | l =>
      do! ask (ConsoleError CORDONED_NODE_WARNING (slice_join newline_str l)) in
      fail NodesInCordonedState
  end.

Definition get_pvc_from_uuid (uuid_list : list string) : plugin (list string) :=
  let! r := ask TryDefault in
  do! context K8sClient r in
  let! r := ask PvcList in
  let! l := context ListPVC r in
  Ret (omap (λ p, match p.(pvc_uid) with
                  | Some u => if bool_decide (u ∈ uuid_list) then p.(pvc_name) else None
                  | None => None
                  end) l).

Definition plugin_max_entries : Z := 200.

(** [while starting_token.is_some()]: fold over the pages of volumes. *)
Definition volume_page {A} (step : A → list Volume → A + A) (st : A * option Z)
  : plugin (A * option Z + A) :=
  let '(acc, token) := st in
  match token with
  | None => Ret (inr acc)
  | Some t =>
      let! r := ask (PluginGetVolumes plugin_max_entries (Some t)) in
      let! v := context ListVolumes r in
      match step acc v.(entries) with
      | inl acc' => Ret (inl (acc', v.(next_token)))
      | inr acc' => Ret (inr acc')
      end
  end.
Definition volume_pages {A} (fuel : nat) (step : A → list Volume → A + A) (a : A) : plugin A :=
  loop fuel (volume_page step) (a, Some 0%Z).

Definition single_replica_ids (l : list Volume) : list string :=
  (λ v, v.(vol_spec).(uuid)) <$>
    base.filter (λ v, v.(vol_spec).(num_replicas) = SINGLE_REPLICA_VOLUME) l.

Definition single_volume_replica_validation (fuel : nat) : plugin unit :=
  let! vols := volume_pages fuel (λ acc l, inl (acc ++ single_replica_ids l)%list) [] in
  match vols with
  | [] => Ret tt
  | l =>
      let! pvcs := get_pvc_from_uuid l in
      do! ask (ConsoleError SINGLE_REPLICA_VOLUME_WARNING (slice_join newline_str pvcs)) in
      fail SingleReplicaVolumeErr
  end.

Definition rebuilding (v : Volume) : bool :=
  match v.(vol_state).(vs_target) with
  | Some target => existsb (λ c, if c.(rebuild_progress) is Some _ then true else false)
                     target.(children)
  | None => false
  end.

Definition is_rebuild_in_progress (fuel : nat) : plugin bool :=
  volume_pages fuel (λ _ l, if existsb rebuilding l then inr true else inl false) false.

Definition rebuild_in_progress_validation (fuel : nat) : plugin unit :=
  let! b := is_rebuild_in_progress fuel in
  if (b : bool) then
    do! ask (ConsoleError REBUILD_WARNING "") in fail VolumeRebuildInProgress
  else Ret tt.

Definition strip_v_prefix (version : string) : string :=
  match version with String "v"%char s => s | _ => version end.

(** The version of the plugin itself, from its tag *)
Definition self_version : option Version :=
  match version_tag with
  | Some "" | None => None
  | Some tag => match version_parse (strip_v_prefix tag) with inr v => Some v | inl _ => None end
  end.

Definition upgrade_path_validation (ns : string) (allow_unstable : bool) : plugin unit :=
  let! unsupported_versions := context YamlParseBufferForUnsupportedVersion
    (let? y := yaml_from_slice Path.unsupported_version_buf in Path.UnsupportedVersions_decode y) in
  let! source_version := get_source_version ns in
  let! source := context (λ e, SemverParse e source_version) (version_parse source_version) in
  if existsb (λ v, v_eq v source) unsupported_versions then
    do! ask (ConsoleError UPGRADE_PATH_NOT_VALID
               (foldr (λ v s, version_to_string v +:+ newline_str +:+ s) "" unsupported_versions)) in
    fail NotAValidSourceForUpgrade
  else if contains (chars UPGRADE_TO_DEVELOP_BRANCH) (chars get_image_version_tag) then
    do! ask (ConsoleError "" UPGRADE_TO_UNSUPPORTED_VERSION) in
    fail InvalidUpgradePath
  else
    let self_is_stable := match self_version with Some v => pre_is_empty v | None => false end in
    if negb allow_unstable && (pre_is_empty source && negb self_is_stable) then
      do! ask (ConsoleError "" STABLE_TO_UNSTABLE_UPGRADE) in
      fail InvalidUpgradePath
    else if match self_version with Some v => v_lt v source | None => false end then
      do! ask (ConsoleError "" HIGHER_TO_LOWER_SEMVER_UPGRADE) in
      fail InvalidUpgradePath
    else Ret tt.

Definition preflight_check (fuel : nat) (ns : string) (args : UpgradeArgs) : plugin unit :=
  do! ask (ConsoleInfo UPGRADE_WARNING "") in
  let! r := ask OpenapiConfigBuild in
  do! context OpenapiClientConfiguration r in
  do! (if args.(skip_upgrade_path_validation_for_unsupported_version) then Ret tt
       else upgrade_path_validation ns args.(allow_unstable)) in
  do! (if args.(skip_replica_rebuild) then Ret tt else rebuild_in_progress_validation fuel) in
  do! (if args.(skip_cordoned_node_validation) then Ret tt
       else already_cordoned_nodes_validation) in
  if args.(skip_single_replica_volume_validation) then Ret tt
  else single_volume_replica_validation fuel.

(** [Operations::Upgrade] of [k8s/plugin/src/resources/mod.rs] *)
Definition upgrade_operation (fuel : nat) (ns : string) (args : UpgradeArgs) : plugin unit :=
  do! preflight_check fuel ns args in execute args ns.
End Plugin.
End PluginUpgrade.
