(* ===== verification/PluginSpec.v ===== *)
(** * The kubectl plugin: properties of the upgrade commands

    [Store] is an abstract Kubernetes API: maps of named objects, of which those of
    cluster-scoped kinds are stored without the namespace they are sent with.  The resource
    commands are proved equal to updates of these maps; the other properties are
    about which requests a command may issue, and what the preflight checks
    establish. *)

From S2P Require Import Prelude Semver Text JobApi HelmChart HelmUpgrade PluginApi PluginUpgrade.
From stdpp Require Import base gmap list strings pretty.
From Stdlib Require Import ZArith Lia Ascii.
Open Scope string_scope.

(** ** The store *)
Module Store.
Import PluginError PluginUpgrade.

Record store := mkStore {
  service_accounts : gmap string ServiceAccount;
  cluster_roles : gmap string ClusterRole;
  cluster_role_bindings : gmap string ClusterRoleBinding;
  config_maps : gmap string ConfigMap;
  jobs : gmap string Job
}.

Definition sel (k : kind) (s : store) : gmap string (object k) :=
  match k with
  | KServiceAccount => s.(service_accounts)
  | KClusterRole => s.(cluster_roles)
  | KClusterRoleBinding => s.(cluster_role_bindings)
  | KConfigMap => s.(config_maps)
  | KJob => s.(jobs)
  end.

Definition upd (k : kind) : (gmap string (object k)) → store → store :=
  match k with
  | KServiceAccount => λ m s, mkStore m s.(cluster_roles) s.(cluster_role_bindings) s.(config_maps) s.(jobs)
  | KClusterRole => λ m s, mkStore s.(service_accounts) m s.(cluster_role_bindings) s.(config_maps) s.(jobs)
  | KClusterRoleBinding => λ m s, mkStore s.(service_accounts) s.(cluster_roles) m s.(config_maps) s.(jobs)
  | KConfigMap => λ m s, mkStore s.(service_accounts) s.(cluster_roles) s.(cluster_role_bindings) m s.(jobs)
  | KJob => λ m s, mkStore s.(service_accounts) s.(cluster_roles) s.(cluster_role_bindings) s.(config_maps) m
  end.

Lemma sel_upd k m s : sel k (upd k m s) = m.
Proof. by destruct k. Qed.
Lemma sel_upd_ne k k' m s : k ≠ k' → sel k (upd k' m s) = sel k s.
Proof. by destruct k, k'. Qed.
Lemma upd_sel k s : upd k (sel k s) s = s.
Proof. by destruct k, s. Qed.
Lemma upd_upd k m m' s : upd k m (upd k m' s) = upd k m s.
Proof. by destruct k. Qed.
Lemma upd_comm k k' m m' s : k ≠ k' → upd k m (upd k' m' s) = upd k' m' (upd k m s).
Proof. by destruct k, k'. Qed.

(** An object under its name; [remove] an object. *)
Definition put (k : kind) (n : string) (o : object k) (s : store) : store := upd k (<[n := o]> (sel k s)) s.
Definition remove (k : kind) (n : string) (s : store) : store := upd k (delete n (sel k s)) s.
(** Create an object unless there is one of that name. *)
Definition ensure_object (k : kind) (n : string) (o : object k) (s : store) : store :=
  match sel k s !! n with Some _ => s | None => put k n o s end.

(** Cluster roles and their bindings belong to no namespace: the server stores them
    without the one they are sent with. *)
Definition cluster_scoped (k : kind) : bool :=
  match k with KClusterRole | KClusterRoleBinding => true | _ => false end.
Definition unscoped (m : ObjectMeta) : ObjectMeta := mkObjectMeta m.(labels) m.(name) None.
Definition stored (k : kind) : object k → object k :=
  match k with
  | KClusterRole => λ o, mkClusterRole (unscoped o.(cr_meta)) o.(rules)
  | KClusterRoleBinding => λ o, mkClusterRoleBinding (unscoped o.(crb_meta)) o.(role_ref) o.(subjects)
  | _ => id
  end.
Lemma stored_name k o : (meta_of k (stored k o)).(name) = (meta_of k o).(name).
Proof. by destruct k. Qed.

Section Api.
Variables (deployment : Deployment) (files : gmap string string).

(** The API server, for one namespace: names are unique, deleting needs an object, the
    namespace has one REST deployment. *)
Definition api : handler PluginSig store := λ c s,
  match c return plugin_res c * store with
  | TryDefault | OpenapiConfigBuild => (inr tt, s)
  | DeploymentsList _ _ => (inr [deployment], s)
  | PodNamesList _ _ => (inr [], s)
  | PvcList => (inr [], s)
  | EventsDeleteCollection _ _ => (inr tt, s)
  | EventsList _ _ => (inr [], s)
  | GetOpt k n => (inr (sel k s !! n), s)
  | CreateObj k o =>
      match (meta_of k o).(name) with
      | Some n => match sel k s !! n with
                  | Some _ => (inl "AlreadyExists", s)
                  | None => (inr (stored k o), put k n (stored k o) s)
                  end
      | None => (inl "name is required", s)
      end
  | DeleteObj k n =>
      match sel k s !! n with
      | Some _ => (inr tt, remove k n s)
      | None => (inl "NotFound", s)
      end
  | PluginGetVolumes _ _ => (inr (mkVolumes [] None), s)
  | PluginGetNodes => (inr [], s)
  | ReadToString p => (match files !! p with Some c => inr c | None => inl "no such file" end, s)
  | PluginSleep _ | ConsoleInfo _ _ | ConsoleError _ _ | Println _ => (tt, s)
  end.

(** What the server keeps to: the objects in the store carry their names, and a
    namespace exactly if they are not cluster-scoped. *)
Definition scoped (k : kind) (m : ObjectMeta) : Prop := is_Some m.(namespace) ↔ cluster_scoped k = false.
Definition named (s : store) : Prop :=
  ∀ k n o, sel k s !! n = Some o → (meta_of k o).(name) = Some n ∧ scoped k (meta_of k o).

Section Commands.
Context `{Deps} `{PluginDeps} `{Semver} `{SerdeYaml}.
#[local] Arguments lookup : simpl never.
#[local] Arguments insert : simpl never.
#[local] Arguments base.delete : simpl never.
#[local] Arguments upgrade_name_concat : simpl never.

Definition release : string :=
  match deployment.(dep_meta).(labels) with
  | Some label => default DEFAULT_RELEASE_NAME (label !! helm_release_name_key)
  | None => DEFAULT_RELEASE_NAME
  end.

Lemma run_deployment ns s :
  ∃ tr, run api (get_deployment_for_rest ns) s = (Done deployment, s, tr).
Proof. cbn. eauto. Qed.

Lemma run_new ns s : ∃ tr, run api (resources_new ns) s = (Done release, s, tr).
Proof. cbn. unfold release. eauto. Qed.

(** *** One resource *)
Lemma run_delete k n ge de ex cr dl mi s :
  ∃ tr, run api (resource_actions k n ge de ex cr dl mi DeleteAction) s = (Done tt, remove k n s, tr).
Proof.
  unfold resource_actions. rewrite run_bind. cbn. destruct (sel k s !! n) eqn:E; cbn; rewrite ?E; cbn.
  - eauto.
  - unfold remove. rewrite delete_id by done. rewrite upd_sel. eauto.
Qed.

Lemma run_create k n o ge de ex cr dl mi s :
  named s → (meta_of k o).(name) = Some n →
  (∀ obj, (meta_of k obj).(name) = Some n → scoped k (meta_of k obj) →
     ∃ tr, run api (ex obj) s = (Done tt, s, tr)) →
  (sel k s !! n = None → ∃ tr, run api cr s = (Done tt, put k n o s, tr)) →
  ∃ tr, run api (resource_actions k n ge de ex cr dl mi CreateAction) s =
    (Done tt, ensure_object k n o s, tr).
Proof.
  intros Hs Hn Hex Hcr. unfold resource_actions, ensure_object. rewrite run_bind. cbn.
  destruct (sel k s !! n) as [obj|] eqn:E; cbn.
  - destruct (Hs k n obj E) as [H1' H2']. destruct (Hex obj H1' H2') as [tr ->]. eauto.
  - destruct (Hcr eq_refl) as [tr ->]. eauto.
Qed.

Lemma run_print_named m f s : is_Some m.(name) → ∃ tr, run api (print_named m f) s = (Done tt, s, tr).
Proof. intros [n Hn]. unfold print_named. rewrite Hn. cbn. eauto. Qed.
Lemma run_print_namespaced m f s :
  is_Some m.(name) → is_Some m.(namespace) →
  ∃ tr, run api (print_namespaced m f) s = (Done tt, s, tr).
Proof. intros [n Hn] [ns Hns]. unfold print_namespaced. rewrite Hn, Hns. cbn. eauto. Qed.

Lemma named_put k n o s :
  named s → (meta_of k o).(name) = Some n → scoped k (meta_of k o) → named (put k n o s).
Proof.
  intros Hs Hn Hns k' n' o' Hl. unfold put in Hl. destruct (decide (k' = k)) as [->|Hk].
  - rewrite sel_upd in Hl. apply lookup_insert_Some in Hl as [[-> <-]|[_ Hl]]; [done|by eapply Hs].
  - rewrite sel_upd_ne in Hl by done. by eapply Hs.
Qed.

Lemma named_ensure k n o s :
  named s → (meta_of k o).(name) = Some n → scoped k (meta_of k o) →
  named (ensure_object k n o s).
Proof. intros. unfold ensure_object. destruct (sel k s !! n); [done|by apply named_put]. Qed.

(** *** The names *)
Definition sa_name : string := upgrade_name_concat release UPGRADE_JOB_SERVICEACCOUNT_NAME_SUFFIX.
Definition cr_name : string := upgrade_name_concat release UPGRADE_JOB_CLUSTERROLE_NAME_SUFFIX.
Definition crb_name : string := upgrade_name_concat release UPGRADE_JOB_CLUSTERROLEBINDING_NAME_SUFFIX.
Definition cm_name : string := upgrade_name_concat release UPGRADE_CONFIG_MAP_NAME_SUFFIX.
Definition job_name : string := upgrade_name_concat release UPGRADE_JOB_NAME_SUFFIX.

(** Creating an object which is not there. *)
Lemma run_create_obj k n o s f (q : object k → plugin unit) :
  (meta_of k o).(name) = Some n → sel k s !! n = None →
  let o' := stored k o in
  (∃ tr, run api (q o') (put k n o' s) = (Done tt, put k n o' s, tr)) →
  ∃ tr, run api (let! r := ask (CreateObj k o) in let! x := context f r in q x) s =
    (Done tt, put k n o' s, tr).
Proof.
  intros Hn Hl o' [tr Hq]. rewrite run_bind. cbn. rewrite Hn, Hl. cbn. fold o'. rewrite Hq. eauto.
Qed.

Lemma run_service_account ns s :
  named s → ∃ tr, run api (service_account_actions release ns CreateAction) s =
    (Done tt, ensure_object KServiceAccount sa_name
       (Objects.upgrade_job_service_account (Some ns) sa_name) s, tr).
Proof.
  intros Hs. apply run_create; [done|done| |].
  - intros obj Ho Hns. apply run_print_namespaced; [eexists; exact Ho|by apply Hns].
  - intros Hl. apply run_create_obj; [done|done|by apply run_print_namespaced].
Qed.

Lemma run_cluster_role ns s :
  named s → ∃ tr, run api (cluster_role_actions release ns CreateAction) s =
    (Done tt, ensure_object KClusterRole cr_name
       (stored KClusterRole (Objects.upgrade_job_cluster_role (Some ns) cr_name)) s, tr).
Proof.
  intros Hs. apply run_create; [done|done| |].
  - intros obj Ho Hns. apply run_print_named. eexists. exact Ho.
  - intros Hl. apply run_create_obj; [done|done|by apply run_print_named].
Qed.

Lemma run_cluster_role_binding ns s :
  named s → ∃ tr, run api (cluster_role_binding_actions release ns CreateAction) s =
    (Done tt, ensure_object KClusterRoleBinding crb_name
       (stored KClusterRoleBinding (Objects.upgrade_job_cluster_role_binding (Some ns) release)) s, tr).
Proof.
  intros Hs. apply run_create; [done|done| |].
  - intros obj Ho Hns. apply run_print_named. eexists. exact Ho.
  - intros Hl. apply run_create_obj; [done|done|by apply run_print_named].
Qed.

(** *** The config map *)

(** [create_config_map_data] on a file system. *)
Fixpoint config_fold (l : list string) (st : Z * gmap string string * gmap string string)
  : option (Z * gmap string string * gmap string string) :=
  match l with
  | [] => Some st
  | file :: l' =>
      match key_and_path file with
      | Some (_, path) =>
          match files !! path with
          | Some content =>
              config_fold l' ((st.1.1 + 1)%Z, <[pretty st.1.1 := content]> st.1.2,
                              <[path := pretty st.1.1]> st.2)
          | None => None
          end
      | None => None
      end
  end.

Definition config_data (args : UpgradeArgs) : option (gmap string string * gmap string string) :=
  match config_fold args.(set_file) (1%Z, ∅, ∅) with Some (_, d, m) => Some (d, m) | None => None end.

Lemma run_config_fold l st st' s :
  config_fold l st = Some st' → ∃ tr, run api (foldM config_map_step l st) s = (Done st', s, tr).
Proof.
  revert st. induction l as [|file l IH]; intros [[i d] m]; cbn [config_fold foldM].
  { intros [= <-]. cbn. eauto. }
  destruct (key_and_path file) as [[key path]|] eqn:Hk; [|done].
  destruct (files !! path) as [content|] eqn:E; [|done]. intros Hf.
  destruct (IH _ Hf) as [tr Hr]. rewrite run_bind. cbn.
  rewrite Hk. cbn. rewrite E. cbn.
  cbn in Hr. rewrite Hr. eauto.
Qed.

Lemma run_config_data args d s :
  config_data args = Some d → ∃ tr, run api (create_config_map_data args) s = (Done d, s, tr).
Proof.
  unfold config_data, create_config_map_data.
  destruct (config_fold _ _) as [[[i x] y]|] eqn:E; [|done]. intros [= <-].
  destruct (run_config_fold _ _ _ s E) as [tr Hr]. rewrite run_bind, Hr. cbn. eauto.
Qed.

Lemma run_config_map ns args d m s :
  config_data args = Some (d, m) →
  ∃ tr, run api (config_map_actions release ns CreateAction args) s =
    (Done m, put KConfigMap cm_name (Objects.upgrade_configmap d ns release) s, tr).
Proof.
  intros Hd. unfold config_map_actions. destruct (run_config_data args _ s Hd) as [tr Hr].
  rewrite run_bind, Hr. rewrite run_bind. cbn [ask call run]. cbn -[create_config_map_data config_map_create].
  fold cm_name. destruct (config_maps s !! cm_name) as [cm|] eqn:E;
    cbn -[create_config_map_data config_map_create].
  - fold cm_name. rewrite E. cbn -[create_config_map_data]. fold cm_name.
    rewrite lookup_delete_eq. cbn. unfold put, remove. cbn. rewrite insert_delete_eq. eauto.
  - rewrite run_bind, run_bind, Hr. cbn. fold cm_name. rewrite E. cbn. eauto.
Qed.

(** *** Deletion *)
Definition deleted (s : store) : store :=
  remove KServiceAccount sa_name (remove KClusterRole cr_name
    (remove KClusterRoleBinding crb_name (remove KConfigMap cm_name (remove KJob job_name s)))).

Lemma run_delete_config_map ns s :
  ∃ m tr, run api (config_map_actions release ns DeleteAction UpgradeArgs_new) s =
    (Done m, remove KConfigMap cm_name s, tr).
Proof.
  unfold config_map_actions. cbn. fold cm_name.
  destruct (config_maps s !! cm_name) as [cm|] eqn:E; cbn.
  - fold cm_name. rewrite E. cbn. eauto.
  - unfold remove. cbn. rewrite delete_id by done. destruct s; cbn. eauto.
Qed.

Lemma run_delete_resources ns s :
  ∃ tr, run api (delete_upgrade_resources ns) s = (Done tt, deleted s, tr).
Proof.
  unfold delete_upgrade_resources. destruct (run_new ns s) as [t0 H0'].
  rewrite run_bind, H0'. unfold job_actions.
  match goal with |- context [resource_actions KJob ?n ?a ?b ?c ?d ?e ?f DeleteAction] =>
    destruct (run_delete KJob n a b c d e f s) as [t1 H1'] end.
  rewrite run_bind, H1'.
  destruct (run_delete_config_map ns (remove KJob job_name s)) as (m & t2 & H2').
  rewrite run_bind. fold job_name. rewrite H2'. unfold cluster_role_binding_actions.
  match goal with |- context [resource_actions KClusterRoleBinding ?n ?a ?b ?c ?d ?e ?f DeleteAction] =>
    destruct (run_delete KClusterRoleBinding n a b c d e f
      (remove KConfigMap cm_name (remove KJob job_name s))) as [t3 H3'] end.
  rewrite run_bind, H3'. unfold cluster_role_actions.
  match goal with |- context [resource_actions KClusterRole ?n ?a ?b ?c ?d ?e ?f DeleteAction] =>
    destruct (run_delete KClusterRole n a b c d e f (remove KClusterRoleBinding crb_name
      (remove KConfigMap cm_name (remove KJob job_name s)))) as [t4 H4'] end.
  rewrite run_bind. fold crb_name. rewrite H4'. unfold service_account_actions.
  match goal with |- context [resource_actions KServiceAccount ?n ?a ?b ?c ?d ?e ?f DeleteAction] =>
    destruct (run_delete KServiceAccount n a b c d e f (remove KClusterRole cr_name
      (remove KClusterRoleBinding crb_name (remove KConfigMap cm_name (remove KJob job_name s)))))
      as [t5 H5'] end.
  fold cr_name. rewrite H5'. eauto.
Qed.

(** *** Creation *)

(** What the plugin makes of its arguments: the data of the config map and the job. *)
Definition plan (ns : string) (args : UpgradeArgs) : option (gmap string string * Job) :=
  match config_data args, ImageProperties_try_from deployment with
  | Some (d, m), inr img =>
      match create_helm_set_file_args args (Some m) with
      | inr sf =>
          Some (d, UpgradeJob.upgrade_job ns
            (upgrade_image_concat (default img.(img_registry) args.(registry)) UPGRADE_JOB_IMAGE_REPO
               upgrade_job_img get_image_version_tag)
            release args (default "" sf) img.(img_pull_secrets) img.(img_pull_policy))
      | inl _ => None
      end
  | _, _ => None
  end.

Definition created (ns : string) (d : gmap string string) (job : Job) (s : store) : store :=
  ensure_object KJob job_name job
  (put KConfigMap cm_name (Objects.upgrade_configmap d ns release)
  (ensure_object KClusterRoleBinding crb_name
     (stored KClusterRoleBinding (Objects.upgrade_job_cluster_role_binding (Some ns) release))
  (ensure_object KClusterRole cr_name (stored KClusterRole (Objects.upgrade_job_cluster_role (Some ns) cr_name))
  (ensure_object KServiceAccount sa_name (Objects.upgrade_job_service_account (Some ns) sa_name) s)))).

Lemma run_job ns args d m job s :
  named s → config_data args = Some (d, m) → plan ns args = Some (d, job) →
  ∃ tr, run api (job_actions release ns CreateAction args (Some m)) s =
    (Done tt, ensure_object KJob job_name job s, tr).
Proof.
  intros Hs Hd. unfold plan. rewrite Hd.
  destruct (ImageProperties_try_from deployment) as [|img] eqn:Hi; [done|].
  destruct (create_helm_set_file_args args (Some m)) as [|sf] eqn:Hsf; [done|].
  intros [= <-]. apply run_create; [done|done| |].
  - intros obj Ho Hns. apply run_print_namespaced; [by eexists|by apply Hns].
  - intros Hl. unfold create_job. rewrite run_bind. destruct (run_deployment ns s) as [t1 ->].
    rewrite Hi. cbn [context lift bind]. rewrite Hsf. cbn [context lift bind].
    destruct (run_create_obj KJob job_name (UpgradeJob.upgrade_job ns
      (upgrade_image_concat (default (img_registry img) (registry args)) UPGRADE_JOB_IMAGE_REPO
         upgrade_job_img get_image_version_tag)
      release args (default "" sf) (img_pull_secrets img) (img_pull_policy img)) s
      (λ e, UpgradeJobCreate job_name e)
      (λ dep, print_namespaced dep.(job_meta)
         (λ n ns, "Job: " +:+ n +:+ " created in namespace: " +:+ ns))) as [tr Hr].
    { done. } { done. } { by apply run_print_namespaced. }
    match goal with |- context [run ?h ?p ?w] =>
      assert (run h p w = (Done tt, _, tr)) as -> by exact Hr end. eauto.
Qed.

Lemma run_create_resources ns args d job s :
  named s → plan ns args = Some (d, job) →
  ∃ tr, run api (create_upgrade_resources ns args) s = (Done tt, created ns d job s, tr).
Proof.
  intros Hs Hplan.
  assert (∃ m, config_data args = Some (d, m)) as [m Hd].
  { unfold plan in Hplan. destruct (config_data args) as [[d' m]|]; [|done]. exists m.
    destruct (ImageProperties_try_from deployment); [done|].
    destruct (create_helm_set_file_args args (Some m)); [done|]. by injection Hplan as -> _. }
  unfold create_upgrade_resources. destruct (run_new ns s) as [t0 H0'].
  rewrite run_bind, H0'. destruct (run_service_account ns s Hs) as [t1 H1']. rewrite run_bind, H1'.
  set (s1 := ensure_object _ _ _ s). assert (named s1) as Hs1 by (by apply named_ensure; [..|split; eauto]).
  destruct (run_cluster_role ns s1 Hs1) as [t2 H2']. rewrite run_bind, H2'.
  set (s2 := ensure_object _ _ _ s1). assert (named s2) as Hs2 by (by apply named_ensure; [..|split; [intros []|]]).
  destruct (run_cluster_role_binding ns s2 Hs2) as [t3 H3']. rewrite run_bind, H3'.
  set (s3 := ensure_object _ _ _ s2). assert (named s3) as Hs3 by (by apply named_ensure; [..|split; [intros []|]]).
  destruct (run_config_map ns args d m s3 Hd) as [t4 H4']. rewrite run_bind, H4'.
  set (s4 := put _ _ _ s3). assert (named s4) as Hs4 by (by apply named_put; [..|split; eauto]).
  destruct (run_job ns args d m job s4 Hs4 Hd Hplan) as [t5 ->]. eauto.
Qed.

(** Removing what was put. *)
Lemma remove_put k n o s : sel k s !! n = None → remove k n (put k n o s) = s.
Proof.
  intros Hn. unfold remove, put. rewrite sel_upd, upd_upd, delete_insert_id by done. apply upd_sel.
Qed.
Lemma sel_put_ne k k' n o s : k ≠ k' → sel k (put k' n o s) = sel k s.
Proof. apply sel_upd_ne. Qed.
Lemma ensure_absent k n o s : sel k s !! n = None → ensure_object k n o s = put k n o s.
Proof. unfold ensure_object. by intros ->. Qed.
End Commands.
End Api.
End Store.

(** ** Properties of the resource commands *)
Module ResourceSpec.
Import PluginError PluginUpgrade Store.
Section Spec.
Context `{Deps} `{PluginDeps} `{Semver} `{SerdeYaml}.
Variables (deployment : Deployment) (files : gmap string string).
Abbreviation run_api := (run (api deployment files)).

(** C9: Creating the upgrade resources does what it says, on any state of the
    cluster in which objects carry their names, and a namespace exactly if they are not
    cluster-scoped: the service account, the cluster role, its binding and the job are
    created when they are missing (the role and its binding without the namespace they are
    sent with) and left as they are when they exist, the config map is always replaced by
    one with the current files; nothing else changes. *)
Theorem create_resources_refines ns args d job s :
  named s → plan deployment files ns args = Some (d, job) →
  result_of (run_api (create_upgrade_resources ns args) s) = Done tt ∧
  world_of (run_api (create_upgrade_resources ns args) s) = created deployment ns d job s.
Proof.
  intros Hs Hp. by destruct (run_create_resources deployment files ns args d job s Hs Hp) as [tr ->].
Qed.

(** Deleting the upgrade resources removes exactly the five objects of the
    release and of this version of the plugin, whichever of them exist, and leaves
    every other object. *)
Theorem delete_resources_refines ns s :
  result_of (run_api (delete_upgrade_resources ns) s) = Done tt ∧
  world_of (run_api (delete_upgrade_resources ns) s) = deleted deployment s.
Proof. by destruct (run_delete_resources deployment files ns s) as [tr ->]. Qed.

(** C16: Deletion undoes creation: in a cluster without the upgrade resources, creating
    and then deleting them gives back the cluster as it was, whatever other objects,
    also cluster-scoped ones, it holds. *)
Theorem create_delete_roundtrip ns args d job s :
  named s → plan deployment files ns args = Some (d, job) →
  s.(service_accounts) !! sa_name deployment = None →
  s.(cluster_roles) !! cr_name deployment = None →
  s.(cluster_role_bindings) !! crb_name deployment = None →
  s.(config_maps) !! cm_name deployment = None → s.(jobs) !! job_name deployment = None →
  world_of (run_api (do! create_upgrade_resources ns args in delete_upgrade_resources ns) s) = s.
Proof.
  intros Hs Hp Hsa Hcr Hcrb Hcm Hjob. rewrite run_bind.
  destruct (run_create_resources deployment files ns args d job s Hs Hp) as [tr ->].
  destruct (run_delete_resources deployment files ns (created deployment ns d job s)) as [tr' ->].
  cbn [world_of fst snd]. unfold deleted, created.
  rewrite (ensure_absent KServiceAccount) by done.
  rewrite (ensure_absent KClusterRole) by (by rewrite sel_put_ne).
  rewrite (ensure_absent KClusterRoleBinding) by (by rewrite !sel_put_ne).
  rewrite (ensure_absent KJob) by (by rewrite !sel_put_ne).
  rewrite !remove_put; try done; by rewrite !sel_put_ne.
Qed.

(** The created job can run: in the resulting cluster its service account exists,
    the config map it mounts exists and holds the data of the arguments' files, and
    the role binding ties that service account to an existing role. *)
Theorem created_references_resolve ns args d job s :
  s = mkStore ∅ ∅ ∅ ∅ ∅ → plan deployment files ns args = Some (d, job) →
  let s' := world_of (run_api (create_upgrade_resources ns args) s) in
  ∃ j spec b, s'.(jobs) !! job_name deployment = Some j ∧ j.(job_spec) = Some spec ∧
    (∃ sa, spec.(service_account_name) = Some sa ∧ is_Some (s'.(service_accounts) !! sa)) ∧
    Forall (λ v, ∃ n cm, v.(config_map_name) = Some n ∧ s'.(config_maps) !! n = Some cm ∧
              cm.(data) = Some d) spec.(volumes) ∧
    s'.(cluster_role_bindings) !! crb_name deployment = Some b ∧
    is_Some (s'.(cluster_roles) !! b.(role_ref).(ref_name)) ∧
    (∃ sub, b.(subjects) = [sub] ∧ spec.(service_account_name) = Some sub.(subject_name)).
Proof.
  intros -> Hp.
  destruct (run_create_resources deployment files ns args d job (mkStore ∅ ∅ ∅ ∅ ∅)) as [tr ->];
    [by intros [] n o Ho; cbn in Ho; apply lookup_empty_Some in Ho|done|].
  cbn [world_of fst snd]. unfold created.
  rewrite (ensure_absent KServiceAccount) by apply lookup_empty.
  rewrite (ensure_absent KClusterRole) by (rewrite sel_put_ne; [apply lookup_empty|done]).
  rewrite (ensure_absent KClusterRoleBinding) by (rewrite !sel_put_ne; [apply lookup_empty|done..]).
  rewrite (ensure_absent KJob) by (rewrite !sel_put_ne; [apply lookup_empty|done..]).
  unfold plan in Hp. destruct (config_data files args) as [[d' m]|]; [|done].
  destruct (ImageProperties_try_from deployment); [done|].
  destruct (create_helm_set_file_args args (Some m)); [done|]. injection Hp as -> <-.
  cbn. do 3 eexists.
  split; [apply lookup_insert_eq|]. split; [reflexivity|].
  split_and!; [|constructor; [|constructor]|apply lookup_insert_eq| |].
  - eexists. split; [done|]. unfold sa_name. rewrite lookup_insert_eq. by eexists.
  - do 2 eexists. split; [reflexivity|]. split; [apply lookup_insert_eq|reflexivity].
  - cbn. unfold cr_name. rewrite lookup_insert_eq. by eexists.
  - by eexists.
Qed.
End Spec.
End ResourceSpec.
