(* ===== verification/PluginChecks.v ===== *)
(** * The kubectl plugin: what its commands check, request and promise

    The preflight checks (what holds of the cluster when they pass, and that nothing
    is changed before), the guard of [delete upgrade], the [--set-file] arguments of
    the job, the event a status is read from, the registry of the job's image, and
    the permissions the job is given. *)

From S2P Require Import Prelude Semver Text JobApi HelmChart HelmUpgrade PluginApi PluginUpgrade.
From S2P Require Import PluginSpec.
From stdpp Require Import base gmap list strings pretty.
From Stdlib Require Import ZArith Lia Ascii.
Open Scope string_scope.
Open Scope list_scope.

Abbreviation trace := (list (ev PluginSig)).
Abbreviation event c r := (Ev (S:=PluginSig) c r).

Lemma exec_ask_inv c tr (r : plugin_res c) : exec (ask c) tr (Done r) → tr = [event c r].
Proof. apply (exec_call_inv (S:=PluginSig) (E:=failure) c). Qed.

(** Invert a successful run of the plugin's requests. *)
Ltac plugin_inv :=
  unfold context, some_or, fail, unwrap in *;
  repeat (progress done_inv ||
    match goal with
    | H : exec (ask ?c) ?t (Done ?r) |- _ => apply (exec_ask_inv c t r) in H
    end); subst; cbn [app] in *.

(** ** Read-only commands *)

(** The requests which change the cluster. *)
Definition mutates (c : plugin_call) : bool :=
  match c with
  | EventsDeleteCollection _ _ | CreateObj _ _ | DeleteObj _ _ => true
  | _ => false
  end.
Definition read_only (c : plugin_call) : bool := negb (mutates c).

(** No request of the trace changes the cluster. *)
Definition untouched (tr : trace) : Prop :=
  Forall (λ e : ev PluginSig, match e with Ev c _ => mutates c = false end) tr.

Abbreviation reads := (uses (S:=PluginSig) read_only).

Lemma reads_untouched {A} (p : plugin A) tr o : reads p → exec p tr o → untouched tr.
Proof.
  intros Hp Hx. eapply Forall_impl; [by eapply uses_sound|]. intros [c r] Hc.
  unfold read_only in Hc. by apply negb_true_iff in Hc.
Qed.

Lemma reads_ask c : read_only c = true → reads (ask c).
Proof. intros Hc. by apply (uses_call (S:=PluginSig)). Qed.
Lemma reads_context {X A} f (r : X + A) : reads (context f r).
Proof. apply uses_lift. Qed.
Lemma reads_some_or {A} e (o : option A) : reads (some_or e o).
Proof. apply uses_ok_or. Qed.
#[export] Hint Resolve reads_ask reads_context reads_some_or : uses.

Module Commands.
Import PluginError PluginUpgrade.
Section Commands.
Context `{Deps} `{PluginDeps} `{Semver} `{SerdeYaml}.

Lemma reads_rest ns : reads (get_deployment_for_rest ns).
Proof. unfold get_deployment_for_rest. solve_uses. Qed.
Lemma reads_release ns : reads (get_release_name ns).
Proof. unfold get_release_name. apply uses_bind; [apply reads_rest|done]. Qed.
Lemma reads_resources_new ns : reads (resources_new ns).
Proof. unfold resources_new. do 2 (apply uses_bind; [solve_uses|intros]). apply reads_release. Qed.
Lemma reads_list_pods label ns l : reads (list_pods label ns l).
Proof. unfold list_pods. solve_uses. Qed.
#[local] Hint Resolve reads_rest reads_release reads_resources_new reads_list_pods : uses.

Lemma reads_completed ns : reads (is_upgrade_job_completed ns).
Proof. unfold is_upgrade_job_completed. solve_uses. Qed.

Lemma reads_status ns : reads (create_get_upgrade_resource ns).
Proof.
  unfold create_get_upgrade_resource, event_client_new, get_latest_upgrade_event, log_upgrade_result.
  solve_uses.
Qed.
Lemma reads_pages {A} fuel step (a : A) : reads (volume_pages fuel step a).
Proof.
  unfold volume_pages. apply uses_loop. intros [acc [t|]]; [|done].
  do 2 (apply uses_bind; [solve_uses|intros]). by destruct (step acc _).
Qed.
#[local] Hint Resolve reads_completed reads_pages : uses.

Lemma reads_path ns b : reads (upgrade_path_validation ns b).
Proof. unfold upgrade_path_validation, get_source_version. solve_uses. Qed.
Lemma reads_rebuild fuel : reads (rebuild_in_progress_validation fuel).
Proof. unfold rebuild_in_progress_validation, is_rebuild_in_progress. solve_uses. Qed.
Lemma reads_cordoned : reads already_cordoned_nodes_validation.
Proof. unfold already_cordoned_nodes_validation. solve_uses. Qed.
Lemma reads_single fuel : reads (single_volume_replica_validation fuel).
Proof. unfold single_volume_replica_validation, get_pvc_from_uuid. solve_uses. Qed.
#[local] Hint Resolve reads_path reads_rebuild reads_cordoned reads_single : uses.

Lemma reads_preflight fuel ns args : reads (preflight_check fuel ns args).
Proof. unfold preflight_check. solve_uses. Qed.
Lemma reads_dummy args ns : reads (dummy_apply args ns).
Proof. unfold dummy_apply. solve_uses. Qed.
#[local] Hint Resolve reads_preflight reads_dummy : uses.

(** ** The guard of [delete upgrade] *)

(** The trace shows an upgrade job which succeeded. *)
Definition saw_success (tr : trace) : Prop :=
  ∃ n job, event (GetOpt KJob n) (inr (Some job)) ∈ tr ∧ job.(job_status) = Some (mkJobStatus (Some 1%Z)).

Lemma completed_seen ns tr :
  exec (is_upgrade_job_completed ns) tr (Done true) → saw_success tr.
Proof.
  unfold is_upgrade_job_completed. intros Hx. plugin_inv.
  match goal with o : option _ |- _ => destruct o as [job|] end; plugin_inv.
  match goal with st : JobStatus |- _ => destruct st as [[count|]] end; [|done].
  cbn [succeeded] in *. match goal with Hc : (_ =? _)%Z = true |- _ => apply Z.eqb_eq in Hc; subst end.
  do 2 eexists. split; [|done]. apply elem_of_app. right. by left.
Qed.

(** A run with a mutation of a command whose first part only reads. *)
Lemma mutation_gated {A B} (p : plugin A) (f : A → plugin B) tr1 c r tr2 o :
  reads p → exec (bind f p) (tr1 ++ event c r :: tr2) o → mutates c = true →
  ∃ a ta t, exec p ta (Done a) ∧ tr1 = ta ++ t ∧ exec (f a) (t ++ event c r :: tr2) o.
Proof.
  intros Hp Hx Hc. eapply exec_gated; [exact Hp|exact Hx|]. unfold read_only. by rewrite Hc.
Qed.

Lemma untouched_no_mutation tr1 c r tr2 :
  mutates c = true → ¬ untouched (tr1 ++ event c r :: tr2).
Proof. intros Hc [_ Ht]%Forall_app. inversion Ht. congruence. Qed.

(** ** The listing of volumes *)

(** The pages of one listing, from a token to the last page, as seen in a trace. *)
Inductive listing (tr : trace) : option Z → list (list Volume) → Prop :=
| listing_end : listing tr None []
| listing_page t v l :
    event (PluginGetVolumes plugin_max_entries (Some t)) (inr v) ∈ tr →
    listing tr v.(next_token) l → listing tr (Some t) (v.(entries) :: l).

Lemma listing_mono tr tr' o l : (∀ e, e ∈ tr → e ∈ tr') → listing tr o l → listing tr' o l.
Proof. intros Hsub. induction 1; econstructor; eauto. Qed.

(** What a fold over the pages says of every page: [good] results come from good
    accumulators and pages with [P]; leaving the loop early is not good. *)
Lemma exec_pages {A} fuel (step : A → list Volume → A + A) (J good : A → Prop) (P : list Volume → Prop) :
  (∀ acc l acc', J acc → step acc l = inl acc' → J acc' ∧ (good acc' → good acc ∧ P l)) →
  (∀ acc l acc', step acc l = inr acc' → ¬ good acc') →
  ∀ a tr b, J a → exec (volume_pages fuel step a) tr (Done b) → good b →
  ∃ l, listing tr (Some 0%Z) l ∧ Forall P l.
Proof.
  intros Hinl Hinr a tr b HJ Hx Hb. unfold volume_pages in Hx.
  cut (good a ∧ ∃ l, listing tr (Some 0%Z) l ∧ Forall P l); [by intros []|].
  generalize dependent tr. generalize (Some 0%Z) as tok. revert a HJ.
  induction fuel as [|n IH]; cbn [loop]; intros a HJ tok tr Hx.
  { cbn in Hx. by destruct Hx as [[_ ?]|[_ ?]]. }
  destruct tok as [t|]; cbn [bind volume_page] in Hx; plugin_inv; [|split; [done|exists []; by repeat constructor]].
  match goal with v : Volumes |- _ => rename v into page end.
  destruct (step a page.(entries)) as [a'|a'] eqn:Es; plugin_inv.
  - destruct (Hinl _ _ _ HJ Es) as [HJ' Hg].
    match goal with Hx : exec (loop _ _ _) _ _ |- _ => destruct (IH _ HJ' _ _ Hx) as (Ha & l & Hl & HP) end.
    destruct (Hg Ha) as [? ?]. split; [done|]. exists (page.(entries) :: l). split; [|by constructor].
    econstructor; [by left|]. eapply listing_mono; [|exact Hl]. intros e He. by right.
  - by destruct (Hinr _ _ _ Es).
Qed.
(** *** What each check establishes *)
Definition no_rebuild (v : Volume) : Prop :=
  ∀ target c, v.(vol_state).(vs_target) = Some target → c ∈ target.(children) →
  c.(rebuild_progress) = None.

Lemma rebuilding_false v : rebuilding v = false ↔ no_rebuild v.
Proof.
  unfold rebuilding, no_rebuild. destruct (vs_target (vol_state v)) as [target|]; [|naive_solver].
  rewrite <-not_true_iff_false, existsb_exists. split.
  - intros Hn t c [= <-] Hc. destruct (rebuild_progress c) eqn:E; [|done].
    destruct Hn. exists c. rewrite <-list_elem_of_In, E. done.
  - intros Hn (c & Hc & Hr). rewrite <-list_elem_of_In in Hc. by rewrite (Hn target c) in Hr.
Qed.

Lemma rebuild_check fuel tr :
  exec (rebuild_in_progress_validation fuel) tr (Done tt) →
  ∃ l, listing tr (Some 0%Z) l ∧ Forall (Forall no_rebuild) l.
Proof.
  unfold rebuild_in_progress_validation. intros Hx. plugin_inv.
  match goal with b : bool |- _ => destruct b end; plugin_inv. rewrite app_nil_r.
  eapply (exec_pages fuel _ (λ b, b = false) (λ b, b = false)); [| |done|eassumption|done]; cbn; intros acc l acc'.
  - intros ->. destruct (existsb rebuilding l) eqn:E; [done|]. intros [= <-]. do 2 (split; [done|]).
    apply Forall_forall. intros v Hv. apply rebuilding_false. apply not_true_iff_false. intros Hr.
    rewrite <-not_true_iff_false, existsb_exists in E. destruct E. exists v. by rewrite <-list_elem_of_In.
  - destruct (existsb rebuilding l); [by intros [= <-]|done].
Qed.

Lemma single_replica_check fuel tr :
  exec (single_volume_replica_validation fuel) tr (Done tt) →
  ∃ l, listing tr (Some 0%Z) l ∧ Forall (Forall (λ v, v.(vol_spec).(num_replicas) ≠ SINGLE_REPLICA_VOLUME)) l.
Proof.
  unfold single_volume_replica_validation. intros Hx. plugin_inv.
  match goal with Hp : exec (volume_pages _ _ _) _ (Done ?x) |- _ => destruct x end; plugin_inv.
  rewrite app_nil_r.
  eapply (exec_pages fuel _ (λ _, True) (λ l, l = [])); [| |done|eassumption|done]; cbn; [|done].
  intros acc l acc' _ [= <-]. split; [done|]. intros [-> Hl]%app_eq_nil. split; [done|].
  unfold single_replica_ids in Hl. apply fmap_nil_inv in Hl. apply Forall_forall. intros v Hv Hr.
  apply (elem_of_nil (A:=Volume) v). rewrite <-Hl. by apply list_elem_of_filter.
Qed.

(** A node which is not in the cordoned state. *)
Definition not_cordoned (n : StorageNode) : Prop :=
  ∃ spec, n.(node_spec) = Some spec ∧ ∀ x, spec.(cordondrainstate) ≠ Some (cordonedstate x).

Lemma cordoned_check tr :
  exec already_cordoned_nodes_validation tr (Done tt) →
  ∃ nodes, event PluginGetNodes (inr nodes) ∈ tr ∧ Forall not_cordoned nodes.
Proof.
  unfold already_cordoned_nodes_validation. intros Hx.
  apply exec_bind_done in Hx as (r & t1 & t2 & Hr & Hx & ->).
  apply exec_bind_done in Hx as (nodes & t3 & t4 & Hn & Hx & ->).
  apply (exec_ask_inv PluginGetNodes t1 r) in Hr as ->. apply exec_lift_done in Hn as [-> ->].
  exists nodes. split; [by left|].
  apply exec_bind_done in Hx as (l & t5 & t6 & Hf & Hx & _).
  destruct l; [|plugin_inv]. clear Hx.
  match type of Hf with exec (foldM ?f _ _) _ _ =>
    assert (∀ ns t acc, exec (foldM f ns acc) t (Done []) → acc = [] ∧ Forall not_cordoned ns) as Hgen end;
    [|by eapply Hgen].
  clear Hf t5. intros ns. induction ns as [|n ns IH]; intros t acc Hf; cbn [foldM] in Hf; plugin_inv; [done|].
  match goal with Hf : exec (foldM _ _ _) _ _ |- _ => destruct (IH _ _ Hf) as [Ha Hall] end.
  match goal with Hs : node_spec n = Some ?sp |- _ =>
    destruct (cordondrainstate sp) as [[]|] eqn:E; try (by destruct acc);
    (split; [done|]; constructor; [|done]; exists sp; split; [done|]; by rewrite E) end.
Qed.

(** The upgrade path is fine: the source is supported, the target is a release, a
    stable source goes to a stable target unless that is allowed, and the version
    does not decrease. *)
Definition path_ok (source : Version) (allow_unstable : bool) : Prop :=
  Path.is_valid_for_core_chart source = inr true ∧
  contains (chars UPGRADE_TO_DEVELOP_BRANCH) (chars get_image_version_tag) = false ∧
  (allow_unstable = false → pre_is_empty source = true →
     ∃ v, self_version = Some v ∧ pre_is_empty v = true) ∧
  (∀ v, self_version = Some v → v_ge v source = true).

(** The version label of the REST deployment, as seen in a trace. *)
Definition source_seen (ns : string) (tr : trace) (source : Version) : Prop :=
  ∃ d l labels version,
    event (DeploymentsList ns API_REST_LABEL_SELECTOR) (inr (d :: l)) ∈ tr ∧
    d.(dep_meta).(PluginApi.labels) = Some labels ∧
    labels !! helm_release_version_key = Some version ∧ version_parse version = inr source.
Lemma source_read ns tr source version :
  exec (get_source_version ns) tr (Done version) → version_parse version = inr source →
  source_seen ns tr source.
Proof.
  unfold get_source_version, get_deployment_for_rest. intros Hx Hv. plugin_inv.
  match goal with Hh : head ?l = Some ?d |- _ => destruct l as [|d' l']; [done|injection Hh as ->] end.
  do 4 eexists. split; [|done]. right. by left.
Qed.

Lemma path_check ns au tr :
  exec (upgrade_path_validation ns au) tr (Done tt) →
  ∃ source, source_seen ns tr source ∧ path_ok source au.
Proof.
  unfold upgrade_path_validation. intros Hx. plugin_inv.
  match goal with Hs : exec (get_source_version _) _ _, Hv : version_parse _ = inr ?v |- _ =>
    pose proof (source_read _ _ _ _ Hs Hv) as Hseen; exists v end.
  repeat match goal with
  | Hx : exec (if ?b then _ else _) _ _ |- _ => destruct b eqn:?; [by plugin_inv|]
  end.
  split.
  { destruct Hseen as (d & l & labels & version & Hin & ?). exists d, l, labels, version.
    split; [|done]. rewrite elem_of_app. by left. }
  split_and!.
  - unfold Path.is_valid_for_core_chart.
    match goal with Hu : context [yaml_from_slice] |- _ => rewrite Hu end. by f_equal; apply negb_true_iff.
  - done.
  - intros -> Hp. match goal with Hb : _ && _ = false |- _ => cbn in Hb; rewrite Hp in Hb; cbn in Hb end.
    destruct self_version as [v|]; [|done]. exists v. split; [done|]. by apply negb_false_iff.
  - intros v Hv. match goal with Hb : context [v_lt] |- _ => rewrite Hv in Hb; rewrite v_ge_lt, Hb end. done.
Qed.

(** *** A cluster which lists its volumes *)

(** The pages behind a token, by the page each token stands for. *)
Inductive chain (page : Z → Volumes) : option Z → list (list Volume) → Prop :=
| chain_end : chain page None []
| chain_page t l : chain page (page t).(next_token) l →
    chain page (Some t) ((page t).(entries) :: l).

(** The result of a fold over pages. *)
Fixpoint fold_pages {A} (step : A → list Volume → A + A) (a : A) (l : list (list Volume)) : A :=
  match l with
  | [] => a
  | page :: l' => match step a page with inl a' => fold_pages step a' l' | inr a' => a' end
  end.

Lemma run_pages {A W} (h : handler PluginSig W) page (step : A → list Volume → A + A) w l fuel a :
  (∀ t, h (PluginGetVolumes plugin_max_entries (Some t)) w = (inr (page t), w)) →
  chain page (Some 0%Z) l → length l < fuel →
  ∃ tr, run h (volume_pages fuel step a) w = (Done (fold_pages step a l), w, tr).
Proof.
  intros Hh Hc. unfold volume_pages. revert fuel a.
  induction Hc as [|t l Hc IH]; intros [|fuel] a Hl; cbn in Hl; try lia; [cbn; eauto|].
  cbn. rewrite Hh. cbn. destruct (step a (entries (page t))) as [a'|a']; cbn; [|eauto].
  destruct (IH fuel a') as [tr ->]; [lia|]. eauto.
Qed.
Lemma fold_rebuilding l a :
  a = false →
  fold_pages (λ _ l, if existsb rebuilding l then inr true else inl false) a l =
    existsb rebuilding (concat l).
Proof.
  intros ->. induction l as [|p l IH]; cbn; [done|]. rewrite existsb_app.
  by destruct (existsb rebuilding p).
Qed.

Lemma fold_single l a :
  fold_pages (λ acc l, inl (acc ++ single_replica_ids l)) a l = a ++ single_replica_ids (concat l).
Proof.
  revert a. induction l as [|p l IH]; intros a; cbn [fold_pages concat]; [by rewrite app_nil_r|].
  rewrite IH. unfold single_replica_ids. by rewrite filter_app, fmap_app, app_assoc.
Qed.

(** ** The [--set-file] arguments *)

(** The data of the config map and the index of each file, after some files were
    read: an index is used once, and the data under it is the content of its file. *)
Definition indexed (tr : trace) (st : Z * gmap string string * gmap string string) : Prop :=
  (∀ n c, st.1.2 !! n = Some c → ∃ j, n = pretty j ∧ (j < st.1.1)%Z) ∧
  (∀ path n, st.2 !! path = Some n →
     ∃ content, st.1.2 !! n = Some content ∧ event (ReadToString path) (inr content) ∈ tr).

Lemma indexed_mono tr tr' st : (∀ e, e ∈ tr → e ∈ tr') → indexed tr st → indexed tr' st.
Proof. intros Hsub [Hd Hm]. split; [done|]. intros path n Hp. destruct (Hm path n Hp) as (c & ? & ?). eauto. Qed.

Lemma indexed_start : indexed [] (1%Z, ∅, ∅).
Proof. by split; cbn; intros ? ? ?%lookup_empty_Some. Qed.

Lemma config_step_indexed tr st file tr' st' :
  indexed tr st → exec (config_map_step st file) tr' (Done st') →
  indexed (tr ++ tr') st' ∧ (∀ p, is_Some (st.2 !! p) → is_Some (st'.2 !! p)) ∧
  ∃ key path, key_and_path file = Some (key, path) ∧ is_Some (st'.2 !! path).
Proof.
  destruct st as [[i d] m]. intros [Hd Hm] Hx. cbn in Hd, Hm. unfold config_map_step in Hx.
  destruct (key_and_path file) as [[key path]|]; plugin_inv.
  match goal with c : string |- _ => rename c into content end.
  assert (d !! pretty i = None) as Hfresh.
  { destruct (d !! pretty i) eqn:E; [|done]. destruct (Hd _ _ E) as (j & Hj & Hlt).
    apply (inj pretty) in Hj. lia. }
  split_and!; [split| |]; cbn.
  - intros n c [[<- _]|[_ Hn]]%lookup_insert_Some; [exists i; split; [done|lia]|].
    destruct (Hd n c Hn) as (j & ? & ?). exists j. split; [done|lia].
  - intros p n [[<- <-]|[Hne Hn]]%lookup_insert_Some.
    + exists content. split; [apply lookup_insert_eq|]. apply elem_of_app. right. by left.
    + destruct (Hm p n Hn) as (c & Hc & Hin). exists c. split; [|by apply elem_of_app; left].
      rewrite lookup_insert_ne; [done|]. congruence.
  - intros p Hp. destruct (decide (p = path)) as [->|Hne];
      [rewrite lookup_insert_eq; by eexists|by rewrite lookup_insert_ne].
  - exists key, path. split; [done|]. rewrite lookup_insert_eq. by eexists.
Qed.

Lemma config_fold_indexed files tr0 st tr st' :
  indexed tr0 st → exec (foldM config_map_step files st) tr (Done st') →
  indexed (tr0 ++ tr) st' ∧ (∀ p, is_Some (st.2 !! p) → is_Some (st'.2 !! p)) ∧
  Forall (λ file, ∃ key path, key_and_path file = Some (key, path) ∧ is_Some (st'.2 !! path)) files.
Proof.
  revert tr0 st tr. induction files as [|file files IH]; intros tr0 st tr Hst Hx; cbn [foldM] in Hx.
  { plugin_inv. split; [by rewrite app_nil_r|]. split; [done|constructor]. }
  apply exec_bind_done in Hx as (st1 & t1 & t2 & H1' & H2' & ->).
  destruct (config_step_indexed _ _ _ _ _ Hst H1') as (Hst1 & Hm1 & key & path & Hk & Hp).
  destruct (IH _ _ _ Hst1 H2') as (Hst2 & Hm2 & Hall). rewrite app_assoc.
  split_and!; [done|by eauto|]. constructor; [by eauto|done].
Qed.
End Commands.
End Commands.

(** ** The latest event *)
Section Sort.
Context {A : Type} (cmp : A → A → comparison).
Hypothesis cmp_total : ∀ x y, cmp x y = Gt → cmp y x ≠ Gt.
Hypothesis cmp_le_trans : ∀ x y z, cmp x y ≠ Gt → cmp y z ≠ Gt → cmp x z ≠ Gt.

Lemma cmp_refl x : cmp x x ≠ Gt.
Proof. intros Hx. by apply (cmp_total x x). Qed.

Lemma sort_by_head l x :
  head (sort_by cmp l) = Some x → x ∈ l ∧ ∀ y, y ∈ l → cmp x y ≠ Gt.
Proof.
  revert x. induction l as [|a l IH]; intros x; cbn; [done|]. fold (sort_by cmp l).
  destruct (sort_by cmp l) as [|b s] eqn:Es; cbn.
  - intros [= <-]. destruct l as [|c l]; cbn in Es.
    + split; [by left|]. intros y ->%list_elem_of_singleton. apply cmp_refl.
    + destruct (foldr (insert_by cmp) [] l); cbn in Es; [done|]. by destruct (cmp c _).
  - destruct (IH b eq_refl) as [Hb Hmin]. destruct (cmp a b) eqn:E; cbn; intros [= <-].
    1,2: split; [by left|]; intros y [->|Hy]%elem_of_cons; [apply cmp_refl|];
      apply (cmp_le_trans _ b); [congruence|auto].
    split; [by right|]. intros y [->|Hy]%elem_of_cons; [|auto]. by apply cmp_total.
Qed.

Lemma sort_by_nil l : sort_by cmp l = [] ↔ l = [].
Proof.
  split; [|by intros ->]. destruct l as [|a l]; cbn; [done|].
  destruct (foldr (insert_by cmp) [] l); cbn; [done|]. by destruct (cmp a _).
Qed.
End Sort.

Lemma time_cmp_total x y : time_cmp x y = Gt → time_cmp y x ≠ Gt.
Proof. destruct x, y; cbn; try done. rewrite !Z.compare_gt_iff. lia. Qed.
Lemma time_cmp_trans x y z : time_cmp x y ≠ Gt → time_cmp y z ≠ Gt → time_cmp x z ≠ Gt.
Proof. destruct x, y, z; cbn; try done. rewrite !Z.compare_gt_iff. lia. Qed.

(** ** Splitting an image name *)
Lemma split_str_no c s : c ∉ chars s → split_str c s = [s].
Proof.
  induction s as [|a s IH]; cbn; [done|]. intros Hs.
  rewrite decide_False by (intros ->; set_solver). by rewrite IH by set_solver.
Qed.

Lemma split_str_cons c x s :
  c ∉ chars x → split_str c (x +:+ String c s) = x :: split_str c s.
Proof.
  induction x as [|a x IH]; intros Hx.
  - rewrite str_nil. cbn. by rewrite decide_True.
  - rewrite str_cons. cbn. rewrite decide_False by (intros ->; set_solver). by rewrite IH by set_solver.
Qed.

(** Splitting undoes joining. *)
Lemma split_join c l :
  l ≠ [] → Forall (λ x, c ∉ chars x) l → split_str c (slice_join (String c "") l) = l.
Proof.
  intros Hl. induction l as [|x [|y l] IH]; [done| |]; intros [Hx Hall]%Forall_cons.
  - by apply split_str_no.
  - change (slice_join _ (x :: y :: l)) with (x +:+ String c "" +:+ slice_join (String c "") (y :: l)).
    rewrite str_cons, str_nil, split_str_cons by done. f_equal. by apply IH.
Qed.

(** ** Permissions *)

(** An access to the Kubernetes API: group, resource, verb. *)
Record access := mkAccess { acc_group : string; acc_resource : string; acc_verb : string }.

(** Role based access control: some rule lists the group, the resource and the verb. *)
Definition granted (rules : list PolicyRule) (a : access) : bool :=
  existsb (λ r, bool_decide (a.(acc_group) ∈ r.(api_groups)) &&
                bool_decide (a.(acc_resource) ∈ r.(resources)) &&
                bool_decide (a.(acc_verb) ∈ r.(verbs))) rules.

(** The access each request of the upgrade job needs; events are published with
    [events.k8s.io]. *)
Definition access_of (c : job_call) : option access :=
  match c with
  | PodsList _ _ => Some (mkAccess "" "pods" "list")
  | PodGet _ _ => Some (mkAccess "" "pods" "get")
  | PodsDelete _ _ => Some (mkAccess "" "pods" "delete")
  | NodesListMetadata _ => Some (mkAccess "" "nodes" "list")
  | NamespaceGet _ => Some (mkAccess "" "namespaces" "get")
  | CtrlRevsList _ _ => Some (mkAccess "apps" "controllerrevisions" "list")
  | CrdsListMetadata _ => Some (mkAccess "apiextensions.k8s.io" "customresourcedefinitions" "list")
  | SendEvent _ => Some (mkAccess "events.k8s.io" "events" "create")
  | _ => None
  end.

(** ** Properties of the commands *)
Module CommandSpec.
Import PluginError PluginUpgrade Commands.
Section Spec.
Context `{Deps} `{PluginDeps} `{Semver} `{SerdeYaml}.

(** [delete upgrade] without [--force] changes the cluster only after it has seen
    the upgrade job with one successful completion. *)
Theorem delete_guarded force ns tr1 c r tr2 o :
  exec (delete_upgrade force ns) (tr1 ++ event c r :: tr2) o → mutates c = true →
  force = true ∨ saw_success tr1.
Proof.
  intros Hx Hc. apply mutation_gated in Hx as (b & ta & t & Ha & -> & Hx); [|apply reads_completed|done].
  destruct force; [by left|]. right. destruct b.
  - apply completed_seen in Ha as (n & job & Hin & Hj). exists n, job. split; [set_solver|done].
  - eapply reads_untouched in Hx; [by apply untouched_no_mutation in Hx|]. cbn. solve_uses.
Qed.

(** [upgrade --dry-run] changes nothing: whatever the cluster answers, no request
    which creates or deletes an object is issued. *)
Theorem dry_run_changes_nothing fuel ns args tr o :
  args.(dry_run) = true → exec (upgrade_operation fuel ns args) tr o → untouched tr.
Proof.
  intros Hd. apply reads_untouched. unfold upgrade_operation, execute. rewrite Hd.
  apply uses_bind; [apply reads_preflight|intros; apply reads_dummy].
Qed.

(** [upgrade] changes the cluster only after the preflight check has passed: what
    precedes the first change contains a complete successful run of the check. *)
Theorem preflight_gates_changes fuel ns args tr1 c r tr2 o :
  exec (upgrade_operation fuel ns args) (tr1 ++ event c r :: tr2) o → mutates c = true →
  ∃ t1 t2, tr1 = t1 ++ t2 ∧ exec (preflight_check fuel ns args) t1 (Done tt).
Proof.
  intros Hx Hc. apply mutation_gated in Hx as ([] & ta & t & Ha & -> & _);
    [by exists ta, t|apply reads_preflight|done].
Qed.
(** C4: What the cluster is like when the preflight check passes, by the answers it
    gave: every check which is not skipped has read all of its data and found nothing
    wrong in it.  No child of any volume on any page is rebuilding, no node is
    cordoned, no volume has a single replica, and the upgrade path is fine. *)
Theorem preflight_sound fuel ns args tr :
  exec (preflight_check fuel ns args) tr (Done tt) →
  (args.(skip_upgrade_path_validation_for_unsupported_version) = false →
     ∃ source, source_seen ns tr source ∧ path_ok source args.(allow_unstable)) ∧
  (args.(skip_replica_rebuild) = false →
     ∃ l, listing tr (Some 0%Z) l ∧ Forall (Forall no_rebuild) l) ∧
  (args.(skip_cordoned_node_validation) = false →
     ∃ nodes, event PluginGetNodes (inr nodes) ∈ tr ∧ Forall not_cordoned nodes) ∧
  (args.(skip_single_replica_volume_validation) = false →
     ∃ l, listing tr (Some 0%Z) l ∧
       Forall (Forall (λ v, v.(vol_spec).(num_replicas) ≠ SINGLE_REPLICA_VOLUME)) l).
Proof.
  unfold preflight_check. intros Hx.
  do 3 apply exec_bind_done in Hx as (? & ? & ? & _ & Hx & ->).
  apply exec_bind_done in Hx as ([] & t1 & ? & Hpath & Hx & ->).
  apply exec_bind_done in Hx as ([] & t2 & ? & Hreb & Hx & ->).
  apply exec_bind_done in Hx as ([] & t3 & t4 & Hcor & Hx & ->).
  split_and!; intros Hskip; rewrite Hskip in *.
  - destruct (path_check _ _ _ Hpath) as (source & (d & l & lab & v & Hin & ?) & ?).
    exists source. split; [|done]. exists d, l, lab, v. split; [|done]. set_solver.
  - destruct (rebuild_check _ _ Hreb) as (l & Hl & ?). exists l. split; [|done].
    eapply listing_mono; [|done]. set_solver.
  - destruct (cordoned_check _ Hcor) as (l & Hl & ?). exists l. split; [set_solver|done].
  - destruct (single_replica_check _ _ Hx) as (l & Hl & ?). exists l. split; [|done].
    eapply listing_mono; [|done]. set_solver.
Qed.

(** C19: The checks over the volumes are exact and terminate: with more fuel than
    there are pages, they see the volumes of all pages, and nothing else. *)
Theorem volume_checks_exact {W} (h : handler PluginSig W) page w l fuel :
  (∀ t, h (PluginGetVolumes plugin_max_entries (Some t)) w = (inr (page t), w)) →
  chain page (Some 0%Z) l → length l < fuel →
  result_of (run h (is_rebuild_in_progress fuel) w) = Done (existsb rebuilding (concat l)) ∧
  (result_of (run h (single_volume_replica_validation fuel) w) = Done tt ↔
     single_replica_ids (concat l) = []).
Proof.
  intros Hh Hc Hl. split.
  - unfold is_rebuild_in_progress.
    destruct (run_pages h page (λ _ l, if existsb rebuilding l then inr true else inl false)
      w l fuel false Hh Hc Hl) as [tr ->]. cbn. by rewrite fold_rebuilding.
  - unfold single_volume_replica_validation. rewrite run_bind.
    destruct (run_pages h page (λ acc l, inl (acc ++ single_replica_ids l)) w l fuel [] Hh Hc Hl) as [tr ->].
    rewrite fold_single, app_nil_l. destruct (single_replica_ids (concat l)) as [|x xs]; [done|].
    split; [|done]. match goal with |- context [run h ?p w] => pose proof (run_exec h p w) as Hx;
      destruct (run h p w) as [[o w'] t] end.
    cbn [result_of trace_of fst snd] in *. intros ->. by plugin_inv.
Qed.

(** C18: The plugin and the job agree on the upgrade path: when the plugin lets a
    source version pass, the upgrade job of the plugin's own version accepts the same
    source version. *)
Theorem plugin_path_agrees_with_job ns au tr target :
  exec (upgrade_path_validation ns au) tr (Done tt) → self_version = Some target →
  ∃ source, source_seen ns tr source ∧ HelmUpgrade.validate_upgrade_path source target = Ret tt.
Proof.
  intros (source & Hs & Hvalid & _ & _ & Hge)%path_check Ht. exists source. split; [done|].
  unfold HelmUpgrade.validate_upgrade_path. by rewrite (Hge _ Ht), Hvalid.
Qed.

(** C17: The [--set-file] arguments of the job name what the user asked for: for each
    [key=path] the job gets [key=] and a file of the mounted config map which holds
    the content read from [path]. *)
Theorem set_file_roundtrip args d m tr :
  exec (create_config_map_data args) tr (Done (d, m)) →
  ∃ l, set_file_args (Some m) args.(set_file) = inr l ∧
    Forall2 (λ file arg, ∃ key path n content,
      key_and_path file = Some (key, path) ∧
      arg = (key +:+ "=" +:+ UPGRADE_CONFIG_MAP_MOUNT_PATH +:+ "/" +:+ n)%string ∧
      d !! n = Some content ∧ event (ReadToString path) (inr content) ∈ tr) args.(set_file) l.
Proof.
  unfold create_config_map_data. intros Hx.
  apply exec_bind_done in Hx as ([[i d'] m'] & t1 & t2 & Hf & Hx & ->). plugin_inv.
  match goal with Heq : _ = (d, m) |- _ => injection Heq as -> -> end. rewrite app_nil_r.
  destruct (config_fold_indexed _ [] _ _ _ indexed_start Hf) as ([_ Hm] & _ & Hall).
  cbn in Hm, Hall. clear Hf. induction Hall as [|file files (key & path & Hk & n & Hn) Hall IH].
  { exists []. by split. }
  destruct IH as (l & Hl & Hl2). destruct (Hm _ _ Hn) as (content & Hc & Hin).
  eexists (_ :: l). cbn. unfold set_file_arg. rewrite Hk. cbn. rewrite Hn, Hl. split; [done|].
  constructor; [|done]. by exists key, path, n, content.
Qed.
(** The status is read from the latest upgrade event: of the events with the
    upgrade reason, one with the greatest time; and there is one unless no event has
    that reason. *)
Theorem latest_event_spec l :
  match latest_event l with
  | Some e =>
      e ∈ l ∧ e.(reason) = Some upgrade_event_reason ∧
      ∀ e', e' ∈ l → e'.(reason) = Some upgrade_event_reason →
        time_cmp e'.(event_time) e.(event_time) ≠ Gt
  | None => ∀ e, e ∈ l → e.(reason) ≠ Some upgrade_event_reason
  end.
Proof.
  unfold latest_event. set (cmp := λ a b, _). set (m := base.filter _ l).
  destruct (head (sort_by cmp m)) as [e|] eqn:E.
  - apply sort_by_head in E as [[Hr Hin]%list_elem_of_filter Hmin];
      [|intros x y; apply time_cmp_total|intros x y z ??; by eapply time_cmp_trans].
    split_and!; [done..|]. intros e' He Hr'. apply (Hmin e'). by apply list_elem_of_filter.
  - apply head_None, sort_by_nil in E. intros e He Hr. apply (elem_of_nil (A:=PluginEvent) e).
    rewrite <-E. by apply list_elem_of_filter.
Qed.

(** A failed validation leaves nothing behind: when the first event of the upgrade
    says so, the plugin removes the upgrade resources. *)
Theorem validation_failure_cleans_up deployment files latest ns msg note s :
  latest.(action) = Some "Validation Failed"%string → latest.(event_message) = Some msg →
  note_from_json msg = inr note →
  result_of (run (Store.api deployment files) (handle_upgrade_event latest ns) s) = Done tt ∧
  world_of (run (Store.api deployment files) (handle_upgrade_event latest ns) s) =
    Store.deleted deployment s.
Proof.
  intros Ha Hm Hn. unfold handle_upgrade_event. rewrite Ha, Hm, decide_True, Hn by done.
  cbn [context lift bind]. rewrite run_bind. cbn [ask call run Store.api].
  by destruct (Store.run_delete_resources deployment files ns s) as [tr ->].
Qed.

(** The registry of the upgrade job's image is the registry of the REST
    deployment's image when that has the form registry/repository/name, and the
    default registry for every other number of sections; one section is an error. *)
Theorem image_registry_spec d spec container containers parts :
  d.(dep_spec) = Some (Some spec) → spec.(PluginApi.containers) = container :: containers →
  parts ≠ [] → Forall (λ x, "/"%char ∉ chars x) parts →
  container.(image) = Some (slice_join "/" parts) →
  ImageProperties_try_from d =
    match parts with
    | [_] => inl ReferenceDeploymentInvalidImage
    | [reg; _; _] => inr (mkImageProperties spec.(template_pull_secrets) reg container.(pull_policy_of))
    | _ => inr (mkImageProperties spec.(template_pull_secrets) DEFAULT_IMAGE_REGISTRY
                  container.(pull_policy_of))
    end.
Proof.
  intros Hd Hc Hne Hp Hi. unfold ImageProperties_try_from. rewrite Hd, Hc, Hi, split_join by done.
  by destruct parts as [|? [|? [|? [|]]]].
Qed.

(** The cluster role of the upgrade job grants every access to the Kubernetes API
    which the job itself needs, except listing the controller revisions. *)
Theorem job_access_granted c a :
  access_of c = Some a →
  granted Objects.cluster_role_rules a = true ↔ a ≠ mkAccess "apps" "controllerrevisions" "list".
Proof. destruct c; intros [= <-]; vm_compute; split; congruence. Qed.
End Spec.
End CommandSpec.
