(* ===== verification/PluginFixture.v ===== *)
(** * The upgrade commands in a concrete cluster

    A cluster with a REST deployment of mayastor 2.7.0, in which version 2.8.0 of the
    plugin runs its commands.  The properties of the commands are applied to these
    runs. *)

From S2P Require Import Prelude Semver Text JobApi HelmChart HelmUpgrade PluginApi PluginUpgrade.
From S2P Require Import PluginSpec PluginChecks JobSim JobFixture.
From stdpp Require Import base gmap list strings pretty.
From Stdlib Require Import ZArith Lia Ascii.
Open Scope string_scope.
Open Scope list_scope.

Module PluginFixture.
Import SemverRef Fixture PluginUpgrade Store.

#[export] Instance release_2_8_0 : PluginDeps := {|
  version_tag := Some "v2.8.0";
  note_from_json := λ s, inr (mkEventNote "2.7.0" "2.8.0" s)
|}.

Definition rest_container : ContainerImage :=
  mkContainerImage (Some "ghcr.io/openebs/mayastor-api-rest:v2.7.0") (Some "IfNotPresent").
Definition rest_pod : PodTemplate := mkPodTemplate [rest_container] None.
Definition rest : Deployment :=
  mkDeployment
    (mkObjectMeta (Some (list_to_map [(helm_release_name_key, "mayastor");
                                      (helm_release_version_key, "2.7.0")]))
       (Some "mayastor-api-rest") (Some "mayastor"))
    (Some (Some rest_pod)).

Definition files : gmap string string := {["/home/user/loki.yaml" := "retention: 7d"]}.

Definition upgrade_args (dry : bool) : UpgradeArgs :=
  mkUpgradeArgs None false dry false false false false false []
    ["loki-stack.config=/home/user/loki.yaml"].

Definition empty : store := mkStore ∅ ∅ ∅ ∅ ∅.

(** A cluster with objects of others: a job, a cluster role and its binding *)
Definition others : store :=
  mkStore ∅ {["view" := mkClusterRole (mkObjectMeta None (Some "view") None) []]}
    {["viewers" := mkClusterRoleBinding (mkObjectMeta None (Some "viewers") None)
        (mkRoleRef "rbac.authorization.k8s.io" "ClusterRole" "view") []]} ∅
    {["backup" := mkJob (mkObjectMeta None (Some "backup") (Some "mayastor")) None None]}.
(** and one in which an earlier upgrade has left its role, its binding and a config map
    with other files *)
Definition leftovers : store :=
  put KConfigMap (cm_name rest) (mkConfigMap (mkObjectMeta None (Some (cm_name rest)) (Some "mayastor"))
      (Some {["1" := "old"]}) (Some true))
    (put KClusterRole (cr_name rest) (mkClusterRole (mkObjectMeta None (Some (cr_name rest)) None) [])
    (put KClusterRoleBinding (crb_name rest)
      (mkClusterRoleBinding (mkObjectMeta None (Some (crb_name rest)) None)
        (mkRoleRef "rbac.authorization.k8s.io" "ClusterRole" (cr_name rest)) []) others)).

Lemma others_named : named others.
Proof.
  intros [] n o Ho; cbn in Ho;
    first [by apply lookup_empty_Some in Ho
          | apply lookup_singleton_Some in Ho as [<- <-]; split; [done|split; [by intros []|done]]
          | apply lookup_singleton_Some in Ho as [<- <-]; split; [done|split; [done|by eexists]]].
Qed.
Lemma leftovers_named : named leftovers.
Proof.
  apply named_put; [|done|split; [done|by eexists]].
  apply named_put; [|done|split; [by intros []|done]].
  apply named_put; [exact others_named|done|split; [by intros []|done]].
Qed.

(** The whole [upgrade] command. *)
Definition upgrade_run := run (api rest files) (upgrade_operation 2 "mayastor" (upgrade_args false)) empty.

Definition the_plan : gmap string string * Job :=
  match plan rest files "mayastor" (upgrade_args false) with
  | Some p => p
  | None => (∅, mkJob (mkObjectMeta None None None) None None)
  end.

Example upgrade_run_succeeds :
  result_of upgrade_run = Done tt ∧
  world_of upgrade_run = created rest "mayastor" the_plan.1 the_plan.2 empty.
Proof. split; vm_compute; reflexivity. Qed.

(** The cluster once the job has succeeded. *)
Definition finished_job : Job :=
  mkJob the_plan.2.(job_meta) the_plan.2.(job_spec) (Some (mkJobStatus (Some 1%Z))).
Definition finished : store := put KJob (job_name rest) finished_job (world_of upgrade_run).
Definition delete_run := run (api rest files) (delete_upgrade false "mayastor") finished.
End PluginFixture.

Module PluginWitness.
Import SemverRef Fixture PluginUpgrade Store Commands PluginFixture ResourceSpec CommandSpec.

Lemma plan_eq : plan rest files "mayastor" (upgrade_args false) = Some (the_plan.1, the_plan.2).
Proof. vm_compute. reflexivity. Qed.

Lemma create_resources_refines_witness :
  result_of (run (api rest files) (create_upgrade_resources "mayastor" (upgrade_args false)) leftovers) = Done tt ∧
  world_of (run (api rest files) (create_upgrade_resources "mayastor" (upgrade_args false)) leftovers) =
    created rest "mayastor" the_plan.1 the_plan.2 leftovers.
Proof. apply (create_resources_refines rest files); [exact leftovers_named|exact plan_eq]. Defined.

Lemma create_delete_roundtrip_witness :
  world_of (run (api rest files) (do! create_upgrade_resources "mayastor" (upgrade_args false) in
                                  delete_upgrade_resources "mayastor") others) = others.
Proof.
  apply (create_delete_roundtrip rest files "mayastor" (upgrade_args false) the_plan.1 the_plan.2);
    [exact others_named|exact plan_eq|reflexivity..].
Defined.

Lemma created_references_resolve_witness :
  ∃ j, (world_of (run (api rest files) (create_upgrade_resources "mayastor" (upgrade_args false)) empty)).(jobs)
    !! "mayastor-upgrade-v2-8-0" = Some j.
Proof.
  destruct (created_references_resolve rest files "mayastor" (upgrade_args false) the_plan.1 the_plan.2
    empty eq_refl plan_eq) as (j & spec & b & Hj & _).
  exists j. exact Hj.
Defined.

Lemma delete_guarded_witness : saw_success (take 8 (trace_of delete_run)).
Proof.
  destruct (delete_guarded false "mayastor" (take 8 (trace_of delete_run))
    (DeleteObj KJob "mayastor-upgrade-v2-8-0") (inr tt) (drop 9 (trace_of delete_run))
    (result_of delete_run)) as [Hf|Hs].
  - rewrite (take_drop_middle _ 8); [apply run_exec|vm_compute; reflexivity].
  - reflexivity.
  - discriminate Hf.
  - exact Hs.
Defined.

Definition dry_run_run := run (api rest files) (upgrade_operation 2 "mayastor" (upgrade_args true)) empty.

Lemma dry_run_changes_nothing_witness :
  result_of dry_run_run = Done tt ∧ untouched (trace_of dry_run_run).
Proof.
  split; [vm_compute; reflexivity|].
  apply (dry_run_changes_nothing 2 "mayastor" (upgrade_args true) _ (result_of dry_run_run));
    [reflexivity|apply run_exec].
Defined.

(** The first change of the upgrade deletes old events. *)
Definition first_change : nat := 10.

Lemma preflight_gates_changes_witness :
  ∃ t1 t2, take first_change (trace_of upgrade_run) = t1 ++ t2 ∧
    exec (preflight_check 2 "mayastor" (upgrade_args false)) t1 (Done tt).
Proof.
  apply (preflight_gates_changes 2 "mayastor" (upgrade_args false) _
    (EventsDeleteCollection "mayastor"
       "involvedObject.kind=Job,involvedObject.name=mayastor-upgrade-v2-8-0") (inr tt)
    (drop (S first_change) (trace_of upgrade_run)) (result_of upgrade_run)); [|reflexivity].
  rewrite (take_drop_middle _ first_change); [apply run_exec|vm_compute; reflexivity].
Defined.

Definition preflight_run := run (api rest files) (preflight_check 2 "mayastor" (upgrade_args false)) empty.

Lemma preflight_sound_witness :
  ∃ source, source_seen "mayastor" (trace_of preflight_run) source ∧ path_ok source false.
Proof.
  assert (result_of preflight_run = Done tt) as Hr by (vm_compute; reflexivity).
  apply (preflight_sound 2 "mayastor" (upgrade_args false) (trace_of preflight_run)); [|reflexivity].
  rewrite <-Hr. apply run_exec.
Defined.

Lemma volume_checks_exact_witness :
  result_of (run (api rest files) (is_rebuild_in_progress 2) empty) = Done false.
Proof.
  apply (volume_checks_exact (api rest files) (λ _, mkVolumes [] None) empty [[]] 2);
    [reflexivity|repeat constructor|cbn; lia].
Defined.

Definition path_run := run (api rest files) (upgrade_path_validation "mayastor" false) empty.

Lemma plugin_path_agrees_with_job_witness :
  ∃ source, source_seen "mayastor" (trace_of path_run) source ∧
    HelmUpgrade.validate_upgrade_path source (version_new 2 8 0) = Ret tt.
Proof.
  assert (result_of path_run = Done tt) as Hr by (vm_compute; reflexivity).
  apply (plugin_path_agrees_with_job "mayastor" false); [|vm_compute; reflexivity].
  rewrite <-Hr. apply run_exec.
Defined.

Definition config_run := run (api rest files) (create_config_map_data (upgrade_args false)) empty.

Lemma set_file_roundtrip_witness :
  ∃ l, set_file_args (Some {["/home/user/loki.yaml" := "1"]}) ["loki-stack.config=/home/user/loki.yaml"] = inr l.
Proof.
  assert (result_of config_run = Done ({["1" := "retention: 7d"]}, {["/home/user/loki.yaml" := "1"]})) as Hr
    by (vm_compute; reflexivity).
  destruct (set_file_roundtrip (upgrade_args false) {["1" := "retention: 7d"]}
    {["/home/user/loki.yaml" := "1"]} (trace_of config_run)) as (l & Hl & _).
  { rewrite <-Hr. apply run_exec. }
  exists l. exact Hl.
Defined.

Lemma validation_failure_cleans_up_witness :
  world_of (run (api rest files) (handle_upgrade_event
    (mkPluginEvent (Some "Validation Failed") (Some "bad values") None None) "mayastor") finished) =
    deleted rest finished.
Proof.
  apply (validation_failure_cleans_up rest files
    (mkPluginEvent (Some "Validation Failed") (Some "bad values") None None) "mayastor" "bad values"
    (mkEventNote "2.7.0" "2.8.0" "bad values") finished); reflexivity.
Defined.

Lemma image_registry_spec_witness :
  ImageProperties_try_from rest = inr (mkImageProperties None "ghcr.io" (Some "IfNotPresent")).
Proof.
  apply (image_registry_spec rest rest_pod rest_container []
    ["ghcr.io"; "openebs"; "mayastor-api-rest:v2.7.0"]); try reflexivity; [discriminate|].
  apply (bool_decide_unpack _). vm_compute. exact I.
Defined.

Lemma job_access_granted_witness :
  granted Objects.cluster_role_rules (mkAccess "" "pods" "delete") = true ∧
  granted Objects.cluster_role_rules (mkAccess "apps" "controllerrevisions" "list") ≠ true.
Proof.
  split.
  - apply (job_access_granted (PodsDelete "mayastor" "io-engine-a")); [reflexivity|discriminate].
  - intros Hg. eapply (job_access_granted (CtrlRevsList "mayastor" (mkListParams None None None None)));
      [reflexivity|exact Hg|reflexivity].
Defined.
End PluginWitness.
