(* ===== verification/UpgradeHandover.v ===== *)
(** * The plugin and the job which it starts

    The plugin creates the upgrade job with its arguments, and learns what becomes of
    it from the Kubernetes events which the job publishes through its worker task.
    This file puts [PluginUpgrade], [JobUpgrade] and the worker of [JobEvents]
    together: the arguments are those which [opts.rs] declares, the status command
    shows the note of the last event of the job which is in the cluster, and the plugin
    takes the upgrade resources away only after a run of the job which failed before it
    changed anything.  The container of the job may run several times, and a publication
    may fail. *)

From S2P Require Import Prelude Semver Text JobApi JobEvents HelmChart HelmClient HelmValues.
From S2P Require Import HelmUpgrade JobUtils JobDataPlane JobUpgrade JobErrorText JobUpgradeSpec.
From S2P Require Import JobNeeds.
From S2P Require Import PluginApi PluginUpgrade PluginSpec PluginChecks.
From stdpp Require Import base gmap list relations sorting strings.
From Stdlib Require Import ZArith Lia Ascii.
Open Scope string_scope.
Open Scope list_scope.

Module Handover.
Import PluginUpgrade.

(** ** The notes on the wire

    The job serializes the note of an event, the plugin deserializes it: what
    [serde_json] writes of a struct of strings it reads back. *)
Class NoteWire `{EventDeps, PluginDeps} := {
  note_read_back n s : note_to_json n = inr s → note_from_json s = inr n
}.

(** ** What the job has sent *)
Definition sent_event (e : ev JobSig) : option Event :=
  match e with
  | Ev c r =>
      match c return job_res c → option Event with
      | SendEvent x => λ sent : bool, if sent then Some x else None
      | _ => λ _, None
      end r
  end.
Definition events_sent (tr : list (ev JobSig)) : list Event := omap sent_event tr.

Lemma sent_event_inv x e : sent_event x = Some e → x = Ev (S:=JobSig) (SendEvent e) true.
Proof. destruct x as [c r]. destruct c; try done. destruct r; [|done]. by intros [= ->]. Qed.
Lemma events_sent_app tr tr' : events_sent (tr ++ tr') = events_sent tr ++ events_sent tr'.
Proof. apply omap_app. Qed.

(** ** What the plugin finds in the cluster

    A published event appears under the job with its action, reason, note and the
    time of its publication.  A publication can fail; the listing comes in any
    order and may hold events with other reasons. *)
Section Listing.
Context `{Deps}.

Definition recorded (e : Event) (p : PluginEvent) : Prop :=
  p.(action) = Some e.(ev_action) ∧ p.(event_message) = e.(ev_note) ∧ p.(reason) = Some e.(ev_reason).

Definition earlier (p q : PluginEvent) : Prop :=
  match p.(event_time), q.(event_time) with Some a, Some b => (a < b)%Z | _, _ => False end.

(** The listing [l] when the events [es] are there, each published at a time of its own. *)
Definition listed (es : list Event) (l : list PluginEvent) : Prop :=
  ∃ ps, Forall2 recorded es ps ∧ StronglySorted earlier ps ∧
    Permutation (base.filter (λ p, p.(reason) = Some upgrade_event_reason) l) ps.

Lemma sorted_last {A} (R : A → A → Prop) l x y :
  StronglySorted R l → last l = Some x → y ∈ l → y = x ∨ R y x.
Proof.
  intros Hs [k ->]%last_Some Hy. apply elem_of_app in Hy as [Hy|Hy]; [|left; by apply list_elem_of_singleton].
  right. eapply StronglySorted_app_1_elem_of; [done..|by left].
Qed.

(** The latest event of the listing is the one published last. *)
Lemma latest_of_listing es l :
  listed es l →
  match latest_event l with
  | Some p => ∃ e, last es = Some e ∧ recorded e p
  | None => es = []
  end.
Proof.
  intros (ps & Hrec & Hsort & Hperm).
  pose proof (CommandSpec.latest_event_spec l) as Hl. destruct (latest_event l) as [p|].
  - destruct Hl as (Hin & Hr & Hmax).
    assert (p ∈ ps) as Hp by (rewrite <-Hperm; by apply list_elem_of_filter).
    destruct (last ps) as [q|] eqn:Eq; [|by apply last_None in Eq as ->; apply elem_of_nil in Hp].
    assert (q ∈ ps) as Hq by (apply last_Some in Eq as [k ->]; apply elem_of_app; right; by left).
    assert (p = q) as ->.
    { destruct (sorted_last _ _ _ _ Hsort Eq Hp) as [?|He]; [done|].
      rewrite <-Hperm in Hq. apply list_elem_of_filter in Hq as [Hqr Hql].
      specialize (Hmax q Hql Hqr). unfold earlier in He.
      destruct (event_time p) as [a|], (event_time q) as [b|]; try done.
      by rewrite <-Z.compare_lt_iff, Z.compare_antisym in He; cbn in Hmax; destruct (b ?= a)%Z. }
    rewrite last_lookup in Eq. destruct (Forall2_lookup_r _ _ _ _ _ Hrec Eq) as (e & He & Hre).
    rewrite <-(Forall2_length _ _ _ Hrec), <-last_lookup in He. eauto.
  - destruct ps as [|q ps]; [by apply Forall2_nil_inv_r in Hrec|].
    assert (q ∈ q :: ps) as Hq by (by left). rewrite <-Hperm in Hq.
    apply list_elem_of_filter in Hq as [Hqr Hql]. by destruct (Hl q Hql).
Qed.
End Listing.

(** ** The runs of the job

    Kubernetes starts the container of the job again when it has failed or was killed, up
    to a limit, with the same arguments: each time [main] runs with a worker of its own. *)
Record job_run := mkJobRun { run_trace : list (ev JobSig); run_outcome : outcome Error unit }.

(** What the plugin finds at some time: the runs have been going on one after the other,
    each worker was sent some of the events which its run sends in all, and the events
    [es] are some of those which were published until then (others have expired). *)
Definition sees `{Deps} (runs : list job_run) (es : list Event) (l : list PluginEvent) : Prop :=
  ∃ sts, Forall2 (λ p st, rtc Worker.step Worker.init st ∧
                    st.(Worker.sent) `prefix_of` events_sent p.(run_trace)) runs sts ∧
    sublist es (mjoin (Worker.published <$> sts)) ∧ listed es l.

Lemma sees_sent `{Deps} runs es l e :
  sees runs es l → e ∈ es → ∃ p, p ∈ runs ∧ e ∈ events_sent p.(run_trace).
Proof.
  intros (sts & Hr & Hs & _) He. eapply sublist_subseteq in He; [|exact Hs].
  apply list_elem_of_join in He as (x & Hx & (st & -> & Hst)%list_elem_of_fmap).
  apply list_elem_of_lookup in Hst as [i Hi].
  destruct (Forall2_lookup_r _ _ _ _ _ Hr Hi) as (p & Hp & Hreach & [rest Heq]).
  exists p. split; [by eapply list_elem_of_lookup_2|]. rewrite Heq. apply elem_of_app. left.
  by apply (Worker.published_sent st).
Qed.

(** ** The stages and the last event *)
Import Stages.

Lemma accepts_app {S} (P : protocol S) m tr tr' m' :
  accepts P m (tr ++ tr') = Some m' →
  ∃ m1, accepts P m tr = Some m1 ∧ accepts P m1 tr' = Some m'.
Proof.
  revert m. induction tr as [|e tr IH]; cbn; intros m Hm; [by eauto|].
  destruct (mstep P m e) as [m1|]; [by apply IH|done].
Qed.

(** A request which does not change the cluster: neither pods and nodes, nor the
    helm release. *)
Definition harmless (c : job_call) : Prop :=
  restarts c = false ∧ ∀ args, upgrade_cmd c = Some args → dry_args args = true.

Definition any_harmless (tr : list (ev JobSig)) : Prop :=
  Forall (λ e : ev JobSig, match e with Ev c _ => harmless c end) tr.

Definition is_action (a : EventAction) (e : Event) : Prop := e.(ev_action) = action_to_string a.
#[export] Instance is_action_dec a e : Decision (is_action a e).
Proof. unfold is_action. apply _. Defined.

(** After a success was reported nothing else is reported; a failed validation is
    reported only as long as nothing has been changed. *)
Definition told (tr : list (ev JobSig)) (m : stage) : Prop :=
  (∀ e, e ∈ events_sent tr → is_action Successful e → ∃ b, m.(at_phase) = Succeeded b) ∧
  (∀ e, e ∈ events_sent tr → is_action ValidationFailed e → m.(at_phase) = Reported true) ∧
  (m.(at_phase) = Preparing ∨ m.(at_phase) = Reported true → any_harmless tr).

Lemma next_phase_actions p e p' :
  next_phase p e = Some p' →
  (is_action Successful e → ∃ b, p' = Succeeded b) ∧
  (is_action ValidationFailed e → p' = Reported true) ∧
  p' ≠ Preparing ∧ (p' = Reported true → p = Preparing) ∧ (∀ b, p ≠ Succeeded b) ∧ p ≠ Reported true.
Proof.
  destruct e as [t r n a]. unfold next_phase, is_action. cbn.
  destruct p; cbn; repeat case_bool_decide; intros; simplify_eq;
    repeat match goal with H : _ ∧ _ |- _ => destruct H as [_ ->] end; split_and!; naive_solver.
Qed.

Lemma told_step tr m e m' : told tr m → stage_step m e = Some m' → told (tr ++ [e]) m'.
Proof.
  intros (Hs & Hv & Hh) Hst. destruct e as [c r]. unfold told.
  assert (any_harmless tr → harmless c → any_harmless (tr ++ [Ev (S:=JobSig) c r])) as Hsnoc
    by (intros; by apply Forall_app_2, Forall_singleton).
  rewrite events_sent_app. unfold stage_step in Hst. destruct (closed m); [done|].
  destruct (upgrade_cmd c) as [args|] eqn:Ec.
  { assert (events_sent [Ev (S:=JobSig) c r] = []) as -> by (by destruct c).
    rewrite app_nil_r. destruct (dry_args args) eqn:Ed.
    - assert (m.(at_phase) = Preparing ∧ m'.(at_phase) = Preparing) as [Ep Ep']
        by (destruct (at_phase m), c; simplify_eq; done).
      rewrite Ep', Ep in *. split_and!; [done..|]. intros _. apply Hsnoc; [auto|].
      split; [by destruct c|]. intros ? [= ->]%(eq_trans (eq_sym Ec)). done.
    - case_bool_decide as Hp; [|done]. injection Hst as <-. destruct Hp as [Hp _].
      rewrite Hp in *. split_and!; [done..|]. by intros [?|?]. }
  destruct (restarts c) eqn:Er.
  { case_bool_decide as Hp; [|done]. injection Hst as <-.
    assert (events_sent [Ev (S:=JobSig) c r] = []) as -> by (by destruct c).
    rewrite app_nil_r, Hp in *. split_and!; [done..|]. by intros [?|?]. }
  assert (harmless c) as Hc by (split; [done|by rewrite Ec]).
  destruct c; try (injection Hst as <-; rewrite app_nil_r; split_and!; [done..|];
    intros; apply Hsnoc; auto).
  destruct (next_phase (at_phase m) e) as [p|] eqn:En; [|done]. injection Hst as <-.
  destruct (next_phase_actions _ _ _ En) as (H1 & H2 & H3 & H4 & H5 & H6). cbn.
  destruct r; cbn.
  - split_and!.
    + intros x [Hx|Hx]%elem_of_app Ha; [by destruct (Hs x Hx Ha) as [b Hb]; destruct (H5 b)|].
      apply list_elem_of_singleton in Hx as ->. auto.
    + intros x [Hx|Hx]%elem_of_app Ha; [by destruct H6; eapply Hv|].
      apply list_elem_of_singleton in Hx as ->. auto.
    + intros [Hp|Hp]; [done|]. apply Hsnoc; auto.
  - rewrite app_nil_r. split_and!.
    + intros x Hx Ha. destruct (Hs x Hx Ha) as [b Hb]. by destruct (H5 b).
    + intros x Hx Ha. by destruct H6; eapply Hv.
    + by intros [?|?].
Qed.

Lemma told_accepts tr m : accepts stages start tr = Some m → told tr m.
Proof.
  revert m. induction tr as [|e tr IH] using rev_ind; intros m Hm.
  - injection Hm as <-. split_and!; [by intros ? ?%elem_of_nil|by intros ? ?%elem_of_nil|by constructor].
  - apply accepts_app in Hm as (m1 & Hm1 & Hm). cbn in Hm.
    destruct (stage_step m1 e) as [m2|] eqn:Es; [|done]. injection Hm as <-.
    eapply told_step; eauto.
Qed.

(** ** Every event of the job can be read by the plugin *)
Section Announce.
Import JobNeeds.
Context `{Deps} `{Semver} `{SJ : SerdeJson} `{RegexCrate} `{HashOrder} `{SortUnstable}.
Context `{NW : NoteWire}.

(** The message tells a success from everything else. *)
Definition readable (e : Event) : bool :=
  match e.(ev_note) with
  | Some s =>
      match note_from_json s with
      | inr n => bool_decide (n.(message) = Upgrade.success_msg ↔ is_action Successful e)
      | inl _ => false
      end
  | None => false
  end.
Definition announces (c : op JobSig) : bool :=
  match c with SendEvent e => readable e | _ => true end.

(** No event is sent. *)
Definition silent (c : op JobSig) : bool :=
  match c with SendEvent _ => false | _ => true end.

Lemma neutral_silent c : neutral c = true → silent c = true.
Proof. by destruct c. Qed.
Lemma data_plane_silent c : data_plane_op c = true → silent c = true.
Proof. by destruct c. Qed.
Lemma silent_announces c : silent c = true → announces c = true.
Proof. by destruct c. Qed.
Lemma announces_quiet {A} (p : job A) : uses silent p → uses announces p.
Proof. apply uses_weaken, silent_announces. Qed.

Lemma silent_build fuel b : uses silent (HelmUpgrade.build fuel b).
Proof. apply (uses_weaken _ _ _ neutral_silent), uses_build. Qed.
Lemma silent_validate args : uses silent (Validators.parse_cli_args args).
Proof. apply (uses_weaken _ _ _ neutral_silent), uses_validate. Qed.
Lemma silent_recorder b : uses silent (Recorder.build b).
Proof. apply (uses_weaken _ _ _ neutral_silent), uses_recorder_build. Qed.
Lemma silent_hash fuel ns l f k :
  uses silent (KubeClient.latest_controller_revision_hash fuel ns l f k).
Proof. apply (uses_weaken _ _ _ neutral_silent), uses_hash. Qed.
Lemma silent_list_pods fuel ns l f : uses silent (KubeClient.list_pods fuel ns l f).
Proof. apply (uses_weaken _ _ _ neutral_silent), uses_list_pods. Qed.

Lemma uses_publish t er msg a :
  (msg = Upgrade.success_msg ↔ a = Successful) →
  uses announces (Recorder.publish_typed t er msg a).
Proof.
  intros Hm. unfold Recorder.publish_typed, Recorder.publish.
  destruct (note_to_json _) as [|s] eqn:Es; [done|]. cbn. destruct (Recorder.event_sender er); [|done].
  split; [|by intros []]. unfold announces, readable. cbn.
  rewrite (note_read_back _ _ Es). apply bool_decide_eq_true. rewrite Hm.
  unfold is_action. split; [by intros ->|]. apply (action_to_string_inj a Successful).
Qed.

Lemma yields_dry_run u : yields (HelmUpgrade.dry_run u) (λ run, uses silent run).
Proof.
  unfold HelmUpgrade.dry_run, HelmReleaseClient.upgrade, HelmReleaseClient.get_values_as_yaml,
    HelmReleaseClient.helm, ensure_success, utf8.
  destruct u as [c|u]; [destruct (HelmUpgrade.already_upgraded c); [done|]; apply yields_then; intros _|];
    cbn [yields]; solve_uses.
Qed.
Lemma silent_dry_run u : uses silent (HelmUpgrade.dry_run u).
Proof.
  unfold HelmUpgrade.dry_run, HelmReleaseClient.upgrade, HelmReleaseClient.helm, ensure_success, utf8.
  solve_uses.
Qed.

(** *** Properties of the whole job, from those of its parts

    The job is put together from parts which send no event, from the publication of
    its stages, and from steps whose failure is published.  What holds of these, and is
    kept by sequencing and by the handling of the result in [upgrade], holds of the job. *)
Record compositional (T : ∀ A, job A → Prop) : Prop := {
  of_silent A (p : job A) : uses silent p → T A p;
  of_bind A B (p : job A) (f : A → job B) P :
    T A p → yields p P → (∀ a, P a → T B (f a)) → T B (bind f p);
  of_normal er msg a :
    (msg = Upgrade.success_msg ↔ a = Successful) → a ≠ ActFailed → a ≠ ValidationFailed →
    T unit (Recorder.publish_normal er msg a);
  of_or_publish A er v (p : job A) : uses silent p → T A (Upgrade.or_publish er v p);
  of_result (p : job unit) :
    T unit p → T unit (let! r := attempt p in do! req ShutdownWorker in lift id r)
}.

Section Whole.
Context (T : ∀ A, job A → Prop) (HT : compositional T).

Lemma whole_then {A B} (p : job A) (f : A → job B) :
  T A p → (∀ a, T B (f a)) → T B (bind f p).
Proof.
  intros Hp Hf. apply (of_bind T HT A B p f (λ _, True)); [done| |by intros].
  clear. induction p; cbn; eauto.
Qed.

Lemma whole_io_engines fuel opts er sv values :
  T unit (Upgrade.upgrade_io_engines fuel opts er sv values).
Proof.
  unfold Upgrade.upgrade_io_engines. apply whole_then; [apply (of_silent T HT), uses_lift|intros _].
  apply whole_then; [apply (of_silent T HT), silent_hash|intros hash].
  apply whole_then; [apply (of_silent T HT), silent_list_pods|intros pods].
  apply whole_then; [by apply (of_normal T HT)|intros _].
  apply whole_then; [|by intros _; apply (of_normal T HT)].
  apply (of_or_publish T HT), (uses_weaken _ _ _ data_plane_silent), uses_dp_upgrade.
Qed.

Lemma whole_product fuel opts er : T unit (Upgrade.upgrade_product fuel opts er).
Proof.
  unfold Upgrade.upgrade_product.
  apply whole_then; [apply (of_silent T HT), silent_build|intros u].
  eapply (of_bind T HT); [apply (of_or_publish T HT), silent_dry_run| |intros run Hrun].
  { unfold Upgrade.or_publish. eapply yields_bind; [apply yields_attempt, yields_dry_run|].
    intros [e|r]; [by intros _; apply yields_then|done]. }
  do 2 (apply whole_then; [by apply (of_normal T HT)|intros _]).
  apply whole_then; [by apply (of_or_publish T HT)|intros values].
  apply whole_then; [by apply (of_normal T HT)|intros _].
  apply whole_then; [|by intros _; apply (of_normal T HT)].
  destruct (JobUpgrade.skip_data_plane_restart opts);
    [by apply (of_silent T HT)|apply whole_io_engines].
Qed.

Lemma whole_main fuel args : T unit (Upgrade.main fuel args).
Proof.
  unfold Upgrade.main, Upgrade.upgrade.
  apply whole_then; [apply (of_silent T HT), silent_validate|intros opts].
  apply whole_then; [apply (of_silent T HT), silent_recorder|intros er].
  apply (of_result T HT), whole_product.
Qed.
End Whole.

Lemma announces_compositional : compositional (λ A p, uses announces p).
Proof.
  split.
  - intros A p. apply announces_quiet.
  - intros A B p f P. apply uses_bind_yields.
  - intros er msg a Hm _ _. by apply uses_publish.
  - intros A er v p Hp. unfold Upgrade.or_publish.
    apply uses_bind; [by apply uses_attempt, announces_quiet|]. intros [e|a]; [|done].
    apply uses_bind; [|done]. unfold Recorder.publish_unrecoverable. apply uses_bind; [|done].
    apply uses_attempt, uses_publish. split; [by intros [=]|by destruct v].
  - intros p Hp. apply uses_bind; [by apply uses_attempt|]. intros r.
    apply uses_bind; [done|intros _]. apply uses_lift.
Qed.

Lemma uses_main fuel args : uses announces (Upgrade.main fuel args).
Proof. apply (whole_main _ announces_compositional). Qed.

(** *** A success is reported with the versions of the upgrade *)
Definition unsuccessful (c : op JobSig) : bool :=
  match c with SendEvent e => bool_decide (¬ is_action Successful e) | _ => true end.
Lemma unsuccessful_silent {A} (p : job A) : uses silent p → uses unsuccessful p.
Proof. apply uses_weaken. by intros []. Qed.
Lemma unsuccessful_publish t er msg a : a ≠ Successful → uses unsuccessful (Recorder.publish_typed t er msg a).
Proof.
  intros Ha. unfold Recorder.publish_typed, Recorder.publish. apply uses_bind; [apply uses_lift|intros s].
  destruct (Recorder.event_sender er); [|done]. split; [|by intros []]. apply bool_decide_eq_true.
  intros Hs. by apply (action_to_string_inj a Successful) in Hs.
Qed.
Lemma unsuccessful_or_publish {A} er v (p : job A) : uses silent p → uses unsuccessful (Upgrade.or_publish er v p).
Proof.
  intros Hp. unfold Upgrade.or_publish. apply uses_bind; [by apply uses_attempt, unsuccessful_silent|].
  intros [e|a]; [|done]. apply uses_bind; [|done]. unfold Recorder.publish_unrecoverable. apply uses_bind; [|done].
  apply uses_attempt, unsuccessful_publish. by destruct v.
Qed.
Lemma unsuccessful_io_engines fuel opts er sv values :
  uses unsuccessful (Upgrade.upgrade_io_engines fuel opts er sv values).
Proof.
  unfold Upgrade.upgrade_io_engines. apply uses_bind; [apply uses_lift|intros _].
  apply uses_bind; [apply unsuccessful_silent, silent_hash|intros hash].
  apply uses_bind; [apply unsuccessful_silent, silent_list_pods|intros pods].
  apply uses_bind; [by apply unsuccessful_publish|intros _].
  apply uses_bind; [|by intros _; apply unsuccessful_publish].
  apply unsuccessful_or_publish, (uses_weaken _ _ _ data_plane_silent), uses_dp_upgrade.
Qed.

(** Where a success is sent, it is the last thing which [upgrade_product] does. *)
Lemma product_success fuel opts er tr1 e r tr2 o :
  er.(Recorder.event_sender) = true → is_action Successful e →
  exec (Upgrade.upgrade_product fuel opts er) (tr1 ++ Ev (S:=JobSig) (SendEvent e) r :: tr2) o →
  ∃ u s, upgrader_of fuel opts tr1 u ∧
    note_to_json (mkEventNote (version_to_string (HelmUpgrade.source_version u))
                    (version_to_string (HelmUpgrade.target_version u)) Upgrade.success_msg) = inr s ∧
    e.(ev_note) = Some s.
Proof.
  intros Her Ha Hx. assert (unsuccessful (SendEvent e) = false) as Hc
    by (apply bool_decide_eq_false; tauto).
  unfold Upgrade.upgrade_product in Hx.
  apply (exec_gated unsuccessful) in Hx as (u & ta & t & Hu & -> & Hx);
    [|apply unsuccessful_silent, silent_build|done].
  apply (exec_gated unsuccessful) in Hx as (run & tb & t1 & Hb & -> & Hx);
    [|apply unsuccessful_or_publish, silent_dry_run|done].
  assert (uses silent run) as Hrun.
  { eapply yields_sound, Hb. unfold Upgrade.or_publish. eapply yields_bind; [apply yields_attempt, yields_dry_run|].
    intros [x|q]; [by intros _; apply yields_then|done]. }
  do 2 (apply (exec_gated unsuccessful) in Hx as (? & ? & ? & _ & -> & Hx); [|by apply unsuccessful_publish|done]).
  apply (exec_gated unsuccessful) in Hx as (? & ? & ? & _ & -> & Hx); [|by apply unsuccessful_or_publish|done].
  apply (exec_gated unsuccessful) in Hx as (? & ? & ? & _ & -> & Hx); [|by apply unsuccessful_publish|done].
  apply (exec_gated unsuccessful) in Hx as (? & ? & ? & _ & -> & Hx);
    [|destruct (JobUpgrade.skip_data_plane_restart opts); [done|apply unsuccessful_io_engines]|done].
  unfold Recorder.publish_normal, Recorder.publish_typed, Recorder.publish in Hx. cbn [Recorder.event_sender
    Recorder.set_target_version Recorder.set_source_version] in Hx. rewrite Her in Hx.
  apply (exec_gated unsuccessful) in Hx as (s & ? & ? & Hs & -> & Hx); [|apply uses_lift|done].
  apply exec_lift_done in Hs as [-> Hs]. exists u, s. split; [by exists [], ta; eexists|]. split; [exact Hs|].
  apply (uses_sound (λ c : op JobSig, match c with SendEvent e => bool_decide (e.(ev_note) = Some s) | _ => true end))
    in Hx; [|by split; [apply bool_decide_eq_true|intros []]].
  apply Forall_app in Hx as [_ [Hx _]%Forall_cons]. by apply bool_decide_eq_true in Hx.
Qed.
Lemma main_success fuel args tr o e :
  exec (Upgrade.main fuel args) tr o → e ∈ events_sent tr → is_action Successful e →
  ∃ u s, upgrader_of fuel args tr u ∧
    note_to_json (mkEventNote (version_to_string (HelmUpgrade.source_version u))
                    (version_to_string (HelmUpgrade.target_version u)) Upgrade.success_msg) = inr s ∧
    e.(ev_note) = Some s.
Proof.
  intros Hx (x & Hin & ->%sent_event_inv)%list_elem_of_omap Ha.
  apply list_elem_of_split in Hin as (t1 & t2 & ->).
  assert (unsuccessful (SendEvent e) = false) as Hc by (apply bool_decide_eq_false; tauto).
  apply (main_product unsuccessful) in Hx as (er & t0 & t & tr2' & o' & -> & Her & Hx); [|by intros []|done|done].
  apply product_success in Hx as (u & s & Hu & Hs & Hn); [|done..]. exists u, s. split; [|done].
  rewrite <-app_assoc. by apply upgrader_of_mono.
Qed.

(** *** A reported failure names the error of the job *)
Definition is_failure (e : Event) : Prop := is_action ActFailed e ∨ is_action ValidationFailed e.

Definition tells (err : Error) (e : Event) : bool :=
  match e.(ev_note) with
  | Some s =>
      match note_from_json s with
      | inr n => bool_decide (n.(message) = "Failed to upgrade: " +:+ JobErrorText.display err)%string
      | inl _ => false
      end
  | None => false
  end.

Definition tells_cause {A} (p : job A) : Prop := ∀ tr o, exec p tr o →
  match o with
  | Done _ => ∀ e, e ∈ events_sent tr → ¬ is_failure e
  | Failed err => ∀ e, e ∈ events_sent tr → is_failure e → tells err e = true
  | _ => True
  end.

(** The events of a run which sends only such events. *)
Lemma events_sent_forall {A} (ok : Event → bool) (p : job A) tr o e :
  uses (λ c : op JobSig, match c with SendEvent e => ok e | _ => true end) p → exec p tr o →
  e ∈ events_sent tr → ok e = true.
Proof.
  intros Hu Hx%(uses_sound _ _ _ _ Hu) ([c r] & Hin & He)%list_elem_of_omap.
  rewrite Forall_forall in Hx. specialize (Hx _ Hin). cbn in Hx, He.
  destruct c; try done. destruct r; by simplify_eq.
Qed.

Lemma silent_run {A} (p : job A) tr o : uses silent p → exec p tr o → events_sent tr = [].
Proof.
  intros Hu Hx. destruct (events_sent tr) as [|e l] eqn:E; [done|].
  enough (false = true) by done. eapply (events_sent_forall (λ _, false)); [|done|rewrite E; by left].
  eapply uses_weaken; [|exact Hu]. by intros [].
Qed.

Lemma tells_calm {A} (p : job A) :
  uses (λ c : op JobSig, match c with
        | SendEvent e => bool_decide (¬ is_action ActFailed e) && bool_decide (¬ is_action ValidationFailed e)
        | _ => true end) p → tells_cause p.
Proof.
  intros Hu tr o Hx. assert (∀ e, e ∈ events_sent tr → ¬ is_failure e) as Hn.
  { intros e He. pose proof (events_sent_forall _ _ _ _ _ Hu Hx He) as [H1' H2']%andb_prop.
    apply bool_decide_eq_true in H1', H2'. by intros [?|?]. }
  destruct o as [|err| |]; [done| |done..]. intros x Hin Hf. by destruct (Hn x Hin).
Qed.

Lemma tells_silent {A} (p : job A) : uses silent p → tells_cause p.
Proof. intros Hu. apply tells_calm. eapply uses_weaken; [|exact Hu]. by intros []. Qed.

Lemma tells_bind {A B} (p : job A) (f : A → job B) P :
  tells_cause p → yields p P → (∀ a, P a → tells_cause (f a)) → tells_cause (bind f p).
Proof.
  intros Hp Hy Hf tr o Hx.
  apply exec_bind_inv in Hx as [(a & ta & tb & Ha & Hb & ->)|[(e & Hx & ->)|[[Hx ->]|[Hx ->]]]];
    [|exact (Hp _ _ Hx)|done..].
  pose proof (Hp _ _ Ha) as Hpa. cbn in Hpa.
  pose proof (Hf a (yields_sound _ _ _ _ Hy Ha) _ _ Hb) as Hfb.
  destruct o as [|err| |]; [| |done..]; intros x; rewrite events_sent_app;
    intros [Hin|Hin]%elem_of_app; naive_solver.
Qed.

Lemma tells_normal er msg a :
  a ≠ ActFailed → a ≠ ValidationFailed → tells_cause (Recorder.publish_normal er msg a).
Proof.
  intros H1' H2'. apply tells_calm. unfold Recorder.publish_normal, Recorder.publish_typed,
    Recorder.publish.
  apply uses_bind; [apply uses_lift|intros s]. destruct (Recorder.event_sender er); [|done].
  split; [|by intros []]. cbn. unfold is_action. cbn.
  rewrite !bool_decide_true; [done|intros Ha; by apply (action_to_string_inj a ValidationFailed) in Ha|].
  intros Ha; by apply (action_to_string_inj a ActFailed) in Ha.
Qed.

Lemma tells_or_publish {A} er v (p : job A) : uses silent p → tells_cause (Upgrade.or_publish er v p).
Proof.
  intros Hu tr o Hx. unfold Upgrade.or_publish in Hx.
  apply exec_bind_inv in Hx as [(r & ta & tb & Ha & Hb & ->)|[(e & Hx & ->)|[[_ ->]|[_ ->]]]];
    [|by apply exec_attempt_inv in Hx|done..].
  assert (events_sent ta = []) as Hta by (eapply silent_run, Ha; exact (uses_attempt _ _ Hu)).
  rewrite events_sent_app, Hta. cbn. destruct r as [err|a].
  2: { destruct Hb as [[-> ->]|[-> ->]]; [done|]. by intros ? ?%elem_of_nil. }
  apply exec_bind_inv in Hb as [(u & tc & td & Hc & Hd & ->)|[(e & Hx & ->)|[[_ ->]|[_ ->]]]].
  + destruct Hd as [[-> ->]|[-> ->]]; [done|]. rewrite app_nil_r. intros e He _.
    eapply events_sent_forall; [|exact Hc|exact He].
    unfold Recorder.publish_unrecoverable, Recorder.publish_warning, Recorder.publish_typed,
      Recorder.publish.
    apply uses_bind; [apply uses_attempt|done].
    destruct (note_to_json _) as [|s] eqn:Es; [done|]. cbn. destruct (Recorder.event_sender er); [|done].
    split; [|by intros []]. unfold tells. cbn. rewrite (note_read_back _ _ Es).
    by apply bool_decide_eq_true.
  + exfalso. unfold Recorder.publish_unrecoverable in Hx.
    apply exec_bind_inv in Hx as [(? & ? & ? & _ & Hx & _)|[(e' & Hx & _)|[[_ ?]|[_ ?]]]]; try done.
    * by destruct Hx as [[_ ?]|[_ ?]].
    * by apply exec_attempt_inv in Hx.
  + done.
  + done.
Qed.

Lemma tells_result (p : job unit) :
  tells_cause p → tells_cause (let! r := attempt p in do! req ShutdownWorker in lift id r).
Proof.
  intros Hp tr o Hx.
  apply exec_bind_inv in Hx as [(r & ta & tb & Ha & Hb & ->)|[(e & Hx & ->)|[[_ ->]|[_ ->]]]];
    [|by apply exec_attempt_inv in Hx|done..].
  apply exec_attempt_inv in Ha.
  assert (events_sent tb = []) as Htb.
  { eapply silent_run; [|exact Hb]. apply uses_bind; [done|intros _]. apply uses_lift. }
  rewrite events_sent_app, Htb, app_nil_r.
  apply exec_bind_inv in Hb as [(u & tc & td & _ & Hd & ->)|[(e & Hx & ->)|[[_ ->]|[_ ->]]]];
    [|by destruct Hx as [[_ ?]|(? & ? & _ & [[_ ?]|[_ ?]])]|done..].
  destruct r as [err|[]]; cbn in Hd; destruct Hd as [[_ ->]|[_ ->]]; try done; exact (Hp _ _ Ha).
Qed.

Lemma tells_compositional : compositional (@tells_cause).
Proof.
  split; eauto using @tells_silent, @tells_bind, tells_normal, @tells_or_publish, tells_result.
Qed.

Lemma main_tells_cause fuel args tr err e :
  exec (Upgrade.main fuel args) tr (Failed err) → e ∈ events_sent tr → is_failure e →
  tells err e = true.
Proof. intros Hx. exact (whole_main _ tells_compositional fuel args _ _ Hx e). Qed.

(** ** The last event of a job which succeeded *)
Lemma publish_done t er msg a tr u :
  er.(Recorder.event_sender) = true → exec (Recorder.publish_typed t er msg a) tr (Done u) →
  ∃ s, note_to_json (Recorder.note_of er msg) = inr s ∧
    events_sent tr = [mkEvent t upgrade_event_reason (Some s) (action_to_string a)].
Proof.
  intros Her Hx. unfold Recorder.publish_typed, Recorder.publish in Hx. rewrite Her in Hx.
  apply exec_bind_done in Hx as (s & tr1 & tr2 & [-> Hs]%exec_lift_done & Hx & ->).
  apply exec_bind_done in Hx as (b & tr3 & tr4 & Hb & Hx & ->).
  apply (exec_req_inv (SendEvent _) tr3 b) in Hb as ->.
  exists s. split; [done|]. cbn in b. destruct b; [|by apply exec_throw_done in Hx].
  by apply exec_ret_done in Hx as [-> _].
Qed.

Lemma product_done fuel opts er tr v :
  er.(Recorder.event_sender) = true → exec (Upgrade.upgrade_product fuel opts er) tr (Done v) →
  ∃ u s, upgrader_of fuel opts tr u ∧
    note_to_json (mkEventNote (version_to_string (HelmUpgrade.source_version u))
                    (version_to_string (HelmUpgrade.target_version u)) Upgrade.success_msg) = inr s ∧
    last (events_sent tr) = Some (mkEvent Normal upgrade_event_reason (Some s) "Successful").
Proof.
  intros Her Hx. unfold Upgrade.upgrade_product in Hx.
  apply exec_bind_done in Hx as (u & t1 & t2 & Hu & Hx & ->).
  apply exec_bind_done in Hx as (run & t3 & t4 & _ & Hx & ->).
  do 4 (apply exec_bind_done in Hx as (? & ? & ? & _ & Hx & ->)).
  apply exec_bind_done in Hx as (? & t5 & t6 & _ & Hx & ->).
  apply publish_done in Hx as (s & Hs & Ht); [|done].
  exists u, s. split_and!; [|done|].
  - exists [], t1. by eexists.
  - rewrite !events_sent_app, Ht, !app_assoc. by apply last_snoc.
Qed.

Lemma main_done fuel args tr v :
  exec (Upgrade.main fuel args) tr (Done v) →
  ∃ u s, upgrader_of fuel args tr u ∧
    note_to_json (mkEventNote (version_to_string (HelmUpgrade.source_version u))
                    (version_to_string (HelmUpgrade.target_version u)) Upgrade.success_msg) = inr s ∧
    last (events_sent tr) = Some (mkEvent Normal upgrade_event_reason (Some s) "Successful").
Proof.
  intros Hx. unfold Upgrade.main, Upgrade.upgrade in Hx.
  apply exec_bind_done in Hx as (opts & t1 & t2 & Hv & Hx & ->).
  apply (yields_sound _ _ _ _ (yields_args args)) in Hv as ->.
  apply exec_bind_done in Hx as (er & t3 & t4 & Her & Hx & ->).
  apply (yields_sound _ _ _ _ (yields_recorder _)) in Her.
  apply exec_bind_done in Hx as (r & t5 & t6 & Hp & Hx & ->).
  apply exec_bind_done in Hx as (d & t7 & t8 & Hd & Hx & ->).
  apply (exec_req_inv ShutdownWorker t7 d) in Hd as ->.
  apply exec_lift_done in Hx as [-> ->].
  apply exec_attempt_inv in Hp.
  destruct (product_done _ _ _ _ _ Her Hp) as (u & s & Hu & Hs & Hl).
  exists u, s. split_and!; [|done|].
  - rewrite (app_assoc t1). by apply upgrader_of_mono.
  - rewrite !events_sent_app. cbn. rewrite app_nil_r, !last_app, Hl. done.
Qed.

(** ** The status command *)
Definition printed_line (e : ev PluginSig) : option string :=
  match e with Ev (Println line) _ => Some line | _ => None end.
Definition printed (tr : list (ev PluginSig)) : list string := omap printed_line tr.

Definition status_lines (n : EventNote) : list string :=
  ["Upgrade From: " +:+ n.(from_version); "Upgrade To: " +:+ n.(to_version);
   "Upgrade Status: " +:+ n.(message)]%string.

(** The API server of [Store.api], with the events [l] under the job. *)
Definition with_events (deployment : Deployment) (files : gmap string string) (l : list PluginEvent)
  : handler PluginSig Store.store := λ c s,
  match c return plugin_res c * Store.store with
  | EventsList _ _ => (inr l, s)
  | c => Store.api deployment files c s
  end.

Lemma status_run deployment files l ns s :
  let r := run (with_events deployment files l) (create_get_upgrade_resource ns) s in
  match latest_event l with
  | None => result_of r = Failed (Returned PluginError.UpgradeEventNotPresent)
  | Some p => ∀ d n, p.(event_message) = Some d → note_from_json d = inr n →
      result_of r = Done tt ∧ printed (trace_of r) = status_lines n
  end.
Proof.
  cbn. destruct (labels (dep_meta deployment)) as [ls|]; cbn;
    (destruct (latest_event l) as [p|]; cbn; [|done]); intros d n Hd Hn;
    unfold log_upgrade_result; rewrite Hd; cbn; rewrite Hn; done.
Qed.

(** What a listing says of the job. *)
Lemma last_readable tr fuel args o e :
  exec (Upgrade.main fuel args) tr o → e ∈ events_sent tr →
  ∃ d n, e.(ev_note) = Some d ∧ note_from_json d = inr n ∧
    (n.(message) = Upgrade.success_msg ↔ is_action Successful e).
Proof.
  intros Hx%(uses_sound announces); [|apply uses_main]. intros ([c r] & Hin & He)%list_elem_of_omap.
  rewrite Forall_forall in Hx. specialize (Hx _ Hin). cbn in Hx.
  destruct c; try done. cbn in He. destruct r; [|done]. injection He as ->.
  cbn in Hx. unfold readable in Hx. destruct (ev_note e) as [d|]; [|done].
  destruct (note_from_json d) as [|n] eqn:En; [done|]. exists d, n. by apply bool_decide_eq_true in Hx.
Qed.
End Announce.

(** ** When the plugin takes the upgrade resources away *)
Section Cleanup.
Context `{Deps} `{Semver} `{SerdeYaml} `{EventDeps} `{PluginDeps}.

(** The creation itself only replaces the config map. *)
Definition keeps (c : op PluginSig) : bool :=
  match c with DeleteObj k _ => bool_decide (k = KConfigMap) | _ => true end.

Lemma read_only_keeps c : read_only c = true → keeps c = true.
Proof. by destruct c. Qed.
Lemma keeps_ask c : keeps c = true → uses keeps (ask c).
Proof. intros Hc. by apply (uses_call (S:=PluginSig)). Qed.
Lemma keeps_context {X A} f (r : X + A) : uses keeps (context f r).
Proof. apply uses_lift. Qed.
Lemma keeps_some_or {A} e (o : option A) : uses keeps (some_or e o).
Proof. apply uses_ok_or. Qed.
Lemma keeps_reads {A} (p : plugin A) : reads p → uses keeps p.
Proof. apply uses_weaken, read_only_keeps. Qed.
#[local] Hint Resolve keeps_ask keeps_context keeps_some_or : uses.

Lemma keeps_config_data args : uses keeps (create_config_map_data args).
Proof. unfold create_config_map_data, config_map_step, fail. solve_uses. Qed.
Lemma keeps_print_named m f : uses keeps (print_named m f).
Proof. unfold print_named, unwrap. solve_uses. Qed.
Lemma keeps_print_namespaced m f : uses keeps (print_namespaced m f).
Proof. unfold print_namespaced, unwrap. solve_uses. Qed.
Lemma keeps_rest ns : uses keeps (get_deployment_for_rest ns).
Proof. apply keeps_reads, Commands.reads_rest. Qed.
#[local] Hint Resolve keeps_config_data keeps_print_named keeps_print_namespaced keeps_rest : uses.

Lemma keeps_create ns args : uses keeps (create_upgrade_resources ns args).
Proof.
  unfold create_upgrade_resources. apply uses_bind; [apply keeps_reads, Commands.reads_resources_new|].
  intros rel. unfold service_account_actions, cluster_role_actions, cluster_role_binding_actions,
    config_map_actions, config_map_create, job_actions, create_job, resource_actions. solve_uses.
Qed.

Lemma keeps_latest ns rel : uses keeps (get_latest_upgrade_event ns rel).
Proof. unfold get_latest_upgrade_event. solve_uses. Qed.

(** The plugin saw an event list whose latest event says so. *)
Definition saw_failed_validation (tr : list (ev PluginSig)) : Prop :=
  ∃ ns sel l p, event (EventsList ns sel) (inr l) ∈ tr ∧ latest_event l = Some p ∧
    p.(action) = Some "Validation Failed"%string.

Lemma saw_mono tr tr' : (∀ e, e ∈ tr → e ∈ tr') → saw_failed_validation tr → saw_failed_validation tr'.
Proof. intros Hin (ns & sel & l & p & H1' & H2' & H3'). exists ns, sel, l, p. eauto. Qed.

Lemma await_cleanup n ns rel t1 c r t2 o :
  exec (await_event n ns rel) (t1 ++ event c r :: t2) o → keeps c = false → saw_failed_validation t1.
Proof.
  revert t1. induction n as [|n IH]; intros t1 Hx Hc; cbn [await_event] in Hx.
  { destruct Hx as [[Ht _]|[Ht _]]; by destruct t1. }
  apply (exec_gated keeps) in Hx as (? & ta & t & _ & -> & Hx); [|solve_uses|done].
  apply (exec_gated keeps) in Hx as (res & tb & t' & Hl & -> & Hx);
    [|apply uses_attempt, keeps_latest|done].
  destruct res as [err|p].
  { apply IH in Hx; [|done]. eapply saw_mono; [|done]. set_solver. }
  apply exec_attempt_inv in Hl. unfold get_latest_upgrade_event in Hl. plugin_inv.
  exists ns, (upgrade_event_selector rel UPGRADE_JOB_NAME_SUFFIX).
  unfold handle_upgrade_event in Hx. destruct (action p) as [a|] eqn:Ea.
  - case_decide as Ev; [subst a|]. 2: { exfalso. eapply uses_sound in Hx; [|by apply keeps_ask].
      rewrite Forall_app, Forall_cons in Hx. destruct Hx as (_ & Hx & _). congruence. }
    do 2 eexists. split_and!; [|done..]. set_solver.
  - exfalso. destruct Hx as [[Ht _]|[Ht _]]; by destruct t'.
Qed.

Lemma upgrade_cleanup fuel ns args t1 c r t2 o :
  exec (upgrade_operation fuel ns args) (t1 ++ event c r :: t2) o → keeps c = false →
  saw_failed_validation t1.
Proof.
  intros Hx Hc. unfold upgrade_operation in Hx.
  apply (exec_gated keeps) in Hx as (? & ta & t & _ & -> & Hx);
    [|apply keeps_reads, Commands.reads_preflight|done].
  eapply saw_mono; [intros e He; apply elem_of_app; right; exact He|].
  unfold execute in Hx. destruct (dry_run args).
  { exfalso. eapply uses_sound in Hx; [|apply keeps_reads, Commands.reads_dummy].
    rewrite Forall_app, Forall_cons in Hx. destruct Hx as (_ & Hx & _). congruence. }
  unfold PluginUpgrade.apply in Hx.
  apply (exec_gated keeps) in Hx as (? & tb & t' & _ & -> & Hx);
    [|unfold event_client_new; solve_uses|done].
  apply (exec_gated keeps) in Hx as (rel & tc & t'' & _ & -> & Hx);
    [|apply keeps_reads, Commands.reads_release|done].
  apply (exec_gated keeps) in Hx as (? & td & t3 & _ & -> & Hx);
    [|unfold delete_upgrade_events; solve_uses|done].
  apply (exec_gated keeps) in Hx as (? & te & t4 & _ & -> & Hx); [|apply keeps_create|done].
  eapply saw_mono; [|by eapply await_cleanup]. intros e He. rewrite !elem_of_app. auto 10.
Qed.
End Cleanup.
End Handover.

(** ** Properties of the two programs together *)
Module HandoverSpec.
Import PluginUpgrade Handover Stages JobNeeds.
Section Spec.
Context `{Deps} `{Semver} `{SJ : SerdeJson} `{RegexCrate} `{HashOrder} `{SortUnstable}.
Context `{NW : NoteWire}.

(** C15: [get upgrade-status] tells how the upgrade went, as far as its events are in the
    cluster.  The container of the job may run any number of times, publications may fail
    and events may have expired, but each event which is there was published at a time
    later than those before it.  Without any event the command says that there is none;
    otherwise it shows the note of the last event [e] which is there, which one of the runs
    has sent.  If this is the message of a success, that run did not fail and the versions
    are those it determined; if it reports a failure, that run did not succeed, and if it
    returned an error the text is that of the very error; and if it is the last event of a
    run which succeeded, it is that success. *)
Theorem status_follows_job fuel args runs es l deployment files ns s :
  Forall (λ p, exec (Upgrade.main fuel args) p.(run_trace) p.(run_outcome)) runs →
  sees runs es l →
  let r := run (with_events deployment files l) (create_get_upgrade_resource ns) s in
  match last es with
  | None => result_of r = Failed (Returned PluginError.UpgradeEventNotPresent)
  | Some e => ∃ p d n, p ∈ runs ∧ e ∈ events_sent p.(run_trace) ∧
      e.(ev_note) = Some d ∧ note_from_json d = inr n ∧
      result_of r = Done tt ∧ printed (trace_of r) = status_lines n ∧
      (n.(message) = Upgrade.success_msg →
         (∀ err, p.(run_outcome) ≠ Failed err) ∧
         ∃ u, upgrader_of fuel args p.(run_trace) u ∧
           n = mkEventNote (version_to_string (HelmUpgrade.source_version u))
                 (version_to_string (HelmUpgrade.target_version u)) Upgrade.success_msg) ∧
      (is_failure e → (∀ v, p.(run_outcome) ≠ Done v) ∧
         ∀ err, p.(run_outcome) = Failed err →
           n.(message) = ("Failed to upgrade: " +:+ JobErrorText.display err)%string) ∧
      (last (events_sent p.(run_trace)) = Some e → ∀ v, p.(run_outcome) = Done v →
         n.(message) = Upgrade.success_msg)
  end.
Proof.
  intros Hx Hsees r. pose proof (status_run deployment files l ns s) as Hst.
  destruct Hsees as (sts & Hsts & Hsub & Hl) eqn:Hsees'. clear Hsees'. apply latest_of_listing in Hl.
  destruct (latest_event l) as [pe|]; [|by subst es].
  destruct Hl as (e & He & _ & Hm & _). rewrite He.
  destruct (sees_sent runs es l e Hsees) as (p & Hp & Hin); [apply last_Some in He as [k ->]; set_solver|].
  rewrite Forall_forall in Hx. specialize (Hx p Hp). destruct p as [tr o]. cbn [run_trace run_outcome] in *.
  destruct (last_readable _ _ _ _ _ Hx Hin) as (d & n & Hd & Hn & Hsucc). rewrite Hd in Hm.
  destruct (Hst d n Hm Hn) as [H1' H2']. exists (mkJobRun tr o), d, n. cbn [run_trace run_outcome]. split_and!; try done.
  - intros Hs. apply Hsucc in Hs. split.
    + intros err ->.
      destruct (respects_sound stages _ _ _ _ _ _ (main_stage fuel args) Hx) as (m & Hm' & Hab).
      destruct (told_accepts _ _ Hm') as [Ht _]. destruct (Ht e Hin Hs) as [b Hb].
      destruct Hab as [Hab _]. by apply (Hab b).
    + destruct (main_success _ _ _ _ _ Hx Hin Hs) as (u & d' & Hu & Hd' & He'). exists u. split; [done|].
      rewrite Hd in He'. injection He' as <-. rewrite (note_read_back _ _ Hd') in Hn. by injection Hn.
  - intros Hf. split.
    + intros v ->. exact (whole_main _ tells_compositional fuel args _ _ Hx e Hin Hf).
    + intros err ->. pose proof (main_tells_cause _ _ _ _ _ Hx Hin Hf) as Ht. unfold tells in Ht.
      rewrite Hd, Hn in Ht. by apply bool_decide_eq_true in Ht.
  - intros Hlast v ->. destruct (main_done _ _ _ _ Hx) as (u & d' & _ & _ & He').
    rewrite Hlast in He'. injection He' as ->. by apply Hsucc.
Qed.

(** C14: The plugin takes away the resources of the job it started (its service account,
    roles and the job itself) only because of a run which gave up before it changed
    anything.  Whatever the cluster answers, however often the container of the job ran
    and whenever the plugin looks at the events which the runs have published so far: if it
    deletes one of the resources, then one of the runs reported that its validation
    failed, and in the whole of that run no pod is deleted, no node cordoned or drained,
    and no [helm upgrade] is run except dry; and it does not succeed.  Of the runs before
    and after it nothing is said: they may have changed the cluster. *)
Theorem cleanup_only_before_changes fuel args runs fuel' ns uargs t1 k name r t2 o' :
  Forall (λ p, exec (Upgrade.main fuel args) p.(run_trace) p.(run_outcome)) runs →
  exec (upgrade_operation fuel' ns uargs) (t1 ++ event (DeleteObj k name) r :: t2) o' →
  (∀ ns' sel l, event (EventsList ns' sel) (inr l) ∈ t1 → ∃ es, sees runs es l) →
  k ≠ KConfigMap →
  ∃ p e, p ∈ runs ∧ e ∈ events_sent p.(run_trace) ∧ is_action ValidationFailed e ∧
    any_harmless p.(run_trace) ∧ ∀ v, p.(run_outcome) ≠ Done v.
Proof.
  intros Hx Hp Hl Hk. apply upgrade_cleanup in Hp as (ns' & sel & l & pe & Hin & Hlat & Ha);
    [|by apply bool_decide_eq_false].
  destruct (Hl _ _ _ Hin) as (es & Hsees). pose proof Hsees as (sts & _ & _ & Hli%latest_of_listing).
  rewrite Hlat in Hli. destruct Hli as (e & He & Hact & _). rewrite Ha in Hact. injection Hact as Hact.
  destruct (sees_sent runs es l e Hsees) as ([tr o] & Hp & Hsent); [apply last_Some in He as [q ->]; set_solver|].
  exists (mkJobRun tr o), e. rewrite Forall_forall in Hx. specialize (Hx _ Hp). cbn [run_trace run_outcome] in *.
  destruct (respects_sound stages _ _ _ _ _ _ (main_stage fuel args) Hx) as (m & Hm & Hend).
  destruct (told_accepts _ _ Hm) as (_ & Hv & Hh).
  assert (m.(at_phase) = Reported true) as Hph by (by apply (Hv e)).
  split_and!; [done..|by apply Hh; right|]. intros v ->. destruct Hend as [Hend _]. by rewrite Hph in Hend.
Qed.
End Spec.
End HandoverSpec.

(** ** The command line *)
Module CommandLine.

(** How the derive of [opts.rs] declares an argument: its long name, whether it takes
    a value, and whether clap demands it ([String] without default or environment). *)
Record CliOption := mkCliOption { long : string; takes_value : bool; required : bool }.

Definition cli_options : list CliOption :=
  [mkCliOption "rest-endpoint" true true;
   mkCliOption "namespace" true true;
   mkCliOption "release-name" true true;
   mkCliOption "core-chart-dir" true false;
   mkCliOption "skip-data-plane-restart" false false;
   mkCliOption "skip-upgrade-path-validation" false false;
   mkCliOption "helm-args-set" true true;
   mkCliOption "helm-args-set-file" true true;
   mkCliOption "fmt-style" true false;
   mkCliOption "ansi-colors" false false].

(** The positional argument which is taken from the environment. *)
Definition pod_name_env : string := "POD_NAME".

(** [--name] and [--name=value] *)
Fixpoint cut_at (c : ascii) (s : string) : string * option string :=
  match s with
  | "" => ("", None)
  | String a s' =>
      if decide (a = c) then ("", Some s') else let '(n, v) := cut_at c s' in (String a n, v)
  end.
Definition long_arg (s : string) : option (string * option string) :=
  match s with
  | String "-" (String "-" s') => Some (cut_at "=" s')
  | _ => None
  end.

(** The arguments and the environment of the container of a job. *)
Definition job_arguments (job : Job) : list string :=
  match job.(job_spec) with Some spec => spec.(container_args) | None => [] end.
Definition job_environment (job : Job) : list EnvVar :=
  match job.(job_spec) with Some spec => spec.(container_env) | None => [] end.

(** What is declared accepts what is given: every argument is an option with a value
    exactly if it takes one, none is given twice, and what is required is there. *)
Definition cli_accepts (given : list (string * option string)) : bool :=
  bool_decide (NoDup given.*1) &&
  forallb (λ g, existsb (λ o, bool_decide (o.(long) = g.1 ∧ o.(takes_value) = bool_decide (is_Some g.2))) cli_options) given &&
  forallb (λ o, negb o.(required) || existsb (λ g, bool_decide (g.1 = o.(long))) given) cli_options.

Section CommandLine.
Context `{Deps} `{PluginDeps}.

End CommandLine.
End CommandLine.
