(* ===== verification/HandoverFixture.v ===== *)
(** * The plugin and the job on concrete runs

    The upgrade of [JobFixture] with notes which are written and read back, successful,
    refused by the dry run, and run twice; the properties of [UpgradeHandover]
    are applied to them. *)

From S2P Require Import Prelude Semver Text JobApi JobEvents HelmChart HelmClient HelmValues.
From S2P Require Import HelmUpgrade JobUtils JobDataPlane JobUpgrade JobErrorText JobUpgradeSpec.
From S2P Require Import JobNeeds JobSim JobFixture.
From S2P Require Import PluginApi PluginUpgrade PluginSpec PluginChecks PluginFixture UpgradeHandover.
From stdpp Require Import base gmap list relations sorting strings.
From Stdlib Require Import ZArith Lia Ascii.
Open Scope string_scope.
Open Scope list_scope.

Module HandoverWitness.
Import PluginUpgrade Handover HandoverSpec Stages JobNeeds SemverRef Fixture PluginFixture PluginWitness.

(** Notes on the wire: a mark before each character, another one at the end of a field. *)
Fixpoint write_field (s rest : string) : string :=
  match s with
  | "" => String ";" rest
  | String a s' => String "." (String a (write_field s' rest))
  end.
Fixpoint read_field (s : string) : option (string * string) :=
  match s with
  | String ";" rest => Some ("", rest)
  | String "." (String a s') =>
      match read_field s' with Some (f, rest) => Some (String a f, rest) | None => None end
  | _ => None
  end.
Lemma read_write_field s rest : read_field (write_field s rest) = Some (s, rest).
Proof. induction s as [|a s IH]; cbn; [done|]. by rewrite IH. Qed.

#[local] Instance written_notes : EventDeps := {|
  note_to_json := λ n,
    inr (write_field n.(from_version) (write_field n.(to_version) (write_field n.(message) "")))
|}.
#[local] Instance read_notes : PluginDeps := {|
  version_tag := Some "v2.8.0";
  note_from_json := λ s,
    match read_field s with
    | Some (from, s1) =>
        match read_field s1 with
        | Some (to, s2) =>
            match read_field s2 with
            | Some (msg, _) => inr (mkEventNote from to msg)
            | None => inl "no message"
            end
        | None => inl "no version"
        end
    | None => inl "no version"
    end
|}.
#[local] Instance notes_on_wire : NoteWire.
Proof. constructor. intros [f t m] s [= <-]. cbn. by rewrite !read_write_field. Qed.

(** An upgrade which succeeds, and one whose dry run helm refuses. *)
Definition good_run := run cluster (Upgrade.main 3 args) before.
Definition refusing : handler JobSig Sim.world := λ c w,
  match c return job_res c * Sim.world with
  | RunCommand cmd a env =>
      (if decide (last a = Some "--dry-run") then inl "refused" else (cluster (RunCommand cmd a env) w).1, w)
  | c => cluster c w
  end.
Definition refused_run := run refusing (Upgrade.main 3 args) before.

Example good_run_end : result_of good_run = Done tt ∧ length (events_sent (trace_of good_run)) = 6.
Proof. vm_compute. done. Qed.
Example refused_run_end :
  (∃ e, result_of refused_run = Failed e) ∧
  (ev_action <$> events_sent (trace_of refused_run)) = ["Validation Failed"].
Proof. vm_compute. eauto. Qed.

(** A worker which has published every event once. *)
Definition all_published (es : list Event) : Worker.state :=
  Worker.mkState [] false Worker.Exited es ((λ e, (e, true)) <$> es).
Lemma published_once es : rtc Worker.step Worker.init (all_published es).
Proof.
  etrans; [|etrans; [apply rtc_once, (Worker.step_drop es Worker.Receiving es [])|]].
  - induction es as [|e es IH] using rev_ind; [apply rtc_refl|].
    eapply rtc_r; [exact IH|apply Worker.step_send].
  - assert (∀ q e s a, rtc Worker.step (Worker.mkState q false (Worker.Polling e) s a)
              (Worker.mkState [] false Worker.Exited s (a ++ ((λ e, (e, true)) <$> q)))) as Hq.
    { induction q as [|e' q IH]; intros e s a; [rewrite app_nil_r; apply rtc_once; constructor|].
      eapply rtc_l; [apply Worker.step_next|]. eapply rtc_l; [apply (Worker.step_publish e' true)|].
      replace (a ++ ((λ e, (e, true)) <$> e' :: q)) with ((a ++ [(e', true)]) ++ ((λ e, (e, true)) <$> q))
        by (by rewrite <-app_assoc). apply IH. }
    destruct es as [|e es]; [apply rtc_once; constructor|].
    eapply rtc_l; [apply Worker.step_recv|]. eapply rtc_l; [apply (Worker.step_publish e true)|]. apply Hq.
Qed.
Lemma all_published_es es : Worker.published (all_published es) = es.
Proof.
  unfold Worker.published, Worker.successes; cbn. rewrite list_filter_all.
  - rewrite <-list_fmap_compose. apply list_fmap_id.
  - by intros x (e & -> & _)%list_elem_of_fmap.
Qed.

(** The events in the cluster, published one after the other. *)
Fixpoint shown (t : Z) (es : list Event) : list PluginEvent :=
  match es with
  | [] => []
  | e :: es' =>
      mkPluginEvent (Some e.(ev_action)) e.(ev_note) (Some e.(ev_reason)) (Some t) :: shown (t + 1) es'
  end.

Lemma shown_listing t es :
  Forall (λ e, e.(ev_reason) = upgrade_event_reason) es → listed es (shown t es).
Proof.
  intros Hr. exists (shown t es). split_and!.
  - clear. revert t. induction es as [|e es IH]; intros t; constructor; [done|apply IH].
  - assert (∀ es t, Forall (λ p, ∃ a, p.(event_time) = Some a ∧ (t <= a)%Z) (shown t es)) as Ht.
    { clear. induction es as [|e es IH]; intros t; constructor; [eauto with lia|].
      eapply Forall_impl; [apply (IH (t + 1)%Z)|]. intros p (a & ? & ?). exists a. split; [done|lia]. }
    clear Hr. revert t. induction es as [|e es IH]; intros t; constructor; [done|].
    eapply Forall_impl; [apply Ht|]. unfold earlier. cbn. intros p (a & -> & ?). lia.
  - rewrite list_filter_all; [done|]. revert t. induction Hr as [|e es He _ IH]; intros t p Hp.
    + by apply elem_of_nil in Hp.
    + apply elem_of_cons in Hp as [->|Hp]; [cbn; by rewrite He|by eapply IH].
Qed.

Definition listing_in (e : ev PluginSig) : option (ext_error + list PluginEvent) :=
  match e with
  | Ev c r =>
      match c return plugin_res c → option (ext_error + list PluginEvent) with
      | EventsList _ _ => Some
      | _ => λ _, None
      end r
  end.

Lemma run_listed {A} deployment files l (p : plugin A) s ns sel r :
  event (EventsList ns sel) r ∈ trace_of (run (with_events deployment files l) p s) → r = inr l.
Proof.
  revert s. induction p as [| | |c k IH]; intros s; cbn; try by intros ?%elem_of_nil.
  destruct (with_events deployment files l c s) as [r' s'] eqn:Eh.
  specialize (IH r' s'). destruct (run _ (k r') s') as [[o w] tr]. cbn in *.
  intros [He|Hin]%elem_of_cons; [|by apply IH].
  destruct c; try discriminate He. cbn in Eh.
  pose proof (f_equal listing_in He) as Hr.
  cbn in Hr. injection Hr as ->. by injection Eh.
Qed.

Lemma run_lists {A} deployment files l l' (p : plugin A) s ns sel :
  event (EventsList ns sel) (inr l') ∈ trace_of (run (with_events deployment files l) p s) → l' = l.
Proof. intros Hr%run_listed. by injection Hr. Qed.

Definition good_events : list Event := events_sent (trace_of good_run).
Definition refused_events : list Event := events_sent (trace_of refused_run).

(** Runs of the job of which the workers have published everything *)
Lemma sees_all runs es t :
  es = mjoin ((λ p, events_sent p.(run_trace)) <$> runs) →
  Forall (λ e, e.(ev_reason) = upgrade_event_reason) es → sees runs es (shown t es).
Proof.
  intros Hes Hr. exists ((λ p, all_published (events_sent p.(run_trace))) <$> runs). split_and!.
  - apply Forall2_fmap_r, Forall_Forall2_diag, Forall_forall. intros p _. split; [apply published_once|done].
  - rewrite <-list_fmap_compose. rewrite Hes. clear. induction runs as [|p runs IH]; [done|].
    rewrite !fmap_cons. cbn [mjoin list_join concat compose]. apply sublist_app; [|exact IH].
    unfold compose. by rewrite all_published_es.
  - by apply shown_listing.
Qed.

(** The dry run is refused once; the container is started again and the upgrade succeeds. *)
Definition two_runs : list job_run :=
  [mkJobRun (trace_of refused_run) (result_of refused_run); mkJobRun (trace_of good_run) (result_of good_run)].
Lemma two_runs_ran :
  Forall (λ p, exec (Upgrade.main 3 args) p.(run_trace) p.(run_outcome)) two_runs.
Proof. do 2 (apply Forall_cons_2; [apply run_exec|]). apply Forall_nil_2. Qed.
Definition two_runs_events : list Event := refused_events ++ good_events.
Lemma two_runs_seen : sees two_runs two_runs_events (shown 0 two_runs_events).
Proof.
  apply sees_all; [cbn; by rewrite app_nil_r|]. apply (bool_decide_unpack _). vm_compute. exact I.
Qed.

Lemma two_runs_last : ∃ e, last two_runs_events = Some e.
Proof. vm_compute. eexists. reflexivity. Qed.

Lemma status_follows_job_witness :
  ∃ p n, p ∈ two_runs ∧
    printed (trace_of (run (with_events rest files (shown 0 two_runs_events))
                         (create_get_upgrade_resource "mayastor") empty)) = status_lines n ∧
    (n.(message) = Upgrade.success_msg → ∀ err, p.(run_outcome) ≠ Failed err).
Proof.
  pose proof (status_follows_job 3 args two_runs two_runs_events (shown 0 two_runs_events)
    rest files "mayastor" empty two_runs_ran two_runs_seen) as Hst.
  destruct two_runs_last as [e He]. cbv zeta in Hst. rewrite He in Hst.
  destruct Hst as (p & d & n & Hp & _ & _ & _ & _ & Hpr & Hs & _).
  exists p, n. split; [exact Hp|]. split; [exact Hpr|]. intros Hm. apply (Hs Hm).
Defined.

(** What [get upgrade-status] says of the job whose dry run could not be started. *)
Example refused_status :
  ∃ a, result_of refused_run = Failed (HelmCommand "refused" "helm" a) ∧
    printed (trace_of (run (with_events rest files (shown 0 refused_events))
                         (create_get_upgrade_resource "mayastor") empty)) =
    ["Upgrade From: 2.7.0"; "Upgrade To: 2.8.0";
     "Upgrade Status: Failed to upgrade: " +:+ JobErrorText.display (HelmCommand "refused" "helm" a)]%string.
Proof. eexists. split; [vm_compute; reflexivity|vm_compute; reflexivity]. Qed.

(** The plugin creates the job, finds that its validation failed, and deletes. *)
Definition cleanup_run :=
  run (with_events rest files (shown 0 refused_events))
    (upgrade_operation 2 "mayastor" (upgrade_args false)) empty.

Definition refused_runs : list job_run := [mkJobRun (trace_of refused_run) (result_of refused_run)].

Lemma cleanup_only_before_changes_witness : any_harmless (trace_of refused_run).
Proof.
  destruct (cleanup_only_before_changes 3 args refused_runs
    2 "mayastor" (upgrade_args false) (take 40 (trace_of cleanup_run)) KJob "mayastor-upgrade-v2-8-0"
    (inr tt) (drop 41 (trace_of cleanup_run)) (result_of cleanup_run)) as (p & e & Hp & _ & _ & Hh & _).
  - apply Forall_cons_2; [apply run_exec|apply Forall_nil_2].
  - rewrite (take_drop_middle _ 40); [apply run_exec|vm_compute; reflexivity].
  - intros ns sel l Hin.
    assert (event (EventsList ns sel) (inr l) ∈ trace_of cleanup_run) as Hl%run_lists
      by (rewrite <-(take_drop 40 (trace_of cleanup_run)); apply elem_of_app; by left).
    rewrite Hl. exists refused_events. apply sees_all; [cbn; by rewrite app_nil_r|].
    apply (bool_decide_unpack _). vm_compute. exact I.
  - discriminate.
  - apply list_elem_of_singleton in Hp as ->. exact Hh.
Defined.
End HandoverWitness.
