(* ===== verification/Float64.v ===== *)
(** * Double-precision numbers

    [f64] of the Rust standard library, as the code of call-home uses it: the
    arithmetic is IEEE 754 binary64 (Stdlib's [SpecFloat] at precision 53),
    comparison is comparison of the values, [floor], [ceil] and [round] are taken of
    the value, [as] truncates and saturates. *)

From S2P Require Import Prelude.
From stdpp Require Import base list.
From Stdlib Require Import ZArith Lia Floats.SpecFloat.
Open Scope Z_scope.

Module F64.
Abbreviation prec := 53.
Abbreviation emax := 1024.
Definition f64 : Type := spec_float.

(** [z as f64] *)
Definition of_Z (z : Z) : f64 := binary_normalize prec emax z 0 false.

Definition add (x y : f64) : f64 := SFadd prec emax x y.
Definition sub (x y : f64) : f64 := SFsub prec emax x y.
Definition mul (x y : f64) : f64 := SFmul prec emax x y.
Definition div (x y : f64) : f64 := SFdiv prec emax x y.

(** The value of a finite number: a mantissa and a power of two. *)
Definition dyadic (x : f64) : option (Z * Z) :=
  match x with
  | S754_zero _ => Some (0, 0)
  | S754_finite s m e => Some (cond_Zopp s (Zpos m), e)
  | _ => None
  end.

(** [<=]: exact comparison of values; false with a NaN. *)
Definition leb (x y : f64) : bool :=
  match x, y with
  | S754_nan, _ | _, S754_nan => false
  | S754_infinity true, _ | _, S754_infinity false => true
  | S754_infinity false, _ | _, S754_infinity true => false
  | _, _ =>
      match dyadic x, dyadic y with
      | Some (m1, e1), Some (m2, e2) =>
          let e := Z.min e1 e2 in m1 * 2 ^ (e1 - e) <=? m2 * 2 ^ (e2 - e)
      | _, _ => false
      end
  end.

(** The integers around a value; [None] for infinities and NaN. *)
Definition zfloor (x : f64) : option Z :=
  match dyadic x with
  | Some (m, e) => Some (if 0 <=? e then m * 2 ^ e else m / 2 ^ (- e))
  | None => None
  end.
Definition zceil (x : f64) : option Z :=
  match dyadic x with
  | Some (m, e) => Some (if 0 <=? e then m * 2 ^ e else - ((- m) / 2 ^ (- e)))
  | None => None
  end.
(** Half away from zero. *)
Definition zround (x : f64) : option Z :=
  match dyadic x with
  | Some (m, e) =>
      Some (if 0 <=? e then m * 2 ^ e
            else Z.sgn m * ((2 * Z.abs m + 2 ^ (- e)) / 2 ^ (1 - e)))
  | None => None
  end.
Definition ztrunc (x : f64) : option Z :=
  match dyadic x with
  | Some (m, e) => Some (if 0 <=? e then m * 2 ^ e else Z.quot m (2 ^ (- e)))
  | None => None
  end.

(** An integer-valued number back as a number: [floor], [ceil], [round]; an infinity
    or NaN is its own. *)
Definition floor (x : f64) : f64 := match zfloor x with Some z => of_Z z | None => x end.

(** The saturating casts [as u64], [as u32], of a value with the given integer part. *)
Definition saturate (max : Z) (x : f64) (z : option Z) : Z :=
  match z with
  | Some z => Z.max 0 (Z.min z max)
  | None => match x with S754_infinity false => max | _ => 0 end
  end.
Definition max_u64 : Z := 2 ^ 64 - 1.
Definition max_u32 : Z := 2 ^ 32 - 1.
Definition as_u64 (x : f64) : Z := saturate max_u64 x (ztrunc x).
Definition as_u32 (x : f64) : Z := saturate max_u32 x (ztrunc x).
(** [x.floor() as usize], [x.ceil() as usize], [x.round() as u64] *)
Definition floor_usize (x : f64) : Z := saturate max_u64 x (zfloor x).
Definition ceil_usize (x : f64) : Z := saturate max_u64 x (zceil x).
Definition round_u64 (x : f64) : Z := saturate max_u64 x (zround x).

(** ** Integers are exact *)
Lemma digits2_bounds p : 2 ^ (Zpos (digits2_pos p) - 1) <= Zpos p < 2 ^ Zpos (digits2_pos p).
Proof.
  induction p as [p IH|p IH|]; cbn [digits2_pos]; [| |done].
  all: set (d := Zpos (digits2_pos p)) in *; rewrite Pos2Z.inj_succ; fold d.
  all: replace (Z.succ d - 1) with (Z.succ (d - 1)) by lia.
  all: assert (2 ^ d = 2 * 2 ^ (d - 1))
    by (rewrite <-Z.pow_succ_r by (subst d; lia); f_equal; lia).
  all: rewrite !Z.pow_succ_r by (subst d; lia); lia.
Qed.

Lemma digits2_le p n : Zpos p < 2 ^ n → 0 <= n → Zpos (digits2_pos p) <= n.
Proof.
  intros Hp Hn. destruct (digits2_bounds p) as [Hl _].
  assert (Zpos (digits2_pos p) - 1 < n); [|lia]. apply (Z.pow_lt_mono_r_iff 2); lia.
Qed.

Lemma iter_xO p n : Zpos (Pos.iter xO p n) = Zpos p * 2 ^ Zpos n.
Proof.
  induction n as [|n IH] using Pos.peano_ind; [cbn; lia|].
  rewrite Pos.iter_succ, Pos2Z.inj_xO, IH, Pos2Z.inj_succ, Z.pow_succ_r; lia.
Qed.

Lemma digits2_iter_xO p n : Zpos (digits2_pos (Pos.iter xO p n)) = Zpos (digits2_pos p) + Zpos n.
Proof.
  induction n as [|n IH] using Pos.peano_ind; [cbn [Pos.iter digits2_pos]; lia|].
  rewrite Pos.iter_succ. cbn [digits2_pos]. lia.
Qed.

(** A mantissa of 53 digits is not rounded. *)
Lemma round_aux_exact s m e :
  Zpos (digits2_pos m) = prec → emin prec emax <= e <= emax - prec →
  binary_round_aux prec emax s (Zpos m) e loc_Exact = S754_finite s m e.
Proof.
  intros Hd He. assert (fexp prec emax (Zdigits2 (Zpos m) + e) - e = 0) as Hf.
  { unfold fexp. cbn [Zdigits2]. rewrite Hd. lia. }
  unfold binary_round_aux, shr_fexp. rewrite Hf. cbn [shr shr_record_of_loc shr_m loc_of_shr_record round_nearest_even].
  rewrite Hf. cbn [shr shr_record_of_loc shr_m]. by rewrite (proj2 (Z.leb_le _ _)) by lia.
Qed.

(** An integer below 2^53 is a number with that value. *)
Lemma of_Z_exact z :
  0 < z < 2 ^ 53 → ∃ m k, of_Z z = S754_finite false m (- k) ∧ 0 <= k ∧ Zpos m = z * 2 ^ k.
Proof.
  intros [Hz Hb]. destruct z as [|p|p]; [lia| |lia].
  pose proof (digits2_le p 53 Hb ltac:(lia)) as Hd.
  unfold of_Z. cbn [binary_normalize]. unfold binary_round.
  assert (fexp prec emax (Zpos (digits2_pos p) + 0) = Zpos (digits2_pos p) - 53) as ->
    by (unfold fexp, emin; lia).
  unfold shl_align. destruct (Zpos (digits2_pos p) - 53 - 0) as [|d|d] eqn:E; [|lia|].
  - exists p, 0. rewrite round_aux_exact by (unfold emin; lia). split_and!; [done|lia|lia].
  - exists (Pos.iter xO p d), (Zpos d).
    rewrite round_aux_exact; [|rewrite digits2_iter_xO; lia|unfold emin; lia].
    split_and!; [f_equal; lia|lia|apply iter_xO].
Qed.

(** The integers which fit in 32 bits survive the way through a number. *)
Lemma as_u32_of_Z z : 0 <= z < 2 ^ 32 → as_u32 (of_Z z) = z.
Proof.
  intros Hz. destruct (decide (z = 0)) as [->|Hn]; [done|].
  destruct (of_Z_exact z ltac:(lia)) as (m & k & -> & Hk & Hm).
  unfold as_u32, ztrunc, saturate, max_u32. cbn [dyadic cond_Zopp]. rewrite Hm.
  destruct (Z.leb_spec 0 (- k)) as [Hk0|Hk0].
  - assert (k = 0) as -> by lia. rewrite Z.opp_0, Z.pow_0_r. lia.
  - rewrite Z.opp_involutive, Z.quot_mul; [lia|]. apply Z.pow_nonzero; lia.
Qed.

(** ** No NaN *)
Lemma shr_1_nonneg r : 0 <= shr_m r → 0 <= shr_m (shr_1 r).
Proof. destruct r as [[|[]|[]] ? ?]; cbn; lia. Qed.

Lemma iter_shr_nonneg n r : 0 <= shr_m r → 0 <= shr_m (iter_pos shr_1 n r).
Proof. revert r. induction n; cbn; intros r Hr; eauto using shr_1_nonneg. Qed.

Lemma shr_fexp_nonneg m e l : 0 <= m → 0 <= shr_m (shr_fexp prec emax m e l).1.
Proof.
  intros Hm. unfold shr_fexp, shr.
  assert (0 <= shr_m (shr_record_of_loc m l)) by by destruct l as [|[]].
  destruct (_ - _); cbn [fst]; auto using iter_shr_nonneg.
Qed.

Lemma round_aux_not_nan s m e l : 0 <= m → binary_round_aux prec emax s m e l ≠ S754_nan.
Proof.
  intros Hm. unfold binary_round_aux.
  pose proof (shr_fexp_nonneg m e l Hm) as H1.
  destruct (shr_fexp prec emax m e l) as [r1 e1]. cbn [fst] in H1.
  assert (0 <= round_nearest_even (shr_m r1) (loc_of_shr_record r1)) as H2.
  { destruct (loc_of_shr_record r1) as [|[]]; cbn; try case_match; lia. }
  pose proof (shr_fexp_nonneg _ e1 loc_Exact H2) as H3.
  destruct (shr_fexp prec emax _ e1 loc_Exact) as [r2 e2]. cbn [fst] in H3.
  destruct (shr_m r2); [done|by case_match|lia].
Qed.

Lemma normalize_not_nan z e b : binary_normalize prec emax z e b ≠ S754_nan.
Proof.
  destruct z; cbn; [done|..]; unfold binary_round; destruct (shl_align _ _ _);
    by apply round_aux_not_nan.
Qed.

Lemma mul_not_nan x s m e : x ≠ S754_nan → mul x (S754_finite s m e) ≠ S754_nan.
Proof. destruct x; cbn; try done. intros _. by apply round_aux_not_nan. Qed.

Lemma add_not_nan x s m e : x ≠ S754_nan → add x (S754_finite s m e) ≠ S754_nan.
Proof. destruct x; cbn; try done. intros _. apply normalize_not_nan. Qed.

Lemma div_not_nan x s m e : x ≠ S754_nan → div x (S754_finite s m e) ≠ S754_nan.
Proof.
  destruct x as [| | |s' m' e']; try done. intros _. unfold div, SFdiv, SFdiv_core_binary.
  set (t := match _ with Z0 => _ | Zpos _ => _ | Zneg _ => _ end).
  assert (0 <= t) as Ht.
  { subst t. case_match; [lia| |lia]. by apply Z.shiftl_nonneg. }
  pose proof (Z.div_pos t (Zpos m) Ht ltac:(lia)) as Hq. unfold Z.div in Hq.
  destruct (Z.div_eucl t (Zpos m)) as [q r]. by apply round_aux_not_nan.
Qed.
End F64.
