(* ===== verification/CallHomeStats.v ===== *)
(** * call-home: the statistics of events

    Models [cache/], [store/events_store.rs], [exporter/events_collector.rs] and
    [main.rs] of [call-home/src/bin/stats]: counters of the events on the message
    bus, kept in a cache, saved in a config map, restored from it after a restart,
    and exposed to Prometheus.  Integer overflow wraps around, as in the release
    profile. *)

From S2P Require Import Prelude JobApi.
From stdpp Require Import base gmap list strings relations.
From Stdlib Require Import ZArith Lia.
Open Scope string_scope.

(** ** [cache/] *)
Module EventsCache.

Definition U32 : Z := 2 ^ 32.
(** [x += 1] *)
Definition u32_inc (x : Z) : Z := (x + 1) `mod` U32.

(** [events_api::event]: the categories and actions which are matched on. *)
Inductive EventCategory := CategoryPool | CategoryVolume | CategoryNexus | CategoryOther (n : Z).
Inductive EventAction :=
| ActionCreate | ActionDelete | ActionRebuildBegin | ActionRebuildEnd | ActionOther (n : Z).
Record EventMessage := mkEventMessage { category : EventCategory; action : EventAction }.

Record Pool := mkPool { pool_created : Z; pool_deleted : Z }.
Record Volume := mkVolume { volume_created : Z; volume_deleted : Z }.
Record Nexus := mkNexus {
  nexus_created : Z; nexus_deleted : Z; rebuild_started : Z; rebuild_ended : Z
}.
Record EventSet := mkEventSet { pool : Pool; volume : Volume; nexus : Nexus }.

(** [Default] *)
Definition EventSet_default : EventSet :=
  mkEventSet (mkPool 0 0) (mkVolume 0 0) (mkNexus 0 0 0 0).

(** [StatsCounter::update_counter] *)
Definition Pool_update_counter (p : Pool) (a : EventAction) : Pool :=
  match a with
  | ActionCreate => mkPool (u32_inc p.(pool_created)) p.(pool_deleted)
  | ActionDelete => mkPool p.(pool_created) (u32_inc p.(pool_deleted))
  | _ => p
  end.
Definition Volume_update_counter (v : Volume) (a : EventAction) : Volume :=
  match a with
  | ActionCreate => mkVolume (u32_inc v.(volume_created)) v.(volume_deleted)
  | ActionDelete => mkVolume v.(volume_created) (u32_inc v.(volume_deleted))
  | _ => v
  end.
Definition Nexus_update_counter (n : Nexus) (a : EventAction) : Nexus :=
  let '(mkNexus c d s e) := n in
  match a with
  | ActionCreate => mkNexus (u32_inc c) d s e
  | ActionDelete => mkNexus c (u32_inc d) s e
  | ActionRebuildBegin => mkNexus c d (u32_inc s) e
  | ActionRebuildEnd => mkNexus c d s (u32_inc e)
  | ActionOther _ => n
  end.

(** [EventSet::inc_counter] *)
Definition inc_counter (s : EventSet) (m : EventMessage) : EventSet :=
  match m.(category) with
  | CategoryPool => mkEventSet (Pool_update_counter s.(pool) m.(action)) s.(volume) s.(nexus)
  | CategoryVolume => mkEventSet s.(pool) (Volume_update_counter s.(volume) m.(action)) s.(nexus)
  | CategoryNexus => mkEventSet s.(pool) s.(volume) (Nexus_update_counter s.(nexus) m.(action))
  | CategoryOther _ => s
  end.
End EventsCache.

(** ** Errors, objects and requests *)
Module StatsApi.
Import EventsCache.

(** [Error] of [common/errors.rs] *)
Inductive Error :=
| NatsSubscriptionFailure
| K8sClient (source : ext_error)
| ListDeploymentsWithLabel (source : ext_error) (label namespace : string)
| NoDeploymentPresent
| UpdatingConfigmap (source : ext_error) (name namespace : string)
| GetEventStoreConfigMap (source : ext_error) (name : string)
| ConfigMapNotPresent (name : string)
| SerializeEvent (source : ext_error)
| ReferenceConfigMapNoData
| ReferencedKeyNotPresent (key : string)
| ReferencedKeyNotPresentInLabel (key : string)
| EventSerdeDeserialization (event : string) (source : ext_error)
| ServiceAccountCreate (name : string) (source : ext_error)
| CustomMetricsEndodeFailure (source : ext_error)
| SocketBindingFailure (source : ext_error)
| PrometheusOutPutParseFailure (source : ext_error)
| UnknownMetrics
| UnknownLabel
| StatsFetchFailure
| GetRsponseBodyFailure.

Record ConfigMap := mkConfigMap {
  cm_name : option string; cm_labels : option (gmap string string);
  cm_data : option (gmap string string)
}.

Inductive stats_call :=
| TryDefault
| CmGetOpt (ns name : string)
| CmCreate (ns : string) (cm : ConfigMap)
| CmPatch (ns name manager : string) (cm : ConfigMap)
(** the next message of the bus; [None] when the subscription has ended *)
| BusNext
(** the cache, under its lock *)
| CacheUpdate (m : EventMessage)
| CacheRead
| StatsSleep (d : N).

Definition stats_res (c : stats_call) : Type :=
  match c with
  | TryDefault => ext_error + unit
  | CmGetOpt _ _ => ext_error + option ConfigMap
  | CmCreate _ _ => ext_error + ConfigMap
  | CmPatch _ _ _ _ => ext_error + unit
  | BusNext => option EventMessage
  | CacheUpdate _ => unit
  | CacheRead => EventSet
  | StatsSleep _ => unit
  end.

Definition StatsSig : Sig := MkSig stats_call stats_res.
Abbreviation stats := (prog StatsSig Error).
Definition ask (c : stats_call) : stats (stats_res c) := call (S:=StatsSig) c.

(** [serde_json] on [EventSet]: what was written is read back. *)
Class StatsJson := {
  to_json : EventSet → ext_error + string;
  from_json : string → ext_error + EventSet;
  json_roundtrip s t : to_json s = inr t → from_json t = inr s
}.
End StatsApi.

(** ** [store/events_store.rs] *)
Module EventsStore.
Import EventsCache StatsApi.
Section Store.
Context `{StatsJson}.

Definition EVENT_STORE_LABLE_KEY : string := "app".
Definition EVENT_STORE : string := "event-store".
Definition EVENT_STATS_DATA : string := "stats".
Definition PATCH_PARAM_FILED_MANAGER : string := "events_store_configmap".

Definition stats_data (s : EventSet) : Error + gmap string string :=
  match to_json s with
  | inl e => inl (SerializeEvent e)
  | inr value => inr {[EVENT_STATS_DATA := value]}
  end.

(** [init_config_map_data] and [update_config_map] *)
Definition init_config_map_data : Error + gmap string string := stats_data EventSet_default.
Definition update_config_map (cache : EventSet) : Error + gmap string string := stats_data cache.

(** [EventSet::from_event_store] *)
Definition from_event_store (init_data : ConfigMap) : Error + EventSet :=
  match init_data.(cm_data) with
  | None => inl ReferenceConfigMapNoData
  | Some data =>
      match data !! EVENT_STATS_DATA with
      | None => inl (ReferencedKeyNotPresent EVENT_STATS_DATA)
      | Some value =>
          match from_json value with
          | inl e => inl (EventSerdeDeserialization value e)
          | inr s => inr s
          end
      end
  end.

Definition config_map_name (release_name : string) : string := release_name +:+ "-" +:+ EVENT_STORE.

Definition create_configmap (ns name : string) : stats ConfigMap :=
  let labels := {[EVENT_STORE_LABLE_KEY := EVENT_STORE]} in
  let! data := lift id init_config_map_data in
  let! r := ask (CmCreate ns (mkConfigMap (Some name) (Some labels) (Some data))) in
  let! cm := lift (ServiceAccountCreate name) r in
  do! ask (StatsSleep 5) in
  Ret cm.

Definition initialize (namespace release_name : string) : stats ConfigMap :=
  let! r := ask TryDefault in
  do! lift K8sClient r in
  let name := config_map_name release_name in
  let! r := ask (CmGetOpt namespace name) in
  let! cm := lift (λ e, GetEventStoreConfigMap e name) r in
  match cm with
  | Some cm => Ret cm
  | None => create_configmap namespace name
  end.

(** The config map which a round of [update_config_map_data] applies *)
Definition patch_of (name : string) (data : gmap string string) : ConfigMap :=
  mkConfigMap (Some name) None (Some data).

Definition update_config_map_data (fuel : nat) (namespace release_name : string) (period : N)
  : stats unit :=
  let! r := ask TryDefault in
  do! lift K8sClient r in
  let name := config_map_name release_name in
  loop fuel (λ _ : unit,
    let! cache := ask CacheRead in
    let! data := lift id (update_config_map cache) in
    let! r := ask (CmPatch namespace name PATCH_PARAM_FILED_MANAGER (patch_of name data)) in
    do! lift (λ e, UpdatingConfigmap e name namespace) r in
    do! ask (StatsSleep period) in
    Ret (inl tt)) tt.

(** [cache::store_events] *)
Definition store_events (fuel : nat) : stats unit :=
  loop fuel (λ _ : unit,
    let! m := ask BusNext in
    match m with
    | Some message => do! ask (CacheUpdate message) in Ret (inl tt)
    | None => Ret (inr tt)
    end) tt.
End Store.
End EventsStore.

(** ** [exporter/events_collector.rs] *)
Module EventsCollector.
Import EventsCache.

Definition VOLUME_STATS : string := "Volume stats".
Definition POOL_STATS : string := "Pool stats".
Definition NEXUS_STATS : string := "Nexus stats".
Definition CREATED : string := "created".
Definition DELETED : string := "deleted".
Definition REBUILD_STARTED : string := "rebuild_started".
Definition REBUILD_ENDED : string := "rebuild_ended".

Inductive Metrics := MetricsPool | MetricsVolume | MetricsNexus | MetricsUnknown.
Definition Metrics_to_string (m : Metrics) : string :=
  match m with
  | MetricsPool => "pool" | MetricsVolume => "volume" | MetricsNexus => "nexus" | MetricsUnknown => ""
  end.

(** A metric family with its single counter, labelled by the action. *)
Record MetricFamily := mkMetricFamily {
  family_name : string; help : string; family_action : string; family_value : Z
}.

Section Collector.
(** Whether [get_metric_with_label_values] has a counter for the label. *)
Variable label_ok : Metrics → string → bool.

(** Counters of a new collector start from zero: each is the value it is increased
    by.  A label error gives no families at all. *)
Definition families (m : Metrics) (help : string) (l : list (string * Z)) : list MetricFamily :=
  if forallb (λ lv, label_ok m lv.1) l
  then (λ lv, mkMetricFamily (Metrics_to_string m) help lv.1 lv.2) <$> l else [].

Definition volume_metrics (events : EventSet) : list MetricFamily :=
  families MetricsVolume VOLUME_STATS
    [(CREATED, events.(volume).(volume_created)); (DELETED, events.(volume).(volume_deleted))].
Definition pool_metrics (events : EventSet) : list MetricFamily :=
  families MetricsPool POOL_STATS
    [(CREATED, events.(pool).(pool_created)); (DELETED, events.(pool).(pool_deleted))].
Definition nexus_metrics (events : EventSet) : list MetricFamily :=
  families MetricsNexus NEXUS_STATS
    [(CREATED, events.(nexus).(nexus_created)); (DELETED, events.(nexus).(nexus_deleted));
     (REBUILD_STARTED, events.(nexus).(rebuild_started));
     (REBUILD_ENDED, events.(nexus).(rebuild_ended))].

(** [Collector::collect], on a new collector as [metrics_handlers] makes it for each
    request *)
Definition collect (events : EventSet) : list MetricFamily :=
  (volume_metrics events ++ pool_metrics events ++ nexus_metrics events)%list.
End Collector.
End EventsCollector.

(** ** The life of the program

    The tasks of [main] share the cache under its lock and the config map.  The
    process starts (from the config map, which it creates the first time), counts a
    message, takes the counters to save them, applies them to the config map, stops
    saving after an error, or dies; a message may be counted between the taking and
    the applying.  [saved], [taken] and [unsaved] record which messages the config map
    accounts for, which the counters on their way to it account for in addition, and
    which only the cache knows of.  A request of a process which died does not arrive
    later. *)
Module Lifecycle.
Import EventsCache StatsApi EventsStore.

Inductive counter :=
| PoolCreated | PoolDeleted | VolumeCreated | VolumeDeleted
| NexusCreated | NexusDeleted | RebuildStarted | RebuildEnded.

Definition value_of (i : counter) (s : EventSet) : Z :=
  match i with
  | PoolCreated => s.(pool).(pool_created)
  | PoolDeleted => s.(pool).(pool_deleted)
  | VolumeCreated => s.(volume).(volume_created)
  | VolumeDeleted => s.(volume).(volume_deleted)
  | NexusCreated => s.(nexus).(nexus_created)
  | NexusDeleted => s.(nexus).(nexus_deleted)
  | RebuildStarted => s.(nexus).(rebuild_started)
  | RebuildEnded => s.(nexus).(rebuild_ended)
  end.

(** The messages a counter is about. *)
Definition counts (i : counter) (m : EventMessage) : bool :=
  match i, m.(category), m.(action) with
  | PoolCreated, CategoryPool, ActionCreate | PoolDeleted, CategoryPool, ActionDelete
  | VolumeCreated, CategoryVolume, ActionCreate | VolumeDeleted, CategoryVolume, ActionDelete
  | NexusCreated, CategoryNexus, ActionCreate | NexusDeleted, CategoryNexus, ActionDelete
  | RebuildStarted, CategoryNexus, ActionRebuildBegin
  | RebuildEnded, CategoryNexus, ActionRebuildEnd => true
  | _, _, _ => false
  end.

Definition tally (i : counter) (l : list EventMessage) : Z :=
  Z.of_nat (length (base.filter (λ m, counts i m = true) l)).

Lemma tally_snoc i l m : tally i (l ++ [m])%list = (tally i l + if counts i m then 1 else 0)%Z.
Proof.
  unfold tally. rewrite filter_app, length_app.
  destruct (counts i m) eqn:E.
  - rewrite filter_cons_True by done. cbn. lia.
  - rewrite filter_cons_False by congruence. cbn. lia.
Qed.

Lemma inc_counter_value i s m :
  value_of i (inc_counter s m) = if counts i m then u32_inc (value_of i s) else value_of i s.
Proof.
  destruct s as [p v [c d b e]], m as [[] []], i; try reflexivity.
Qed.

(** The counters after some messages. *)
Definition totals (l : list EventMessage) : EventSet := foldl inc_counter EventSet_default l.

Lemma totals_value i l : value_of i (totals l) = (tally i l `mod` U32)%Z.
Proof.
  induction l as [|m l IH] using rev_ind; [by destruct i|].
  unfold totals in *. rewrite foldl_app. cbn. rewrite inc_counter_value, tally_snoc, IH.
  destruct (counts i m); [|by rewrite Z.add_0_r].
  unfold u32_inc. by rewrite Zplus_mod_idemp_l.
Qed.

Section Life.
Context `{StatsJson} (ns release : string).

(** The Kubernetes API on the config map of the store. *)
Definition cm_api : handler StatsSig (option ConfigMap) := λ c s,
  match c return stats_res c * option ConfigMap with
  | TryDefault => (inr tt, s)
  | CmGetOpt _ _ => (inr s, s)
  | CmCreate _ cm => match s with
                     | None => (inr cm, Some cm)
                     | Some _ => (inl "AlreadyExists", s)
                     end
  | CmPatch _ _ _ cm => (inr tt, s)
  | BusNext => (None, s)
  | CacheUpdate _ => (tt, s)
  | CacheRead => (EventSet_default, s)
  | StatsSleep _ => (tt, s)
  end.

(** Server-side apply: the keys of the patch replace those of the object. *)
Definition apply_patch (patch : ConfigMap) (s : option ConfigMap) : ConfigMap :=
  match s with
  | None => patch
  | Some cm => mkConfigMap cm.(cm_name) cm.(cm_labels)
                 (Some (default ∅ patch.(cm_data) ∪ default ∅ cm.(cm_data)))
  end.

(** The loop of [update_config_map_data]: between rounds, with a patch under way, or
    ended by an error. *)
Inductive saver := Idle | Patching (data : gmap string string) | Ended.

Record sys := mkSys {
  store : option ConfigMap; cache : option EventSet; saving : saver;
  saved : list EventMessage; taken : list EventMessage; unsaved : list EventMessage
}.

Definition start : sys := mkSys None None Idle [] [] [].

Inductive step : sys → sys → Prop :=
| step_start s cm s' tr e sv :
    run cm_api (initialize ns release) s = (Done cm, s', tr) → from_event_store cm = inr e →
    step (mkSys s None Idle sv [] []) (mkSys s' (Some e) Idle sv [] [])
| step_message s e g sv tk un m :
    step (mkSys s (Some e) g sv tk un) (mkSys s (Some (inc_counter e m)) g sv tk (un ++ [m])%list)
| step_take s e sv un data :
    update_config_map e = inr data →
    step (mkSys s (Some e) Idle sv [] un) (mkSys s (Some e) (Patching data) sv un [])
| step_patch s e data sv tk un :
    step (mkSys s (Some e) (Patching data) sv tk un)
         (mkSys (Some (apply_patch (patch_of (config_map_name release) data) s)) (Some e) Idle
            (sv ++ tk)%list [] un)
| step_end s e g sv tk un :
    step (mkSys s (Some e) g sv tk un) (mkSys s (Some e) Ended sv [] (tk ++ un)%list)
| step_crash s e g sv tk un :
    step (mkSys s (Some e) g sv tk un) (mkSys s None Idle sv [] []).

(** The cache, the counters under way and the config map hold the totals of their
    messages. *)
Definition accounted (st : sys) : Prop :=
  (∀ e, st.(cache) = Some e → e = totals (st.(saved) ++ st.(taken) ++ st.(unsaved))%list) ∧
  (∀ data, st.(saving) = Patching data → stats_data (totals (st.(saved) ++ st.(taken))%list) = inr data) ∧
  match st.(store) with
  | Some cm => from_event_store cm = inr (totals st.(saved))
  | None => st.(cache) = None ∧ st.(saved) = []
  end.

Lemma from_stats_data name labels s data :
  stats_data s = inr data → from_event_store (mkConfigMap name labels (Some data)) = inr s.
Proof.
  unfold stats_data, from_event_store. destruct (to_json s) as [|t] eqn:E; [done|].
  intros [= <-]. cbn [cm_data]. rewrite lookup_singleton_eq. by rewrite (json_roundtrip s t E).
Qed.

Lemma from_patched name s e data :
  stats_data e = inr data → from_event_store (apply_patch (patch_of name data) s) = inr e.
Proof.
  intros Hd. destruct s as [cm|]; [|by apply from_stats_data].
  unfold stats_data in Hd. destruct (to_json e) as [|t] eqn:E; [done|]. injection Hd as <-.
  unfold from_event_store. cbn [apply_patch patch_of cm_data default from_option].
  rewrite (lookup_union_Some_l _ _ _ t) by apply lookup_singleton_eq.
  by rewrite (json_roundtrip e t E).
Qed.

(** What [initialize] returns is in the store afterwards. *)
Lemma run_initialize s cm s' tr :
  run cm_api (initialize ns release) s = (Done cm, s', tr) →
  s' = Some cm ∧ (s = Some cm ∨ s = None ∧ ∃ data, init_config_map_data = inr data ∧
                    cm.(cm_data) = Some data).
Proof.
  unfold initialize. cbn. destruct s as [cm0|]; cbn.
  - intros [= -> <- _]. auto.
  - unfold create_configmap. destruct init_config_map_data as [|data]; cbn; [done|].
    intros [= <- <- _]. split; [done|]. right. split; [done|]. by exists data.
Qed.

Lemma accounted_start s cm s' tr e sv :
  run cm_api (initialize ns release) s = (Done cm, s', tr) → from_event_store cm = inr e →
  accounted (mkSys s None Idle sv [] []) → accounted (mkSys s' (Some e) Idle sv [] []).
Proof.
  intros Hr He (_ & _ & Hs). apply run_initialize in Hr as (-> & [->|(-> & data & Hd & Hcm)]);
    cbn [store cache saved taken unsaved saving] in *.
  - split_and!; cbn; [|done|done]. intros e' [= <-]. rewrite app_nil_r. rewrite Hs in He.
    by injection He as <-.
  - destruct Hs as [_ ->]. destruct cm as [n l d]. cbn in Hcm. subst d.
    pose proof (from_stats_data n l EventSet_default data Hd) as Hf. rewrite Hf in He.
    injection He as <-. split_and!; cbn; [by intros e' [= <-]|done|exact Hf].
Qed.

Lemma accounted_step st st' : step st st' → accounted st → accounted st'.
Proof.
  intros [s cm s' tr e sv Hr He|s e g sv tk un m|s e sv un data Hd|s e data sv tk un|s e g sv tk un|s e g sv tk un];
    [by eapply accounted_start|..]; intros (Hc & Hg & Hs);
    cbn [store cache saved taken unsaved saving] in *.
  - split_and!; [|done|by destruct s; [|destruct Hs]].
    intros e' [= <-]. cbn [saved taken unsaved]. rewrite (Hc e eq_refl), !app_assoc.
    unfold totals. by rewrite (foldl_app _ ((sv ++ tk) ++ un)%list).
  - split_and!; [|cbn [saving saved taken]|by destruct s; [|destruct Hs]].
    + intros e' [= <-]. cbn [saved taken unsaved]. rewrite app_nil_r. auto.
    + intros data' [= <-]. by rewrite (Hc e eq_refl) in Hd.
  - split_and!; [|done|].
    + intros e' [= <-]. cbn [saved taken unsaved]. rewrite <-app_assoc. auto.
    + cbn [store saved]. by apply from_patched, Hg.
  - split_and!; [|done|by destruct s; [|destruct Hs]]. intros e' [= <-]. auto.
  - split_and!; [done|done|]. destruct s; [done|]. by destruct Hs.
Qed.

Lemma accounted_reachable st : rtc step start st → accounted st.
Proof.
  intros Hr. cut (accounted start); [|by split_and!; cbn].
  induction Hr; eauto using accounted_step.
Qed.
End Life.

(** The bus and the cache. *)
Definition bus : handler StatsSig (list EventMessage * EventSet) := λ c w,
  match c return stats_res c * (list EventMessage * EventSet) with
  | BusNext => match w.1 with [] => (None, w) | m :: l => (Some m, (l, w.2)) end
  | CacheUpdate m => (tt, (w.1, inc_counter w.2 m))
  | CacheRead => (w.2, w)
  | TryDefault => (inr tt, w)
  | CmGetOpt _ _ => (inr None, w)
  | CmCreate _ cm => (inr cm, w)
  | CmPatch _ _ _ _ => (inr tt, w)
  | StatsSleep _ => (tt, w)
  end.
End Lifecycle.

Module StatsSpec.
Import EventsCache StatsApi EventsStore Lifecycle.

(** C20: The counters count: in every state the program can reach through messages,
    saves, errors, crashes and restarts, each cached counter is the number of its
    messages among those saved, being saved and since then (modulo 2^32), and the
    config map reads back as the numbers of the saved ones.  A message is never counted
    twice, and a crash loses only messages which were not saved. *)
Theorem counters_count `{StatsJson} ns release st :
  rtc (step ns release) start st →
  (∀ e i, st.(cache) = Some e →
     value_of i e = (tally i (st.(saved) ++ st.(taken) ++ st.(unsaved))%list `mod` U32)%Z) ∧
  (∀ cm, st.(store) = Some cm → ∃ e, from_event_store cm = inr e ∧
     ∀ i, value_of i e = (tally i st.(saved) `mod` U32)%Z).
Proof.
  intros (Hc & _ & Hs)%accounted_reachable. split.
  - intros e i He. rewrite (Hc e He). apply totals_value.
  - intros cm Hcm. rewrite Hcm in Hs. eexists. split; [exact Hs|]. intros i. apply totals_value.
Qed.

(** The task which stores events takes every message of the bus, in order, and
    ends with the subscription: with more fuel than messages it returns, and the
    cache has been updated by each message once. *)
Theorem store_events_drains fuel msgs e :
  length msgs < fuel →
  result_of (run bus (store_events fuel) (msgs, e)) = Done tt ∧
  world_of (run bus (store_events fuel) (msgs, e)) = ([], foldl inc_counter e msgs).
Proof.
  unfold store_events. revert fuel e.
  induction msgs as [|m msgs IH]; intros [|fuel] e Hf; cbn in Hf; try lia; [done|].
  cbn [loop]. cbn. specialize (IH fuel (inc_counter e m) ltac:(lia)).
  by destruct (run bus (loop fuel _ tt) (msgs, inc_counter e m)) as [[??]?].
Qed.
End StatsSpec.
