(* ===== verification/StatsServer.v ===== *)
(** * call-home: the statistics server

    Models [main.rs] and [exporter/exporter_config.rs] of [call-home/src/bin/stats]:
    the start of the program, which restores the counters and spawns the two tasks of
    [CallHomeStats], and the handler of [/stats].  The requests of the start come in the
    order of the protocol [startup], whatever the services answer; it is the first step
    of [Lifecycle], and what a scrape shows are the messages counted. *)

From S2P Require Import Prelude Text JobApi CallHomeStats.
From stdpp Require Import base gmap list strings relations.
From Stdlib Require Import ZArith Lia.
Open Scope string_scope.

Module StatsServer.
Import EventsCache StatsApi EventsStore EventsCollector.

(** The process ends with an error of [main], or panics. *)
Inductive server_fault := Returned (e : Error) | Panicked.

(** [struct Cli] of [main.rs], without the options of the logging *)
Record Cli := mkCli {
  mbus_url : string; namespace : string; release_name : string; metrics_endpoint : string;
  update_period : N
}.

(** [OnceCell]: the first value stays. *)
Definition get_or_init {A} (cell : option A) (a : A) : option A :=
  match cell with Some x => Some x | None => Some a end.

Inductive server_call :=
| Stats (c : stats_call)
| MessageBusInit (url : string)
| BusSubscribe
(** [Cache::initialize], and [Cache::cache_init().lock()]: [None] before that *)
| CacheInitialize (events : EventSet)
| CacheLock
(** [tokio::spawn] of [store_events] and of [update_config_map_data] *)
| SpawnStoreEvents
| SpawnUpdateConfigMap (namespace release_name : string) (period : N)
| HttpBind (endpoint : string)
| HttpRun.

Definition server_res (c : server_call) : Type :=
  match c with
  | Stats c => stats_res c
  | MessageBusInit _ | CacheInitialize _ | SpawnStoreEvents | SpawnUpdateConfigMap _ _ _ => unit
  | BusSubscribe | HttpBind _ | HttpRun => ext_error + unit
  | CacheLock => option (ext_error + EventSet)
  end.
Definition ServerSig : Sig := MkSig server_call server_res.
Abbreviation server := (prog ServerSig server_fault).
Definition issue (c : server_call) : server (server_res c) := call (S:=ServerSig) c.

(** A function of [CallHomeStats] in [main], and [expect] on what it returns. *)
Definition embed {E A} (p : prog StatsSig E A) : prog ServerSig E A :=
  interp (λ c : op StatsSig, call (S:=ServerSig) (Stats c)) p.
Definition returned {A} (p : prog ServerSig Error A) : server A :=
  let! r := attempt p in lift Returned r.
Definition expect {X A} (r : X + A) : server A := lift (λ _, Panicked) r.
Definition expect_some {A} (o : option A) : server A := ok_or Panicked o.

(** [exporter_config.rs]: the cell of the endpoint *)
Definition ExporterConfig_initialize (cell : option string) (addr : string) : option string :=
  get_or_init cell addr.
Definition ExporterConfig_get_config (cell : option string) : server string := expect_some cell.

Section Main.
Context `{StatsJson}.

Definition mbus_init (url : string) : server unit :=
  do! issue (MessageBusInit url) in
  let! r := issue BusSubscribe in
  expect r.

Definition initialize_events_cache (init_data : ConfigMap) : server unit :=
  let! events := expect (from_event_store init_data) in
  issue (CacheInitialize events).

Definition initialize_events_store (ns release : string) : server ConfigMap :=
  returned (embed (initialize ns release)).

Definition initialize_exporter (cell : option string) (args : Cli) : option string :=
  ExporterConfig_initialize cell args.(metrics_endpoint).

Definition main (args : Cli) : server unit :=
  do! mbus_init args.(mbus_url) in
  let! init_data := initialize_events_store args.(namespace) args.(release_name) in
  do! initialize_events_cache init_data in
  let config := initialize_exporter None args in
  do! issue SpawnStoreEvents in
  do! issue (SpawnUpdateConfigMap args.(namespace) args.(release_name) args.(update_period)) in
  let! endpoint := ExporterConfig_get_config config in
  let! r := issue (HttpBind endpoint) in
  do! lift (λ e, Returned (SocketBindingFailure e)) r in
  let! r := issue HttpRun in
  expect r.
End Main.

(** ** [/stats] *)

(** The [prometheus] crate: whether a counter has the label, whether the registry takes
    the collector, and what the encoder leaves in the buffer of the gathered families
    (its error is dropped). *)
Class Prometheus := {
  label_ok : Metrics → string → bool;
  register : ext_error + unit;
  encoded : list MetricFamily → string
}.

Section Handler.
Context `{Prometheus}.

(** [Collector::collect] with the lock of the cache *)
Definition collect_locked : server (list MetricFamily) :=
  let! cell := issue CacheLock in
  let! lock := expect_some cell in
  Ret (match lock with inr events => collect label_ok events | inl _ => [] end).

(** The body of the answer, whose status is always [200 OK].  A registry which does not
    have the collector gathers nothing. *)
Definition metrics_handlers : server string :=
  let! gathered := (match register with inr _ => collect_locked | inl _ => Ret [] end) in
  let buffer := encoded gathered in
  Ret (match from_utf8 buffer with Some v => v | None => "" end).
End Handler.
End StatsServer.

(** ** The server and the life of the program *)
Module StatsServerSpec.
Import EventsCache StatsApi EventsStore EventsCollector Lifecycle StatsServer.

#[export] Instance ConfigMap_eq_dec : EqDecision ConfigMap.
Proof. solve_decision. Defined.
#[export] Instance EventSet_eq_dec : EqDecision EventSet.
Proof. intros [[] [] []] [[] [] []]. unfold Decision. decide equality; decide equality; apply Z.eq_dec. Defined.

(** ** The order of the start

    How far the start is, by the requests made and their answers: the steps come one
    after the other, each only when the one before it succeeded, the config map is
    created (with counters of zero) only when the API server says that there is
    none, the cache gets the counters read from the config map that was found or
    created, and nothing is bound or served before both tasks run. *)
Inductive stage :=
| Connecting | Subscribing | Subscribed | Looking | Missing | Found (cm : ConfigMap)
| Initialized | Storing | Saving | Bound | Served | Stopped.

Section Startup.
Context `{StatsJson} (args : Cli).
Definition event_store_name : string := config_map_name args.(release_name).
(** The config map of an empty event store. *)
Definition empty_store (cm : ConfigMap) : bool :=
  match init_config_map_data with
  | inr data => bool_decide (cm = mkConfigMap (Some event_store_name)
                                    (Some {[EVENT_STORE_LABLE_KEY := EVENT_STORE]}) (Some data))
  | inl _ => false
  end.
Definition restored (cm : ConfigMap) (e : EventSet) : bool :=
  match from_event_store cm with inr e' => bool_decide (e = e') | inl _ => false end.
Definition go_if (b : bool) (g : stage) : option stage := if b then Some g else None.
Definition or_stop {A} (r : ext_error + A) (g : A → stage) : stage :=
  match r with inr a => g a | inl _ => Stopped end.

Definition startup : protocol ServerSig := {|
  mst := stage;
  mstep (g : stage) (e : ev ServerSig) :=
    match e with
    | @Ev _ c r =>
        match g, (c : server_call) as c return server_res c → option stage with
        | Connecting, MessageBusInit url => λ _, go_if (bool_decide (url = args.(mbus_url))) Subscribing
        | Subscribing, BusSubscribe => λ r, Some (or_stop r (λ _, Subscribed))
        | Subscribed, Stats TryDefault => λ r, Some (or_stop r (λ _, Looking))
        | Looking, Stats (CmGetOpt ns name) => λ r,
            go_if (bool_decide (ns = args.(namespace) ∧ name = event_store_name))
              (or_stop r (λ o, match o with Some cm => Found cm | None => Missing end))
        | Missing, Stats (CmCreate ns cm) => λ r,
            go_if (bool_decide (ns = args.(namespace)) && empty_store cm) (or_stop r Found)
        | Found cm, Stats (StatsSleep _) => λ _, Some (Found cm)
        | Found cm, CacheInitialize e => λ _, go_if (restored cm e) Initialized
        | Initialized, SpawnStoreEvents => λ _, Some Storing
        | Storing, SpawnUpdateConfigMap ns rel p => λ _,
            go_if (bool_decide ((ns, rel, p) = (args.(namespace), args.(release_name), args.(update_period))))
              Saving
        | Saving, HttpBind a => λ r,
            go_if (bool_decide (a = args.(metrics_endpoint))) (or_stop r (λ _, Bound))
        | Bound, HttpRun => λ r, Some (or_stop r (λ _, Served))
        | _, _ => λ _, None
        end r
    end |}.

Lemma empty_store_ok data :
  init_config_map_data = inr data →
  empty_store (mkConfigMap (Some event_store_name) (Some {[EVENT_STORE_LABLE_KEY := EVENT_STORE]})
                 (Some data)) = true.
Proof. unfold empty_store. intros ->. by apply bool_decide_true. Qed.

Lemma initialize_starts (R : server_fault → mst startup → Prop) :
  (∀ e g, R e g) →
  respects startup (initialize_events_store args.(namespace) args.(release_name)) Subscribed
    (λ cm g, g = Found cm) R.
Proof.
  intros HR. unfold initialize_events_store, returned.
  cbn. intros [x|[]]; cbn; [apply HR|]. intros o.
  rewrite bool_decide_true by done. destruct o as [x|[cm|]]; cbn; [apply HR|done|].
  unfold create_configmap. destruct init_config_map_data as [x|data] eqn:E; cbn; [apply HR|].
  intros r. pose proof (empty_store_ok data E) as He. unfold event_store_name in *. cbn in He.
  rewrite He, bool_decide_true by done.
  by destruct r as [x|cm]; cbn; [apply HR|].
Qed.

Lemma main_starts :
  respects startup (main args) Connecting (λ _ g, g = Served) (λ _ _, True).
Proof.
  unfold main. apply (respects_seq _ _ _ _ (λ _ (g : mst startup), g = Subscribed) _ (λ _ _, True)); [| |done].
  { cbn. intros ?. rewrite bool_decide_true by done. by intros [x|[]]. }
  intros ? g ->.
  apply (respects_seq _ _ _ _ (λ cm (g : mst startup), g = Found cm) _ (λ _ _, True));
    [by apply initialize_starts| |done].
  intros cm g ->. unfold initialize_events_cache, expect.
  destruct (from_event_store cm) as [x|e] eqn:E; [done|].
  cbn. intros ?. unfold restored. rewrite E, bool_decide_true by done.
  cbn. intros ? ?. rewrite bool_decide_true by done. cbn.
  intros [x|[]]; rewrite bool_decide_true by done; cbn; [done|].
  by intros [x|[]].
Qed.
End Startup.

(** What the process has set up, beside the config map of the cluster. *)
Inductive task := StoreEvents | UpdateConfigMap (ns release : string) (period : N).
Record world := mkWorld {
  config_map : option ConfigMap; cell : option EventSet; tasks : list task;
  listening : option string
}.

Section Spec.
Context `{StatsJson}.

(** The services when nothing fails: the API server is that of [Lifecycle]. *)
Definition cluster : handler ServerSig world := λ c w,
  match c return server_res c * world with
  | Stats c =>
      let '(r, s) := cm_api c w.(config_map) in (r, mkWorld s w.(cell) w.(tasks) w.(listening))
  | MessageBusInit _ => (tt, w)
  | BusSubscribe | HttpRun => (inr tt, w)
  | CacheInitialize e =>
      (tt, mkWorld w.(config_map) (get_or_init w.(cell) e) w.(tasks) w.(listening))
  | CacheLock => (inr <$> w.(cell), w)
  | SpawnStoreEvents =>
      (tt, mkWorld w.(config_map) w.(cell) (w.(tasks) ++ [StoreEvents])%list w.(listening))
  | SpawnUpdateConfigMap ns rel p =>
      (tt, mkWorld w.(config_map) w.(cell) (w.(tasks) ++ [UpdateConfigMap ns rel p])%list
             w.(listening))
  | HttpBind a => (inr tt, mkWorld w.(config_map) w.(cell) w.(tasks) (Some a))
  end.

Lemma evals_cache_lock w : evals cluster (issue CacheLock) w = (Done (inr <$> w.(cell)), w).
Proof. done. Qed.

Lemma run_embed {E A} (p : prog StatsSig E A) w :
  (run cluster (embed p) w).1 =
    (result_of (run cm_api p w.(config_map)),
     mkWorld (world_of (run cm_api p w.(config_map))) w.(cell) w.(tasks) w.(listening)).
Proof.
  revert w. induction p as [| | |c k IH]; intros [s en t l]; cbn; try done.
  destruct (cm_api c s) as [r s'] eqn:Er. cbn.
  specialize (IH r (mkWorld s' en t l)). cbn in IH. unfold embed in IH.
  destruct (run cluster _ _) as [[o w'] tr]. cbn in *.
  destruct (run cm_api (k r) s') as [[o' s''] tr']. cbn in *. exact IH.
Qed.

Lemma evals_returned {A} (p : prog StatsSig Error A) w :
  evals cluster (returned (embed p)) w =
    (match result_of (run cm_api p w.(config_map)) with
     | Done a => Done a | Failed e => Failed (Returned e) | Exhausted => Exhausted | Cut => Cut
     end, mkWorld (world_of (run cm_api p w.(config_map))) w.(cell) w.(tasks) w.(listening)).
Proof.
  unfold returned. rewrite evals_bind, evals_attempt. unfold evals at 1. rewrite run_embed.
  by destruct (result_of (run cm_api p (config_map w))).
Qed.

(** [initialize] against the API server returns or fails. *)
Lemma initialize_ends ns release s :
  match result_of (run cm_api (initialize ns release) s) with Done _ | Failed _ => True | _ => False end.
Proof.
  unfold initialize. cbn. destruct s as [cm|]; cbn; [done|].
  unfold create_configmap. by destruct init_config_map_data.
Qed.

(** Without a process the only step is the start. *)
Lemma only_start ns release s sv st' :
  step ns release (mkSys s None Idle sv [] []) st' →
  ∃ cm s' e tr, run cm_api (initialize ns release) s = (Done cm, s', tr) ∧
    from_event_store cm = inr e ∧ st' = mkSys s' (Some e) Idle sv [] [].
Proof. intros Hs. inversion Hs; subst. by eauto 8. Qed.

(** C25: The start of the program, in its order.  Whatever the services answer, the
    requests are those of [startup]: the message bus, the config map (created only if
    there is none), the cache with the counters of that config map, the task which
    counts, the task which saves, the endpoint, serving; each only after the one
    before succeeded, and a start without an error has done all of them.  When the
    services answer, it gets there: the cache holds the restored counters, both tasks
    run and the endpoint is open; if the config map cannot be created it ends with
    that error, and if its counters cannot be read it panics, both before anything is
    counted, saved or served.  The start of [Lifecycle] is this start: a process
    comes to have a cache in no other case and with no other counters. *)
Theorem server_start_refines (args : Cli) s :
  (∀ tr o, exec (main args) tr o →
     ∃ g, accepts (startup args) Connecting tr = Some g ∧ (∀ u, o = Done u → g = Served)) ∧
  let r := evals cluster (main args) (mkWorld s None [] None) in
  let started sv st := step args.(namespace) args.(release_name) (mkSys s None Idle sv [] []) st in
  match run cm_api (initialize args.(namespace) args.(release_name)) s with
  | (Done cm, s', _) =>
      match from_event_store cm with
      | inr e =>
          r = (Done tt, mkWorld s' (Some e)
                 [StoreEvents; UpdateConfigMap args.(namespace) args.(release_name) args.(update_period)]
                 (Some args.(metrics_endpoint))) ∧
          ∀ sv st, started sv st ↔ st = mkSys s' (Some e) Idle sv [] []
      | inl _ => r = (Failed Panicked, mkWorld s' None [] None) ∧ ∀ sv st, ¬ started sv st
      end
  | (Failed e, s', _) =>
      r = (Failed (Returned e), mkWorld s' None [] None) ∧ ∀ sv st, ¬ started sv st
  | _ => False
  end.
Proof.
  split.
  { intros tr o Hx. destruct (respects_sound _ _ _ _ _ _ _ (main_starts args) Hx) as (g & Hg & Ho).
    exists g. split; [done|]. by intros u ->. }
  cbn zeta. pose proof (initialize_ends args.(namespace) args.(release_name) s) as Hends.
  assert (∀ url w, evals cluster (mbus_init url) w = (Done tt, w)) as Hbus by done.
  unfold main. rewrite evals_bind, Hbus, evals_bind. unfold initialize_events_store.
  rewrite evals_returned.
  cbn [config_map cell tasks listening].
  destruct (run cm_api (initialize _ _) s) as [[o s'] tr] eqn:Ei. cbn in Hends. cbn [result_of world_of fst snd].
  destruct o as [cm|e| |]; [|clear Hends|done..]; last first.
  { split; [done|]. intros sv st (cm & ? & ? & ? & Hr & _)%only_start. congruence. }
  rewrite evals_bind. unfold initialize_events_cache.
  destruct (from_event_store cm) as [err|e] eqn:Ef; (split; [done|]); intros sv st.
  - intros (cm' & ? & ? & ? & Hr & He & _)%only_start. congruence.
  - split; [|intros ->; by eapply step_start].
    intros (cm' & ? & e' & ? & Hr & He & ->)%only_start.
    rewrite Ei in Hr. injection Hr as <- <- <-. by rewrite Ef in He; injection He as <-.
Qed.

(** ** What a scrape shows *)
Definition exposed (l : list EventMessage) : list MetricFamily :=
  let count i := (tally i l `mod` U32)%Z in
  [mkMetricFamily "volume" VOLUME_STATS CREATED (count VolumeCreated);
   mkMetricFamily "volume" VOLUME_STATS DELETED (count VolumeDeleted);
   mkMetricFamily "pool" POOL_STATS CREATED (count PoolCreated);
   mkMetricFamily "pool" POOL_STATS DELETED (count PoolDeleted);
   mkMetricFamily "nexus" NEXUS_STATS CREATED (count NexusCreated);
   mkMetricFamily "nexus" NEXUS_STATS DELETED (count NexusDeleted);
   mkMetricFamily "nexus" NEXUS_STATS REBUILD_STARTED (count RebuildStarted);
   mkMetricFamily "nexus" NEXUS_STATS REBUILD_ENDED (count RebuildEnded)].

Lemma exposed_totals `{Prometheus} l :
  (∀ m x, label_ok m x = true) → collect label_ok (totals l) = exposed l.
Proof.
  intros Hl. unfold exposed. rewrite <-!totals_value.
  unfold collect, volume_metrics, pool_metrics, nexus_metrics, families. cbn. by rewrite !Hl.
Qed.

(** C26: A scrape shows the messages: in every state the program can reach, [/stats] answers
    with the exposition of the counters of all the messages which are saved, being saved
    or counted since, without panic and without changing anything; with a collector
    which cannot be registered it answers with that of no counter at all. *)
Theorem scrape_shows_messages `{Prometheus} ns release st e w :
  rtc (step ns release) start st → st.(cache) = Some e → w.(cell) = Some e →
  (∀ m x, label_ok m x = true) →
  evals cluster metrics_handlers w =
    (Done (default "" (from_utf8 (encoded
       (match register with
        | inr _ => exposed (st.(saved) ++ st.(taken) ++ st.(unsaved))%list
        | inl _ => []
        end)))), w).
Proof.
  intros (Hc & _)%accounted_reachable He Hw Hl. unfold metrics_handlers.
  rewrite <-(exposed_totals _ Hl), <-(Hc e He), evals_bind.
  destruct register as [err|u].
  - by rewrite !evals_ret.
  - unfold collect_locked, expect_some.
    rewrite evals_bind, evals_cache_lock, Hw. cbn. by rewrite !evals_ret.
Qed.
End Spec.
End StatsServerSpec.
