(* ===== verification/CallHomeReport.v ===== *)
(** * call-home: the report

    Models [call-home/src/math.rs] and
    [call-home/src/bin/callhome/collector/report_models.rs]: the percentiles, the
    summaries of volumes, pools, replicas and disks, and the counters which are read
    from the statistics of events.  Integer overflow wraps around, as in the release
    profile; an index out of range is a panic, which is [None]. *)

From S2P Require Import Prelude Text Float64.
From stdpp Require Import base gmap list strings sorting.
From Stdlib Require Import ZArith Lia Ascii.
Open Scope string_scope.
Open Scope Z_scope.

(** ** [math.rs] *)
Module Math.
Import F64.

(** Reading [data[i]], where [i] is the result of [usize] arithmetic. *)
Definition index (data : list Z) (i : Z) : option Z := data !! Z.to_nat i.
(** [x - 1] on [usize], in the release profile *)
Definition usize_pred (x : Z) : Z := (x - 1) `mod` 2 ^ 64.

Definition interpolate (lower_value upper_value : Z) (pos : f64) : f64 :=
  let fraction := sub pos (floor pos) in
  add (of_Z lower_value) (mul fraction (sub (of_Z upper_value) (of_Z lower_value))).

(** The position of a percentile in data of a length. *)
Definition position (len : nat) (percentile : f64) : f64 :=
  div (mul (add (of_Z (Z.of_nat len)) (of_Z 1)) percentile) (of_Z 100).

Definition percentile_exclusive (sorted_data : list Z) (percentile : f64) : option (option f64) :=
  match length sorted_data with
  | 0%nat => Some None
  | 1%nat => v ← index sorted_data 0; Some (Some (of_Z v))
  | len =>
      let pos := position len percentile in
      if leb pos (of_Z 1) then v ← index sorted_data 0; Some (Some (of_Z v))
      else if leb (of_Z (Z.of_nat len)) pos
      then v ← index sorted_data (Z.of_nat len - 1); Some (Some (of_Z v))
      else
        let lower := usize_pred (floor_usize pos) in
        let upper := usize_pred (ceil_usize pos) in
        l ← index sorted_data lower;
        u ← index sorted_data upper;
        Some (Some (interpolate l u pos))
  end.
End Math.

(** ** The models of the REST API which the report reads *)
Module RestModels.

Inductive VolumeStatus := VsUnknown | VsOnline | VsDegraded | VsFaulted | VsShutdown.
#[export] Instance VolumeStatus_eq_dec : EqDecision VolumeStatus.
Proof. solve_decision. Defined.

Record Volume := mkVolume { volume_size : Z; num_replicas : Z; volume_status : VolumeStatus }.
Record PoolSpec := mkPoolSpec { spec_id : string; spec_node : string; spec_disks : list string }.
Record PoolState := mkPoolState {
  state_node : string; state_disks : list string; capacity : Z
}.
Record Pool := mkPool { pool_spec : option PoolSpec; pool_state : option PoolState }.
Record Replica := mkReplica { replica_pool : string; replica_size : Z }.
(** A partition, with the disk it is on and its own name: the report only reads the
    name. *)
Record BlockDevicePartition := mkPartition { partition_parent : string; partition_name : string }.
Record BlockDevice := mkBlockDevice {
  devname : string; devlinks : list string; devtype : string; devpath : string;
  size_in_sectors : Z; partition : option BlockDevicePartition; connection_type : string;
  is_rotational : option bool
}.
End RestModels.

(** ** [report_models.rs] *)
Module ReportModels.
Import F64 Math RestModels.

Definition BYTES_PER_SECTOR : Z := 512.
Definition U64 : Z := 2 ^ 64.
Definition u64_add (x y : Z) : Z := (x + y) `mod` U64.
Definition u64_mul (x y : Z) : Z := (x * y) `mod` U64.
(** [iter().sum()] *)
Definition u64_sum (l : list Z) : Z := foldl u64_add 0 l.

Definition get_max_value (values : list Z) : Z := foldr Z.max 0 values.
Definition get_min_value (values : list Z) : Z :=
  match values with [] => 0 | v :: l => foldr Z.min v l end.

Definition get_mean_value (values : list Z) : Z :=
  let len := of_Z (Z.of_nat (length values)) in
  as_u64 (foldl (λ sum value, add sum (div (of_Z value) len)) (of_Z 0) values).

Definition get_percentile (values : list Z) (percentile : Z) : option Z :=
  r ← percentile_exclusive (merge_sort Z.le values) (of_Z percentile);
  Some (round_u64 (default (of_Z 0) r)).

Record Percentiles := mkPercentiles {
  percentile_50 : Z; percentile_75 : Z; percentile_90 : Z
}.
Definition Percentiles_default : Percentiles := mkPercentiles 0 0 0.
Definition Percentiles_new (values : list Z) : option Percentiles :=
  p50 ← get_percentile values 50;
  p75 ← get_percentile values 75;
  p90 ← get_percentile values 90;
  Some (mkPercentiles p50 p75 p90).

Definition get_volumes_size_vector (volumes : list Volume) : list Z := volume_size <$> volumes.
Definition get_replicas_size_vector (volumes : list Volume) : list Z := num_replicas <$> volumes.
Definition get_pools_size_vector (pools : list Pool) : list Z :=
  omap (λ p, capacity <$> p.(pool_state)) pools.

(** *** Volumes *)
Record VolumeReplicaCounts := mkVolumeReplicaCounts {
  one_replica : Z; two_replicas : Z; three_replicas : Z; four_replicas : Z;
  five_or_more_replicas : Z
}.
(** [iter().filter(f).count()], truncated *)
Definition count_if {A} (width : Z) (f : A → bool) (l : list A) : Z :=
  Z.of_nat (length (base.filter (λ x, f x = true) l)) `mod` 2 ^ width.

Definition VolumeReplicaCounts_new (volumes : list Volume) : VolumeReplicaCounts :=
  {| one_replica := count_if 32 (λ v, v.(num_replicas) =? 1) volumes;
     two_replicas := count_if 32 (λ v, v.(num_replicas) =? 2) volumes;
     three_replicas := count_if 32 (λ v, v.(num_replicas) =? 3) volumes;
     four_replicas := count_if 32 (λ v, v.(num_replicas) =? 4) volumes;
     five_or_more_replicas := count_if 32 (λ v, 5 <=? v.(num_replicas)) volumes |}.

Record VolumeStateCounts := mkVolumeStateCounts {
  unknown : Z; online : Z; degraded : Z; faulted : Z; shutdown : Z
}.
Definition VolumeStateCounts_new (volumes : list Volume) : VolumeStateCounts :=
  let count s := count_if 64 (λ v, bool_decide (v.(volume_status) = s)) volumes in
  {| unknown := count VsUnknown; online := count VsOnline; degraded := count VsDegraded;
     faulted := count VsFaulted; shutdown := count VsShutdown |}.

(** *** Counters of events *)
Record EventData := mkEventData {
  volume_created : Z; volume_deleted : Z; pool_created : Z; pool_deleted : Z;
  nexus_created : Z; nexus_deleted : Z; rebuild_started : Z; rebuild_ended : Z
}.
Definition EventData_default : EventData := mkEventData 0 0 0 0 0 0 0 0.

(** [prometheus_parse::Sample] *)
Inductive Value :=
| Counter (v : f64) | Gauge (v : f64) | Untyped (v : f64) | HistogramOrSummary.
Record Sample := mkSample { metric : string; labels : gmap string string; value : Value }.

Definition ACTION : string := "action".

Inductive Resource := ResUnknown | ResPool | ResVolume | ResNexus.
Inductive Action := ActUnknown | Created | Deleted | RebuildStarted | RebuildEnded.
#[export] Instance Resource_eq_dec : EqDecision Resource.
Proof. solve_decision. Defined.
#[export] Instance Action_eq_dec : EqDecision Action.
Proof. solve_decision. Defined.

(** [impl From<&str>] *)
Definition Resource_from (s : string) : Resource :=
  if decide (s = "pool") then ResPool
  else if decide (s = "volume") then ResVolume else ResUnknown.
Definition Action_from (s : string) : Action :=
  if decide (s = "created") then Created
  else if decide (s = "deleted") then Deleted
  else if decide (s = "rebuild_started") then RebuildStarted
  else if decide (s = "rebuild_ended") then RebuildEnded else ActUnknown.

(** [Record] *)
Definition record_action (s : Sample) : Action := Action_from (default "" (s.(labels) !! ACTION)).
Definition record_resource (s : Sample) : Resource := Resource_from s.(metric).
Definition counter_value (s : Sample) : Z :=
  match s.(value) with Counter v => as_u32 v | _ => 0 end.
Definition try_counter (r : Resource) (a : Action) (s : Sample) : option Z :=
  if decide (record_resource s = r ∧ record_action s = a) then Some (counter_value s) else None.

(** [From<&EventsRecord> for Option<T>]: [find_map] *)
Fixpoint find_counter (r : Resource) (a : Action) (record : list Sample) : option Z :=
  match record with
  | [] => None
  | s :: l => match try_counter r a s with Some v => Some v | None => find_counter r a l end
  end.

(** The part of [generate_report] in [main.rs] which fills the [EventData] *)
Definition event_data_from (record : list Sample) : EventData :=
  let get r a := default 0 (find_counter r a record) in
  {| volume_created := get ResVolume Created; volume_deleted := get ResVolume Deleted;
     pool_created := get ResPool Created; pool_deleted := get ResPool Deleted;
     nexus_created := get ResNexus Created; nexus_deleted := get ResNexus Deleted;
     rebuild_started := get ResNexus RebuildStarted; rebuild_ended := get ResNexus RebuildEnded |}.

(** *** The summaries *)
Record Volumes := mkVolumes {
  v_count : Z; v_min : Z; v_mean : Z; v_max : Z; v_percentiles : Percentiles;
  v_created : Z; v_deleted : Z; volume_replica_counts : VolumeReplicaCounts;
  volume_state_counts : VolumeStateCounts
}.
Definition Volumes_new (volumes : list Volume) (event_data : EventData) : option Volumes :=
  let sizes := get_volumes_size_vector volumes in
  percentiles ← Percentiles_new sizes;
  Some {| v_count := Z.of_nat (length sizes); v_max := get_max_value sizes;
          v_min := get_min_value sizes; v_mean := get_mean_value sizes;
          v_percentiles := percentiles; v_created := event_data.(volume_created);
          v_deleted := event_data.(volume_deleted);
          volume_replica_counts := VolumeReplicaCounts_new volumes;
          volume_state_counts := VolumeStateCounts_new volumes |}.

Record Pools := mkPools {
  p_count : Z; p_max : Z; p_min : Z; p_mean : Z; p_percentiles : Percentiles;
  p_created : Z; p_deleted : Z; p_total_capacity : Z
}.
Definition Pools_new (pools : list Pool) (event_data : EventData) : option Pools :=
  let sizes := get_pools_size_vector pools in
  percentiles ← Percentiles_new sizes;
  Some {| p_count := Z.of_nat (length sizes); p_max := get_max_value sizes;
          p_min := get_min_value sizes; p_mean := get_mean_value sizes;
          p_percentiles := percentiles; p_created := event_data.(pool_created);
          p_deleted := event_data.(pool_deleted); p_total_capacity := u64_sum sizes |}.

Record Replicas := mkReplicas { r_count : Z; r_percentiles : Percentiles }.
Definition Replicas_new (replica_count : nat) (volumes : option (list Volume)) : option Replicas :=
  percentiles ← match volumes with
                | Some volumes => Percentiles_new (get_replicas_size_vector volumes)
                | None => Some Percentiles_default
                end;
  Some (mkReplicas (Z.of_nat replica_count) percentiles).

Record Nexus := mkNexus { n_created : Z; n_deleted : Z; n_rebuild_started : Z; n_rebuild_ended : Z }.
Definition Nexus_new (event_data : EventData) : Nexus :=
  mkNexus event_data.(nexus_created) event_data.(nexus_deleted)
    event_data.(rebuild_started) event_data.(rebuild_ended).

(** *** Disks *)
Record DiskTypeInfo := mkDiskTypeInfo { count : Z; capacity_in_bytes : Z }.
Definition DiskTypeInfo_default : DiskTypeInfo := mkDiskTypeInfo 0 0.

Definition starts_with (s prefix : string) : bool :=
  match Text.strip_prefix (chars prefix) (chars s) with Some _ => true | None => false end.

(** [str::split] with a non-empty pattern *)
Fixpoint split_pat (fuel : nat) (pat cur l : list ascii) : list (list ascii) :=
  match fuel with
  | O => [reverse cur]
  | S fuel =>
      match Text.strip_prefix pat l with
      | Some rest => reverse cur :: split_pat fuel pat [] rest
      | None => match l with
                | [] => [reverse cur]
                | a :: l => split_pat fuel pat (a :: cur) l
                end
      end
  end.
Definition split (s pat : string) : list string :=
  String.string_of_list_ascii <$> split_pat (S (String.length s)) (chars pat) [] (chars s).

Definition get_device_path (entry : string) : string :=
  let without_protocol := default entry (last (split entry "://")) in
  default without_protocol (head (split without_protocol "?")).

Definition get_scheme (disk : string) : option string := head (split disk "://").

(** [Iterator::find] *)
Definition find_first {A} (f : A → bool) (l : list A) : option A :=
  snd <$> list_find (λ x, f x = true) l.

Definition get_bdev (disks : list BlockDevice) (pool_disk : string) : option BlockDevice :=
  let device_path := get_device_path pool_disk in
  find_first (λ bd, bool_decide (device_path ∈ bd.(devlinks))
                    || contains (chars device_path) (chars bd.(devname))) disks.

Definition get_disk_type (device_option : option BlockDevice) (scheme_option : option string)
  : string :=
  match device_option with
  | Some device =>
      let d := device.(devname) in
      if starts_with d "/dev/sr" then "Optical Drive"
      else if starts_with d "/dev/fd" then "Floppy Disk"
      else if starts_with d "/dev/md" then "RAID Device"
      else if starts_with d "/dev/dm" || starts_with d "/dev/mapper" then "Device Mapper"
      else if starts_with d "/dev/xvd" then "Amazon Disk"
      else if starts_with d "/dev/mmcblk" then "Memory Card"
      else if starts_with d "/dev/mtd" then "Embedded Storage"
      else if starts_with d "/dev/tape" then "Magnetic Tape"
      else if starts_with d "/dev/loop" then "Loop Device"
      else if starts_with d "/dev/nbd" then "Network Block Device"
      else if starts_with d "/dev/ram" then "RAM Disk"
      else
        let c := device.(connection_type) in
        if decide (c = "usb") then "USB Disk"
        else if decide (c = "nvme") then "NVMe SSD"
        else if decide (c = "scsi" ∨ c = "ata") then
          match device.(is_rotational) with
          | Some true => "HDD" | Some false => "SSD" | None => "Unknown"
          end
        else "Unknown"
  | None =>
      match scheme_option with
      | Some scheme => if decide (scheme = "pcie") then "NVMe SSD" else "Unknown"
      | None => "Unknown"
      end
  end.

(** [entry(k).or_default()] and an update through the reference *)
Definition entry_update {A} (def : A) (f : A → A) (k : string) (m : gmap string A)
  : gmap string A := <[k := f (default def (m !! k))]> m.

Definition add_capacity (c : Z) (i : DiskTypeInfo) : DiskTypeInfo :=
  mkDiskTypeInfo i.(count) (u64_add i.(capacity_in_bytes) c).
Definition add_disk (i : DiskTypeInfo) : DiskTypeInfo :=
  mkDiskTypeInfo (u64_add i.(count) 1) i.(capacity_in_bytes).

Record StorageMedia := mkStorageMedia {
  media_count : Z; media_total_capacity : Z; media_disk_types : gmap string DiskTypeInfo
}.
Definition count_device (disk_types : gmap string DiskTypeInfo) (device : BlockDevice)
  : gmap string DiskTypeInfo :=
  entry_update DiskTypeInfo_default
    (λ i, add_disk (add_capacity (u64_mul device.(size_in_sectors) BYTES_PER_SECTOR) i))
    (get_disk_type (Some device) None) disk_types.
Definition StorageMedia_new (disks : list BlockDevice) : StorageMedia :=
  {| media_count := Z.of_nat (length disks);
     media_total_capacity := u64_mul (u64_sum (size_in_sectors <$> disks)) BYTES_PER_SECTOR;
     media_disk_types := foldl count_device ∅ disks |}.

Record PoolInfo := mkPoolInfo { replicas : Z; replicas_capacity_in_bytes : Z }.
Definition PoolInfo_new (pool_id : string) (rs : list Replica) : PoolInfo :=
  let pool_replicas := base.filter (λ r, r.(replica_pool) = pool_id) rs in
  mkPoolInfo (Z.of_nat (length pool_replicas)) (u64_sum (replica_size <$> pool_replicas)).

Record NodeInfo := mkNodeInfo { pools : list PoolInfo; mayastor_managed_disks_count : Z }.
Definition NodeInfo_default : NodeInfo := mkNodeInfo [] 0.

(** [counted.entry(node).or_insert(HashSet::new()).insert(name)]: the set after it, and
    whether the name was new *)
Abbreviation counted := (gmap string (gset string)).
Definition count_once (node name : string) (c : counted) : counted * bool :=
  let s := default ∅ (c !! node) in
  (<[node := {[name]} ∪ s]> c, bool_decide (name ∉ s)).

(** The name a device is counted by: for a partition the name of the partition, which the
    code calls the name of its parent, and not the disk which it is on. *)
Definition counted_name (bdev : BlockDevice) : string :=
  default bdev.(devname) (partition_name <$> bdev.(partition)).

(** The loop over the disks of a pool *)
Definition count_pool_disk (disks : list BlockDevice) (node : string)
  (st : NodeInfo * counted) (pool_disk : string) : NodeInfo * counted :=
  let '(entry, c) := st in
  match get_bdev disks pool_disk with
  | None => st
  | Some bdev =>
      let '(c, new) := count_once node (counted_name bdev) c in
      (if new then mkNodeInfo entry.(pools) (u64_add entry.(mayastor_managed_disks_count) 1)
       else entry, c)
  end.

Definition add_pool (rs : list Replica) (node_disks : gmap string (list BlockDevice))
  (st : gmap string NodeInfo * counted) (spec : PoolSpec) : gmap string NodeInfo * counted :=
  let '(nodes, c) := st in
  let entry := default NodeInfo_default (nodes !! spec.(spec_node)) in
  let entry := mkNodeInfo (entry.(pools) ++ [PoolInfo_new spec.(spec_id) rs])%list
                 entry.(mayastor_managed_disks_count) in
  let '(entry, c) := match node_disks !! spec.(spec_node) with
                     | Some disks => foldl (count_pool_disk disks spec.(spec_node)) (entry, c)
                                       spec.(spec_disks)
                     | None => (entry, c)
                     end in
  (<[spec.(spec_node) := entry]> nodes, c).

Definition StorageNodes : Type := gmap string NodeInfo.
Definition StorageNodes_new (rs : list Replica) (ps : list Pool)
  (node_disks : gmap string (list BlockDevice)) : StorageNodes :=
  (foldl (add_pool rs node_disks) (∅, ∅) (omap pool_spec ps)).1.

Definition MayastorManagedDisks : Type := gmap string DiskTypeInfo.
(** How the first disk of a pool is reported: its type, and the name it is counted by
    if it is a block device of the node.  For a partition this is the first device with
    the name of the partition in its own name. *)
Definition classify (disks : list BlockDevice) (pool_disk : string)
  : option (string * option string) :=
  match get_bdev disks pool_disk with
  | Some bdev =>
      let parent_bdev := parent ← bdev.(partition);
                         find_first (λ bd, contains (chars parent.(partition_name)) (chars bd.(devname))) disks in
      let bdev := default bdev parent_bdev in
      Some (get_disk_type (Some bdev) None, Some bdev.(devname))
  | None => (λ scheme, (get_disk_type None (Some scheme), None)) <$> get_scheme pool_disk
  end.

Definition add_pool_state (node_disks : gmap string (list BlockDevice))
  (st : gmap string DiskTypeInfo * counted) (p : PoolState) : gmap string DiskTypeInfo * counted :=
  let '(m, c) := st in
  match disks ← node_disks !! p.(state_node);
        pool_disk ← head p.(state_disks);
        classify disks pool_disk with
  | None => st
  | Some (disk_type, Some name) =>
      let '(c, new) := count_once p.(state_node) name c in
      (entry_update DiskTypeInfo_default
         (λ i, let i := add_capacity p.(capacity) i in if new then add_disk i else i) disk_type m, c)
  | Some (disk_type, None) =>
      (entry_update DiskTypeInfo_default (λ i, add_disk (add_capacity p.(capacity) i)) disk_type m, c)
  end.

Definition MayastorManagedDisks_new (ps : list Pool) (node_disks : gmap string (list BlockDevice))
  : MayastorManagedDisks :=
  (foldl (add_pool_state node_disks) (∅, ∅) (omap pool_state ps)).1.
End ReportModels.
