(* ===== verification/CallHomeReportSpec.v ===== *)
(** * call-home: properties of the report

    The percentiles never index out of range, the sums over disks do not depend on
    the order in which a hash map is read, each disk of a node is counted once by name, and
    the counters of the statistics arrive in the report, except those of nexuses. *)

From S2P Require Import Prelude Text Float64 CallHomeStats CallHomeReport.
From stdpp Require Import base gmap list strings sorting.
From Stdlib Require Import ZArith Lia SpecFloat.
Open Scope string_scope.
Open Scope Z_scope.

(** ** Positions *)
Module Positions.
Import F64 Math.

(** Comparison with an integer, on the mantissa and exponent. *)
Definition le_int (m e z : Z) : bool :=
  if 0 <=? e then m * 2 ^ e <=? z else m <=? z * 2 ^ (- e).
Definition ge_int (m e z : Z) : bool :=
  if 0 <=? e then z <=? m * 2 ^ e else z * 2 ^ (- e) <=? m.

Lemma pow_split a b : 0 <= a → 0 <= b → 2 ^ (a + b) = 2 ^ a * 2 ^ b.
Proof. intros. by apply Z.pow_add_r. Qed.

Lemma scale_leb x y d : 0 <= d → (x * 2 ^ d <=? y * 2 ^ d) = (x <=? y).
Proof.
  intros Hd. pose proof (Z.pow_pos_nonneg 2 d ltac:(lia) Hd).
  destruct (Z.leb_spec x y), (Z.leb_spec (x * 2 ^ d) (y * 2 ^ d)); try done; nia.
Qed.

(** Both sides of a comparison with [z * 2^k * 2^-k], brought to the exponent of the
    other side. *)
Lemma scaled m e z k :
  0 <= k →
  let e0 := Z.min e (- k) in
  ∃ d, 0 <= d ∧
    m * 2 ^ (e - e0) = (if 0 <=? e then m * 2 ^ e else m) * 2 ^ d ∧
    z * 2 ^ k * 2 ^ (- k - e0) = (if 0 <=? e then z else z * 2 ^ (- e)) * 2 ^ d.
Proof.
  intros Hk e0. destruct (Z.leb_spec 0 e) as [He|He].
  - exists k. assert (e0 = - k) as -> by lia. split_and!; [done| |].
    + replace (e - - k) with (e + k) by lia. rewrite pow_split by lia. lia.
    + replace (- k - - k) with 0 by lia. lia.
  - exists (e - e0). split_and!; [lia|done|].
    rewrite <-!Z.mul_assoc, <-!pow_split by lia. do 2 f_equal. lia.
Qed.

Lemma leb_of_Z s m e z :
  0 < z < 2 ^ 53 → leb (S754_finite s m e) (of_Z z) = le_int (cond_Zopp s (Zpos m)) e z.
Proof.
  intros (q & k & -> & Hk & Hq)%of_Z_exact. cbn [leb dyadic cond_Zopp]. rewrite Hq.
  destruct (scaled (cond_Zopp s (Zpos m)) e z k Hk) as (d & Hd & -> & ->).
  rewrite scale_leb by done. unfold le_int. by destruct (0 <=? e).
Qed.

Lemma of_Z_leb s m e z :
  0 < z < 2 ^ 53 → leb (of_Z z) (S754_finite s m e) = ge_int (cond_Zopp s (Zpos m)) e z.
Proof.
  intros (q & k & -> & Hk & Hq)%of_Z_exact. cbn [leb dyadic cond_Zopp]. rewrite Hq, Z.min_comm.
  destruct (scaled (cond_Zopp s (Zpos m)) e z k Hk) as (d & Hd & -> & ->).
  rewrite scale_leb by done. unfold ge_int. by destruct (0 <=? e).
Qed.

(** The integers around a value which lies strictly between two integers. *)
Lemma integers_around s m e lo hi :
  0 < lo < 2 ^ 53 → 0 < hi < 2 ^ 53 →
  leb (S754_finite s m e) (of_Z lo) = false → leb (of_Z hi) (S754_finite s m e) = false →
  ∃ f c, zfloor (S754_finite s m e) = Some f ∧ zceil (S754_finite s m e) = Some c ∧
    lo <= f ∧ f <= c <= f + 1 ∧ c <= hi.
Proof.
  intros Hlo Hhi. rewrite leb_of_Z, of_Z_leb by done. unfold le_int, ge_int, zfloor, zceil.
  cbn [dyadic]. set (v := cond_Zopp s (Zpos m)). destruct (Z.leb_spec 0 e) as [He|He].
  - intros ?%Z.leb_gt ?%Z.leb_gt. do 2 eexists. split_and!; try done; lia.
  - intros H1%Z.leb_gt H2%Z.leb_gt. do 2 eexists. split_and!; try done.
    all: assert (0 < 2 ^ (- e)) as Hp by (apply Z.pow_pos_nonneg; lia); revert H1 H2 Hp.
    all: generalize (2 ^ (- e)) as p; intros p H1 H2 Hp.
    all: pose proof (Z.div_mod v p ltac:(lia)); pose proof (Z.mod_pos_bound v p Hp).
    all: pose proof (Z.div_mod (- v) p ltac:(lia)); pose proof (Z.mod_pos_bound (- v) p Hp).
    all: nia.
Qed.

Lemma position_not_nan len p :
  0 < Z.of_nat len < 2 ^ 53 → 0 < p < 2 ^ 53 → position len (of_Z p) ≠ S754_nan.
Proof.
  intros Hl Hp. unfold position.
  destruct (of_Z_exact _ Hl) as (? & ? & -> & _). destruct (of_Z_exact _ Hp) as (? & ? & -> & _).
  destruct (of_Z_exact 1 ltac:(lia)) as (? & ? & -> & _).
  destruct (of_Z_exact 100 ltac:(lia)) as (? & ? & -> & _).
  by apply div_not_nan, mul_not_nan, add_not_nan.
Qed.

(** A position which the early returns let through lies within the data. *)
Lemma position_inside pos len :
  0 < len < 2 ^ 53 → pos ≠ S754_nan → leb pos (of_Z 1) = false → leb (of_Z len) pos = false →
  1 <= floor_usize pos ∧ floor_usize pos <= ceil_usize pos <= floor_usize pos + 1 ∧
  ceil_usize pos <= len.
Proof.
  intros Hl Hn H1 H2. destruct (of_Z_exact _ Hl) as (q & k & E & _).
  destruct pos as [s|[]| |s m e]; try done.
  { rewrite E in H2. done. }
  destruct (integers_around s m e 1 len ltac:(lia) Hl H1 H2) as (f & c & Hf & Hc & ?).
  unfold floor_usize, ceil_usize, saturate, max_u64. rewrite Hf, Hc. lia.
Qed.
End Positions.

(** ** The report never panics *)
Module ReportTotal.
Import F64 Math RestModels ReportModels Positions.

(** How a percentile comes about: the value of a data point, or an interpolation
    between neighbours. *)
Definition from_data (l : list Z) (pos v : f64) : Prop :=
  (∃ a, a ∈ l ∧ v = of_Z a) ∨
  (∃ i j a b, l !! i = Some a ∧ l !! j = Some b ∧ (i ≤ j ≤ S i)%nat ∧ v = interpolate a b pos).

Lemma index_some l i : 0 <= i < Z.of_nat (length l) → ∃ a, index l i = Some a ∧ l !! Z.to_nat i = Some a.
Proof. intros Hi. destruct (lookup_lt_is_Some_2 l (Z.to_nat i)) as [a Ha]; [lia|]. by exists a. Qed.

Lemma data_point l i pos :
  0 <= i < Z.of_nat (length l) →
  ∃ v, (a ← index l i; Some (Some (of_Z a))) = Some (Some v) ∧ from_data l pos v.
Proof.
  intros (a & -> & Ha)%index_some. exists (of_Z a). split; [done|]. left. exists a.
  split; [|done]. by eapply list_elem_of_lookup_2.
Qed.

Lemma usize_pred_pos x : 1 <= x < 2 ^ 64 → usize_pred x = x - 1.
Proof. intros. unfold usize_pred. apply Z.mod_small. lia. Qed.

Lemma between_points l pos :
  0 < Z.of_nat (length l) < 2 ^ 53 → pos ≠ S754_nan →
  leb pos (of_Z 1) = false → leb (of_Z (Z.of_nat (length l))) pos = false →
  ∃ v, (a ← index l (usize_pred (floor_usize pos));
        b ← index l (usize_pred (ceil_usize pos));
        Some (Some (interpolate a b pos))) = Some (Some v) ∧ from_data l pos v.
Proof.
  intros Hl Hn H1 H2. destruct (position_inside _ _ Hl Hn H1 H2) as (Hf & Hc & Hu).
  rewrite !usize_pred_pos by lia.
  destruct (index_some l (floor_usize pos - 1)) as (a & -> & Ha); [lia|].
  destruct (index_some l (ceil_usize pos - 1)) as (b & -> & Hb); [lia|].
  exists (interpolate a b pos). split; [done|]. right. do 4 eexists. split_and!; [exact Ha|exact Hb|lia|lia|done].
Qed.

Lemma percentile_some l p :
  l ≠ [] → Z.of_nat (length l) < 2 ^ 53 → 0 < p < 2 ^ 53 →
  ∃ v, percentile_exclusive l (of_Z p) = Some (Some v) ∧
       from_data l (position (length l) (of_Z p)) v.
Proof.
  intros Hne Hl Hp. pose proof (nil_length_inv l) as Hz.
  assert (0 < Z.of_nat (length l) < 2 ^ 53) as Hl' by (destruct l; [done|cbn in *; lia]).
  pose proof (position_not_nan _ p Hl' Hp) as Hn. unfold percentile_exclusive.
  destruct (length l) as [|[|len]] eqn:El; [lia|by apply data_point; lia|]. rewrite <-El in *.
  destruct (leb (position _ _) _) eqn:H1; [by apply data_point; lia|].
  destruct (leb _ (position _ _)) eqn:H2; [by apply data_point; lia|].
  by apply between_points.
Qed.

Lemma get_percentile_some l p :
  Z.of_nat (length l) < 2 ^ 53 → 0 < p < 2 ^ 53 → is_Some (get_percentile l p).
Proof.
  intros Hl Hp. unfold get_percentile. destruct (decide (merge_sort Z.le l = [])) as [->|Hne]; [done|].
  destruct (percentile_some (merge_sort Z.le l) p) as (v & -> & _); [done| |done|done].
  by rewrite (merge_sort_Permutation Z.le l).
Qed.

Lemma Percentiles_some l : Z.of_nat (length l) < 2 ^ 53 → is_Some (Percentiles_new l).
Proof.
  intros Hl. unfold Percentiles_new.
  destruct (get_percentile_some l 50 Hl) as [? ->]; [lia|].
  destruct (get_percentile_some l 75 Hl) as [? ->]; [lia|].
  destruct (get_percentile_some l 90 Hl) as [? ->]; [lia|]. done.
Qed.

Lemma length_omap_le {A B} (f : A → option B) l : (length (omap f l) ≤ length l)%nat.
Proof. induction l as [|x l IH]; cbn; [lia|]. destruct (f x); cbn; lia. Qed.

Lemma Volumes_some vs ev : Z.of_nat (length vs) < 2 ^ 53 → is_Some (Volumes_new vs ev).
Proof.
  intros Hl. unfold Volumes_new. destruct (Percentiles_some (get_volumes_size_vector vs)) as [? ->]; [|done].
  unfold get_volumes_size_vector. by rewrite length_fmap.
Qed.

Lemma Pools_some ps ev : Z.of_nat (length ps) < 2 ^ 53 → is_Some (Pools_new ps ev).
Proof.
  intros Hl. unfold Pools_new. destruct (Percentiles_some (get_pools_size_vector ps)) as [? ->]; [|done].
  unfold get_pools_size_vector. pose proof (length_omap_le (λ p, capacity <$> p.(pool_state)) ps). lia.
Qed.

Lemma Replicas_some n vs :
  (∀ l, vs = Some l → Z.of_nat (length l) < 2 ^ 53) → is_Some (Replicas_new n vs).
Proof.
  intros Hl. unfold Replicas_new. destruct vs as [l|]; [|done].
  destruct (Percentiles_some (get_replicas_size_vector l)) as [? ->]; [|done].
  unfold get_replicas_size_vector. rewrite length_fmap. auto.
Qed.
End ReportTotal.

(** ** Sums over disks *)
Module DiskSums.
Import RestModels ReportModels.

Definition sumZ (l : list Z) : Z := foldr Z.add 0 l.

Lemma sumZ_app l k : sumZ (l ++ k)%list = sumZ l + sumZ k.
Proof. induction l as [|x l IH]; cbn; [done|]. unfold sumZ in *. lia. Qed.

#[export] Instance sumZ_perm : Proper ((≡ₚ) ==> (=)) sumZ.
Proof. induction 1; cbn in *; unfold sumZ in *; lia. Qed.

Lemma u64_add_mod x y : u64_add (x `mod` U64) y = (x + y) `mod` U64.
Proof. unfold u64_add. by rewrite Zplus_mod_idemp_l. Qed.

Lemma u64_sum_spec l : u64_sum l = sumZ l `mod` U64.
Proof.
  induction l as [|x l IH] using rev_ind; [done|]. unfold u64_sum in *.
  rewrite foldl_app, sumZ_app. cbn. rewrite IH, u64_add_mod by done. f_equal. lia.
Qed.

Definition of_type (t : string) (l : list BlockDevice) : list BlockDevice :=
  base.filter (λ d, get_disk_type (Some d) None = t) l.
Definition bytes (d : BlockDevice) : Z := d.(size_in_sectors) * BYTES_PER_SECTOR.

(** What the disks of one type come to. *)
Definition media_of (ds : list BlockDevice) : option DiskTypeInfo :=
  match ds with
  | [] => None
  | _ => Some (mkDiskTypeInfo (Z.of_nat (length ds) `mod` U64) (sumZ (bytes <$> ds) `mod` U64))
  end.

Lemma media_of_snoc ds d :
  media_of (ds ++ [d])%list =
  Some (add_disk (add_capacity (u64_mul d.(size_in_sectors) BYTES_PER_SECTOR)
          (default DiskTypeInfo_default (media_of ds)))).
Proof.
  unfold media_of at 1. destruct (ds ++ [d])%list eqn:E; [by destruct ds|]. rewrite <-E. f_equal.
  unfold add_disk, add_capacity. cbn [count capacity_in_bytes].
  rewrite length_app, fmap_app, sumZ_app. cbn.
  assert (∀ x, u64_add x (u64_mul (size_in_sectors d) BYTES_PER_SECTOR) = (x + bytes d) `mod` U64) as Hu.
  { intros x. unfold u64_add, u64_mul. by rewrite Zplus_mod_idemp_r. }
  rewrite Hu. unfold u64_add. destruct ds as [|d0 ds]; cbn [media_of default count capacity_in_bytes].
  - cbn. f_equal; f_equal; unfold sumZ; cbn; lia.
  - cbn [from_option id]. cbn [count capacity_in_bytes]. rewrite !Zplus_mod_idemp_l.
    f_equal; f_equal; lia.
Qed.

Lemma disk_types_spec l t : foldl count_device ∅ l !! t = media_of (of_type t l).
Proof.
  induction l as [|d l IH] using rev_ind; [done|].
  rewrite foldl_app. cbn. unfold count_device, entry_update, of_type in *. rewrite filter_app.
  destruct (decide (get_disk_type (Some d) None = t)) as [E|E].
  - rewrite filter_cons_True, filter_nil, media_of_snoc by done. subst t.
    by rewrite lookup_insert_eq, IH.
  - rewrite filter_cons_False, filter_nil, app_nil_r by done. by rewrite lookup_insert_ne.
Qed.

Lemma media_of_perm ds ds' : ds ≡ₚ ds' → media_of ds = media_of ds'.
Proof.
  intros Hp. destruct ds as [|d ds], ds' as [|d' ds'].
  - done.
  - by apply Permutation_nil_l in Hp.
  - by apply Permutation_nil_r in Hp.
  - unfold media_of. by rewrite Hp.
Qed.
End DiskSums.

(** ** Disks of the nodes *)
Module NodeDisks.
Import RestModels ReportModels DiskSums.

Section Nodes.
Context (rs : list Replica) (node_disks : gmap string (list BlockDevice)).

(** The names by which the given disks of a pool on a node are counted. *)
Definition disk_names (disks : list BlockDevice) (ds : list string) : list string :=
  omap (λ d, counted_name <$> get_bdev disks d) ds.
Definition pool_names (p : PoolSpec) : list string :=
  match node_disks !! p.(spec_node) with
  | Some disks => disk_names disks p.(spec_disks)
  | None => []
  end.
Definition names (ps : list PoolSpec) : gset string := list_to_set (ps ≫= pool_names).
Definition on_node (n : string) (ps : list PoolSpec) : list PoolSpec :=
  base.filter (λ p, p.(spec_node) = n) ps.

(** What the pools of one node come to. *)
Definition node_of (ps : list PoolSpec) : option NodeInfo :=
  match ps with
  | [] => None
  | _ => Some (mkNodeInfo ((λ p, PoolInfo_new p.(spec_id) rs) <$> ps)
                 (Z.of_nat (size (names ps)) `mod` U64))
  end.

Definition seen (c : counted) (n : string) : gset string := default ∅ (c !! n).

Lemma count_once_spec node name c c' new :
  count_once node name c = (c', new) →
  seen c' node = {[name]} ∪ seen c node ∧ (∀ n, n ≠ node → c' !! n = c !! n) ∧
  Z.of_nat (size (seen c' node)) = Z.of_nat (size (seen c node)) + if new then 1 else 0.
Proof.
  unfold count_once. intros [= <- <-]. unfold seen. rewrite lookup_insert_eq. cbn.
  split_and!; [done|intros; by rewrite lookup_insert_ne|].
  case_bool_decide as Hn; [rewrite size_union, size_singleton by set_solver; lia|].
  rewrite (subseteq_union_1_L {[name]}) by set_solver. lia.
Qed.

(** The state of the loop over the disks of one pool of node [n]. *)
Definition disk_state (n : string) (ps : list PoolInfo) (X : gset string) (c0 : counted)
  (st : NodeInfo * counted) : Prop :=
  st.1 = mkNodeInfo ps (Z.of_nat (size X) `mod` U64) ∧ seen st.2 n = X ∧
  ∀ n', n' ≠ n → st.2 !! n' = c0 !! n'.

Lemma pool_disks_state disks n ds ps X c0 st :
  disk_state n ps X c0 st →
  disk_state n ps (X ∪ list_to_set (disk_names disks ds)) c0
    (foldl (count_pool_disk disks n) st ds).
Proof.
  revert X st. induction ds as [|d ds IH]; intros X [e c] (He & Hc & Ho); cbn [fst snd] in *.
  { split_and!; cbn; [by rewrite union_empty_r_L|by rewrite union_empty_r_L|done]. }
  cbn [foldl]. unfold count_pool_disk at 2. unfold disk_names. cbn [omap list_omap].
  destruct (get_bdev disks d) as [bdev|] eqn:Eb; [|by apply IH]. cbn [fmap option_fmap option_map].
  destruct (count_once n (counted_name bdev) c) as [c' new] eqn:Ec.
  rewrite list_to_set_cons.
  apply count_once_spec in Ec as (Hs & Hd & Hz). rewrite Hc in *.
  rewrite union_assoc_L, (union_comm_L X). apply IH. split_and!; cbn; [|done|by intros; rewrite Hd, Ho].
  rewrite <-Hs, Hz, He. destruct new; [by cbn; rewrite u64_add_mod|by rewrite Z.add_0_r].
Qed.

Lemma names_snoc ps p : names (ps ++ [p])%list = names ps ∪ list_to_set (pool_names p).
Proof. unfold names. rewrite bind_app, list_to_set_app_L. cbn. by rewrite app_nil_r. Qed.

Lemma node_of_snoc ps p :
  node_of (ps ++ [p])%list =
  Some (mkNodeInfo ((λ p, PoolInfo_new p.(spec_id) rs) <$> ps ++ [p])%list
          (Z.of_nat (size (names ps ∪ list_to_set (pool_names p))) `mod` U64)).
Proof. rewrite <-names_snoc. unfold node_of. by destruct (ps ++ [p])%list eqn:E; [destruct ps|]. Qed.

Definition nodes_state (l : list PoolSpec) (st : gmap string NodeInfo * counted) : Prop :=
  ∀ n, st.1 !! n = node_of (on_node n l) ∧ seen st.2 n = names (on_node n l).

Lemma on_node_snoc n l p :
  on_node n (l ++ [p])%list = if decide (p.(spec_node) = n) then (on_node n l ++ [p])%list else on_node n l.
Proof.
  unfold on_node. rewrite filter_app. destruct (decide _) as [E|E].
  - by rewrite filter_cons_True.
  - by rewrite filter_cons_False, filter_nil, app_nil_r.
Qed.

Lemma node_entry ps :
  default NodeInfo_default (node_of ps) =
  mkNodeInfo ((λ p, PoolInfo_new p.(spec_id) rs) <$> ps) (Z.of_nat (size (names ps)) `mod` U64).
Proof. by destruct ps. Qed.

Lemma add_pool_state_ok l st p :
  nodes_state l st → nodes_state (l ++ [p])%list (add_pool rs node_disks st p).
Proof.
  destruct st as [nodes c]. intros Hst. unfold add_pool. set (n := p.(spec_node)).
  destruct (Hst n) as [Hn Hc]. cbn [fst snd] in Hn, Hc. rewrite Hn, node_entry. cbn [pools mayastor_managed_disks_count].
  set (ps := (fmap (M:=list) _ (on_node n l) ++ _)%list).
  destruct (match node_disks !! n with Some _ => _ | None => _ end) as [e' c'] eqn:Ef.
  assert (disk_state n ps (names (on_node n l) ∪ list_to_set (pool_names p)) c (e', c')) as (He & Hs & Ho).
  { rewrite <-Ef. unfold pool_names. fold n. destruct (node_disks !! n) as [disks|].
    - by apply pool_disks_state.
    - split_and!; cbn; rewrite ?union_empty_r_L; done. }
  cbn [fst snd] in *. subst e'. intros n'. cbn [fst snd]. rewrite on_node_snoc. fold n.
  destruct (decide (n = n')) as [<-|Hne].
  - rewrite lookup_insert_eq, node_of_snoc, names_snoc. split; [|done].
    subst ps. by rewrite fmap_app.
  - rewrite lookup_insert_ne by done. unfold seen. rewrite Ho by done. apply Hst.
Qed.

Lemma storage_nodes_state l : nodes_state l (foldl (add_pool rs node_disks) (∅, ∅) l).
Proof.
  induction l as [|p l IH] using rev_ind; [by intros n|].
  rewrite foldl_app. by apply add_pool_state_ok.
Qed.

(** *** By disk type *)
Definition type_of (p : PoolState) : option string :=
  fst <$> (disks ← node_disks !! p.(state_node); d ← head p.(state_disks); classify disks d).
Definition pools_of_type (t : string) (l : list PoolState) : list PoolState :=
  base.filter (λ p, type_of p = Some t) l.
Definition capacity_of (ps : list PoolState) : option Z :=
  match ps with [] => None | _ => Some (sumZ (capacity <$> ps) `mod` U64) end.

Lemma capacity_of_snoc ps p :
  capacity_of (ps ++ [p])%list = Some (u64_add (default 0 (capacity_of ps)) p.(capacity)).
Proof.
  unfold capacity_of at 1. destruct (ps ++ [p])%list eqn:E; [by destruct ps|]. rewrite <-E. f_equal.
  rewrite fmap_app, sumZ_app. cbn. destruct ps as [|q ps].
  - unfold u64_add. cbn. f_equal. unfold sumZ. cbn. lia.
  - cbn [capacity_of default from_option id]. rewrite u64_add_mod. unfold id. f_equal. unfold sumZ. cbn. lia.
Qed.

Lemma entry_capacity m t t' p (f : DiskTypeInfo → DiskTypeInfo) :
  (∀ i, capacity_in_bytes (f i) = u64_add (capacity_in_bytes i) p.(capacity)) →
  capacity_in_bytes <$> entry_update DiskTypeInfo_default f t m !! t' =
  if decide (t = t') then Some (u64_add (default 0 (capacity_in_bytes <$> m !! t)) p.(capacity))
  else capacity_in_bytes <$> m !! t'.
Proof.
  intros Hf. unfold entry_update. destruct (decide (t = t')) as [<-|Hne].
  - rewrite lookup_insert_eq. cbn. rewrite Hf. by destruct (m !! t).
  - by rewrite lookup_insert_ne.
Qed.

Lemma add_pool_state_capacity st p t :
  capacity_in_bytes <$> (add_pool_state node_disks st p).1 !! t =
  if decide (type_of p = Some t)
  then Some (u64_add (default 0 (capacity_in_bytes <$> st.1 !! t)) p.(capacity))
  else capacity_in_bytes <$> st.1 !! t.
Proof.
  destruct st as [m c]. unfold add_pool_state, type_of.
  destruct (node_disks !! state_node p ≫= _) as [[t' [name|]]|]; cbn [fmap option_fmap option_map fst].
  1: destruct (count_once _ _ _) as [c' new]; cbn [fst].
  1, 2: rewrite (entry_capacity _ _ _ p) by (intros; try destruct new; done).
  1, 2: destruct (decide (t' = t)) as [->|Hne]; destruct (decide _) as [E|E]; congruence.
  by rewrite decide_False.
Qed.

Lemma managed_capacity l t :
  capacity_in_bytes <$> (foldl (add_pool_state node_disks) (∅, ∅) l).1 !! t =
  capacity_of (pools_of_type t l).
Proof.
  induction l as [|p l IH] using rev_ind; [done|].
  rewrite foldl_app. cbn [foldl]. rewrite add_pool_state_capacity, IH.
  unfold pools_of_type. rewrite filter_app. destruct (decide _) as [E|E].
  - by rewrite filter_cons_True, filter_nil, capacity_of_snoc.
  - by rewrite filter_cons_False, filter_nil, app_nil_r.
Qed.
End Nodes.
End NodeDisks.

(** ** From the statistics to the report *)
Module StatsToReport.
Import F64 ReportModels.

(** The sample which the text of a metric family is parsed to. *)
Definition sample_of (f : EventsCollector.MetricFamily) : Sample :=
  mkSample f.(EventsCollector.family_name) {[ACTION := f.(EventsCollector.family_action)]}
    (Counter (of_Z f.(EventsCollector.family_value))).

(** Every counter is a 32-bit number. *)
Definition u32_counters (e : EventsCache.EventSet) : Prop :=
  ∀ i, 0 <= Lifecycle.value_of i e < EventsCache.U32.

(** Which of the samples the report reads. *)
Lemma samples_read x1 x2 x3 x4 x5 x6 x7 x8 :
  let sample n a x := mkSample n {[ACTION := a]} (Counter x) in
  event_data_from
    [sample "volume" "created" x1; sample "volume" "deleted" x2; sample "pool" "created" x3;
     sample "pool" "deleted" x4; sample "nexus" "created" x5; sample "nexus" "deleted" x6;
     sample "nexus" "rebuild_started" x7; sample "nexus" "rebuild_ended" x8] =
  mkEventData (as_u32 x1) (as_u32 x2) (as_u32 x3) (as_u32 x4) 0 0 0 0.
Proof. reflexivity. Qed.
End StatsToReport.

Module ReportSpec.
Import F64 Math RestModels ReportModels ReportTotal DiskSums NodeDisks StatsToReport.

(** A percentile is computed without a panic: for data of fewer than 2^53 points and
    any whole percentile, the positions which are read exist.  There is no percentile
    of no data; otherwise the result is a data point, or an interpolation between a
    data point and itself or its successor. *)
Theorem percentile_total l p :
  Z.of_nat (length l) < 2 ^ 53 → 0 < p < 2 ^ 53 →
  (l = [] ∧ percentile_exclusive l (of_Z p) = Some None) ∨
  (∃ v, percentile_exclusive l (of_Z p) = Some (Some v) ∧
        from_data l (position (length l) (of_Z p)) v).
Proof.
  intros Hl Hp. destruct (decide (l = [])) as [->|Hne]; [by left|right].
  by apply percentile_some.
Qed.

(** The storage media of the report: the numbers and bytes of the disks of each
    type are those of the disks of that type (modulo 2^64), there is an entry for each
    type which occurs and for no other, and none of this depends on the order in which
    the disks are listed. *)
Theorem storage_media_spec disks disks' :
  disks ≡ₚ disks' →
  (∀ t, (StorageMedia_new disks).(media_disk_types) !! t = media_of (of_type t disks)) ∧
  (StorageMedia_new disks).(media_total_capacity) = sumZ (bytes <$> disks) `mod` U64 ∧
  StorageMedia_new disks = StorageMedia_new disks'.
Proof.
  intros Hp. split_and!.
  - apply disk_types_spec.
  - cbn [StorageMedia_new media_total_capacity]. unfold u64_mul.
    rewrite u64_sum_spec, Zmult_mod_idemp_l. f_equal. clear.
    induction disks as [|d l IH]; [done|]. cbn. unfold sumZ, bytes in *. lia.
  - unfold StorageMedia_new. f_equal; [by rewrite Hp|by rewrite !u64_sum_spec, Hp|].
    apply map_eq. intros t. rewrite !disk_types_spec. apply media_of_perm.
    unfold of_type. by rewrite Hp.
Qed.

(** C23: The storage nodes of the report: a node has an entry exactly if a pool is
    specified on it; the entry lists its pools in order; and the number of managed
    disks is the number of distinct names by which the disks under its pools are counted,
    modulo 2^64: a device which is not a partition by its own name, a partition by the name
    of the partition.  So a whole disk under several pools is counted once; but the
    disk of a partition is not looked at: two partitions of one disk with different
    names are counted twice, and partitions of two disks with the same name once. *)
Theorem storage_nodes_spec rs ps node_disks n :
  StorageNodes_new rs ps node_disks !! n = node_of rs node_disks (on_node n (omap pool_spec ps)).
Proof. apply storage_nodes_state. Qed.

(** The managed disks of the report: the capacity under a disk type is the sum of
    the capacities of the pools whose first disk has that type, and a type has an
    entry exactly if there is such a pool. *)
Theorem managed_disks_capacity ps node_disks t :
  capacity_in_bytes <$> MayastorManagedDisks_new ps node_disks !! t =
  capacity_of (pools_of_type node_disks t (omap pool_state ps)).
Proof. apply managed_capacity. Qed.

(** C24: The counters of pool and volume events which the statistics expose are the ones
    of the report.  The counters of nexus events and rebuilds are not: the report
    always has zero for them. *)
Theorem stats_reach_report e :
  u32_counters e →
  let d := event_data_from (sample_of <$> EventsCollector.collect (λ _ _, true) e) in
  d = mkEventData e.(EventsCache.volume).(EventsCache.volume_created)
        e.(EventsCache.volume).(EventsCache.volume_deleted)
        e.(EventsCache.pool).(EventsCache.pool_created)
        e.(EventsCache.pool).(EventsCache.pool_deleted) 0 0 0 0 ∧
  Nexus_new d = mkNexus 0 0 0 0.
Proof.
  intros He d. assert (d = mkEventData e.(EventsCache.volume).(EventsCache.volume_created)
        e.(EventsCache.volume).(EventsCache.volume_deleted)
        e.(EventsCache.pool).(EventsCache.pool_created)
        e.(EventsCache.pool).(EventsCache.pool_deleted) 0 0 0 0) as ->; [|done].
  etransitivity; [apply samples_read|]. f_equal; apply as_u32_of_Z.
  - apply (He Lifecycle.VolumeCreated).
  - apply (He Lifecycle.VolumeDeleted).
  - apply (He Lifecycle.PoolCreated).
  - apply (He Lifecycle.PoolDeleted).
Qed.

(** The mean of the report can be below its minimum: quotients are added up in
    floating point and the sum is truncated.  Six volumes of 1 GiB have a mean size of
    one byte less. *)
Theorem mean_below_minimum :
  let l := replicate 6 1073741824 in
  get_min_value l = 1073741824 ∧ get_mean_value l = 1073741823.
Proof. by vm_compute. Qed.
End ReportSpec.
