(* ===== verification/CallHome.v ===== *)
(** * call-home: collecting and sending the report

    Models [main.rs], [collector/k8s_client.rs], [collector/storage_rest.rs],
    [event_stats] of [collector/report_models.rs], [transmitter/encryption.rs],
    [transmitter/client.rs] in [call-home/src/bin/callhome] and the settings of
    [call-home/src/common/constants.rs]. *)

From S2P Require Import Prelude Text JobApi CallHomeStats CallHomeReport.
From stdpp Require Import base gmap list strings pretty.
From Stdlib Require Import ZArith Lia Ascii.
Open Scope string_scope.

(** ** The buffer of error logs *)
Module Logs.

Definition ERR_LOG_BUF_CAPACITY : nat := 100.

Inductive Level := ERROR | WARN | INFO | DEBUG | TRACE.
#[export] Instance Level_eq_dec : EqDecision Level.
Proof. solve_decision. Defined.

Record LogEntry := mkLogEntry {
  timestamp : string; level : string; file : string; line : N; message : string
}.

(** The loop [while logs.len().ge(&limit)]; [None] where it does not end. *)
Fixpoint make_room {A} (fuel : nat) (logs : list A) (limit : nat) : option (list A) :=
  match fuel with
  | O => None
  | S fuel => if (limit <=? length logs)%nat then make_room fuel (tail logs) limit else Some logs
  end.
Definition log_with_limit {A} (logs : list A) (message : A) (limit : nat) : option (list A) :=
  l ← make_room (S (length logs)) logs limit; Some (l ++ [message])%list.

(** [Display for Level] *)
Definition level_to_string (l : Level) : string :=
  match l with
  | ERROR => "ERROR" | WARN => "WARN" | INFO => "INFO" | DEBUG => "DEBUG" | TRACE => "TRACE"
  end.

(** An event of [tracing]: its metadata, and its fields with their [Debug]; the text of
    [error!] is the field [message]. *)
Record TraceEvent := mkTraceEvent {
  metadata_level : Level;
  metadata_file : option string;
  metadata_line : option N;
  fields : list (string * string)
}.

(** [LogVisitor::record_debug] *)
Definition record_debug (log : string) (field : string * string) : string :=
  log +:+ field.1 +:+ ": " +:+ field.2 +:+ ";".

(** The entry which [on_event] makes of an event *)
Definition log_entry (timestamp : string) (event : TraceEvent) : LogEntry :=
  mkLogEntry timestamp (level_to_string event.(metadata_level)) (default "" event.(metadata_file))
    (default 0%N event.(metadata_line)) (foldl record_debug "" event.(fields)).

(** [LogsLayer::on_event]: only errors are captured. *)
Definition on_event (timestamp : string) (event : TraceEvent) (logs : list LogEntry)
  : option (list LogEntry) :=
  let log_entry := log_entry timestamp event in
  if decide (event.(metadata_level) = ERROR) then log_with_limit logs log_entry ERR_LOG_BUF_CAPACITY
  else Some logs.

(** A line of the report *)
Definition log_string (log : LogEntry) : string :=
  "[" +:+ log.(timestamp) +:+ " " +:+ log.(level) +:+ " " +:+ log.(file) +:+ ":" +:+ pretty log.(line)
  +:+ "] " +:+ log.(message).
End Logs.

(** ** Requests *)
Module CallHomeApi.
Import Logs RestModels ReportModels.

(** What [error!] is called with in [generate_report] and [run]. *)
Inductive logged :=
| StatsError (e : StatsApi.Error) | NodeLenError (e : ext_error) | NodesError (e : ext_error)
| PoolsError (e : ext_error) | VolumesError (e : ext_error) | ReplicasError (e : ext_error)
| PostError (e : ext_error)
(** the error with which [run] ended, in [main] *)
| FailedCallHome.

Record Post := mkPost { post_url : string; headers : list (string * string); body : string }.

Inductive ch_call :=
| NewK8sClient | GetKubeSystemUid | NewHttpClient | BuildUrl (endpoint : string)
| FetchStats (url : string)
| ListNodes (limit : Z) (token : option string)
| GetNodes | GetNodeBlockDevices (node : string) (all : bool)
| GetPools | GetVolumes (max_entries : Z) (starting_token : option Z) | GetReplicas
| RetrySleep (attempt : nat)
| LogError (what : logged)
(** lock the buffer, read it and clear it *)
| TakeLogs
| NewTempFile (dir : string) | RemoveTemp (path : string)
| FsWrite (path content : string) | RandomName (len : nat) | Sh (command : string)
| FsRead (path : string) | FsRemove (path : string)
| Now | SendPost (p : Post)
| Sleep (hours : N).

Definition ch_res (c : ch_call) : Type :=
  match c with
  | NewK8sClient => ext_error + unit
  | GetKubeSystemUid => ext_error + option string
  | NewHttpClient => ext_error + unit
  | BuildUrl _ => ext_error + unit
  (* no response; a response whose body cannot be read; its body *)
  | FetchStats _ => ext_error + (ext_error + string)
  | ListNodes _ _ => ext_error + (nat * option string)
  | GetNodes => ext_error + list string
  | GetNodeBlockDevices _ _ => ext_error + list BlockDevice
  | GetPools => ext_error + list Pool
  | GetVolumes _ _ => ext_error + (list Volume * option Z)
  | GetReplicas => ext_error + list Replica
  | RetrySleep _ | LogError _ | Sleep _ => unit
  | RemoveTemp _ => ext_error + unit
  | TakeLogs => list LogEntry
  | NewTempFile _ => ext_error + string
  | FsWrite _ _ | FsRemove _ | Sh _ => ext_error + unit
  | RandomName _ | Now => string
  | FsRead _ => ext_error + string
  | SendPost _ => ext_error + unit
  end.
Definition ChSig : Sig := MkSig ch_call ch_res.
Definition ask {E} (c : ch_call) : prog ChSig E (ch_res c) := call (S:=ChSig) c.

(** [Report] *)
Record Report := mkReport {
  k8s_cluster_id : string; k8s_node_count : option Z; product_name : string;
  product_version : string; deploy_namespace : string; storage_node_count : option Z;
  report_pools : option Pools; report_volumes : option Volumes; report_replicas : option Replicas;
  report_nexus : Nexus; control_plane_version : string; storage_nodes : StorageNodes; mayastor_managed_disks : MayastorManagedDisks;
  storage_media : StorageMedia; logs : list string
}.

(** Crates: [prometheus_parse], [serde_json] on the report, [sha256], [heck]. *)
Class CallHomeCrates := {
  parse_scrape : list string → ext_error + list Sample;
  report_to_vec : Report → ext_error + string;
  digest : string → string;
  to_train_case : string → string
}.
End CallHomeApi.

(** ** Settings: [common/constants.rs] *)
Module Settings.
Import CallHomeApi.
Section Settings.
Context `{CallHomeCrates} (product_train : string).

Definition product (env : option string) : string :=
  match env with
  | Some "" | None => product_train
  | Some v => to_train_case v
  end.

Definition DEFAULT_ENCRYPTION_DIR_PATH : string := "./".
Definition DEFAULT_ENCRYPTION_KEY_FILEPATH : string := "./public.gpg".
(** [None]: the panic on a path which is not of the expected kind *)
Definition encryption_dir (env : option string) (is_dir : string → bool) : option string :=
  match env with
  | Some input => if is_dir input then Some input else None
  | None => Some DEFAULT_ENCRYPTION_DIR_PATH
  end.
Definition key_filepath (env : option string) (is_file : string → bool) : option string :=
  match env with
  | Some input => if is_file input then Some input else None
  | None => Some DEFAULT_ENCRYPTION_KEY_FILEPATH
  end.
Definition call_home_frequency : N := 24.

(** [version_tag] and [commit_hash] are those of the build. *)
Definition release_version (version_tag : option string) (commit_hash : string) : string :=
  match version_tag with Some tag => tag | None => commit_hash end.
End Settings.
End Settings.

(** ** Collection *)
Module Collect.
Import Logs RestModels ReportModels CallHomeApi.

(** [Retry::spawn(strategy.take(n), action)]: the action, and again after a pause up to
    [n] times while it fails *)
Fixpoint retry {E E' A} (n : nat) (action : prog ChSig E A) : prog ChSig E' (E + A) :=
  let! r := attempt action in
  match r, n with
  | inr a, _ => Ret (inr a)
  | inl e, O => Ret (inl e)
  | inl e, S n => do! ask (RetrySleep n) in retry n action
  end.
Definition RETRIES : nat := 5.

Definition KUBE_API_PAGE_SIZE : Z := 500.
Definition get_node_len (fuel : nat) : prog ChSig ext_error Z :=
  loop fuel (λ st : Z * option string, let '(nodes_count, token) := st in
    let! r := ask (ListNodes KUBE_API_PAGE_SIZE token) in
    let! page := lift id r in
    let '(items, next) := page in
    let nodes_count := u64_add nodes_count (Z.of_nat items) in
    Ret (match next with
         | Some token => inl (nodes_count, Some token)
         | None => inr nodes_count
         end)) (0%Z, None).

Definition get_cluster_id : prog ChSig ext_error string :=
  let! r := ask GetKubeSystemUid in
  let! uid := lift id r in
  Ret (default "" uid).

Definition STORAGE_API_PAGE_SIZE : Z := 500.
Definition list_all_volumes (fuel : nat) : prog ChSig ext_error (list Volume) :=
  loop fuel (λ st : list Volume * option Z, let '(volumes, starting_token) := st in
    match starting_token with
    | None => Ret (inr volumes)
    | Some token =>
        let! r := ask (GetVolumes STORAGE_API_PAGE_SIZE (Some token)) in
        let! page := lift id r in
        let '(entries, next_token) := page in
        Ret (inl ((volumes ++ entries)%list, next_token))
    end) ([], Some 0%Z).

(** A request of the REST API. *)
Definition rest {A} (m : prog ChSig ext_error (ext_error + A)) : prog ChSig ext_error A :=
  let! r := m in lift id r.

(** [str::lines] *)
Definition strip_cr (l : list ascii) : list ascii :=
  match last l with
  | Some c => if decide (c = "013"%char) then take (length l - 1) l else l
  | None => l
  end.
Definition lines (s : string) : list string :=
  let ls := split_pat (S (String.length s)) [newline] [] (chars s) in
  let ls := match last ls with Some [] => take (length ls - 1) ls | _ => ls end in
  String.string_of_list_ascii ∘ strip_cr <$> ls.

Section Collect.
Context `{CallHomeCrates}.

Definition event_stats (url : string) : prog ChSig StatsApi.Error (list Sample) :=
  let! r := ask (FetchStats url) in
  match r with
  | inl _ => Throw StatsApi.StatsFetchFailure
  | inr (inl _) => Throw StatsApi.GetRsponseBodyFailure
  | inr (inr text) => lift StatsApi.PrometheusOutPutParseFailure (parse_scrape (lines text))
  end.

(** An index out of range. *)
Inductive Panic := IndexPanic.
Abbreviation M := (prog ChSig Panic).

(** [if let Err(e) = r { error!(e) }], with the value of a success *)
Definition or_log {E A} (f : E → logged) (r : E + A) : M (option A) :=
  match r with
  | inr a => Ret (Some a)
  | inl e => do! ask (LogError (f e)) in Ret None
  end.

Definition collect_events (aggregator_url : option string) : M EventData :=
  match aggregator_url with
  | None => Ret EventData_default
  | Some url =>
      let! r := attempt (event_stats url) in
      let! data := or_log StatsError r in
      Ret (match data with Some record => event_data_from record | None => EventData_default end)
  end.

(** The disks of each node, and the number of nodes *)
Definition collect_disks : M (gmap string (list BlockDevice) * option Z) :=
  let! r := retry RETRIES (rest (ask GetNodes)) in
  let! nodes := or_log NodesError r in
  match nodes with
  | None => Ret (∅, None)
  | Some nodes =>
      let! node_disks := foldM (λ (m : gmap string (list BlockDevice)) node,
        let! r := retry RETRIES (rest (ask (GetNodeBlockDevices node true))) in
        Ret (match r with
             | inr devs => <[node := (default [] (m !! node) ++ devs)%list]> m
             | inl _ => m
             end)) nodes ∅ in
      Ret (node_disks, Some (Z.of_nat (length nodes) `mod` 256)%Z)
  end.

(** The disks which count as storage media *)
Definition valid_disk (device : BlockDevice) : bool :=
  ((0 <? device.(size_in_sectors))%Z && negb (bool_decide (device.(devtype) = "partition"))
   && negb (starts_with device.(devpath) "/devices/virtual/")).
Definition valid_disks (node_disks : gmap string (list BlockDevice)) : list BlockDevice :=
  base.filter (λ d, valid_disk d = true) (map_to_list node_disks ≫= snd).

Section Report.
Context (fuel : nat) (product : string).

(** [generate_report], up to the logs *)
Definition collect (k8s_cluster_id deploy_namespace product_version : string)
  (aggregator_url : option string) : M (list string → Report) :=
  let! event_data := collect_events aggregator_url in
  let! r := attempt (get_node_len fuel) in
  let! k8s_node_count := or_log NodeLenError r in
  let! disks := collect_disks in
  let '(node_disks, storage_node_count) := disks in
  let! r := retry RETRIES (rest (ask GetPools)) in
  let! report_pools := match r with
                       | inr ps => let! p := ok_or IndexPanic (Pools_new ps event_data) in Ret (Some p)
                       | inl e => do! ask (LogError (PoolsError e)) in Ret None
                       end in
  let pools := match r with inr ps => Some ps | inl _ => None end in
  let! r := retry RETRIES (list_all_volumes fuel) in
  let! volumes := or_log VolumesError r in
  let! report_volumes := match volumes with
                         | Some vs => let! v := ok_or IndexPanic (Volumes_new vs event_data) in
                                      Ret (Some v)
                         | None => Ret None
                         end in
  let! r := retry RETRIES (rest (ask GetReplicas)) in
  let! report_replicas := match r with
                          | inr rs => let! x := ok_or IndexPanic (Replicas_new (length rs) volumes) in
                                      Ret (Some x)
                          | inl e => do! ask (LogError (ReplicasError e)) in Ret None
                          end in
  let disks := match pools with
               | Some ps => MayastorManagedDisks_new ps node_disks
               | None => ∅
               end in
  let nodes := match pools, r with
               | Some ps, inr rs => StorageNodes_new rs ps node_disks
               | _, _ => ∅
               end in
  Ret (mkReport k8s_cluster_id ((λ n, n `mod` 256)%Z <$> k8s_node_count) product product_version
         deploy_namespace storage_node_count report_pools report_volumes report_replicas
         (Nexus_new event_data) "" nodes disks (StorageMedia_new (valid_disks node_disks))).

Definition generate_report (k8s_cluster_id deploy_namespace product_version : string)
  (aggregator_url : option string) : M Report :=
  let! report := collect k8s_cluster_id deploy_namespace product_version aggregator_url in
  let! logs := ask TakeLogs in
  Ret (report (log_string <$> logs)).
End Report.
End Collect.
End Collect.

(** ** Encryption and transmission *)
Module Transmit.
Import Logs CallHomeApi Collect Settings.
Section Transmit.
Context `{CallHomeCrates}.

Inductive EncryptError := SerdeSerializeError (source : ext_error) | IoError (source : ext_error).

Definition gpg_command (dir key output input : string) : string :=
  "gpg --yes --trust-model=always --homedir=" +:+ dir +:+ " --keyring=" +:+ key
  +:+ " --recipient=openebs-phonehome@datacore.com --no-default-keyring --encrypt -z=9 --output="
  +:+ output +:+ " " +:+ input.

(** The path of the temporary file is dropped when the function returns, however it does:
    the file is removed, and a failure of that is ignored. *)
Definition with_temp {A} (path : string) (m : prog ChSig EncryptError A) : prog ChSig EncryptError A :=
  let! r := attempt m in
  let! _ := ask (RemoveTemp path) in
  lift id r.

Definition encrypt (report : Report) (encryption_dir key_filepath : string)
  : prog ChSig EncryptError string :=
  let! r := ask (NewTempFile encryption_dir) in
  let! input_filepath := lift IoError r in
  with_temp input_filepath (
    let! report_content := lift SerdeSerializeError (report_to_vec report) in
    let! r := ask (FsWrite input_filepath report_content) in
    do! lift IoError r in
    let! random_name := ask (RandomName 32) in
    let output_filepath := path_join encryption_dir (random_name +:+ ".gpg") in
    let command := gpg_command encryption_dir key_filepath output_filepath input_filepath in
    let! r := ask (Sh (trim command)) in
    do! lift IoError r in
    let! r := ask (FsRead output_filepath) in
    let! output := lift IoError r in
    let! r := ask (FsRemove output_filepath) in
    do! lift IoError r in
    Ret output).

(** [Receiver::post] *)
Definition post (url cluster_id version product body : string) : prog ChSig ext_error unit :=
  let! time := ask Now in
  let! r := ask (SendPost (mkPost url
    [("CAStor-Cluster-Id", cluster_id); ("CAStor-Version", version);
     ("CAStor-Report-Type", "health_report"); ("CAStor-Product", product); ("CAStor-Time", time);
     ("Content-Type", "text/PGP; charset=binary")] body)) in
  lift id r.

Inductive RunError :=
| K8sClientError (e : ext_error) | ClusterIdError (e : ext_error) | ReceiverError (e : ext_error)
| ConfigurationError (e : ext_error) | EncryptionError (e : EncryptError) | Panicked.

Record Config := mkConfig {
  endpoint : string; namespace : string; send_report : bool; aggregator_url : option string;
  dir : string; key : string; version : string; product_name : string; receiver_endpoint : string
}.

(** A round of the loop of [run] *)
Definition round (fuel : nat) (c : Config) (cluster_id : string) : prog ChSig RunError unit :=
  let! r := attempt (generate_report fuel c.(product_name) cluster_id (digest c.(namespace)) c.(version)
                       c.(aggregator_url)) in
  let! report := lift (λ _, Panicked) r in
  let! r := attempt (encrypt report c.(dir) c.(key)) in
  let! output := lift EncryptionError r in
  do! (if c.(send_report) then
         let! r := attempt (post c.(receiver_endpoint) cluster_id c.(version) c.(product_name) output) in
         match r with
         | inr _ => Ret tt
         | inl e => ask (LogError (PostError e))
         end
       else Ret tt) in
  ask (Sleep call_home_frequency).

Definition run (rounds fuel : nat) (c : Config) : prog ChSig RunError unit :=
  let! r := ask NewK8sClient in
  do! lift K8sClientError r in
  let! r := attempt get_cluster_id in
  let! uid := lift ClusterIdError r in
  let k8s_cluster_id := digest uid in
  let! r := ask NewHttpClient in
  do! lift ReceiverError r in
  let! r := ask (BuildUrl c.(endpoint)) in
  do! lift ConfigurationError r in
  loop rounds (λ _ : unit, do! round fuel c k8s_cluster_id in Ret (inl tt)) tt.

(** [main]: the process exits with status 1 if [run] fails; 101 is the status of a
    process whose main thread panicked. *)
Definition main (rounds fuel : nat) (c : Config) : prog ChSig Z unit :=
  let! r := attempt (run rounds fuel c) in
  match r with
  | inl Panicked => Throw 101%Z
  | inl _ => do! ask (LogError FailedCallHome) in Throw 1%Z
  | inr _ => Ret tt
  end.
End Transmit.
End Transmit.
