(* ===== verification/CallHomeSpec.v ===== *)
(** * call-home: properties of collection and transmission

    The report is generated whatever the services answer, it carries the latest error
    logs, only the output of gpg on it is sent, and the removal of the plain text is
    tried before the program goes on. *)

From S2P Require Import Prelude Text JobApi CallHomeReport CallHomeReportSpec CallHome.
From stdpp Require Import base gmap list strings pretty.
From Stdlib Require Import ZArith Lia.
Open Scope string_scope.

(** ** The log buffer *)
Module LogLemmas.
Import Logs.

(** The last entries. *)
Definition latest {A} (n : nat) (l : list A) : list A := drop (length l - n) l.

Lemma make_room_spec {A} fuel (l : list A) limit :
  (length l < fuel)%nat → (0 < limit)%nat →
  make_room fuel l limit = Some (latest (limit - 1) l).
Proof.
  revert l. induction fuel as [|fuel IH]; intros l Hf Hl; [lia|]. cbn.
  destruct (Nat.leb_spec limit (length l)) as [Hge|Hlt].
  - destruct l as [|x l]; cbn in *; [lia|]. rewrite IH by lia. unfold latest.
    cbn [length]. by replace (S (length l) - (limit - 1))%nat with (S (length l - (limit - 1))) by lia.
  - unfold latest. by replace (length l - (limit - 1))%nat with 0%nat by lia.
Qed.

Lemma log_with_limit_latest {A} (l : list A) x limit :
  (0 < limit)%nat → log_with_limit l x limit = Some (latest limit (l ++ [x])%list).
Proof.
  intros Hl. unfold log_with_limit. rewrite make_room_spec by lia. cbn. f_equal.
  unfold latest. rewrite length_app. cbn. rewrite drop_app_le by lia. do 2 f_equal. lia.
Qed.

Lemma latest_latest {A} n (l k : list A) : latest n (latest n l ++ k)%list = latest n (l ++ k)%list.
Proof.
  unfold latest. rewrite !length_app, length_drop. destruct (decide (n ≤ length l)%nat) as [Hle|Hgt].
  - replace (length l - (length l - n) + length k - n)%nat with (length k)%nat by lia.
    replace (length l + length k - n)%nat with (length l - n + length k)%nat by lia.
    rewrite <-drop_drop. rewrite (drop_app_le l) by lia. done.
  - by replace (length l - n)%nat with 0%nat by lia; rewrite drop_0, Nat.sub_0_r.
Qed.

Lemma latest_idem {A} n (l : list A) : latest n (latest n l) = latest n l.
Proof. pose proof (latest_latest n l []) as Hl. by rewrite !app_nil_r in Hl. Qed.
End LogLemmas.

(** ** Runs with a log buffer *)
Module LogRuns.
Import Logs RestModels CallHomeApi LogLemmas Collect.

(** The clock, and the place of each call of [error!] with its fields *)
Record ErrorLog (W : Type) := mkErrorLog {
  time_now : W → string;
  site : logged → option string * option N;
  recorded : logged → W → list (string * string)
}.
Arguments mkErrorLog {W}. Arguments time_now {W}. Arguments site {W}. Arguments recorded {W}.

Section Handler.
(** The other services, and the calls of [error!]. *)
Context {W : Type} (h : handler ChSig W) (L : ErrorLog W).

Definition error_event (e : logged) (w : W) : TraceEvent :=
  mkTraceEvent ERROR (L.(site) e).1 (L.(site) e).2 (L.(recorded) e w).
Definition entry_of (e : logged) (w : W) : LogEntry := log_entry (L.(time_now) w) (error_event e w).

(** Errors go through the layer, as [set_global_default] has it. *)
Definition with_logs : handler ChSig (W * list LogEntry) := λ c w,
  match c return ch_res c * (W * list LogEntry) with
  | LogError e => (tt, (w.1, default w.2 (on_event (L.(time_now) w.1) (error_event e w.1) w.2)))
  | TakeLogs => (w.2, (w.1, []))
  | c => ((h c w.1).1, ((h c w.1).2, w.2))
  end.

(** The entries which a program logs, in order. *)
Fixpoint logs_of {E A} (p : prog ChSig E A) (w : W * list LogEntry) : list LogEntry :=
  match p with
  | Call c k =>
      (match c with LogError e => [entry_of e w.1] | _ => [] end
       ++ logs_of (k (with_logs c w).1) (with_logs c w).2)%list
  | _ => []
  end.

Definition not_take (c : op ChSig) : bool := match c with TakeLogs => false | _ => true end.

Lemma run_call_unfold {E A} c (k : ch_res c → prog ChSig E A) w :
  run with_logs (Call (S:=ChSig) c k) w =
  let r := run with_logs (k (with_logs c w).1) (with_logs c w).2 in
  (r.1.1, r.1.2, Ev (S:=ChSig) c (with_logs c w).1 :: r.2).
Proof. cbn [run]. destruct (with_logs c w) as [r w']. cbn. by destruct (run _ _ _) as [[??]?]. Qed.

Lemma step_buffer c w :
  not_take c = true →
  (with_logs c w).2.2 = match c with
                        | LogError e => latest ERR_LOG_BUF_CAPACITY (w.2 ++ [entry_of e w.1])%list
                        | _ => w.2
                        end.
Proof.
  intros Hc. destruct c; try done. cbn [with_logs fst snd]. unfold on_event. rewrite decide_True by done.
  by rewrite log_with_limit_latest by (unfold ERR_LOG_BUF_CAPACITY; lia).
Qed.

Lemma buffer_after {E A} (p : prog ChSig E A) w :
  uses not_take p → w.2 = latest ERR_LOG_BUF_CAPACITY w.2 →
  (world_of (run with_logs p w)).2 = latest ERR_LOG_BUF_CAPACITY (w.2 ++ logs_of p w)%list.
Proof.
  revert w. induction p as [a|e| |c k IH]; intros w Hu Hw; cbn [logs_of]; rewrite ?app_nil_r; try done.
  destruct Hu as [Hc Hk]. rewrite run_call_unfold. cbn zeta.
  pose proof (step_buffer c w Hc) as Hs.
  etransitivity; [apply (IH _ (with_logs c w).2 (Hk _))|]; rewrite Hs.
  2: destruct c; try done; by rewrite latest_latest, <-app_assoc.
  destruct c; try done. by rewrite latest_idem.
Qed.
End Handler.
End LogRuns.

(** ** Sizes of answers *)
Module Sizes.
Import RestModels ReportModels ReportTotal CallHomeApi Collect.

(** How many pools and volumes the services have answered with. *)
Definition entries (c : ch_call) : ch_res c → Z :=
  (match c return ch_res c → Z with
   | GetPools => λ r, match r with inr ps => Z.of_nat (length ps) | inl _ => 0 end
   | GetVolumes _ _ => λ r, match r with inr (vs, _) => Z.of_nat (length vs) | inl _ => 0 end
   | _ => λ _, 0
   end)%Z.
Definition sizes : protocol ChSig := Protocol ChSig Z (λ m e, let 'Ev c r := e in Some (m + entries c r)%Z).

Lemma entries_nonneg c r : (0 <= entries c r)%Z.
Proof. destruct c; cbn; try lia; repeat case_match; lia. Qed.

Definition total (tr : list (ev ChSig)) : Z := default 0%Z (accepts sizes 0%Z tr).

(** A program which ignores the sizes. *)
Lemma sizes_any {E A} (p : prog ChSig E A) (m0 : Z) :
  respects sizes p m0 (λ _ m, (m0 <= m)%Z) (λ _ m, (m0 <= m)%Z).
Proof.
  cut (∀ m, (m0 <= m)%Z → respects sizes p m (λ _ m, (m0 <= m)%Z) (λ _ m, (m0 <= m)%Z)); [auto with lia|].
  induction p as [| | |c k IH]; cbn; intros m Hm; try done.
  intros r. apply IH. pose proof (entries_nonneg c r). lia.
Qed.

(** What is retried has the result of an attempt. *)
Lemma respects_retry {E E' A} n (p : prog ChSig E A) (J : Z → Prop) (Q : A → Z → Prop)
    (R : E' → Z → Prop) m :
  (∀ m, J m → respects sizes p m Q (λ _, J)) → J m →
  respects sizes (retry n p) m (λ r m', match r with inr a => Q a m' | inl _ => J m' end) R.
Proof.
  intros Hp. revert m. induction n as [|n IH]; intros m Hm; cbn [retry].
  all: apply respects_bind, respects_attempt; eapply respects_weaken; [by apply Hp|done|].
  - done.
  - intros e m' Hm' []. cbn [mstep sizes entries]. rewrite Z.add_0_r. by apply IH.
Qed.

Lemma list_all_volumes_size fuel (m : Z) :
  (0 <= m)%Z →
  respects sizes (list_all_volumes fuel) m (λ vs m', (0 <= m')%Z ∧ (Z.of_nat (length vs) <= m')%Z)
    (λ _ m', (0 <= m')%Z).
Proof.
  intros Hm. unfold list_all_volumes.
  apply respects_loop with (J := λ st m', (0 <= m')%Z ∧ (Z.of_nat (length st.1) <= m')%Z); [done|].
  intros [vs [t|]] m' [H0 Hl]; cbn in *; [|done].
  intros [e|[page next]]; cbn; [lia|]. rewrite length_app. lia.
Qed.

Lemma rest_pools_size (m : Z) :
  (0 <= m)%Z →
  respects sizes (rest (ask GetPools)) m (λ ps m', (0 <= m')%Z ∧ (Z.of_nat (length ps) <= m')%Z)
    (λ _ m', (0 <= m')%Z).
Proof. intros Hm. cbn. intros [e|ps]; cbn; lia. Qed.

(** Parts which throw nothing. *)
Definition quiet {A} (p : prog ChSig Panic A) : Prop :=
  ∀ m : Z, (0 <= m)%Z → respects sizes p m (λ _ m', (0 <= m')%Z) (λ _ _, False).

Lemma quiet_attempt {E A} (p : prog ChSig E A) : quiet (attempt p).
Proof.
  intros m Hm. apply respects_attempt. eapply respects_weaken; [apply sizes_any|..]; cbn; intros; lia.
Qed.

Lemma quiet_retry {E A} n (p : prog ChSig E A) : quiet (retry n p).
Proof.
  intros m Hm. eapply respects_weaken.
  - apply (respects_retry n p (λ m, 0 <= m)%Z (λ _ m, 0 <= m)%Z); [|done].
    intros m' Hm'. eapply respects_weaken; [apply sizes_any|..]; cbn; intros; lia.
  - by intros [] m'.
  - intros e m' He. exact He.
Qed.

Lemma quiet_bind {A B} (p : prog ChSig Panic A) (f : A → prog ChSig Panic B) :
  quiet p → (∀ a, quiet (f a)) → quiet (bind f p).
Proof. intros Hp Hf m Hm. eapply respects_seq; [by apply Hp| |done]. intros a m' Hm'. by apply Hf. Qed.

Lemma quiet_ret {A} (a : A) : quiet (Ret a).
Proof. by intros m Hm. Qed.

Lemma quiet_or_log {E A} (f : E → logged) (r : E + A) : quiet (or_log f r).
Proof. destruct r; intros m Hm; cbn; lia. Qed.

Lemma quiet_foldM {X A} (f : A → X → prog ChSig Panic A) l a :
  (∀ a x, quiet (f a x)) → quiet (foldM f l a).
Proof. intros Hf. revert a. induction l as [|x l IH]; intros a; cbn; [apply quiet_ret|by apply quiet_bind]. Qed.

Lemma quiet_seq {A B} (p : prog ChSig Panic A) (f : A → prog ChSig Panic B) (m : Z) Q R :
  quiet p → (0 <= m)%Z → (∀ a m', (0 <= m')%Z → respects sizes (f a) m' Q R) →
  respects sizes (bind f p) m Q R.
Proof. intros Hp Hm Hf. eapply respects_seq; [by apply Hp|done|done]. Qed.

Section Report.
Context `{CallHomeCrates} (fuel : nat) (product : string).

Definition many (m : Z) : Prop := (2 ^ 53 <= m)%Z.

Lemma quiet_events url : quiet (collect_events url).
Proof.
  destruct url; cbn [collect_events]; [|apply quiet_ret].
  apply quiet_bind; [apply quiet_attempt|intros r]. apply quiet_bind; [apply quiet_or_log|intros d].
  apply quiet_ret.
Qed.

Lemma quiet_disks : quiet collect_disks.
Proof.
  apply quiet_bind; [apply quiet_retry|intros r]. apply quiet_bind; [apply quiet_or_log|intros [nodes|]].
  - apply quiet_bind; [|intros; apply quiet_ret]. apply quiet_foldM. intros a x.
    apply quiet_bind; [apply quiet_retry|]. intros; apply quiet_ret.
  - apply quiet_ret.
Qed.

(** A step which may index out of range. *)
Lemma may_index {A B} (o : option A) (f : A → B) (m : Z) (n : nat) (Q : Z → Prop) :
  (Z.of_nat n <= m)%Z → ((Z.of_nat n < 2 ^ 53)%Z → is_Some o) → Q m →
  respects sizes (let! x := ok_or IndexPanic o in Ret (f x)) m (λ _ m', Q m') (λ _ m', many m').
Proof.
  intros Hn Ho HQ. destruct o; cbn; [done|]. unfold many.
  destruct (decide (Z.of_nat n < 2 ^ 53)%Z) as [Hs|Hs]; [by destruct (Ho Hs)|lia].
Qed.

(** An index panics only after answers of many entries. *)
Lemma collect_sizes id ns version url :
  respects sizes (collect fuel product id ns version url) 0%Z (λ _ m, (0 <= m)%Z) (λ _ m, many m).
Proof.
  unfold collect. apply quiet_seq; [apply quiet_events|lia|intros ev m1 H1].
  apply quiet_seq; [apply quiet_attempt|lia|intros r1 m2 H2].
  apply quiet_seq; [apply quiet_or_log|lia|intros knc m3 H3].
  apply quiet_seq; [apply quiet_disks|lia|intros [nd snc] m4 H4].
  eapply respects_seq; [apply (respects_retry _ _ (λ m, 0 <= m)%Z); [apply rest_pools_size|lia]| |intros ?? HF; exact HF].
  intros rp m5 H5.
  eapply respects_seq with (Q1 := λ _ m', (0 <= m')%Z) (R1 := λ _ m', many m'); [| |done].
  { destruct rp as [e|ps]; [intros []; cbn in *; lia|].
    destruct H5. eapply may_index; [done|apply Pools_some|done]. }
  intros pools m6 H6.
  eapply respects_seq; [apply (respects_retry _ _ (λ m, 0 <= m)%Z); [apply list_all_volumes_size|done]| |intros ?? HF; exact HF].
  intros rv m7 H7.
  eapply respects_seq with (R1 := λ _ _, False)
    (Q1 := λ vs m', (0 <= m')%Z ∧ ∀ l, vs = Some l → (Z.of_nat (length l) <= m')%Z); [| |done].
  { destruct rv as [e|vs]; [intros []; cbn in *; split; [lia|done]|].
    destruct H7. split; [done|]. by intros l [= <-]. }
  intros vs m8 [H8 Hvs].
  eapply respects_seq with (Q1 := λ _ m', m' = m8) (R1 := λ _ m', many m'); [| |done].
  { destruct vs as [vs|]; [|done]. eapply may_index; [by apply Hvs|apply Volumes_some|done]. }
  intros volumes m9 ->.
  eapply respects_seq; [apply (respects_retry _ _ (λ m, m8 <= m)%Z (λ _ m, m8 <= m)%Z); [|lia]| |intros ?? HF; exact HF].
  { intros m Hm [|]; cbn; lia. }
  intros rr m10 H10.
  eapply respects_seq with (Q1 := λ _ m', (0 <= m')%Z) (R1 := λ _ m', many m'); [|done|done].
  destruct rr as [e|rs]; [intros []; cbn in *; lia|].
  apply (may_index _ _ _ (length (default [] vs))); [|intros Hl; apply Replicas_some|lia].
  - destruct vs as [l|]; cbn; [specialize (Hvs l eq_refl)|]; lia.
  - intros l ->. exact Hl.
Qed.
End Report.
End Sizes.

(** ** What leaves the process *)
Module Sealing.
Import CallHomeApi Collect Transmit.

(** The file with the plain text, until its removal is tried; the file gpg was told to
    write, whether gpg was run, and what was read from its output. *)
Record vault := mkVault {
  plain : option string; out : option string; sealed : bool; cipher : option string
}.
Definition closed : vault := mkVault None None false None.

Section Sealing.
Context `{CallHomeCrates} (c : Config).

Definition allow (b : bool) (v : vault) : option vault := if b then Some v else None.

(** The allowed orders.  The plain text is only written to the temporary file, gpg runs
    on that file, only its output is read, and a request carries what was read; it is
    made only if reports are to be sent, and only after the removal of the plain text was
    tried.  The process does not sleep before that either. *)
Definition vault_step (v : vault) (e : ev ChSig) : option vault :=
  match e with
  | Ev (NewTempFile _) (inr p) => allow (bool_decide (v.(plain) = None)) (mkVault (Some p) None false None)
  | Ev (FsWrite p _) _ => allow (bool_decide (v.(plain) = Some p)) v
  | Ev (RandomName _) r =>
      Some (mkVault v.(plain) (Some (path_join c.(dir) (r +:+ ".gpg"))) false None)
  | Ev (Sh cmd) _ =>
      match v.(plain), v.(out) with
      | Some i, Some o =>
          allow (bool_decide (cmd = trim (gpg_command c.(dir) c.(key) o i))) (mkVault (Some i) (Some o) true None)
      | _, _ => None
      end
  | Ev (FsRead p) r =>
      allow (v.(sealed) && bool_decide (v.(out) = Some p))
        (match r with inr b => mkVault v.(plain) v.(out) true (Some b) | inl _ => v end)
  | Ev (FsRemove p) _ => allow (bool_decide (v.(out) = Some p)) v
  | Ev (RemoveTemp p) _ =>
      allow (bool_decide (v.(plain) = Some p)) (mkVault None v.(out) v.(sealed) v.(cipher))
  | Ev (SendPost p) _ =>
      allow (c.(send_report) && bool_decide (v.(plain) = None) && v.(sealed)
             && bool_decide (v.(cipher) = Some p.(body))
             && bool_decide (p.(post_url) = c.(receiver_endpoint))) v
  | Ev (Sleep _) _ => allow (bool_decide (v.(plain) = None)) v
  | _ => Some v
  end.
Definition vault_protocol : protocol ChSig := Protocol ChSig vault vault_step.

Lemma encrypt_seals report (v : vault) :
  v.(plain) = None →
  respects vault_protocol (encrypt report c.(dir) c.(key)) v
    (λ b v', v'.(plain) = None ∧ v'.(sealed) = true ∧ v'.(cipher) = Some b) (λ _ v', v'.(plain) = None).
Proof.
  intros Hv. cbn. rewrite Hv. intros [e|input]; cbn; [done|].
  destruct (report_to_vec report) as [e|content]; cbn; [by rewrite bool_decide_true|].
  rewrite bool_decide_true by done. intros [e|[]]; cbn; [by rewrite bool_decide_true|].
  intros name. rewrite bool_decide_true by done. intros [e|[]]; cbn; [by rewrite bool_decide_true|].
  rewrite bool_decide_true by done. intros [e|b]; cbn; [by rewrite bool_decide_true|].
  rewrite bool_decide_true by done. intros [e|[]]; cbn; by rewrite bool_decide_true.
Qed.

(** *** What is posted

    The requests from the file for the plain text to the output of gpg: the report is
    written to the temporary file, gpg reads that file, and its output is read. *)
Definition sealing_of (input content name : string) (removed : ext_error + unit) (body : string)
  : list (ev ChSig) :=
  let output := path_join c.(dir) (name +:+ ".gpg") in
  [Ev (S:=ChSig) (NewTempFile c.(dir)) (inr input);
   Ev (S:=ChSig) (FsWrite input content) (inr tt);
   Ev (S:=ChSig) (RandomName 32) name;
   Ev (S:=ChSig) (Sh (trim (gpg_command c.(dir) c.(key) output input))) (inr tt);
   Ev (S:=ChSig) (FsRead output) (inr body);
   Ev (S:=ChSig) (FsRemove output) (inr tt);
   Ev (S:=ChSig) (RemoveTemp input) removed].

Lemma ask_done_event {E} x tr (r : ch_res x) : exec (ask (E:=E) x) tr (Done r) → tr = [Ev (S:=ChSig) x r].
Proof. apply (exec_call_inv (S:=ChSig)). Qed.
Ltac ask_inv :=
  repeat (progress done_inv ||
    match goal with H : exec (ask ?x) ?t (Done ?r) |- _ => apply (ask_done_event x t r) in H end);
  subst; cbn [app id] in *.

Lemma encrypt_done report tr body :
  exec (encrypt report c.(dir) c.(key)) tr (Done body) →
  ∃ input content name removed, report_to_vec report = inr content ∧
    tr = sealing_of input content name removed body.
Proof.
  unfold encrypt, with_temp. intros Hx.
  apply exec_bind_done in Hx as (r1 & t1 & ? & H1 & Hx & ->).
  apply exec_bind_done in Hx as (input & t2 & ? & [-> ->]%exec_lift_done & Hx & ->).
  apply exec_bind_done in Hx as (res & t3 & ? & H3%exec_attempt_inv & Hx & ->).
  apply exec_bind_done in Hx as (rm & t4 & ? & H4 & [-> ->]%exec_lift_done & ->).
  ask_inv. repeat match goal with u : () |- _ => destruct u end.
  do 4 eexists. split; [eassumption|]. reflexivity.
Qed.

(** What collection asks for. *)
Definition collecting (x : op ChSig) : bool :=
  match x with
  | FetchStats _ | ListNodes _ _ | GetNodes | GetNodeBlockDevices _ _ | GetPools | GetVolumes _ _
  | GetReplicas | RetrySleep _ | LogError _ => true
  | _ => false
  end.

Lemma uses_retry {E E' A} (ok : op ChSig → bool) n (p : prog ChSig E A) :
  uses ok p → (∀ k, ok (RetrySleep k) = true) → uses ok (retry (E':=E') n p).
Proof.
  intros Hp Hr. induction n as [|n IH]; cbn [retry]; apply uses_bind; try by apply uses_attempt.
  - by intros [].
  - intros []; [|done]. by cbn.
Qed.

Lemma uses_or_log {E A} (ok : op ChSig → bool) (f : E → logged) (r : E + A) :
  (∀ e, ok (LogError e) = true) → uses ok (or_log f r).
Proof. intros Hl. by destruct r; cbn. Qed.

Lemma collect_collecting fuel product id ns version url :
  uses collecting (collect fuel product id ns version url).
Proof.
  unfold collect, collect_events, collect_disks, event_stats, get_node_len, list_all_volumes, rest, ask.
  repeat first [apply uses_retry; [|done] | apply uses_or_log; done | progress solve_uses].
Qed.
End Sealing.
End Sealing.

(** ** A server of volumes *)
Module VolumePages.
Import RestModels CallHomeApi Collect.

Section Pages.
Context {W : Type} (h : handler ChSig W) (vols : list Volume).

(** [GET /volumes] with pagination: at most as many entries as asked for, from the
    token on, and a token while there are more. *)
Definition page (max : Z) (token : Z) : list Volume * option Z :=
  (take (Z.to_nat max) (drop (Z.to_nat token) vols),
   if (token + max <? Z.of_nat (length vols))%Z then Some (token + max)%Z else None).

Definition volume_server : handler ChSig W := λ c w,
  match c return ch_res c * W with
  | GetVolumes max token => (inr (page max (default 0%Z token)), w)
  | c => h c w
  end.

Lemma pages_from fuel (k : nat) w :
  (k ≤ length vols)%nat → (length vols - k + 2 ≤ fuel)%nat →
  result_of (run volume_server
    (loop fuel (λ st : list Volume * option Z, let '(volumes, starting_token) := st in
      match starting_token with
      | None => Ret (inr volumes)
      | Some token =>
          let! r := ask (GetVolumes STORAGE_API_PAGE_SIZE (Some token)) in
          let! page := lift (E:=ext_error) id r in
          let '(entries, next_token) := page in
          Ret (inl ((volumes ++ entries)%list, next_token))
      end) (take k vols, Some (Z.of_nat k))) w) = Done vols.
Proof.
  revert k. induction fuel as [|fuel IH]; intros k Hk Hf; [lia|]. cbn [loop]. cbn.
  unfold STORAGE_API_PAGE_SIZE. rewrite Nat2Z.id, take_take_drop.
  destruct (Z.ltb_spec (Z.of_nat k + 500) (Z.of_nat (length vols))) as [Hlt|Hge].
  - specialize (IH (k + 500)%nat ltac:(lia) ltac:(lia)). rewrite Nat2Z.inj_add in IH.
    by destruct (run volume_server _ w) as [[??]?].
  - destruct fuel as [|fuel]; [lia|]. cbn. by rewrite take_ge by lia.
Qed.
End Pages.
End VolumePages.

Module CallHomeClaims.
Import Logs RestModels ReportModels CallHomeApi Collect Transmit LogLemmas LogRuns Sizes Sealing VolumePages.

Section Claims.
Context `{CallHomeCrates}.

Lemma generate_report_ignored (c : Config) fuel product id ns version url (v : vault) :
  respects (vault_protocol c) (generate_report fuel product id ns version url) v
    (λ _ v', v' = v) (λ _ v', v' = v).
Proof.
  eapply respects_seq; [apply respects_uses_at with (ok := collecting)| |done].
  - by intros [] r Hc.
  - apply collect_collecting.
  - intros report v' ->. cbn. done.
Qed.

Lemma round_sealed (c : Config) fuel id (v : vault) :
  v.(plain) = None →
  respects (vault_protocol c) (round fuel c id) v (λ _ v', v'.(plain) = None) (λ _ v', v'.(plain) = None).
Proof.
  intros Hv. unfold round.
  eapply respects_seq with (R1 := λ _ _, False) (Q1 := λ _ v', v' = v); [| |done].
  { apply respects_attempt. eapply respects_weaken; [apply generate_report_ignored|done|done]. }
  intros [[]|report] ? ->; cbn [lift bind]; [done|].
  eapply respects_seq with (R1 := λ _ _, False) (Q1 := λ r v', v'.(plain) = None ∧
    match r with inr b => v'.(sealed) = true ∧ v'.(cipher) = Some b | inl _ => True end); [| |done].
  { apply respects_attempt. eapply respects_weaken; [by apply encrypt_seals|done|done]. }
  intros [e|b] v' [Hp Hb]; cbn [lift bind]; [done|]. destruct Hb as [Hs Hc].
  destruct c.(send_report) eqn:Hsend; cbn; rewrite ?Hsend, Hp.
  - intros now. rewrite Hs, Hc, !bool_decide_true by done. cbn.
    intros [e|[]]; cbn; rewrite ?Hp; by rewrite !bool_decide_true.
  - by rewrite bool_decide_true.
Qed.

Lemma run_sealed rounds fuel (c : Config) :
  respects (vault_protocol c) (Transmit.run rounds fuel c) closed
    (λ _ v', v'.(plain) = None) (λ _ v', v'.(plain) = None).
Proof.
  cbn. intros [e|[]]; cbn; [done|]. intros [e|uid]; cbn; [done|].
  intros [e|[]]; cbn; [done|]. intros [e|[]]; cbn; [done|].
  apply respects_loop with (J := λ _ v, v.(plain) = None); [done|]. intros _ v Hv.
  eapply respects_seq; [by apply round_sealed|done|done].
Qed.

(** *** A request to the receiver *)
Definition unposted (x : op ChSig) : bool := match x with SendPost _ => false | _ => true end.

Lemma unposted_ask {E} x : unposted x = true → uses unposted (ask (E:=E) x).
Proof. done. Qed.
Lemma unposted_report fuel product id ns version url :
  uses unposted (generate_report fuel product id ns version url).
Proof.
  apply uses_bind; [eapply uses_weaken; [|apply collect_collecting]; by intros []|done].
Qed.
Lemma unposted_encrypt report d k : uses unposted (encrypt report d k).
Proof. unfold encrypt, with_temp, ask. solve_uses. Qed.
#[local] Hint Resolve unposted_ask unposted_report unposted_encrypt : uses.

(** The report which is sent: it was generated in the same round, sealed, and sent at once. *)
Definition posts (c : Config) (fuel : nat) (tr : list (ev ChSig)) (p : Post) : Prop :=
  c.(send_report) = true ∧ p.(post_url) = c.(receiver_endpoint) ∧
  ∃ cluster_id report t0 tg now input content name removed,
    tr = (t0 ++ tg ++ sealing_of c input content name removed p.(body) ++ [Ev (S:=ChSig) Now now])%list ∧
    exec (generate_report fuel c.(Transmit.product_name) cluster_id (digest c.(namespace)) c.(version)
            c.(aggregator_url)) tg (Done report) ∧
    report_to_vec report = inr content.

Lemma posts_app c fuel t0 tr p : posts c fuel tr p → posts c fuel (t0 ++ tr)%list p.
Proof.
  intros (? & ? & id & rep & t1 & tg & now & i & ct & n & rm & -> & ?). split_and!; [done..|].
  exists id, rep, (t0 ++ t1)%list, tg, now, i, ct, n, rm. by rewrite <-!app_assoc.
Qed.

Lemma post_posted url id version product body tr1 p r tr2 o :
  exec (post url id version product body) (tr1 ++ Ev (S:=ChSig) (SendPost p) r :: tr2)%list o →
  ∃ now, tr1 = [Ev (S:=ChSig) Now now] ∧ p.(post_url) = url ∧ p.(CallHomeApi.body) = body.
Proof.
  unfold post. intros Hx. apply (exec_gated unposted) in Hx as (now & ta & t & Ha & -> & Hx); [|done..].
  apply (ask_done_event Now) in Ha as ->. exists now.
  apply (exec_within unposted) in Hx as (tr2' & o' & Hx); [|intros; apply uses_lift|done].
  destruct Hx as [[? _]|(r' & t' & Heq & Hx)]; [by destruct t|].
  destruct t as [|e t]; [|injection Heq as _ <-; by destruct Hx as [[? _]|[? _]]; destruct t].
  apply (f_equal (λ l : list (ev ChSig), match l with
    | Ev x _ :: _ => match x : ch_call with SendPost q => Some q | _ => None end | [] => None end)) in Heq.
  injection Heq as ->. done.
Qed.

Lemma round_posts (c : Config) fuel id tr1 p r tr2 o :
  exec (round fuel c id) (tr1 ++ Ev (S:=ChSig) (SendPost p) r :: tr2)%list o → posts c fuel tr1 p.
Proof.
  unfold round. intros Hx.
  apply (exec_gated unposted) in Hx as (r1 & tg & t & Hg%exec_attempt_inv & -> & Hx);
    [|apply uses_attempt, unposted_report|done].
  apply (exec_gated unposted) in Hx as (report & t1 & t' & [-> ->]%exec_lift_done & -> & Hx); [|apply uses_lift|done].
  apply (exec_gated unposted) in Hx as (r2 & te & t2 & He%exec_attempt_inv & -> & Hx);
    [|apply uses_attempt, unposted_encrypt|done].
  apply (exec_gated unposted) in Hx as (output & t3 & t4 & [-> ->]%exec_lift_done & -> & Hx); [|apply uses_lift|done].
  apply (exec_within unposted) in Hx as (tr2' & o' & Hx); [|done|done].
  destruct (send_report c) eqn:Hs; [|by destruct Hx as [[? _]|[? _]]; destruct t4].
  apply (exec_within unposted) in Hx as (tr3 & o3 & Hx); [|by intros [e|]|done].
  apply exec_attempt_run in Hx as [o4 Hx]. apply post_posted in Hx as (now & -> & Hu & Hb).
  apply encrypt_done in He as (input & content & name & removed & Hc & ->).
  split_and!; [done..|]. exists id, report, [], tg, now, input, content, name, removed. by rewrite Hb.
Qed.

Lemma main_posts rounds fuel (c : Config) tr1 p r tr2 o :
  exec (Transmit.main rounds fuel c) (tr1 ++ Ev (S:=ChSig) (SendPost p) r :: tr2)%list o → posts c fuel tr1 p.
Proof.
  unfold Transmit.main. intros Hx.
  apply (exec_within unposted) in Hx as (tr2' & o' & Hx); [|by intros [[]|]|done].
  apply exec_attempt_run in Hx as [o2 Hx]. unfold Transmit.run in Hx.
  do 8 (apply (exec_gated unposted) in Hx as (? & ? & ? & _ & -> & Hx);
    [apply posts_app|unfold get_cluster_id; solve_uses|done]).
  apply exec_loop_event in Hx as (i & t0 & t & tr3 & o3 & -> & Hx). apply posts_app.
  apply (exec_within unposted) in Hx as (tr4 & o4 & Hx); [|done|done].
  by eapply round_posts.
Qed.

(** The loop of [run] has no [break]. *)
Lemma run_endless rounds fuel (c : Config) : yields (Transmit.run rounds fuel c) (λ _, False).
Proof.
  unfold Transmit.run. repeat (apply yields_then; intros ?).
  match goal with |- yields (loop _ ?b _) _ => assert (yields (b tt) (λ r, r = inl tt)) as Hb end.
  { by apply yields_then; intros ?. }
  induction rounds as [|n IH]; cbn [loop]; [done|].
  eapply yields_bind; [exact Hb|]. by intros ? ->.
Qed.

Lemma main_sealed rounds fuel (c : Config) :
  respects (vault_protocol c) (Transmit.main rounds fuel c) closed (λ _ _, False)
    (λ s v', v'.(plain) = None ∧ (s = 1 ∨ s = 101)%Z).
Proof.
  unfold Transmit.main. apply respects_bind, respects_attempt.
  eapply respects_weaken; [apply respects_yields; [apply run_sealed|apply run_endless]| |].
  - by intros [] v [_ []].
  - intros e v Hv. destruct e; cbn; auto.
Qed.

(** C21: Reports are sealed.  In every run of call-home, however it ends or is cut
    short: the plain report is only written to the temporary file, gpg runs on that
    file with the configured key, and a request to the receiver is made only if sending is
    enabled and carries exactly what was read from the output of gpg.  Before each such
    request a report was generated, its serialization was written to the temporary file
    with success, gpg was run on that file with a new output file, that file was read and
    removed, and the removal of the temporary file was tried, in this order and with
    nothing in between but the time of the request.  The removal is also tried before
    every sleep and before every exit of the process; whether it succeeds the program does
    not look at, nor at the exit status of gpg.  The process exits by itself only with a
    failure, the status 1 or that of a panic. *)
Theorem reports_sealed rounds fuel (c : Config) tr o :
  exec (Transmit.main rounds fuel c) tr o →
  (∃ v, accepts (vault_protocol c) closed tr = Some v ∧
    match o with
    | Done _ => False
    | Failed status => v.(plain) = None ∧ (status = 1 ∨ status = 101)%Z
    | _ => True
    end) ∧
  ∀ tr1 p r tr2, tr = (tr1 ++ Ev (S:=ChSig) (SendPost p) r :: tr2)%list → posts c fuel tr1 p.
Proof.
  intros Hx. split; [eapply respects_sound, Hx; apply main_sealed|]. intros tr1 p r tr2 ->. by eapply main_posts.
Qed.

(** C22: The generation of a report does not panic, whatever the services answer or fail to
    answer, as long as their answers amount to fewer than 2^53 pools and volumes. *)
Theorem report_never_panics fuel product id ns version url tr o :
  exec (generate_report fuel product id ns version url) tr o → (total tr < 2 ^ 53)%Z →
  ∀ e, o ≠ Failed e.
Proof.
  intros Hx Ht e ->.
  assert (respects sizes (generate_report fuel product id ns version url) 0%Z (λ _ _, True) (λ _ m, many m)) as Hr.
  { eapply respects_seq; [apply collect_sizes|done|done]. }
  destruct (respects_sound _ _ _ _ _ _ _ Hr Hx) as (m & Hm & Hbad).
  unfold total in Ht. rewrite Hm in Ht. unfold many in Hbad. cbn in *. lia.
Qed.

Lemma collect_logs fuel product id ns version url :
  yields (collect fuel product id ns version url) (λ f, ∀ l, (f l).(logs) = l).
Proof. unfold collect. repeat (apply yields_then; intros ?). destruct a2. by repeat (apply yields_then; intros ?). Qed.

(** The logs of a report are the latest 100 errors: those left in the buffer followed by those
    of the collection itself, in order.  The buffer is empty afterwards, so that no
    error is reported twice. *)
Theorem report_logs_spec {W} (h : handler ChSig W) L fuel product id ns version url w buf report w' tr :
  (length buf ≤ ERR_LOG_BUF_CAPACITY)%nat →
  Prelude.run (with_logs h L) (generate_report fuel product id ns version url) (w, buf) = (Done report, w', tr) →
  report.(logs) = log_string <$> latest ERR_LOG_BUF_CAPACITY
    (buf ++ logs_of h L (collect fuel product id ns version url) (w, buf))%list ∧
  w'.2 = [].
Proof.
  intros Hb. unfold generate_report. rewrite run_bind.
  pose proof (buffer_after h L (collect fuel product id ns version url) (w, buf)) as Hw.
  pose proof (run_exec (with_logs h L) (collect fuel product id ns version url) (w, buf)) as Hx.
  destruct (Prelude.run _ (collect _ _ _ _ _ _) _) as [[[f|e| |] [w1 buf1]] tr1] eqn:E; try done.
  cbn. intros [= <- <- _]. cbn in Hw, Hx. split; [|done].
  rewrite (yields_sound _ _ _ _ (collect_logs _ _ _ _ _ _) Hx). f_equal. apply Hw.
  - eapply uses_weaken; [|apply collect_collecting]. by intros [].
  - unfold latest. by replace (length buf - ERR_LOG_BUF_CAPACITY)%nat with 0%nat by lia.
Qed.

(** All volumes are listed: from a server which pages its volumes, with fuel for
    the pages, the listing ends and returns every volume once, in order. *)
Theorem list_all_volumes_complete {W} (h : handler ChSig W) vols fuel w :
  (length vols + 2 ≤ fuel)%nat →
  result_of (Prelude.run (volume_server h vols) (list_all_volumes fuel) w) = Done vols.
Proof. intros Hf. apply (pages_from h vols fuel 0); lia. Qed.
End Claims.
End CallHomeClaims.
