(* ===== verification/CallHomeFixture.v ===== *)
(** * call-home: concrete instances

    A serialization of the counters, a cluster, and the theorems of call-home at work on
    them. *)

From S2P Require Import Prelude Text JobApi Float64 CallHomeStats StatsServer CallHomeReport CallHomeReportSpec CallHome CallHomeSpec.
From stdpp Require Import base gmap list strings relations countable pretty.
From Stdlib Require Import ZArith Lia Ascii.
Open Scope string_scope.

(** ** The life of the statistics *)
Module StatsFixture.
Import EventsCache StatsApi EventsStore Lifecycle StatsSpec.

(** Positive numbers as strings of binary digits. *)
Fixpoint digits_of (p : positive) : string :=
  match p with
  | xH => ""
  | xO p => String "0" (digits_of p)
  | xI p => String "1" (digits_of p)
  end.
Fixpoint of_digits (s : string) : positive :=
  match s with
  | "" => xH
  | String a s => if decide (a = "0"%char) then xO (of_digits s) else xI (of_digits s)
  end.
Lemma of_digits_of p : of_digits (digits_of p) = p.
Proof.
  induction p; cbn; [rewrite decide_False by done|rewrite decide_True by done|done]; congruence.
Qed.

Definition tuple_of (s : EventSet) : list Z :=
  (λ i, value_of i s) <$> [PoolCreated; PoolDeleted; VolumeCreated; VolumeDeleted; NexusCreated;
                           NexusDeleted; RebuildStarted; RebuildEnded].
Definition of_tuple (l : list Z) : option EventSet :=
  match l with
  | [a; b; c; d; e; f; g; h] => Some (mkEventSet (mkPool a b) (mkVolume c d) (mkNexus e f g h))
  | _ => None
  end.

Definition write_set (s : EventSet) : ext_error + string := inr (digits_of (encode (tuple_of s))).
Definition read_set (t : string) : ext_error + EventSet :=
  match decode (of_digits t) ≫= of_tuple with Some s => inr s | None => inl "bad" end.

Lemma read_write s t : write_set s = inr t → read_set t = inr s.
Proof.
  intros [= <-]. unfold read_set. rewrite of_digits_of, decode_encode. by destruct s as [[] [] []].
Qed.
#[export] Instance demo_json : StatsJson := {
  to_json := write_set; from_json := read_set; json_roundtrip := read_write
}.

Definition m1 : EventMessage := mkEventMessage CategoryPool ActionCreate.
Definition m2 : EventMessage := mkEventMessage CategoryNexus ActionRebuildBegin.

Definition stored (l : list EventMessage) : ConfigMap :=
  mkConfigMap (Some "rel-event-store") (Some {["app" := "event-store"]})
    (Some {["stats" := digits_of (encode (tuple_of (totals l)))]}).

(** A message, a save during which a message arrives that is lost in a crash, a
    restart, a message. *)
Definition life : sys := mkSys (Some (stored [m1])) (Some (totals [m1; m1])) Idle [m1] [] [m1].

Definition boot_trace (s : option ConfigMap) : list (ev StatsSig) :=
  trace_of (run cm_api (initialize "ns" "rel") s).

Lemma life_reachable : rtc (step "ns" "rel") start life.
Proof.
  eapply rtc_l.
  { apply (step_start "ns" "rel" None (stored []) (Some (stored [])) (boot_trace None) (totals []) []);
      by vm_compute. }
  eapply rtc_l; [apply (step_message _ _ _ _ _ _ _ _ m1)|].
  eapply rtc_l; [by eapply (step_take _ _ _ _ _ _ (default ∅ (stored [m1]).(cm_data))); vm_compute|].
  eapply rtc_l; [apply (step_message _ _ _ _ _ _ _ _ m2)|].
  eapply rtc_l; [apply step_patch|].
  eapply rtc_l; [apply step_crash|].
  eapply rtc_l.
  { apply (step_start "ns" "rel" _ (stored [m1]) (Some (stored [m1])) (boot_trace (Some (stored [m1])))
             (totals [m1]) _); by vm_compute. }
  eapply rtc_l; [apply (step_message _ _ _ _ _ _ _ _ m1)|].
  apply (eq_rect_r (λ x, rtc _ x life) (rtc_refl _ life)). by vm_compute.
Qed.

Lemma counters_count_witness :
  rtc (step "ns" "rel") start life ∧ value_of PoolCreated (totals [m1; m1]) = 2%Z.
Proof.
  split; [exact life_reachable|].
  destruct (counters_count "ns" "rel" life life_reachable) as [Hc _].
  rewrite (Hc _ PoolCreated eq_refl). by vm_compute.
Defined.

Lemma store_events_drains_witness :
  world_of (run bus (store_events 3) ([m1; m2], EventSet_default)) = ([], totals [m1; m2]).
Proof. destruct (store_events_drains 3 [m1; m2] EventSet_default) as [_ H]; [cbn; lia|exact H]. Defined.

(** A restart with the config map of that store *)
Definition demo_cli : StatsServer.Cli := StatsServer.mkCli "nats://bus" "ns" "rel" "[::]:9090" 300.
Definition stopped : StatsServerSpec.world := StatsServerSpec.mkWorld (Some (stored [m1])) None [] None.
Abbreviation server_run := (run StatsServerSpec.cluster (StatsServer.main demo_cli) stopped).
Lemma server_start_refines_witness :
  evals StatsServerSpec.cluster (StatsServer.main demo_cli) stopped =
    (Done tt, StatsServerSpec.mkWorld (Some (stored [m1])) (Some (totals [m1]))
                [StatsServerSpec.StoreEvents; StatsServerSpec.UpdateConfigMap "ns" "rel" 300]
                (Some "[::]:9090")) ∧
  accepts (StatsServerSpec.startup demo_cli) StatsServerSpec.Connecting (trace_of server_run) =
    Some StatsServerSpec.Served.
Proof.
  destruct (StatsServerSpec.server_start_refines demo_cli (Some (stored [m1]))) as [Ht Hr].
  split.
  - transitivity (evals StatsServerSpec.cluster (StatsServer.main demo_cli) stopped); [done|].
    cbn zeta in Hr. vm_compute in Hr. vm_compute. exact (proj1 Hr).
  - destruct (Ht _ _ (run_exec StatsServerSpec.cluster (StatsServer.main demo_cli) stopped)) as (g & Hg & Ho).
    rewrite Hg. f_equal. apply (Ho tt). by vm_compute.
Defined.

(** [/stats] in that state, with one line for each counter. *)
Definition line_of (f : EventsCollector.MetricFamily) : string :=
  EventsCollector.family_name f +:+ "{" +:+ EventsCollector.family_action f +:+ "} " +:+
    pretty (EventsCollector.family_value f) +:+ ";".
#[local] Instance lines : StatsServer.Prometheus := {|
  StatsServer.label_ok := λ _ _, true;
  StatsServer.register := inr tt;
  StatsServer.encoded := foldr (λ f t, line_of f +:+ t) ""
|}.
Definition served : StatsServerSpec.world :=
  StatsServerSpec.mkWorld (Some (stored [m1])) (Some (totals [m1; m1]))
    [StatsServerSpec.StoreEvents] (Some "[::]:9090").

Lemma scrape_shows_messages_witness :
  (evals StatsServerSpec.cluster StatsServer.metrics_handlers served).1 =
    Done ("volume{created} 0;volume{deleted} 0;pool{created} 2;pool{deleted} 0;nexus{created} 0;" +:+
          "nexus{deleted} 0;nexus{rebuild_started} 0;nexus{rebuild_ended} 0;").
Proof.
  rewrite (StatsServerSpec.scrape_shows_messages "ns" "rel" life (totals [m1; m1]) served
    life_reachable eq_refl eq_refl); [vm_compute; reflexivity|done].
Defined.
End StatsFixture.

(** ** A report *)
Module ReportFixture.
Import RestModels ReportModels Logs CallHomeApi Collect Transmit LogRuns Sizes Sealing VolumePages.

#[export] Instance demo_crates : CallHomeCrates := {
  parse_scrape _ := inr []; report_to_vec r := inr ("{" +:+ r.(k8s_cluster_id) +:+ "}");
  digest s := "sha256:" +:+ s; to_train_case s := s
}.

Definition sda : BlockDevice :=
  mkBlockDevice "/dev/sda" ["/dev/disk/by-id/a"] "disk" "/devices/pci/a" 2048 None "scsi" (Some false).
Definition sdb1 : BlockDevice :=
  mkBlockDevice "/dev/sdb1" [] "partition" "/devices/pci/b/1" 1024 (Some (mkPartition "sdb" "data1"))
    "scsi" (Some true).
Definition sdb2 : BlockDevice :=
  mkBlockDevice "/dev/sdb2" [] "partition" "/devices/pci/b/2" 1024 (Some (mkPartition "sdb" "data2"))
    "scsi" (Some true).
Definition sdc1 : BlockDevice :=
  mkBlockDevice "/dev/sdc1" [] "partition" "/devices/pci/c/1" 1024 (Some (mkPartition "sdc" "data1"))
    "scsi" (Some true).
Definition demo_pools : list Pool :=
  [mkPool (Some (mkPoolSpec "p1" "n1" ["aio:///dev/sda?uuid=1"])) (Some (mkPoolState "n1" ["/dev/sda"] 1000));
   mkPool (Some (mkPoolSpec "p2" "n1" ["/dev/disk/by-id/a"; "/dev/sdb1"])) None].
Definition demo_volumes : list Volume := [mkVolume 100 1 VsOnline; mkVolume 200 3 VsDegraded].

(** A cluster of one storage node, whose list of Kubernetes nodes cannot be read. *)
Definition demo : handler ChSig unit := λ c w,
  match c return ch_res c * unit with
  | NewK8sClient => (inr tt, w)
  | GetKubeSystemUid => (inr (Some "uid"), w)
  | NewHttpClient => (inr tt, w)
  | BuildUrl _ => (inr tt, w)
  | FetchStats _ => (inl "timeout", w)
  | ListNodes _ _ => (inl "forbidden", w)
  | GetNodes => (inr ["n1"], w)
  | GetNodeBlockDevices _ _ => (inr [sda; sdb1], w)
  | GetPools => (inr demo_pools, w)
  | GetVolumes _ _ => (inr (demo_volumes, None), w)
  | GetReplicas => (inr [mkReplica "p1" 100], w)
  | RetrySleep _ => (tt, w)
  | LogError _ => (tt, w)
  | RemoveTemp _ => (inr tt, w)
  | Sleep _ => (tt, w)
  | TakeLogs => ([], w)
  | NewTempFile _ => (inr "./.tmp1", w)
  | FsWrite _ _ => (inr tt, w)
  | FsRemove _ => (inr tt, w)
  | Sh _ => (inr tt, w)
  | RandomName _ => ("x", w)
  | Now => ("now", w)
  | FsRead _ => (inr "PGP", w)
  | SendPost _ => (inr tt, w)
  end.

Definition demo_config : Config :=
  mkConfig "http://rest" "mayastor" true (Some "http://stats") "./" "./public.gpg" "v2" "Mayastor" "https://receiver".

Abbreviation demo_report := (generate_report 5 "Mayastor" "id" "ns" "v2" (Some "http://stats")).

Lemma report_never_panics_witness :
  result_of (Prelude.run demo demo_report tt) ≠ Failed IndexPanic.
Proof.
  refine (CallHomeClaims.report_never_panics _ _ _ _ _ _ _ _ (run_exec demo demo_report tt) _ IndexPanic).
  by vm_compute.
Defined.

Definition demo_run : prog ChSig Z unit := Transmit.main 1 5 demo_config.
Definition post_position : nat := length (trace_of (Prelude.run demo demo_run tt)) - 2.
Lemma reports_sealed_witness :
  (∃ v, accepts (vault_protocol demo_config) closed (trace_of (Prelude.run demo demo_run tt)) = Some v ∧
    v.(cipher) = Some "PGP") ∧
  CallHomeClaims.posts demo_config 5 (take post_position (trace_of (Prelude.run demo demo_run tt)))
    (mkPost "https://receiver"
       [("CAStor-Cluster-Id", "sha256:uid"); ("CAStor-Version", "v2");
        ("CAStor-Report-Type", "health_report"); ("CAStor-Product", "Mayastor"); ("CAStor-Time", "now");
        ("Content-Type", "text/PGP; charset=binary")] "PGP").
Proof.
  destruct (CallHomeClaims.reports_sealed 1 5 demo_config _ _ (run_exec demo demo_run tt)) as [(v & Hv & _) Hp].
  split; [exists v; split; [exact Hv|]; vm_compute in Hv; by injection Hv as <-|].
  apply (Hp _ _ (inr tt) (drop (S post_position) (trace_of (Prelude.run demo demo_run tt)))).
  symmetry. apply take_drop_middle. vm_compute. reflexivity.
Defined.

Definition demo_logging : ErrorLog unit :=
  mkErrorLog (λ _, "t") (λ _, (Some "main.rs", Some 1%N))
    (λ e _, [("message", match e with StatsError _ => "stats" | _ => "other" end)]).
Definition old_entry : LogEntry := mkLogEntry "t0" "ERROR" "main.rs" 2 "old".

Lemma report_logs_spec_witness :
  ∃ report w' tr,
    Prelude.run (with_logs demo demo_logging) demo_report (tt, [old_entry]) = (Done report, w', tr) ∧
    report.(logs) = ["[t0 ERROR main.rs:2] old"; "[t ERROR main.rs:1] message: stats;";
                     "[t ERROR main.rs:1] message: other;"] ∧
    w'.2 = [].
Proof.
  destruct (Prelude.run (with_logs demo demo_logging) demo_report (tt, [old_entry])) as [[o w'] tr] eqn:E.
  destruct o as [report|e| |]; [|by vm_compute in E..].
  exists report, w', tr. split; [done|].
  destruct (CallHomeClaims.report_logs_spec demo demo_logging _ _ _ _ _ _ _ [old_entry] _ _ _ ltac:(by apply Nat.leb_le) E)
    as [Hl Hw].
  split; [|exact Hw]. rewrite Hl. by vm_compute.
Defined.

Lemma list_all_volumes_complete_witness :
  result_of (Prelude.run (volume_server demo (replicate 1200 (mkVolume 1 1 VsOnline)))
               (list_all_volumes 1202) tt) = Done (replicate 1200 (mkVolume 1 1 VsOnline)).
Proof. apply (CallHomeClaims.list_all_volumes_complete demo). rewrite length_replicate. lia. Defined.

Lemma storage_media_spec_witness :
  StorageMedia_new [sda; sdb1] = StorageMedia_new [sdb1; sda] ∧
  (StorageMedia_new [sda; sdb1]).(media_disk_types) !! "SSD" = Some (mkDiskTypeInfo 1 1048576).
Proof.
  destruct (ReportSpec.storage_media_spec [sda; sdb1] [sdb1; sda]) as (Ht & _ & Hp); [by constructor|].
  split; [exact Hp|]. rewrite Ht. by vm_compute.
Defined.

(** The disk under both pools is counted once; of the partitions, the two of one disk are
    counted twice, and those of two disks with the same name once. *)
Abbreviation nodes_with l := (StorageNodes_new [mkReplica "p1" 100]
  (demo_pools ++ [mkPool (Some (mkPoolSpec "p3" "n1" l)) None])%list
  {["n1" := [sda; sdb1; sdb2; sdc1]; "n2" := []]}).
Lemma storage_nodes_spec_witness :
  nodes_with [] !! "n1" = Some (mkNodeInfo [mkPoolInfo 1 100; mkPoolInfo 0 0; mkPoolInfo 0 0] 2) ∧
  nodes_with ["/dev/sdb2"] !! "n1" = Some (mkNodeInfo [mkPoolInfo 1 100; mkPoolInfo 0 0; mkPoolInfo 0 0] 3) ∧
  nodes_with ["/dev/sdc1"] !! "n1" = Some (mkNodeInfo [mkPoolInfo 1 100; mkPoolInfo 0 0; mkPoolInfo 0 0] 2) ∧
  nodes_with [] !! "n2" = None.
Proof. rewrite !ReportSpec.storage_nodes_spec. by vm_compute. Defined.

Definition demo_events : EventsCache.EventSet :=
  EventsCache.mkEventSet (EventsCache.mkPool 3 1) (EventsCache.mkVolume 7 2) (EventsCache.mkNexus 9 8 5 4).
Lemma stats_reach_report_witness :
  event_data_from (StatsToReport.sample_of <$> EventsCollector.collect (λ _ _, true) demo_events)
  = mkEventData 7 2 3 1 0 0 0 0.
Proof. refine (proj1 (ReportSpec.stats_reach_report demo_events _)). intros []; cbn; unfold EventsCache.U32; lia. Defined.

Lemma percentile_total_witness :
  ∃ v, Math.percentile_exclusive [1; 2; 3; 4; 5; 6; 7]%Z (F64.of_Z 75) = Some (Some v) ∧ v = F64.of_Z 6.
Proof.
  destruct (ReportSpec.percentile_total [1; 2; 3; 4; 5; 6; 7]%Z 75) as [[E _]|(v & Hv & _)]; [done..|].
  exists v. split; [exact Hv|]. vm_compute in Hv. injection Hv as <-. by vm_compute.
Defined.
(** 256 nodes are reported as none. *)
Definition large (n : nat) : handler ChSig unit := λ c w,
  match c return ch_res c * unit with
  | ListNodes _ _ => (inr (n, None), w)
  | c => demo c w
  end.
Example node_count_wraps :
  match result_of (Prelude.run (large 256) demo_report tt) with
  | Done report => report.(k8s_node_count) = Some 0%Z
  | _ => False
  end.
Proof. by vm_compute. Qed.
End ReportFixture.
