(* ===== verification/Tasks.v ===== *)
(** * Concurrent tasks

    Several runs of one program which interleave on a shared world, as the tasks of an
    asynchronous server do: at each step a task issues its next request, or a new task
    starts.  What holds of a single run, whatever the answers ([exec]), is lifted to the
    tasks of a reachable configuration. *)

From S2P Require Import Prelude.
From stdpp Require Import base list.
From Stdlib Require Import Lia.

Section Tasks.
Context {S : Sig} {E A W : Type}.

(** The program of each task, and how the world answers a request. *)
Variables (p0 : prog S E A) (answers : W → ∀ c : op S, res S c → W → Prop).

(** The tasks started so far, with what is left of each, and the world *)
Record config := mkConfig { tasks : list (prog S E A); world : W }.
Inductive label := Spawn | Step (i : nat) (e : ev S).

Inductive step : config → label → config → Prop :=
| step_spawn ts w : step (mkConfig ts w) Spawn (mkConfig (ts ++ [p0]) w)
| step_call ts w i c k r w' :
    ts !! i = Some (Call c k) → answers w c r w' →
    step (mkConfig ts w) (Step i (Ev c r)) (mkConfig (<[i := k r]> ts) w').

(** The runs of a server: the last step first in the induction *)
Inductive reaches (w0 : W) : list label → config → Prop :=
| reaches_start : reaches w0 [] (mkConfig [] w0)
| reaches_step tr cfg l cfg' : reaches w0 tr cfg → step cfg l cfg' → reaches w0 (tr ++ [l]) cfg'.

(** The requests of one task, and the number of tasks started *)
Definition local (i : nat) (tr : list label) : list (ev S) :=
  omap (λ l, match l with Step j e => if decide (i = j) then Some e else None | Spawn => None end) tr.
Definition started (tr : list label) : nat :=
  length (omap (λ l, match l with Spawn => Some tt | Step _ _ => None end) tr).

Lemma local_app i tr tr' : local i (tr ++ tr') = local i tr ++ local i tr'.
Proof. apply omap_app. Qed.
Lemma started_app tr tr' : started (tr ++ tr') = started tr + started tr'.
Proof. unfold started. by rewrite omap_app, length_app. Qed.

(** What is left of a program after some requests *)
Inductive evolves (p : prog S E A) : list (ev S) → prog S E A → Prop :=
| evolves_nil : evolves p [] p
| evolves_snoc tr c k r : evolves p tr (Call c k) → evolves p (tr ++ [Ev c r]) (k r).

Lemma evolves_exec p tr q tr' o : evolves p tr q → exec q tr' o → exec p (tr ++ tr') o.
Proof.
  intros Hp. revert tr' o. induction Hp as [|tr c k r Hp IH]; intros tr' o Hq; [done|].
  rewrite <- app_assoc. apply IH. cbn. right. eauto.
Qed.

(** What a step does to the world *)
Lemma step_world cfg l cfg' : step cfg l cfg' →
  match l with
  | Spawn => cfg'.(world) = cfg.(world)
  | Step i (Ev c r) => answers cfg.(world) c r cfg'.(world)
  end.
Proof. by destruct 1. Qed.

Lemma reaches_length w0 tr cfg : reaches w0 tr cfg → length cfg.(tasks) = started tr.
Proof.
  induction 1 as [|tr cfg l cfg' Hr IH Hs]; [done|]. rewrite started_app, <- IH.
  destruct Hs; cbn; [rewrite length_app|rewrite length_insert]; cbn; lia.
Qed.

(** A task which is not started has no requests. *)
Lemma local_unstarted w0 tr cfg i : reaches w0 tr cfg → length cfg.(tasks) ≤ i → local i tr = [].
Proof.
  induction 1 as [|tr cfg l cfg' Hr IH Hs]; intros Hi; [done|]. rewrite local_app.
  destruct Hs as [ts w|ts w j c k r w' Hj Ha]; cbn in *.
  - rewrite length_app in Hi. cbn in Hi. rewrite IH by lia. done.
  - rewrite length_insert in Hi. rewrite IH by done. rewrite decide_False; [done|].
    intros ->. apply lookup_lt_Some in Hj. lia.
Qed.

(** Each task is a run of the program. *)
Lemma reaches_evolves w0 tr cfg i q :
  reaches w0 tr cfg → cfg.(tasks) !! i = Some q → evolves p0 (local i tr) q.
Proof.
  intros Hr. revert i q. induction Hr as [|tr cfg l cfg' Hr IH Hs]; intros i q Hi; [done|].
  rewrite local_app. destruct Hs as [ts w|ts w j c k r w' Hj Ha]; cbn in *.
  - rewrite app_nil_r. apply lookup_app_Some in Hi as [Hi|[Hlen Hi]]; [by apply IH|].
    apply list_lookup_singleton_Some in Hi as [_ <-].
    rewrite (local_unstarted _ _ _ _ Hr) by done. constructor.
  - destruct (decide (i = j)) as [<-|Hne].
    + rewrite list_lookup_insert_eq in Hi by (by eapply lookup_lt_Some). simplify_eq.
      constructor. by apply IH.
    + rewrite app_nil_r. rewrite list_lookup_insert_ne in Hi by done. by apply IH.
Qed.

Corollary reaches_done w0 tr cfg i a :
  reaches w0 tr cfg → cfg.(tasks) !! i = Some (Ret a) → exec p0 (local i tr) (Done a).
Proof.
  intros Hr Hi. eapply reaches_evolves in Hi; [|done]. rewrite <- (app_nil_r (local i tr)).
  eapply evolves_exec; [done|]. by right.
Qed.
Corollary reaches_cut w0 tr cfg i q :
  reaches w0 tr cfg → cfg.(tasks) !! i = Some q → exec p0 (local i tr) Cut.
Proof.
  intros Hr Hi. eapply reaches_evolves in Hi; [|done]. rewrite <- (app_nil_r (local i tr)).
  eapply evolves_exec; [done|]. destruct q; by left.
Qed.

(** A prefix of a run is a run; what comes next is a step from there. *)
Lemma reaches_split w0 tr1 l tr2 cfg :
  reaches w0 (tr1 ++ l :: tr2) cfg → ∃ cfg1 cfg2, reaches w0 tr1 cfg1 ∧ step cfg1 l cfg2.
Proof.
  intros Hr. remember (tr1 ++ l :: tr2) as tr eqn:Heq. revert tr2 Heq.
  induction Hr as [|tr cfg l' cfg' Hr IH Hs]; intros tr2 Heq; [by destruct tr1|].
  destruct tr2 as [|x tr2 _] using rev_ind.
  - apply app_inj_tail in Heq as [-> ->]. eauto.
  - rewrite app_comm_cons, app_assoc in Heq. apply app_inj_tail in Heq as [-> ->]. by eapply IH.
Qed.

(** A task makes requests only after it was started. *)
Lemma step_started w0 tr1 i e tr2 cfg :
  reaches w0 (tr1 ++ Step i e :: tr2) cfg → i < started tr1.
Proof.
  intros (cfg1 & cfg2 & Hr & Hs)%reaches_split. apply reaches_length in Hr. rewrite <- Hr.
  inversion Hs; subst. by eapply lookup_lt_Some.
Qed.

(** What a task has requested when it makes one more request *)
Lemma step_cut w0 tr1 i e tr2 cfg :
  reaches w0 (tr1 ++ Step i e :: tr2) cfg → exec p0 (local i tr1 ++ [e]) Cut.
Proof.
  intros Hr. pose proof (step_started _ _ _ _ _ _ Hr) as Hi.
  apply reaches_split in Hr as (cfg1 & cfg2 & Hr & Hs).
  assert (reaches w0 (tr1 ++ [Step i e]) cfg2) as Hr2 by (by eapply reaches_step).
  destruct (lookup_lt_is_Some_2 cfg2.(tasks) i) as [q Hq].
  { rewrite (reaches_length _ _ _ Hr2), started_app. lia. }
  apply (reaches_cut _ _ _ _ _ Hr2) in Hq. rewrite local_app in Hq. cbn in Hq.
  by rewrite decide_True in Hq.
Qed.

(** A request of a task is a request of the run. *)
Lemma local_elem i e tr : e ∈ local i tr → Step i e ∈ tr.
Proof.
  unfold local. intros (l & Hl & Hi)%list_elem_of_omap. destruct l as [|j e']; [done|].
  case_decide; by simplify_eq.
Qed.

(** A split of the requests of a task is one of the run. *)
Lemma local_split i tr t1 e t2 :
  local i tr = t1 ++ e :: t2 → ∃ tr1 tr2, tr = tr1 ++ Step i e :: tr2 ∧ local i tr1 = t1 ∧ local i tr2 = t2.
Proof.
  revert t1. induction tr as [|l tr IH]; intros t1 Heq; [by destruct t1|].
  unfold local in Heq; cbn in Heq. fold (local i tr) in Heq.
  assert (∀ t1', local i tr = t1' ++ e :: t2 → local i [l] ++ t1' = t1 →
    ∃ tr1 tr2, l :: tr = tr1 ++ Step i e :: tr2 ∧ local i tr1 = t1 ∧ local i tr2 = t2) as Hcons.
  { intros t1' Ht <-. destruct (IH _ Ht) as (tr1 & tr2 & -> & <- & Hl).
    exists (l :: tr1), tr2. split_and!; [done| |done]. by rewrite <- local_app. }
  destruct l as [|j e']; [by apply (Hcons t1)|]. case_decide as Hj; [subst j|].
  - destruct t1 as [|e1 t1]; cbn in Heq; injection Heq as <- Heq; [by exists [], tr|].
    apply (Hcons t1); [done|]. cbn. by rewrite decide_True.
  - apply (Hcons t1); [done|]. cbn. by rewrite decide_False.
Qed.

(** ** Running a schedule: each entry starts a task or lets one make a request. *)
Variable h : handler S W.
Fixpoint schedule (l : list (option nat)) (cfg : config) : list label * config :=
  match l with
  | [] => ([], cfg)
  | None :: l =>
      let '(tr, cfg') := schedule l (mkConfig (cfg.(tasks) ++ [p0]) cfg.(world)) in (Spawn :: tr, cfg')
  | Some i :: l =>
      match cfg.(tasks) !! i with
      | Some (Call c k) =>
          let '(r, w') := h c cfg.(world) in
          let '(tr, cfg') := schedule l (mkConfig (<[i := k r]> cfg.(tasks)) w') in
          (Step i (Ev c r) :: tr, cfg')
      | _ => schedule l cfg
      end
  end.

Lemma schedule_reaches w0 l tr cfg :
  (∀ c w, answers w c (h c w).1 (h c w).2) → reaches w0 tr cfg →
  reaches w0 (tr ++ (schedule l cfg).1) (schedule l cfg).2.
Proof.
  intros Hh. revert tr cfg. induction l as [|[i|] l IH]; intros tr [ts w] Hr; cbn.
  - by rewrite app_nil_r.
  - destruct (ts !! i) as [[| | |c k]|] eqn:Hi; try by apply IH.
    pose proof (Hh c w) as Ha. destruct (h c w) as [r w'] eqn:Hc.
    specialize (IH (tr ++ [Step i (Ev c r)]) (mkConfig (<[i := k r]> ts) w')).
    destruct (schedule l _) as [tr' cfg']. cbn in *. rewrite <- app_assoc in IH. apply IH.
    eapply reaches_step; [done|]. by constructor.
  - specialize (IH (tr ++ [Spawn]) (mkConfig (ts ++ [p0]) w)).
    destruct (schedule l _) as [tr' cfg']. cbn in *. rewrite <- app_assoc in IH. apply IH.
    eapply reaches_step; [done|]. constructor.
Qed.
End Tasks.
