(* ===== verification/MetricsExporter.v ===== *)
(** * The metrics exporter

    Models [metrics-exporter/src/bin/io_engine]: the gRPC client and its conversions
    ([client/]), the cache ([cache/]), the Prometheus collectors ([collector/]) and the
    handler of [/metrics] ([serve/handler.rs]), with the start of [main.rs]. *)

From S2P Require Import Prelude JobApi Float64.
From stdpp Require Import base gmap list strings.
From Stdlib Require Import ZArith Lia.
Open Scope string_scope.

(** ** [client/]: what the io-engine answers, and what is kept of it *)
Module ExporterClient.

(** [error.rs] *)
Inductive ExporterError :=
| GrpcResponseError (msg : string) | GetNodeError (msg : string) | InvalidURI (msg : string)
| PodIPError (msg : string) | GrpcClientError (msg : string) | HttpServerError (msg : string)
| HttpBindError (msg : string).

(** Messages of the [rpc] crate, the fields which are read. *)
Record RpcPool := mkRpcPool {
  rpc_name : string; rpc_used : Z; rpc_capacity : Z; rpc_state : Z; rpc_committed : Z
}.
Record IoStats := mkIoStats {
  io_name : string; io_bytes_read : Z; io_num_read_ops : Z; io_bytes_written : Z;
  io_num_write_ops : Z; read_latency_ticks : Z; write_latency_ticks : Z; tick_rate : Z
}.
Record RpcReplicaIoStats := mkRpcReplicaIoStats {
  rpc_entity_id : option string; rpc_stats : option IoStats
}.

Record PoolInfo := mkPoolInfo {
  name : string; used : Z; capacity : Z; state : Z; committed : Z
}.
(** [PoolIoStat], and what [NexusIoStat] and [ReplicaIoStat] share with it *)
Record IoStat := mkIoStat {
  stat_name : string; bytes_read : Z; num_read_ops : Z; bytes_written : Z; num_write_ops : Z;
  read_latency_us : Z; write_latency_us : Z
}.
(** [client/nexus_stat.rs]: the same fields *)
Definition NexusIoStat : Type := IoStat.
Record ReplicaIoStat := mkReplicaIoStat { entity_id : string; replica_stat : IoStat }.

Definition U64 : Z := 2 ^ 64.
Definition U128 : Z := 2 ^ 128.

(** [None] is the panic of a division by zero. *)
Definition ticks_to_time (tick tick_rate : Z) : option Z :=
  if (tick_rate =? 0)%Z then None
  else Some ((((tick * 1000000) `mod` U128) / tick_rate) `mod` U64)%Z.

(** [impl From]; [i32 as u64] *)
Definition PoolInfo_from (value : RpcPool) : PoolInfo :=
  mkPoolInfo value.(rpc_name) value.(rpc_used) value.(rpc_capacity)
    (value.(rpc_state) `mod` U64)%Z value.(rpc_committed).

Definition IoStat_from (value : IoStats) : option IoStat :=
  r ← ticks_to_time value.(read_latency_ticks) value.(tick_rate);
  w ← ticks_to_time value.(write_latency_ticks) value.(tick_rate);
  Some (mkIoStat value.(io_name) value.(io_bytes_read) value.(io_num_read_ops)
          value.(io_bytes_written) value.(io_num_write_ops) r w).

Definition NexusIoStat_from (value : IoStats) : option NexusIoStat := IoStat_from value.

(** [TryFrom]; the outer [None] is a panic *)
Definition ReplicaIoStat_try_from (value : RpcReplicaIoStats)
  : option (ExporterError + ReplicaIoStat) :=
  match value.(rpc_stats) with
  | None => Some (inl (GrpcResponseError "Stats is None for replica stats"))
  | Some stats =>
      match value.(rpc_entity_id) with
      | None => Some (inl (GrpcResponseError "entity_id is not set for replica stat"))
      | Some id => s ← IoStat_from stats; Some (inr (mkReplicaIoStat id s))
      end
  end.

(** The requests.  Locking the cache fails if the lock is poisoned. *)
Record Data := mkData {
  pools : list PoolInfo; pool_stats : list IoStat; nexus_stats : list IoStat;
  replica_stats : list ReplicaIoStat
}.
Inductive slot := Pools | PoolStats | NexusStats | ReplicaStats.
Definition content (s : slot) : Type :=
  match s with
  | Pools => list PoolInfo
  | PoolStats | NexusStats => list IoStat
  | ReplicaStats => list ReplicaIoStat
  end.
Inductive ex_call :=
| EnvPodIp | EnvNodeName | Connect
| ListPools | GetPoolIoStats | GetNexusIoStats | GetReplicaIoStats
(** lock the cache and write one of its fields, or read it *)
| SetCache (s : slot) (v : content s)
| ReadCache
| LogExporter (msg : string)
| ExSleep (seconds : N)
(** the web server: bind its address, serve until it stops *)
| HttpBind (endpoint : string) | HttpServe.
Definition ex_res (c : ex_call) : Type :=
  match c with
  | EnvPodIp => option string
  | EnvNodeName => option string
  | Connect => ext_error + unit
  | ListPools => ext_error + list RpcPool
  | GetPoolIoStats | GetNexusIoStats => ext_error + list IoStats
  | GetReplicaIoStats => ext_error + list RpcReplicaIoStats
  | SetCache _ _ => ext_error + unit
  | ReadCache => ext_error + Data
  | LogExporter _ | ExSleep _ => unit
  | HttpBind _ | HttpServe => ext_error + unit
  end.
Definition ExSig : Sig := MkSig ex_call ex_res.
Definition ask {E} (c : ex_call) : prog ExSig E (ex_res c) := call (S:=ExSig) c.

(** What ends a function: an error value, or a panic. *)
Inductive fault := Err (e : ExporterError) | Panic.
Definition no_panic {A} (o : option A) : prog ExSig fault A := ok_or Panic o.

(** [collect] of converted elements *)
Definition convert_all {A B} (f : A → option B) (l : list A) : prog ExSig fault (list B) :=
  no_panic (mapM f l).

Definition grpc {A} (r : ext_error + A) : prog ExSig fault A := lift (λ e, Err (GrpcResponseError e)) r.

(** [client_v1] succeeds on a client which [new] made. *)
Definition list_pools : prog ExSig fault (list PoolInfo) :=
  let! r := ask ListPools in
  let! ps := grpc r in
  Ret (PoolInfo_from <$> ps).
Definition get_pool_iostat : prog ExSig fault (list IoStat) :=
  let! r := ask GetPoolIoStats in
  let! stats := grpc r in
  convert_all IoStat_from stats.
Definition get_nexus_iostat : prog ExSig fault (list NexusIoStat) :=
  let! r := ask GetNexusIoStats in
  let! stats := grpc r in
  convert_all NexusIoStat_from stats.
(** [filter_map(.. .ok())] *)
Definition get_replica_iostat : prog ExSig fault (list ReplicaIoStat) :=
  let! r := ask GetReplicaIoStats in
  let! stats := grpc r in
  let! rs := convert_all ReplicaIoStat_try_from stats in
  Ret (omap (λ r, match r with inr s => Some s | inl _ => None end) rs).

Definition SILENT_RETRIES : Z := 3.
(** [GrpcClient::new] *)
Definition GrpcClient_new (fuel : nat) : prog ExSig fault unit :=
  loop fuel (λ num_retires : Z,
    let! r := ask Connect in
    match r with
    | inr _ => Ret (inr tt)
    | inl _ =>
        do! (if (SILENT_RETRIES <? num_retires)%Z
             then ask (LogExporter "Grpc connection timeout, retrying after 10s") else Ret tt) in
        do! ask (ExSleep 10) in
        Ret (inl (num_retires + 1)%Z)
    end) 0%Z.

Section Init.
(** [str::parse::<IpAddr>], and [Uri::builder] on the socket address *)
Variables (parse_ip : string → bool) (uri_ok : string → ext_error + unit).

Definition get_pod_ip : prog ExSig fault string :=
  let! ip := ask EnvPodIp in
  match ip with
  | None => Throw (Err (PodIPError "Unable to get pod ip"))
  | Some ip => if parse_ip ip then Ret ip else Throw (Err (PodIPError "Invalid pod ip"))
  end.
Definition get_node_name : prog ExSig fault string :=
  let! n := ask EnvNodeName in
  ok_or (Err (GetNodeError "Unable to get node name")) n.

Definition init_client (fuel : nat) : prog ExSig fault unit :=
  let! pod_ip := get_pod_ip in
  do! get_node_name in
  do! lift (λ e, Err (InvalidURI e)) (uri_ok pod_ip) in
  GrpcClient_new fuel.

(** [main] of [main.rs]; what the server answers is [metrics_handler] below, on the cache
    which [initialize_cache] sets to [Data_new]. *)
Definition main (metrics_endpoint : string) (fuel : nat) : prog ExSig fault unit :=
  do! init_client fuel in
  let! r := ask (HttpBind metrics_endpoint) in
  do! lift (λ _, Err (HttpBindError "Failed to bind endpoint to http server")) r in
  let! r := ask HttpServe in
  lift (λ _, Err (HttpServerError "Failed to start http Service")) r.
End Init.
End ExporterClient.

(** ** [cache/] *)
Module ExporterCache.
Import ExporterClient.

(** [Data::new] *)
Definition Data_new : Data := mkData [] [] [] [].

(** [set] *)
Definition set_slot (d : Data) (s : slot) : content s → Data :=
  match s return content s → Data with
  | Pools => λ v, mkData v d.(pool_stats) d.(nexus_stats) d.(replica_stats)
  | PoolStats => λ v, mkData d.(pools) v d.(nexus_stats) d.(replica_stats)
  | NexusStats => λ v, mkData d.(pools) d.(pool_stats) v d.(replica_stats)
  | ReplicaStats => λ v, mkData d.(pools) d.(pool_stats) d.(nexus_stats) v
  end.
(** What [invalidate] sets *)
Definition empty (s : slot) : content s :=
  match s return content s with
  | Pools => [] | PoolStats => [] | NexusStats => [] | ReplicaStats => []
  end.

(** [store_pool_info_data] and its like: the answer goes to the cache, an error
    invalidates it; a panic of the conversion goes through. *)
Definition store (s : slot) (fetch : prog ExSig fault (content s)) (msg : string)
  : prog ExSig fault unit :=
  let! r := attempt fetch in
  match r with
  | inl Panic => Throw Panic
  | inr v =>
      let! r := ask (SetCache s v) in
      match r with
      | inl _ => ask (LogExporter "Error while getting cache resource")
      | inr _ => Ret tt
      end
  | inl (Err _) =>
      let! r := ask (SetCache s (empty s)) in
      match r with
      | inl _ => ask (LogExporter "Error while getting cache resource")
      | inr _ => ask (LogExporter msg)
      end
  end.

Definition store_pool_info_data : prog ExSig fault unit :=
  store Pools list_pools "Error getting pools data, invalidating pools cache".
Definition store_pool_stats_data : prog ExSig fault unit :=
  store PoolStats get_pool_iostat "Error getting pools data, invalidating pools cache".
Definition store_nexus_stats_data : prog ExSig fault unit :=
  store NexusStats get_nexus_iostat "Error getting nexus stats data, invalidating nexus stats cache".
Definition store_replica_stats_data : prog ExSig fault unit :=
  store ReplicaStats get_replica_iostat "Error getting replica stats data, invalidating replica cache".

(** The results are ignored. *)
Definition store_resource_data : prog ExSig fault unit :=
  do! store_pool_info_data in
  do! store_pool_stats_data in
  do! store_nexus_stats_data in
  store_replica_stats_data.
End ExporterCache.

(** ** [collector/] *)
Module Collectors.
Import F64 ExporterClient.

Record Gauge := mkGauge { subsystem : string; metric : string; desc : string }.
Record Family := mkFamily { gauge : Gauge; labels : list (string * string); value : f64 }.

(** [init_diskpool_gauge_vec], [init_volume_gauge_vec], [init_replica_gauge_vec] *)
Definition diskpool (metric desc : string) : Gauge := mkGauge "diskpool" metric desc.
Definition volume (metric desc : string) : Gauge := mkGauge "volume" metric desc.
Definition replica (metric desc : string) : Gauge := mkGauge "replica" metric desc.
Definition diskpool_labels (node name : string) : list (string * string) :=
  [("node", node); ("name", name)].
Definition volume_labels (node pv_name : string) : list (string * string) :=
  [("node", node); ("pv_name", pv_name)].
Definition replica_labels (node name pv_name : string) : list (string * string) :=
  [("node", node); ("name", name); ("pv_name", pv_name)].

(** The metrics of each collector, with the field each shows *)
Definition pool_capacity_gauges : list (Gauge * (PoolInfo → Z)) :=
  [(diskpool "total_size_bytes" "Total size of the pool in bytes", capacity);
   (diskpool "used_size_bytes" "Used size of the pool in bytes", used);
   (diskpool "committed_size_bytes" "Committed size of the pool in bytes", committed)].
Definition pool_status_gauges : list (Gauge * (PoolInfo → Z)) :=
  [(diskpool "status" "Status of the pool", state)].
Definition io_gauges (mk : string → string → Gauge) (from what : string)
  : list (Gauge * (IoStat → Z)) :=
  [(mk "bytes_read" ("Total bytes read " +:+ from +:+ " the " +:+ what), bytes_read);
   (mk "num_read_ops" ("Number of read operations on the " +:+ what), num_read_ops);
   (mk "bytes_written" ("Total bytes written on the " +:+ what), bytes_written);
   (mk "num_write_ops" ("Number of write operations on the " +:+ what), num_write_ops);
   (mk "read_latency_us" ("Total read latency on the " +:+ what +:+ " in usec"), read_latency_us);
   (mk "write_latency_us" ("Total write latency on the " +:+ what +:+ " in usec"), write_latency_us)].
Definition pool_io_gauges : list (Gauge * (IoStat → Z)) := io_gauges diskpool "on" "pool".
Definition nexus_io_gauges : list (Gauge * (IoStat → Z)) := io_gauges volume "from" "volume".
Definition replica_io_gauges : list (Gauge * (IoStat → Z)) := io_gauges replica "on" "replica".

(** [Registry] of the prometheus crate, created anew for each request: a collector whose
    descriptors have names not seen before is registered. *)
Definition full_name (g : Gauge) : string := g.(subsystem) +:+ "_" +:+ g.(metric).
Class Registry := {
  register : list Gauge → list Gauge → bool;
  register_new reg descs :
    NoDup (full_name <$> descs) → (∀ g g', g ∈ descs → g' ∈ reg → full_name g ≠ full_name g') →
    register reg descs = true
}.

Section Collect.
(** Whether [get_metric_with_label_values] has a gauge for the labels. *)
Variable label_ok : Gauge → list (string * string) → bool.

(** The loops end at the first label error, with what there is. *)
Fixpoint emit (l : list Family) : list Family :=
  match l with
  | [] => []
  | f :: l => if label_ok f.(gauge) f.(labels) then f :: emit l else []
  end.

(** The families of one object *)
Definition families {A} (gauges : list (Gauge * (A → Z))) (ls : list (string * string)) (a : A)
  : list Family :=
  (λ gf, mkFamily gf.1 ls (of_Z (gf.2 a))) <$> gauges.

(** [collect]: from the cache and the name of the node *)
Definition with_cache (f : string → Data → list Family) : prog ExSig fault (list Family) :=
  let! r := ask ReadCache in
  match r with
  | inl _ => do! ask (LogExporter "Error while getting cache resource") in Ret []
  | inr data =>
      let! n := attempt (E':=fault) get_node_name in
      match n with
      | inl _ => do! ask (LogExporter "Unable to get node name") in Ret []
      | inr node => Ret (emit (f node data))
      end
  end.

Definition pool_capacity (node : string) (d : Data) : list Family :=
  d.(pools) ≫= λ p, families pool_capacity_gauges (diskpool_labels node p.(name)) p.
Definition pool_status (node : string) (d : Data) : list Family :=
  d.(pools) ≫= λ p, families pool_status_gauges (diskpool_labels node p.(name)) p.
Definition pool_io (node : string) (d : Data) : list Family :=
  d.(pool_stats) ≫= λ s, families pool_io_gauges (diskpool_labels node s.(stat_name)) s.
Definition nexus_io (node : string) (d : Data) : list Family :=
  d.(nexus_stats) ≫= λ s, families nexus_io_gauges (volume_labels node ("pvc-" +:+ s.(stat_name))) s.
Definition replica_io (node : string) (d : Data) : list Family :=
  d.(replica_stats) ≫= λ r,
    families replica_io_gauges
      (replica_labels node r.(replica_stat).(stat_name) ("pvc-" +:+ r.(entity_id))) r.(replica_stat).

Definition PoolCapacityCollector_collect : prog ExSig fault (list Family) := with_cache pool_capacity.
Definition PoolStatusCollector_collect : prog ExSig fault (list Family) := with_cache pool_status.
Definition PoolIoStatsCollector_collect : prog ExSig fault (list Family) := with_cache pool_io.
Definition NexusIoStatsCollector_collect : prog ExSig fault (list Family) := with_cache nexus_io.
Definition ReplicaIoStatsCollector_collect : prog ExSig fault (list Family) := with_cache replica_io.

(** The collectors with the descriptors which each registers *)
Definition collectors : list (list Gauge * prog ExSig fault (list Family)) :=
  [(fst <$> pool_capacity_gauges, PoolCapacityCollector_collect);
   (fst <$> pool_status_gauges, PoolStatusCollector_collect);
   (fst <$> pool_io_gauges, PoolIoStatsCollector_collect);
   (fst <$> nexus_io_gauges, NexusIoStatsCollector_collect);
   (fst <$> replica_io_gauges, ReplicaIoStatsCollector_collect)].

Context `{Registry}.

(** [metrics_handler]: register the collectors, then gather from those registered *)
Fixpoint register_all (reg : list Gauge) (cs : list (list Gauge * prog ExSig fault (list Family)))
  : prog ExSig fault (list (prog ExSig fault (list Family))) :=
  match cs with
  | [] => Ret []
  | (descs, collect) :: cs =>
      if register reg descs
      then let! rest := register_all (reg ++ descs)%list cs in Ret (collect :: rest)
      else do! ask (LogExporter "collector already registered") in register_all reg cs
  end.
Definition gather (cs : list (prog ExSig fault (list Family))) : prog ExSig fault (list Family) :=
  foldM (λ acc collect, let! fs := collect in Ret (acc ++ fs)%list) cs [].
Definition metrics_handler : prog ExSig fault (list Family) :=
  do! ExporterCache.store_resource_data in
  let! registered := register_all [] collectors in
  gather registered.
End Collect.
End Collectors.
