(* ===== verification/MetricsExporterSpec.v ===== *)
(** * What the metrics exporter shows

    A request is answered from what the io-engine answers to it, not from an earlier
    one; the latencies are exact, within their width. *)

From S2P Require Import Prelude JobApi Float64 MetricsExporter.
From stdpp Require Import base gmap list strings.
From Stdlib Require Import ZArith Lia.
Open Scope string_scope.

Module ExporterSpec.
Import F64 ExporterClient ExporterCache Collectors.

(** ** The io-engine and the environment of one request *)
Record Engine := mkEngine {
  node_name : option string;
  listed_pools : ext_error + list RpcPool;
  listed_pool_stats : ext_error + list IoStats;
  listed_nexus_stats : ext_error + list IoStats;
  listed_replica_stats : ext_error + list RpcReplicaIoStats
}.

(** The state is the cache, which nobody else locks. *)
Definition engine (e : Engine) : handler ExSig Data := λ c d,
  match c return ex_res c * Data with
  | EnvPodIp => (Some "10.0.0.1", d)
  | EnvNodeName => (e.(node_name), d)
  | Connect => (inr tt, d)
  | ListPools => (e.(listed_pools), d)
  | GetPoolIoStats => (e.(listed_pool_stats), d)
  | GetNexusIoStats => (e.(listed_nexus_stats), d)
  | GetReplicaIoStats => (e.(listed_replica_stats), d)
  | SetCache s v => (inr tt, set_slot d s v)
  | ReadCache => (inr d, d)
  | LogExporter _ | ExSleep _ => (tt, d)
  | HttpBind _ | HttpServe => (inr tt, d)
  end.

Definition is_u64 (z : Z) : Prop := (0 ≤ z < U64)%Z.
Definition answer {A} (r : ext_error + list A) : list A :=
  match r with inl _ => [] | inr l => l end.

(** ** Widths *)
(** The product of a tick and a million fits [u128], so only the last cast can lose. *)
Lemma ticks_to_time_spec tick rate :
  is_u64 tick → ticks_to_time tick rate =
    if decide (rate = 0)%Z then None else Some ((tick * 1000000 / rate) `mod` U64)%Z.
Proof.
  intros Ht. unfold ticks_to_time. destruct (Z.eqb_spec rate 0); case_decide; try done.
  unfold is_u64, U64, U128 in *. rewrite (Z.mod_small (tick * 1000000)); [done|lia].
Qed.

(** C38: The latencies of an I/O statistic are the ticks in microseconds, rounded down,
    and fit [u64], for every rate of a megahertz or more and all ticks; the conversion
    of a statistic panics exactly when its tick rate is zero. *)
Theorem latency_bounds (s : IoStats) :
  is_u64 s.(read_latency_ticks) → is_u64 s.(write_latency_ticks) → is_u64 s.(tick_rate) →
  (IoStat_from s = None ↔ s.(tick_rate) = 0%Z) ∧
  ((1000000 ≤ s.(tick_rate))%Z → ∃ st, IoStat_from s = Some st ∧
    (st.(read_latency_us) * s.(tick_rate) ≤ s.(read_latency_ticks) * 1000000
       < (st.(read_latency_us) + 1) * s.(tick_rate))%Z ∧
    (st.(write_latency_us) * s.(tick_rate) ≤ s.(write_latency_ticks) * 1000000
       < (st.(write_latency_us) + 1) * s.(tick_rate))%Z ∧
    is_u64 st.(read_latency_us) ∧ is_u64 st.(write_latency_us)).
Proof.
  intros Hr Hw Ht. unfold IoStat_from. rewrite !ticks_to_time_spec by done.
  destruct (decide (tick_rate s = 0%Z)) as [H0|H0]; cbn; split; try (intros; lia).
  - done.
  - done.
  - intros Hm. eexists; split; [done|]. cbn.
    assert (∀ t, is_u64 t → let q := ((t * 1000000 / tick_rate s) `mod` U64)%Z in
      (q * tick_rate s ≤ t * 1000000 < (q + 1) * tick_rate s)%Z ∧ is_u64 q) as Hq.
    { intros t [Ht0 Ht1]. cbn.
      assert (0 ≤ t * 1000000 / tick_rate s ≤ t)%Z.
      { split; [apply Z.div_pos; lia|]. apply Z.div_le_upper_bound; nia. }
      rewrite Z.mod_small by lia.
      pose proof (Z.div_mod (t * 1000000) (tick_rate s) H0).
      pose proof (Z.mod_pos_bound (t * 1000000) (tick_rate s)). unfold is_u64. nia. }
    destruct (Hq _ Hr), (Hq _ Hw). done.
Qed.

(** ** What a request shows *)
Definition rated (s : IoStats) : Prop := s.(tick_rate) ≠ 0%Z ∧
  is_u64 s.(read_latency_ticks) ∧ is_u64 s.(write_latency_ticks).
#[export] Instance rated_dec s : Decision (rated s).
Proof. unfold rated, is_u64. apply _. Defined.

(** The samples of an I/O statistic: name, value *)
Definition io_samples (subsystem : string) (s : IoStats) : list (string * Z) :=
  (λ nv, (subsystem +:+ "_" +:+ nv.1, nv.2)) <$>
  [("bytes_read", s.(io_bytes_read)); ("num_read_ops", s.(io_num_read_ops));
   ("bytes_written", s.(io_bytes_written)); ("num_write_ops", s.(io_num_write_ops));
   ("read_latency_us", (s.(read_latency_ticks) * 1000000 / s.(tick_rate)) `mod` U64);
   ("write_latency_us", (s.(write_latency_ticks) * 1000000 / s.(tick_rate)) `mod` U64)]%Z.
Definition pool_samples (p : RpcPool) : list (string * Z) :=
  [("diskpool_total_size_bytes", p.(rpc_capacity)); ("diskpool_used_size_bytes", p.(rpc_used));
   ("diskpool_committed_size_bytes", p.(rpc_committed));
   ("diskpool_status", p.(rpc_state) `mod` U64)]%Z.

(** [shown e node n ls v]: the metric [n] has the value [v] for the labels [ls]. *)
Inductive shown (e : Engine) (node : string) : string → list (string * string) → f64 → Prop :=
| shown_pool p n v : p ∈ answer e.(listed_pools) → (n, v) ∈ pool_samples p →
    shown e node n [("node", node); ("name", p.(rpc_name))] (of_Z v)
| shown_pool_io s n v : s ∈ answer e.(listed_pool_stats) → (n, v) ∈ io_samples "diskpool" s →
    shown e node n [("node", node); ("name", s.(io_name))] (of_Z v)
| shown_nexus s n v : s ∈ answer e.(listed_nexus_stats) → (n, v) ∈ io_samples "volume" s →
    shown e node n [("node", node); ("pv_name", "pvc-" +:+ s.(io_name))] (of_Z v)
| shown_replica r id s n v : r ∈ answer e.(listed_replica_stats) →
    r.(rpc_entity_id) = Some id → r.(rpc_stats) = Some s → (n, v) ∈ io_samples "replica" s →
    shown e node n [("node", node); ("name", s.(io_name)); ("pv_name", "pvc-" +:+ id)] (of_Z v).

(** ** The fetch *)
Definition stat_of (s : IoStats) : IoStat :=
  mkIoStat s.(io_name) s.(io_bytes_read) s.(io_num_read_ops) s.(io_bytes_written)
    s.(io_num_write_ops) ((s.(read_latency_ticks) * 1000000 / s.(tick_rate)) `mod` U64)%Z
    ((s.(write_latency_ticks) * 1000000 / s.(tick_rate)) `mod` U64)%Z.
Definition replica_of (r : RpcReplicaIoStats) : option ReplicaIoStat :=
  s ← r.(rpc_stats); id ← r.(rpc_entity_id); Some (mkReplicaIoStat id (stat_of s)).
(** What the cache holds after the fetch *)
Definition fetched (e : Engine) : Data :=
  mkData (PoolInfo_from <$> answer e.(listed_pools)) (stat_of <$> answer e.(listed_pool_stats))
    (stat_of <$> answer e.(listed_nexus_stats)) (omap replica_of (answer e.(listed_replica_stats))).

Definition rated_answers (e : Engine) : Prop :=
  Forall rated (answer e.(listed_pool_stats)) ∧ Forall rated (answer e.(listed_nexus_stats)) ∧
  Forall (λ r, match r.(rpc_stats) with Some s => rated s | None => True end)
    (answer e.(listed_replica_stats)).

Lemma IoStat_from_rated s : rated s → IoStat_from s = Some (stat_of s).
Proof.
  intros (H0 & Hr & Hw). unfold IoStat_from.
  rewrite !ticks_to_time_spec by done. by rewrite !decide_False.
Qed.

Lemma mapM_stats l : Forall rated l → mapM IoStat_from l = Some (stat_of <$> l).
Proof.
  induction 1 as [|s l Hs Hl IH]; [done|]. cbn. by rewrite IoStat_from_rated, IH.
Qed.

Lemma mapM_replicas l :
  Forall (λ r, match r.(rpc_stats) with Some s => rated s | None => True end) l →
  ∃ rs, mapM ReplicaIoStat_try_from l = Some rs ∧
    omap (λ r : ExporterError + ReplicaIoStat, match r with inr s => Some s | inl _ => None end) rs
      = omap replica_of l.
Proof.
  induction 1 as [|r l Hr Hl (rs & Hm & Ho)]; [by exists []|]. cbn.
  unfold ReplicaIoStat_try_from, replica_of in *.
  destruct (rpc_stats r) as [s|]; cbn; [destruct (rpc_entity_id r); cbn|].
  - rewrite IoStat_from_rated by done; cbn. rewrite Hm; cbn. eexists; split; [done|]. cbn. by rewrite Ho.
  - rewrite Hm. eexists; split; [done|]. cbn. by rewrite Ho.
  - rewrite Hm. eexists; split; [done|]. cbn. by rewrite Ho.
Qed.

Section Fresh.
Variable e : Engine.
Hypothesis Hrated : rated_answers e.

Lemma evals_store s fetch msg v d :
  (∀ d, evals (engine e) fetch d = (Done v, d)) ∨
  (v = empty s ∧ ∀ d, ∃ er, evals (engine e) fetch d = (Failed (Err er), d)) →
  evals (engine e) (store s fetch msg) d = (Done tt, set_slot d s v).
Proof.
  unfold store, ask. rewrite evals_bind, evals_attempt.
  intros [Hf|[-> Hf]]; [rewrite Hf|destruct (Hf d) as [er ->]]; done.
Qed.

Lemma evals_store_resource_data d :
  evals (engine e) store_resource_data d = (Done tt, fetched e).
Proof.
  destruct Hrated as (Hp & Hn & Hr). unfold store_resource_data.
  destruct (mapM_replicas _ Hr) as (rs & Hm & Ho).
  unfold store_pool_info_data, store_pool_stats_data, store_nexus_stats_data, store_replica_stats_data.
  rewrite evals_bind, (evals_store Pools _ _ (PoolInfo_from <$> answer e.(listed_pools))).
  2: { unfold list_pools, ask. destruct e as [? [] ? ? ?]; [right; split; [done|]; by eexists|by left]. }
  rewrite evals_bind, (evals_store PoolStats _ _ (stat_of <$> answer e.(listed_pool_stats))).
  2: { unfold get_pool_iostat, ask, convert_all. destruct e as [? ? [] ? ?]; cbn in *;
       [right; split; [done|]; by eexists|]. left; intros. unfold evals; cbn. by rewrite mapM_stats. }
  rewrite evals_bind, (evals_store NexusStats _ _ (stat_of <$> answer e.(listed_nexus_stats))).
  2: { unfold get_nexus_iostat, NexusIoStat_from, ask, convert_all. destruct e as [? ? ? [] ?]; cbn in *;
       [right; split; [done|]; by eexists|]. left; intros. unfold evals; cbn. by rewrite mapM_stats. }
  rewrite (evals_store ReplicaStats _ _ (omap replica_of (answer e.(listed_replica_stats)))); [done|].
  unfold get_replica_iostat, ask, convert_all. destruct e as [? ? ? ? []]; cbn in *.
  - right; split; [done|]; by eexists.
  - left; intros. unfold evals; cbn. rewrite Hm. cbn. by rewrite Ho.
Qed.

(** ** The collectors *)
Variable label_ok : Gauge → list (string * string) → bool.
Hypothesis Hlabels : ∀ g ls, label_ok g ls = true.
Variable node : string.
Hypothesis Hnode : e.(node_name) = Some node.

Lemma emit_all l : emit label_ok l = l.
Proof. induction l as [|f l IH]; [done|]. cbn. by rewrite Hlabels, IH. Qed.

Lemma evals_with_cache f d : evals (engine e) (with_cache label_ok f) d = (Done (f node d), d).
Proof.
  unfold with_cache, get_node_name, ask; cbn. rewrite evals_Call; cbn. rewrite evals_Call; cbn.
  rewrite Hnode; cbn. by rewrite emit_all.
Qed.

(** What the five collectors gather from the cache *)
Definition gathered (d : Data) : list Family :=
  (pool_capacity node d ++ pool_status node d ++ pool_io node d ++ nexus_io node d ++
   replica_io node d)%list.

Lemma evals_gather d :
  evals (engine e) (gather ((collectors label_ok).*2)) d = (Done (gathered d), d).
Proof.
  unfold gather, gathered, PoolCapacityCollector_collect, PoolStatusCollector_collect,
    PoolIoStatsCollector_collect, NexusIoStatsCollector_collect, ReplicaIoStatsCollector_collect.
  cbn [collectors fmap list_fmap snd foldM].
  repeat (rewrite evals_bind, evals_bind; unfold PoolCapacityCollector_collect,
    PoolStatusCollector_collect, PoolIoStatsCollector_collect, NexusIoStatsCollector_collect,
    ReplicaIoStatsCollector_collect; rewrite evals_with_cache, evals_ret).
  rewrite evals_ret. by rewrite app_nil_l, <- !app_assoc.
Qed.

Lemma evals_register_all `{Registry} cs reg d :
  NoDup (full_name <$> reg ++ concat cs.*1)%list →
  evals (engine e) (register_all reg cs) d = (Done cs.*2, d).
Proof.
  revert reg; induction cs as [|[descs collect] cs IH]; intros reg Hd; [done|]. cbn in *.
  rewrite (assoc_L (++)%list) in Hd.
  rewrite register_new.
  - by rewrite evals_bind, IH.
  - rewrite !fmap_app in Hd. by apply NoDup_app in Hd as ((_ & _ & ?)%NoDup_app & _ & _).
  - intros g g' Hg Hg' Heq. rewrite !fmap_app in Hd.
    apply NoDup_app in Hd as ((_ & Hd & _)%NoDup_app & _ & _).
    apply (Hd (full_name g)); [rewrite Heq|]; apply list_elem_of_fmap; eauto.
Qed.
End Fresh.

(** The names of the metrics are distinct, so every collector is registered. *)
Lemma names_distinct label_ok : NoDup (full_name <$> concat (collectors label_ok).*1).
Proof. apply (bool_decide_unpack _). vm_compute. exact I. Qed.

(** ** The samples *)
Definition sample (f : Family) : string * list (string * string) * f64 :=
  (full_name f.(gauge), f.(labels), f.(value)).
Definition sampled (ls : list (string * string)) (nv : string * Z) : string * list (string * string) * f64 :=
  (nv.1, ls, of_Z nv.2).

Lemma capacity_status_samples ls p x :
  x ∈ sample <$> families pool_capacity_gauges ls (PoolInfo_from p) ∨
  x ∈ sample <$> families pool_status_gauges ls (PoolInfo_from p) ↔
  x ∈ sampled ls <$> pool_samples p.
Proof.
  rewrite <- elem_of_app.
  replace (_ ++ _)%list with (sampled ls <$> pool_samples p); [done|reflexivity].
Qed.

Lemma io_family_samples sub mk from what ls s :
  (∀ m d, full_name (mk m d) = sub +:+ "_" +:+ m) →
  sample <$> families (io_gauges mk from what) ls (stat_of s) = sampled ls <$> io_samples sub s.
Proof. intros Hn. unfold families, io_gauges, io_samples, sample, sampled. cbn. by rewrite !Hn. Qed.
Lemma sample_bind {A} (g : A → list Family) l x :
  x ∈ sample <$> (l ≫= g) ↔ ∃ a, a ∈ l ∧ x ∈ sample <$> g a.
Proof.
  rewrite list_elem_of_fmap. setoid_rewrite list_elem_of_bind. setoid_rewrite list_elem_of_fmap.
  naive_solver.
Qed.

Lemma sampled_elem ls (l : list (string * Z)) n ls' v :
  (n, ls', v) ∈ sampled ls <$> l ↔ ∃ z, (n, z) ∈ l ∧ ls' = ls ∧ v = of_Z z.
Proof.
  rewrite list_elem_of_fmap. unfold sampled. split.
  - intros ([n' z] & Heq & Hin). cbn in Heq. simplify_eq. eauto.
  - intros (z & Hin & -> & ->). by exists (n, z).
Qed.

Lemma gathered_shown e node n ls v :
  (n, ls, v) ∈ sample <$> gathered node (fetched e) ↔ shown e node n ls v.
Proof.
  unfold gathered, pool_capacity, pool_status, pool_io, nexus_io, replica_io,
    pool_io_gauges, nexus_io_gauges, replica_io_gauges.
  rewrite !fmap_app, !elem_of_app, !sample_bind. cbn [fetched pools pool_stats nexus_stats replica_stats].
  split.
  - intros [(?&(p&->&Hp)%list_elem_of_fmap&Hx)|[(?&(p&->&Hp)%list_elem_of_fmap&Hx)|
      [(?&(s&->&Hs)%list_elem_of_fmap&Hx)|[(?&(s&->&Hs)%list_elem_of_fmap&Hx)|
      (?&(r&Hr&Ho)%list_elem_of_omap&Hx)]]]].
    + eapply or_introl, capacity_status_samples, sampled_elem in Hx as (z & Hz & -> & ->).
      by constructor.
    + eapply or_intror, capacity_status_samples, sampled_elem in Hx as (z & Hz & -> & ->).
      by constructor.
    + erewrite (io_family_samples "diskpool") in Hx by done.
      apply sampled_elem in Hx as (z & Hz & -> & ->). by apply shown_pool_io.
    + erewrite (io_family_samples "volume") in Hx by done.
      apply sampled_elem in Hx as (z & Hz & -> & ->). by apply shown_nexus.
    + unfold replica_of in Ho. destruct (rpc_stats r) as [s|] eqn:Hs; [|done].
      destruct (rpc_entity_id r) as [id|] eqn:Hid; [|done]. cbn in Ho. simplify_eq.
      cbn [replica_stat entity_id] in Hx.
      erewrite (io_family_samples "replica") in Hx by done.
      apply sampled_elem in Hx as (z & Hz & -> & ->). by eapply shown_replica.
  - intros [p n' z Hp Hz|s n' z Hs Hz|s n' z Hs Hz|r id s n' z Hr Hid Hs Hz].
    + assert ((n', [("node", node); ("name", rpc_name p)], of_Z z)
        ∈ sampled [("node", node); ("name", rpc_name p)] <$> pool_samples p) as Hx
        by (apply sampled_elem; eauto).
      apply capacity_status_samples in Hx as [Hx|Hx]; [left|right; left]; exists (PoolInfo_from p);
        (split; [apply list_elem_of_fmap; by eauto|done]).
    + right; right; left. exists (stat_of s). split; [apply list_elem_of_fmap; by eauto|].
      erewrite (io_family_samples "diskpool") by done. apply sampled_elem; eauto.
    + right; right; right; left. exists (stat_of s). split; [apply list_elem_of_fmap; by eauto|].
      erewrite (io_family_samples "volume") by done. apply sampled_elem; eauto.
    + do 4 right. exists (mkReplicaIoStat id (stat_of s)). split.
      * apply list_elem_of_omap. exists r. split; [done|]. unfold replica_of. by rewrite Hs, Hid.
      * cbn [replica_stat entity_id]. erewrite (io_family_samples "replica") by done. apply sampled_elem; eauto.
Qed.

(** C30: A request for the metrics answers from what the io-engine returns to this very
    request: whatever the cache held before, the samples served are those of the pools,
    nexuses and replicas which the engine lists now, with their names, labels and values;
    a resource whose listing fails has no samples, and every collector is registered. *)
Theorem metrics_fresh `{Registry} (label_ok : Gauge → list (string * string) → bool)
    (e : Engine) (node : string) (cached : Data) :
  rated_answers e → e.(node_name) = Some node → (∀ g ls, label_ok g ls = true) →
  ∃ fs, result_of (run (engine e) (metrics_handler label_ok) cached) = Done fs ∧
    ∀ n ls v, (n, ls, v) ∈ sample <$> fs ↔ shown e node n ls v.
Proof.
  intros He Hn Hl. exists (gathered node (fetched e)). split; [|apply gathered_shown].
  eapply evals_result. unfold metrics_handler.
  rewrite evals_bind, evals_store_resource_data by done.
  rewrite evals_bind, evals_register_all by apply names_distinct.
  by rewrite (evals_gather _ _ Hl _ Hn).
Qed.

(** Without a name of the node nothing is shown. *)
Lemma metrics_need_node `{Registry} label_ok e cached :
  rated_answers e → e.(node_name) = None →
  result_of (run (engine e) (metrics_handler label_ok) cached) = Done [].
Proof.
  intros He Hn. eapply evals_result. unfold metrics_handler.
  rewrite evals_bind, evals_store_resource_data by done.
  rewrite evals_bind, evals_register_all by apply names_distinct.
  unfold evals, gather; cbn. do 5 (rewrite Hn; cbn). done.
Qed.

(** ** A concrete engine *)
(** A registry which compares names *)
#[export, program] Instance name_registry : Registry := {
  register reg descs :=
    bool_decide (NoDup (full_name <$> descs)
      ∧ Forall (λ g, Forall (λ g', full_name g ≠ full_name g') reg) descs)
}.
Next Obligation.
  intros reg descs Hd Hn. apply bool_decide_eq_true_2. split; [done|].
  apply Forall_forall; intros g Hg. apply Forall_forall; eauto.
Qed.

Definition demo_io : IoStats := mkIoStats "disk" 4096 1 8192 2 5000000 7000001 2000000.
Definition demo_engine : Engine :=
  mkEngine (Some "node-1") (inr [mkRpcPool "pool-1" 10 100 1 20]) (inr [demo_io])
    (inl "nexus service unavailable") (inr [mkRpcReplicaIoStats (Some "7f") (Some demo_io);
       mkRpcReplicaIoStats None (Some demo_io)]).

Lemma latency_bounds_witness :
  is_u64 demo_io.(read_latency_ticks) ∧ is_u64 demo_io.(write_latency_ticks) ∧
  is_u64 demo_io.(tick_rate) ∧ IoStat_from demo_io = Some (stat_of demo_io) ∧
  (stat_of demo_io).(write_latency_us) = 3500000%Z ∧
  (IoStat_from demo_io = None ↔ demo_io.(tick_rate) = 0%Z).
Proof.
  split; [by vm_compute|]. split; [by vm_compute|]. split; [by vm_compute|].
  split; [reflexivity|]. split; [reflexivity|]. by apply (latency_bounds demo_io).
Defined.

Lemma metrics_fresh_witness :
  rated_answers demo_engine ∧
  ∃ fs, result_of (run (engine demo_engine) (metrics_handler (λ _ _, true)) Data_new) = Done fs ∧
    ∀ n ls v, (n, ls, v) ∈ sample <$> fs ↔ shown demo_engine "node-1" n ls v.
Proof.
  assert (rated demo_io) as Hio by (apply (bool_decide_unpack _); by vm_compute).
  assert (rated_answers demo_engine) as Hd by (unfold rated_answers; cbn; auto).
  split; [done|]. by apply (metrics_fresh (λ _ _, true) demo_engine "node-1" Data_new).
Defined.
End ExporterSpec.
