(* ===== verification/MetricsExporterTasks.v ===== *)
(** * Concurrent scrapes of the metrics exporter

    The handlers of several requests interleave at their requests: they share the cache,
    and one may collect what another has stored.  Whatever the interleaving, a scrape shows
    nothing which was stored before it began. *)

From S2P Require Import Prelude JobApi Float64 Tasks MetricsExporter MetricsExporterSpec.
From stdpp Require Import base gmap list strings.
From Stdlib Require Import ZArith Lia.
Open Scope string_scope.
Open Scope list_scope.

Module ExporterTasks.
Import F64 ExporterClient ExporterCache Collectors ExporterSpec.
Abbreviation event c r := (Ev (S:=ExSig) c r).

#[export] Instance slot_eq_dec : EqDecision slot.
Proof. solve_decision. Defined.

(** ** The content of a slot *)
Definition slot_of (d : Data) (s : slot) : content s :=
  match s return content s with
  | Pools => d.(pools) | PoolStats => d.(pool_stats) | NexusStats => d.(nexus_stats)
  | ReplicaStats => d.(replica_stats)
  end.
Lemma slot_set d s v : slot_of (set_slot d s v) s = v.
Proof. by destruct s. Qed.
Lemma slot_set_ne d s s' v : s ≠ s' → slot_of (set_slot d s v) s' = slot_of d s'.
Proof. by destruct s, s'. Qed.

(** The gauges of what a slot holds *)
Definition slot_families (node : string) (s : slot) : content s → list Family :=
  match s return content s → list Family with
  | Pools => λ v, pool_capacity node (mkData v [] [] []) ++ pool_status node (mkData v [] [] [])
  | PoolStats => λ v, pool_io node (mkData [] v [] [])
  | NexusStats => λ v, nexus_io node (mkData [] [] v [])
  | ReplicaStats => λ v, replica_io node (mkData [] [] [] v)
  end.

(** What the engine was asked for and answered *)
Definition fetch_call (s : slot) : ex_call :=
  match s with
  | Pools => ListPools | PoolStats => GetPoolIoStats | NexusStats => GetNexusIoStats
  | ReplicaStats => GetReplicaIoStats
  end.

(** ** Several handlers on one cache: the requests to the cache are answered from it, all
    others in any way. *)
Inductive answers : Data → ∀ c : op ExSig, res ExSig c → Data → Prop :=
| answers_set d s v : answers d (SetCache s v) (inr tt) (set_slot d s v)
| answers_read d : answers d ReadCache (inr d) d
| answers_other d c r : (match c with SetCache _ _ | ReadCache => False | _ => True end) → answers d c r d.

Lemma answers_cache d c r d' : answers d c r d' →
  match c return res ExSig c → Prop with
  | ReadCache => λ r, r = inr d
  | SetCache s v => λ r, r = inr tt ∧ d' = set_slot d s v
  | _ => λ _, True
  end r.
Proof. destruct 1; try done. by destruct c. Qed.

(** The content which a fetch turns an answer into: nothing, if the call failed. *)
Definition converted (s : slot) : ex_res (fetch_call s) → content s → Prop :=
  match s return ex_res (fetch_call s) → content s → Prop with
  | Pools => λ r v, v = PoolInfo_from <$> answer r
  | PoolStats => λ r v, mapM IoStat_from (answer r) = Some v
  | NexusStats => λ r v, mapM NexusIoStat_from (answer r) = Some v
  | ReplicaStats => λ r v, ∃ rs, mapM ReplicaIoStat_try_from (answer r) = Some rs ∧
      v = omap (λ r, match r with inr s => Some s | inl _ => None end) rs
  end.

(** ** One handler *)

(** Requests which do not write the cache, and those which do not read it *)
Definition writeless (c : op ExSig) : bool := match c with SetCache _ _ => false | _ => true end.
Definition readless (c : op ExSig) : bool := match c with ReadCache => false | _ => true end.

(** Each write of the cache directly follows the call whose answer it writes. *)
Inductive writes_answers : list (ev ExSig) → Prop :=
| writes_nil : writes_answers []
| writes_other c r tr : writeless c = true → writes_answers tr → writes_answers (event c r :: tr)
| writes_answer s r v x tr : converted s r v → writes_answers tr →
    writes_answers (event (fetch_call s) r :: event (SetCache s v) x :: tr).

Lemma writes_answers_app tr tr' : writes_answers tr → writes_answers tr' → writes_answers (tr ++ tr').
Proof. induction 1; cbn; [done|by constructor; auto..]. Qed.

(** The write of an event, if it is one *)
Definition write_of (e : ev ExSig) : option { s : slot & content s } :=
  match e with Ev (SetCache s v) _ => Some (existT s v) | _ => None end.
Lemma write_inj s v s' v' : Some (existT (P:=content) s v) = Some (existT s' v') → existT (P:=content) s v = existT s' v'.
Proof. by intros [=]. Qed.

Lemma writes_answers_split t1 s v x t2 :
  writes_answers (t1 ++ event (SetCache s v) x :: t2) →
  ∃ t0 r, t1 = t0 ++ [event (fetch_call s) r] ∧ converted s r v.
Proof.
  intros Hw. remember (t1 ++ _) as tr eqn:Heq. revert t1 Heq.
  induction Hw as [|c r tr Hc Hw IH|s' r' v' x' tr Hc Hw IH]; intros t1 Heq.
  - by destruct t1.
  - pose proof (f_equal (λ l, head l ≫= write_of) Heq) as He. pose proof (f_equal tail Heq) as Ht.
    destruct t1 as [|e t1]; cbn in He, Ht; [by destruct c|].
    destruct (IH _ Ht) as (t0 & r0 & -> & ?). by exists (e :: t0), r0.
  - pose proof (f_equal (λ l, head l ≫= write_of) Heq) as He.
    pose proof (f_equal head Heq) as Hh.
    pose proof (f_equal (λ l, head (tail l) ≫= write_of) Heq) as He'.
    pose proof (f_equal (λ l, tail (tail l)) Heq) as Ht.
    destruct t1 as [|e [|e' t1]]; cbn in He, Hh, He', Ht; [by destruct s'| |].
    + apply write_inj, eq_sigT_sig_eq in He' as [<- He']. cbn in He'. subst v'.
      exists [], r'. split; [|exact Hc]. cbn. congruence.
    + destruct (IH _ Ht) as (t0 & r0 & -> & ?). by exists (e :: e' :: t0), r0.
Qed.

Lemma writeless_answers {E A} (p : prog ExSig E A) tr o : uses writeless p → exec p tr o → writes_answers tr.
Proof.
  intros Hp Hx. eapply uses_sound in Hx; [|done]. induction Hx as [|[c r] tr]; by constructor.
Qed.

Lemma writes_answers_bind {E A B} (p : prog ExSig E A) (f : A → prog ExSig E B) tr o :
  (∀ tr o, exec p tr o → writes_answers tr) → (∀ a tr o, exec (f a) tr o → writes_answers tr) →
  exec (bind f p) tr o → writes_answers tr.
Proof.
  intros Hp Hf Hx. apply exec_bind_inv in Hx as [(a & t1 & t2 & H1 & H2 & ->)|[(e & Hx & _)|[[Hx _]|[Hx _]]]];
    [apply writes_answers_app|..]; eauto.
Qed.

(** A fetch makes one call; it returns the answer converted, and when it fails with an
    error, nothing is what is stored. *)
Definition fetches (s : slot) (fetch : prog ExSig fault (content s)) : Prop :=
  uses writeless fetch ∧ uses readless fetch ∧ ∀ tr o, exec fetch tr o →
  match o with
  | Done v => ∃ r, tr = [event (fetch_call s) r] ∧ converted s r v
  | Failed (Err _) => ∃ r, tr = [event (fetch_call s) r] ∧ converted s r (empty s)
  | _ => True
  end.

(** What a store does with the fetched content *)
Lemma exec_set s r v msg tr o :
  converted s r v →
  exec (let! x := ask (SetCache s v) in
        match x with inl _ => ask (LogExporter "Error while getting cache resource") | inr _ => msg end) tr o →
  uses writeless (E:=fault) msg →
  writes_answers (event (fetch_call s) r :: tr) ∧
  (o = Done tt → ∃ x, event (SetCache s v) x ∈ event (fetch_call s) r :: tr).
Proof.
  intros Hc Hx Hm. cbn in Hx. destruct Hx as [[-> ->]|(x & tr' & -> & Hx)].
  - split; [|done]. apply writes_other; [by destruct s|constructor].
  - split; [|intros _; exists x; set_solver]. constructor; [done|].
    destruct x; (eapply writeless_answers; [|exact Hx]); done.
Qed.

Lemma exec_store s fetch msg tr o :
  fetches s fetch → exec (store s fetch msg) tr o →
  writes_answers tr ∧ (o = Done tt → ∃ v x, event (SetCache s v) x ∈ tr).
Proof.
  intros (Hw & _ & Hf) Hx. unfold store in Hx.
  apply exec_bind_inv in Hx as [(a & t1 & t2 & H1 & H2 & ->)|[(e & Hx & ->)|[[Hx ->]|[Hx ->]]]].
  - apply exec_attempt_inv in H1. destruct a as [[e|]|v]; cbn in H1.
    + destruct (Hf _ _ H1) as (r & -> & Hc). apply (exec_set s r) in H2 as [Hwr Hs]; [|done..].
      split; [done|]. intros Ho. destruct (Hs Ho) as [x Hin]. eauto.
    + destruct H2 as [[-> ->]|[-> ->]]; rewrite app_nil_r;
        (split; [by eapply writeless_answers|done]).
    + destruct (Hf _ _ H1) as (r & -> & Hc). apply (exec_set s r) in H2 as [Hwr Hs]; [|done..].
      split; [done|]. intros Ho. destruct (Hs Ho) as [x Hin]. eauto.
  - by apply exec_attempt_inv in Hx.
  - apply exec_attempt_inv in Hx. split; [by eapply writeless_answers|done].
  - apply exec_attempt_inv in Hx. split; [by eapply writeless_answers|done].
Qed.

(** *** The four stores *)
Ltac solve_fetches get :=
  unfold get, convert_all, no_panic, grpc; split_and!;
    [by (apply uses_bind; [done|intros; solve_uses])..|];
  let tr := fresh "tr" in let o := fresh "o" in let Hx := fresh "Hx" in
  intros tr o Hx; cbn in Hx;
  destruct Hx as [[-> ->]|(r & tr' & -> & Hx)]; [done|];
  destruct r as [e|l]; cbn in Hx; [destruct Hx as [[-> ->]|[-> ->]]; [done|]; eexists; (split; [done|]);
    (done || (eexists; by split))|].

Lemma fetches_pools : fetches Pools list_pools.
Proof. solve_fetches list_pools. destruct Hx as [[-> ->]|[-> ->]]; [done|by eexists]. Qed.
Lemma fetches_pool_stats : fetches PoolStats get_pool_iostat.
Proof.
  solve_fetches get_pool_iostat.
  destruct (mapM _ l) eqn:Hm; cbn in Hx; destruct Hx as [[-> ->]|[-> ->]]; try done. by eexists.
Qed.
Lemma fetches_nexus_stats : fetches NexusStats get_nexus_iostat.
Proof.
  solve_fetches get_nexus_iostat.
  destruct (mapM _ l) eqn:Hm; cbn in Hx; destruct Hx as [[-> ->]|[-> ->]]; try done. by eexists.
Qed.
Lemma fetches_replica_stats : fetches ReplicaStats get_replica_iostat.
Proof.
  solve_fetches get_replica_iostat.
  destruct (mapM _ l) eqn:Hm; cbn in Hx; destruct Hx as [[-> ->]|[-> ->]]; try done.
  eexists. split; [done|]. by eexists.
Qed.

Lemma stores_readless s fetch msg : fetches s fetch → uses readless (store s fetch msg).
Proof.
  intros (_ & Hr & _). unfold store. apply uses_bind; [by apply uses_attempt|].
  intros [[e|]|v]; cbn; (split; [done|by intros []]) || done.
Qed.

(** The whole fetch of the data writes every slot. *)
Lemma exec_store_resource_data tr o :
  exec store_resource_data tr o →
  writes_answers tr ∧ (o = Done tt → ∀ s, ∃ v x, event (SetCache s v) x ∈ tr).
Proof.
  assert (∀ s fetch msg, fetches s fetch → ∀ tr o, exec (store s fetch msg) tr o → writes_answers tr) as Hw
    by (intros ? ? ? Hf ? ? Hx; apply (exec_store _ _ _ _ _ Hf Hx)).
  pose proof fetches_pools. pose proof fetches_pool_stats. pose proof fetches_nexus_stats.
  pose proof fetches_replica_stats.
  intros Hx. split.
  - eapply writes_answers_bind; [| |exact Hx]; [by eapply Hw|]. intros u1 tr1 o1 Hx1.
    eapply writes_answers_bind; [| |exact Hx1]; [by eapply Hw|]. intros u2 tr2 o2 Hx2.
    eapply writes_answers_bind; [| |exact Hx2]; [by eapply Hw|]. intros u3 tr3 o3 Hx3. by eapply Hw.
  - intros -> s. unfold store_resource_data in Hx. done_inv.
    repeat match goal with
    | u : unit |- _ => destruct u
    | H : exec (store_pool_info_data) _ _ |- _ => apply (exec_store Pools) in H as [_ H]; [|done]
    | H : exec (store_pool_stats_data) _ _ |- _ => apply (exec_store PoolStats) in H as [_ H]; [|done]
    | H : exec (store_nexus_stats_data) _ _ |- _ => apply (exec_store NexusStats) in H as [_ H]; [|done]
    | H : exec (store_replica_stats_data) _ _ |- _ => apply (exec_store ReplicaStats) in H as [_ H]; [|done]
    end.
    destruct s; match goal with
    | H : Done tt = Done tt → ∃ v x, event (SetCache ?s v) x ∈ _ |- ∃ v x, event (SetCache ?s v) x ∈ _ =>
        destruct (H eq_refl) as (v & x & Hin); exists v, x
    end; rewrite !elem_of_app; tauto.
Qed.

(** *** The collectors *)
Section Handler.
Context `{Registry} (label_ok : Gauge → list (string * string) → bool).

Lemma emit_subset l f : f ∈ emit label_ok l → f ∈ l.
Proof. induction l as [|g l IH]; cbn; [done|]. case_match; set_solver. Qed.

Lemma exec_with_cache g tr fs f :
  exec (with_cache label_ok g) tr (Done fs) → f ∈ fs →
  ∃ d node, tr = [event ReadCache (inr d); event EnvNodeName (Some node)] ∧ f ∈ g node d.
Proof.
  unfold with_cache, get_node_name. intros Hx Hf. cbn in Hx.
  destruct Hx as [[_ ?]|([e|d] & tr' & -> & Hx)]; [done| |].
  - cbn in Hx. destruct Hx as [[_ ?]|(? & ? & -> & [[_ ?]|[-> ?]])]; try done. simplify_eq. set_solver.
  - cbn in Hx. destruct Hx as [[_ ?]|([node|] & tr2 & -> & Hx)]; [done| |]; cbn in Hx.
    + destruct Hx as [[_ ?]|[-> ?]]; [done|]. simplify_eq. apply emit_subset in Hf. eauto.
    + destruct Hx as [[_ ?]|(? & ? & -> & [[_ ?]|[-> ?]])]; try done. simplify_eq. set_solver.
Qed.

(** A collector shows what one slot holds. *)
Definition shows_slot (c : prog ExSig fault (list Family)) : Prop :=
  ∀ tr fs f, exec c tr (Done fs) → f ∈ fs →
    ∃ d node s, tr = [event ReadCache (inr d); event EnvNodeName (Some node)] ∧
      f ∈ slot_families node s (slot_of d s).

Lemma collectors_show : Forall shows_slot (collectors label_ok).*2.
Proof.
  repeat apply Forall_cons_2; try apply Forall_nil_2; intros tr fs f Hx Hf;
    destruct (exec_with_cache _ _ _ _ Hx Hf) as (d & node & -> & Hin); exists d, node;
    [exists Pools|exists Pools|exists PoolStats|exists NexusStats|exists ReplicaStats];
    (split; [done|]); cbn; try apply elem_of_app; auto.
Qed.

Lemma exec_gather cs : Forall shows_slot cs → ∀ acc tr fs f,
  exec (foldM (λ acc collect, let! fs := collect in Ret (acc ++ fs)) cs acc) tr (Done fs) →
  f ∈ fs → f ∈ acc ∨
  ∃ t1 d node t2 s, tr = t1 ++ event ReadCache (inr d) :: event EnvNodeName (Some node) :: t2 ∧
    f ∈ slot_families node s (slot_of d s).
Proof.
  induction 1 as [|c cs Hc Hcs IH]; intros acc tr fs f Hx Hf; cbn in Hx.
  - destruct Hx as [[_ ?]|[_ ?]]; simplify_eq. by left.
  - apply exec_bind_done in Hx as (acc' & t1 & t2 & Ha & Hx & ->).
    apply exec_bind_done in Ha as (fs' & ta & tb & Ha & Hr & ->).
    apply exec_ret_done in Hr as [-> <-].
    destruct (IH _ _ _ _ Hx Hf) as [[?|Hin]%elem_of_app|(t3 & d & node & t4 & s & -> & Hs)]; [by left| |].
    + right. destruct (Hc _ _ _ Ha Hin) as (d & node & s & -> & Hs). exists [], d, node, t2, s. done.
    + right. exists ((ta ++ []) ++ t3), d, node, t4, s. split; [|done].
      by rewrite <- !app_assoc.
Qed.

Lemma exec_register_all cs : ∀ reg tr l,
  exec (register_all reg cs) tr (Done l) → ∀ c, c ∈ l → c ∈ cs.*2.
Proof.
  induction cs as [|[descs c] cs IH]; intros reg tr l Hx; cbn in Hx.
  - apply exec_ret_done in Hx as [_ <-]. set_solver.
  - destruct (register reg descs).
    + apply exec_bind_done in Hx as (l' & t1 & t2 & Hx & Hr & ->).
      apply exec_ret_done in Hr as [_ <-]. specialize (IH _ _ _ Hx). cbn. set_solver.
    + cbn in Hx. destruct Hx as [[_ ?]|(? & tr' & -> & Hx)]; [done|].
      specialize (IH _ _ _ Hx). cbn. set_solver.
Qed.

Lemma register_uses (ok : op ExSig → bool) cs reg : (∀ m, ok (LogExporter m) = true) → uses ok (register_all reg cs).
Proof.
  intros Hok. revert reg. induction cs as [|[descs c] cs IH]; intros reg; [done|]. cbn [register_all].
  destruct (register reg descs); (apply uses_bind; [auto using uses_call|solve_uses]).
Qed.
Lemma collectors_writeless : Forall (uses writeless) (collectors label_ok).*2.
Proof.
  repeat apply Forall_cons_2; try apply Forall_nil_2;
    (split; [done|]; intros [e|d]; cbn; [done|]; split; [done|by intros []]).
Qed.
Lemma gather_writeless cs : Forall (uses writeless) cs → uses writeless (gather cs).
Proof.
  unfold gather. generalize (@nil Family). intros acc Hcs. revert acc.
  induction Hcs as [|c cs Hc Hcs IH]; intros acc; cbn; [done|].
  apply uses_bind; [by apply uses_bind|apply IH].
Qed.

(** What a handler shows comes from the cache it reads, after it has written all of it. *)
Lemma exec_handler tr fs f :
  exec (metrics_handler label_ok) tr (Done fs) → f ∈ fs →
  ∃ t1 d node t2 s,
    tr = t1 ++ event ReadCache (inr d) :: event EnvNodeName (Some node) :: t2 ∧
    f ∈ slot_families node s (slot_of d s) ∧ ∃ v x, event (SetCache s v) x ∈ t1.
Proof.
  unfold metrics_handler. intros Hx Hf.
  apply exec_bind_done in Hx as ([] & ta & tb & Ha & Hx & ->).
  apply exec_bind_done in Hx as (cs & tc & td & Hr & Hg & ->).
  destruct (exec_store_resource_data _ _ Ha) as [_ Hs].
  pose proof (exec_register_all _ _ _ _ Hr) as Hcs.
  assert (Forall shows_slot cs) as Hshow.
  { apply Forall_forall. intros c Hc. pose proof collectors_show as Hall. rewrite Forall_forall in Hall. eauto. }
  destruct (exec_gather cs Hshow _ _ _ _ Hg Hf) as [?%elem_of_nil|(t1 & d & node & t2 & s & -> & Hin)]; [done|].
  destruct (Hs eq_refl s) as (v & x & Hv).
  exists (ta ++ tc ++ t1), d, node, t2, s. split; [by rewrite <- !app_assoc|]. split; [done|].
  exists v, x. apply elem_of_app. by left.
Qed.

Lemma handler_writes tr o : exec (metrics_handler label_ok) tr o → writes_answers tr.
Proof.
  intros Hx. apply exec_bind_inv in Hx as [([] & ta & tb & Ha & Hx & ->)|[(e & Hx & _)|[[Hx _]|[Hx _]]]];
    try by apply exec_store_resource_data in Hx as [? _].
  apply exec_store_resource_data in Ha as [Ha _]. apply writes_answers_app; [done|].
  assert (∀ m, writeless (LogExporter m) = true) as Hlog by done.
  apply exec_bind_inv in Hx as [(cs & tc & td & Hr & Hg & ->)|[(e & Hx & _)|[[Hx _]|[Hx _]]]];
    try by (eapply writeless_answers; [|exact Hx]; by apply register_uses).
  apply writes_answers_app; [eapply writeless_answers; [|exact Hr]; by apply register_uses|].
  eapply writeless_answers; [|exact Hg]. apply gather_writeless, Forall_forall. intros c Hc.
  pose proof collectors_writeless as Hall. rewrite Forall_forall in Hall.
  eapply Hall, exec_register_all; eauto.
Qed.

(** ** The interleaving *)

(** What a slot holds was there at the start, or is what was written last. *)
Lemma slot_written d0 tr cfg s :
  reaches (metrics_handler label_ok) answers d0 tr cfg →
  slot_of cfg.(world) s = slot_of d0 s ∧ (∀ j v x, Step j (event (SetCache s v) x) ∉ tr) ∨
  ∃ tr1 j tr2, tr = tr1 ++ Step j (event (SetCache s (slot_of cfg.(world) s)) (inr tt)) :: tr2 ∧
    ∀ j v x, Step j (event (SetCache s v) x) ∉ tr2.
Proof.
  induction 1 as [|tr [ts w] l cfg' Hr IH Hs]; [left; set_solver|]. cbn in IH.
  assert (∀ l' : label (S:=ExSig), (∀ j v x, l' ≠ Step j (event (SetCache s v) x)) →
    slot_of (world cfg') s = slot_of w s → l = l' → 
    slot_of cfg'.(world) s = slot_of d0 s ∧ (∀ j v x, Step j (event (SetCache s v) x) ∉ tr ++ [l]) ∨
    ∃ tr1 j tr2, tr ++ [l] = tr1 ++ Step j (event (SetCache s (slot_of cfg'.(world) s)) (inr tt)) :: tr2 ∧
      ∀ j v x, Step j (event (SetCache s v) x) ∉ tr2) as Hskip.
  { intros l' Hl Hw ->. rewrite Hw. destruct IH as [[H1 H2]|(tr1 & j & tr2 & -> & Hn)]; [left|right].
    - split; [done|]. intros j v x [?|?%list_elem_of_singleton]%elem_of_app; [by eapply H2|by eapply Hl].
    - exists tr1, j, (tr2 ++ [l']). split; [by rewrite <- app_assoc|].
      intros j' v x [?|?%list_elem_of_singleton]%elem_of_app; [by eapply Hn|by eapply Hl]. }
  inversion Hs as [|? ? i c k r w' Hi Ha]; subst; [by eapply (Hskip Spawn)|]. cbn [world] in *.
  assert (∀ j s' v' (x : ext_error + unit), Step i (Ev c r) = Step j (event (SetCache s' v') x) →
    write_of (Ev c r) = Some (existT s' v')) as Hev.
  { intros j s' v' x Heq. exact (f_equal (λ l, match l with Step _ e => write_of e | Spawn => None end) Heq). }
  destruct Ha as [d s' v|d|d c r Hc].
  - destruct (decide (s' = s)) as [->|Hne].
    + right. exists tr, i, []. rewrite slot_set. split; [done|]. intros ???. apply not_elem_of_nil.
    + eapply Hskip; [|by apply slot_set_ne|done]. intros j v' x Heq. apply Hev, (f_equal (option_map (@projT1 _ _))) in Heq. cbn in Heq. congruence.
  - eapply Hskip; [|done|done]. intros j v' x Heq. by apply Hev in Heq.
  - eapply Hskip; [|done|done]. intros j v' x Heq. apply Hev in Heq. by destruct c.
Qed.

(** C31: Whatever other scrapes run at the same time, a scrape shows nothing which was stored
    in the cache before it began: each gauge it returns comes from a content which a task,
    itself or another, wrote to the cache after this scrape had started; that content is
    the conversion of what the engine answered to that task, or nothing if the call
    failed; and the gauge is labelled with the name the node had after the write.  The
    engine may have been asked before: another scrape, already running, may ask before
    this one starts and write after it has. *)
Theorem scrapes_not_stale d0 tr cfg i fs f :
  reaches (metrics_handler label_ok) answers d0 tr cfg → cfg.(tasks) !! i = Some (Ret fs) → f ∈ fs →
  ∃ tr0 j s v tr1 node,
    tr = tr0 ++ Step j (event (SetCache s v) (inr tt)) :: tr1 ∧ i < started tr0 ∧
    (∃ r, Step j (event (fetch_call s) r) ∈ tr0 ∧ converted s r v) ∧
    Step i (event EnvNodeName (Some node)) ∈ tr1 ∧ f ∈ slot_families node s v.
Proof.
  intros Hr Hi Hf. pose proof (reaches_done _ _ _ _ _ _ _ Hr Hi) as Hx.
  destruct (exec_handler _ _ _ Hx Hf) as (t1 & d & node & t2 & s & Hl & Hin & v' & x' & Hv').
  (* the read of the cache in the run, and the state it read *)
  apply local_split in Hl as (trA & trB & -> & Hlocal & HlB).
  destruct (reaches_split _ _ _ _ _ _ _ Hr) as ([ts w] & cfg2 & HrA & Hs).
  apply step_world in Hs as [= ->]%answers_cache. cbn [world] in Hin.
  (* the last write of the slot before it *)
  apply list_elem_of_split in Hv' as (u1 & u2 & Hu). rewrite Hu in Hlocal.
  destruct (local_split _ _ _ _ _ Hlocal) as (x1 & x2 & HA & _ & _).
  assert (i < started x1) as Hi1 by (rewrite HA in HrA; by eapply step_started).
  destruct (slot_written _ _ _ s HrA) as [[_ Hno]|(tr1 & j & tr2 & HA' & Hno)].
  { destruct (Hno i v' x'). rewrite HA. apply elem_of_app. right. by left. }
  cbn [world] in HA'. exists tr1, j, s, (slot_of w s), (tr2 ++ Step i (event ReadCache (inr w)) :: trB), node.
  split; [by rewrite HA', <- app_assoc|]. split_and!; [| | |done].
  - rewrite HA in HA'. symmetry in HA'. apply app_eq_app in HA' as [k [[-> Hk]|[-> Hk]]].
    + rewrite started_app. lia.
    + destruct k as [|l k]; [by rewrite app_nil_r in Hi1|]. injection Hk as _ Hk.
      destruct (Hno i v' x'). rewrite Hk. apply elem_of_app. right. by left.
  - rewrite HA' in HrA. apply step_cut, handler_writes, writes_answers_split in HrA as (t0 & r & Ht & Hc).
    exists r. split; [|done]. apply local_elem. rewrite Ht. apply elem_of_app. right. by left.
  - apply elem_of_app. right. right. apply local_elem.
    rewrite HlB. by left.
Qed.
End Handler.

(** ** Two scrapes of a concrete engine: the second starts when the first has stored the
    pools, and finishes first; the first then shows what the second has stored. *)
Definition first_shows_second : list (option nat) :=
  None :: replicate 2 (Some 0) ++ None :: replicate 60 (Some 1) ++ replicate 60 (Some 0).
Definition two_scrapes : list (label (S:=ExSig)) * config (S:=ExSig) (E:=fault) (A:=list Family) (W:=Data) :=
  schedule (metrics_handler (λ _ _, true)) (engine demo_engine) first_shows_second (mkConfig [] Data_new).

Lemma engine_answers e d c : answers d c (engine e c d).1 (engine e c d).2.
Proof. destruct c; by constructor. Qed.

Lemma two_scrapes_reached :
  reaches (metrics_handler (λ _ _, true)) answers Data_new two_scrapes.1 two_scrapes.2.
Proof.
  assert (∀ c d, answers d c (engine demo_engine c d).1 (engine demo_engine c d).2) as He
    by (intros c d; apply engine_answers).
  pose proof (schedule_reaches (metrics_handler (λ _ _, true)) answers (engine demo_engine) Data_new
    first_shows_second [] (mkConfig [] Data_new) He (reaches_start _ _ _)) as Hr.
  rewrite app_nil_l in Hr. exact Hr.
Qed.

Lemma scrapes_not_stale_witness :
  ∃ f fs tr0 j s v tr1 node,
    two_scrapes.2.(tasks) !! 0 = Some (Ret (f :: fs)) ∧
    two_scrapes.1 = tr0 ++ Step j (event (SetCache s v) (inr tt)) :: tr1 ∧
    f ∈ slot_families node s v.
Proof.
  assert (match two_scrapes.2.(tasks) !! 0 with Some (Ret (_ :: _)) => true | _ => false end = true) as Hsome
    by (vm_compute; reflexivity).
  destruct (two_scrapes.2.(tasks) !! 0) as [[[|f fs]| | | ]|] eqn:Hi; try discriminate Hsome.
  destruct (scrapes_not_stale (λ _ _, true) Data_new two_scrapes.1 two_scrapes.2 0 (f :: fs) f)
    as (tr0 & j & s & v & tr1 & node & Htr & _ & _ & _ & Hin).
  - exact two_scrapes_reached.
  - exact Hi.
  - left.
  - exists f, fs, tr0, j, s, v, tr1, node. split; [reflexivity|]. split; [exact Htr|exact Hin].
Defined.
End ExporterTasks.
