(* ===== verification/SupportApi.v ===== *)
(** * Supportability: objects, requests and errors

    Models the data which [k8s/supportability/src] handles, its error types, the requests
    it issues, and the small modules on which the rest stands: [collect/utils.rs],
    [collect/common.rs], [collect/archive.rs], [collect/constants.rs]. *)

From S2P Require Import Prelude Text JobApi.
From stdpp Require Import base gmap list strings pretty.
From Stdlib Require Import ZArith Lia Ascii.
Open Scope string_scope.
Set Warnings "-register-all".

(** ** What ends a function

    [Err] is an error value; [Panic] unwinds and [Exit] ends the process, and no [match]
    on a result observes either. *)
Inductive fault (E : Type) := Err (e : E) | Panic | Exit (code : Z).
Arguments Err {E}. Arguments Panic {E}. Arguments Exit {E}.

Section Faults.
Context {S : Sig}.

(** [match f().await { .. }]: errors are observed, panics and exits are not. *)
Fixpoint try_ {E E' A} (p : prog S (fault E) A) : prog S (fault E') (E + A) :=
  match p with
  | Ret a => Ret (inr a)
  | Throw (Err e) => Ret (inl e)
  | Throw Panic => Throw Panic
  | Throw (Exit c) => Throw (Exit c)
  | Spin => Spin
  | Call c k => Call c (λ r, try_ (k r))
  end.

(** [f().await?] with [From], or [map_err(f)?] *)
Definition map_err {E E' A} (f : E → E') (p : prog S (fault E) A) : prog S (fault E') A :=
  bind (λ r, match r with inl e => Throw (Err (f e)) | inr a => Ret a end) (try_ p).

(** [?] on a result, and [unwrap] or [expect] on an option *)
Definition checked {E X A} (f : X → E) (r : X + A) : prog S (fault E) A := lift (λ x, Err (f x)) r.
Definition some_or {E A} (e : E) (o : option A) : prog S (fault E) A := ok_or (Err e) o.
Definition unwrap {E A} (o : option A) : prog S (fault E) A := ok_or Panic o.

Context {W : Type} (h : handler S W).

Lemma evals_try {E E' A} (p : prog S (fault E) A) w :
  evals h (try_ (E':=E') p) w =
    match evals h p w with
    | (Done a, w') => (Done (inr a), w')
    | (Failed (Err e), w') => (Done (inl e), w')
    | (Failed Panic, w') => (Failed Panic, w')
    | (Failed (Exit c), w') => (Failed (Exit c), w')
    | (Exhausted, w') => (Exhausted, w')
    | (Cut, w') => (Cut, w')
    end.
Proof.
  revert w; induction p as [a|e| |c k IH]; intros w; cbn; try done.
  - by destruct e.
  - rewrite !evals_Call. apply IH.
Qed.

Lemma evals_map_err {E E' A} (f : E → E') (p : prog S (fault E) A) w :
  evals h (map_err f p) w =
    match evals h p w with
    | (Done a, w') => (Done a, w')
    | (Failed (Err e), w') => (Failed (Err (f e)), w')
    | (Failed Panic, w') => (Failed Panic, w')
    | (Failed (Exit c), w') => (Failed (Exit c), w')
    | (Exhausted, w') => (Exhausted, w')
    | (Cut, w') => (Cut, w')
    end.
Proof.
  unfold map_err. rewrite evals_bind, evals_try.
  by destruct (evals h p w) as [[a|[]| |] w'].
Qed.
End Faults.

(** Runs of [try_] *)
Lemma exec_try {S E E' A} (p : prog S (fault E) A) tr (o : outcome (fault E') (E + A)) :
  exec (try_ p) tr o →
  match o with
  | Done (inr a) => exec p tr (Done a)
  | Done (inl e) => exec p tr (Failed (Err e))
  | Failed (Err _) => False
  | Failed Panic => exec p tr (Failed Panic)
  | Failed (Exit c) => exec p tr (Failed (Exit c))
  | Exhausted => exec p tr Exhausted
  | Cut => exec p tr Cut
  end.
Proof.
  revert tr; induction p as [a|e| |c k IH]; intros tr; cbn.
  - intros [[-> ->]|[-> ->]]; eauto.
  - destruct e; cbn; intros [[-> ->]|[-> ->]]; eauto.
  - intros [[-> ->]|[-> ->]]; eauto.
  - intros [[-> ->]|(r & tr' & -> & Hx)]; [eauto|]. apply IH in Hx. destruct o as [[]|[]| |]; eauto.
Qed.
Lemma exec_map_err_done {S E E' A} (f : E → E') (p : prog S (fault E) A) tr a :
  exec (map_err f p) tr (Done a) → exec p tr (Done a).
Proof.
  intros (r & t1 & t2 & Hp%exec_try & Hr & ->)%exec_bind_done.
  destruct r as [e|x]; [by apply exec_throw_done in Hr|]. apply exec_ret_done in Hr as [-> <-].
  by rewrite app_nil_r.
Qed.
Lemma uses_try {S E E' A} ok (p : prog S (fault E) A) : uses ok p → uses ok (try_ (E':=E') p).
Proof.
  induction p as [a|e| |c k IH]; cbn; try done; [by destruct e|]. intros []. eauto.
Qed.
Lemma uses_map_err {S E E' A} ok (f : E → E') (p : prog S (fault E) A) :
  uses ok p → uses ok (map_err f p).
Proof. intros Hp. apply uses_bind; [by apply uses_try|]. by intros []. Qed.
Lemma respects_try {S E E' A} (P : protocol S) (p : prog S (fault E) A) m
    (Q : E + A → mst P → Prop) (R : fault E' → mst P → Prop) :
  respects P p m (λ a, Q (inr a))
    (λ e m', match e with Err e => Q (inl e) m' | Panic => R Panic m' | Exit c => R (Exit c) m' end) →
  respects P (try_ p) m Q R.
Proof.
  revert m; induction p as [a|e| |c k IH]; cbn; intros m H; eauto.
  - by destruct e.
  - intros r. specialize (H r). destruct (mstep P m (Ev c r)); eauto.
Qed.
Lemma yields_try {S E E' A} (p : prog S (fault E) A) (Q : A → Prop) :
  yields p Q → yields (try_ (E':=E') p) (λ r, match r with inr a => Q a | inl _ => True end).
Proof. induction p as [a|e| |c k IH]; cbn; eauto. by destruct e. Qed.
#[export] Hint Resolve uses_try uses_map_err : uses.

(** With which codes a program ends the process: [returns] is never. *)
Definition exits {E} (P : Z → Prop) (e : fault E) : Prop := match e with Exit c => P c | _ => True end.
Abbreviation returns := (exits (λ _, False)).
Lemma throws_try {S E E' A} P (p : prog S (fault E) A) :
  throws p (exits P) → throws (try_ (E':=E') p) (exits P).
Proof. induction p as [|[]| |]; cbn; eauto. Qed.
Lemma throws_map_err {S E E' A} P (f : E → E') (p : prog S (fault E) A) :
  throws p (exits P) → throws (map_err f p) (exits P).
Proof. intros Hp. apply throws_bind; [by apply throws_try|]. by intros []. Qed.
#[export] Hint Resolve throws_try throws_map_err throws_attempt : throws.

(** Walk a program, through its binds, loops and branches. *)
Ltac solve_throws :=
  repeat first
    [ progress eauto with throws
    | apply throws_bind; [|intros ?]
    | apply throws_try
    | apply throws_map_err
    | apply throws_loop; intros ?
    | apply throws_foldM; intros ? ?
    | apply throws_lift; done
    | apply throws_ok_or; done
    | match goal with
      | |- throws (let '_ := ?x in _) _ => destruct x
      | |- throws (if ?b then _ else _) _ => destruct b
      | |- throws (match ?x with _ => _ end) _ => destruct x
      end
    | done ].

(** ** Sets which are iterated in an unspecified order *)
Definition set_insert {A} `{EqDecision A} (x : A) (l : list A) : list A :=
  if decide (x ∈ l) then l else (l ++ [x])%list.
Definition set_extend {A} `{EqDecision A} (l l' : list A) : list A :=
  fold_left (λ acc x, set_insert x acc) l' l.
Definition set_of {A} `{EqDecision A} (l : list A) : list A := set_extend [] l.

Lemma elem_of_insert {A} `{EqDecision A} (x y : A) l : y ∈ set_insert x l ↔ y = x ∨ y ∈ l.
Proof. unfold set_insert. case_decide; set_solver. Qed.
Lemma elem_of_extend {A} `{EqDecision A} (y : A) l' l : y ∈ set_extend l l' ↔ y ∈ l ∨ y ∈ l'.
Proof.
  revert l; induction l' as [|x l' IH]; intros l; [set_solver|].
  change (set_extend l (x :: l')) with (set_extend (set_insert x l) l'). rewrite IH, elem_of_insert. set_solver.
Qed.
Lemma elem_of_set_of {A} `{EqDecision A} (y : A) l : y ∈ set_of l ↔ y ∈ l.
Proof. unfold set_of. rewrite elem_of_extend. set_solver. Qed.
Lemma insert_NoDup {A} `{EqDecision A} (x : A) l : NoDup l → NoDup (set_insert x l).
Proof.
  intros Hl. unfold set_insert. case_decide; [done|]. apply NoDup_app. split_and!; [done| |].
  - set_solver.
  - apply NoDup_singleton.
Qed.
Lemma extend_NoDup {A} `{EqDecision A} (l' l : list A) : NoDup l → NoDup (set_extend l l').
Proof. revert l; induction l' as [|x l' IH]; intros l Hl; [done|]. by apply IH, insert_NoDup. Qed.

(** ** Objects of the storage REST API, the fields which are read *)
Module SupportApi.

Abbreviation Uuid := string.
Inductive NodeStatus := NodeUnknown | NodeOnline | NodeOffline.
Inductive PoolStatus := PoolUnknown | PoolOnline | PoolDegraded | PoolFaulted.
Inductive ReplicaState := ReplicaUnknown | ReplicaOnline | ReplicaDegraded | ReplicaFaulted.
Inductive NexusState :=
  NexusUnknown | NexusOnline | NexusDegraded | NexusFaulted | NexusShuttingDown | NexusShutdown.

Record NodeState := mkNodeState { ns_id : string; ns_status : NodeStatus }.
Record Node := mkNode {
  node_id : string; node_state : option NodeState; node_spec_id : option string
}.
Record BlockDevice := mkBlockDevice {
  devname : string; devpath : string; devlinks : list string
}.
Record PoolState := mkPoolState { ps_node : string; ps_status : PoolStatus }.
Record PoolSpec := mkPoolSpec { pspec_node : string; disks : list string }.
Record Pool := mkPool {
  pool_id : string; pool_state : option PoolState; pool_spec : option PoolSpec
}.
Record Replica := mkReplica { replica_node : string; replica_pool : string; replica_state : ReplicaState }.
Record Nexus := mkNexus { nexus_node : string; nexus_state : NexusState }.
(** [state.replica_topology] is a hash map; its keys are the ids of the replicas. *)
Record Volume := mkVolume {
  vol_uuid : Uuid; vol_target : option Nexus; replica_topology : list string
}.
Definition RebuildHistory : Type := list string.
Record VolumeSnapshot := mkVolumeSnapshot { snap_uuid : Uuid }.
Record Entries (T : Type) := mkEntries { entries : list T; next_token : option Z }.
Arguments mkEntries {T}. Arguments entries {T}. Arguments next_token {T}.

(** ** Objects of Kubernetes, the fields which are read *)
Record Meta := mkMeta { name : option string; labels : option (gmap string string) }.
Record KNode := mkKNode { kn_meta : Meta }.
Record ContainerStatus := mkContainerStatus { cs_name : string; restart_count : Z }.
Record PodSpec := mkPodSpec { pod_node_name : option string; containers : list string }.
Record Pod := mkPod {
  pod_meta : Meta; pod_spec : option PodSpec;
  (** [status.container_statuses], where both are present *)
  container_statuses : option (list ContainerStatus)
}.
(** Times in microseconds; [series] with its [last_observed_time] *)
Record Event := mkEvent {
  ev_name : string; series : option (option Z); last_timestamp : option Z; ev_event_time : option Z
}.
Record Workload := mkWorkload { wl_name : option string }.
Record DiskPool := mkDiskPool { dp_name : option string }.
(** [data] of a dynamic object: [data["driver"]] and [data["spec"]["driver"]] as strings *)
Record DynamicObject := mkDynamicObject {
  dyn_name : string; dyn_driver : option string; dyn_spec_driver : option string
}.
Inductive Scope := Cluster | Namespaced.
Record ApiResource := mkApiResource {
  ar_version : string; ar_kind : string; supports_list : bool; scope : Scope
}.
Record ApiGroup := mkApiGroup { group_name : string; recommended_resources : list ApiResource }.

Inductive kind := Pods | Nodes | Events | Deployments | DaemonSets | StatefulSets | DiskPools
| Dynamic (ar : ApiResource).
Definition object (k : kind) : Type :=
  match k with
  | Pods => Pod | Nodes => KNode | Events => Event
  | Deployments | DaemonSets | StatefulSets => Workload
  | DiskPools => DiskPool | Dynamic _ => DynamicObject
  end.

(** ** Answers of Loki ([logs/loki.rs]) *)
Record StreamMetaData := mkStreamMetaData {
  host_name : string; pod_name : string; container_name : string
}.
Record StreamContent := mkStreamContent {
  stream_metadata : StreamMetaData; values : list (list string)
}.
Record LokiResponse := mkLokiResponse { status : string; result : list StreamContent }.
(** How a request to Loki ends: a malformed request, no response, a response which is not
    a success with its text, a body which cannot be read or parsed, a parsed body. *)
Inductive LokiAnswer :=
| LokiRequestErr (e : ext_error) | LokiTowerErr (e : ext_error) | LokiFailure (text : string)
| LokiHyperErr (e : ext_error) | LokiSerdeErr (e : ext_error) | LokiOk (r : LokiResponse).

(** ** Errors *)
Abbreviation io_error := string.
Inductive rest_error := RestResponse (status : Z) (body : string) | RestRequest (msg : string).
Inductive kube_error := KubeApi (code : Z) (msg : string) | KubeOther (msg : string).

(** [resources/error.rs] *)
Inductive ResourceError :=
| RE_IOError (e : io_error) | RE_RestJsonError (e : rest_error) | RE_JSONError (e : ext_error)
| RE_UUIDParseError (e : ext_error) | RE_CustomError (msg : string)
| RE_MultipleErrors (es : list ResourceError).
(** [k8s_resources/client.rs] *)
Inductive K8sResourceError :=
| KE_ClientConfigError (e : ext_error) | KE_InferConfigError (e : ext_error)
| KE_ClientError (e : kube_error) | KE_ResourceError (e : io_error) | KE_CustomError (msg : string).
(** [logs/k8s_log.rs] *)
Inductive K8sLoggerError := LE_K8sResourceError (e : K8sResourceError) | LE_IOError (e : io_error).
(** [logs/loki.rs] *)
Inductive LokiError :=
| Request (e : ext_error) | Response (text : string) | Tower (e : ext_error) | Serde (e : ext_error)
| Hyper (e : ext_error) | LK_IOError (e : io_error).
(** [logs/mod.rs] *)
Inductive LogError :=
| Loki (e : LokiError) | K8sResource (e : K8sResourceError) | K8sLogger (e : K8sLoggerError)
| LG_IOError (e : io_error) | Custom (msg : string) | LG_MultipleErrors (es : list LogError).
(** [k8s_resources/k8s_resource_dump.rs] *)
Inductive K8sResourceDumperError :=
| KD_K8sResourceError (e : K8sResourceError) | KD_IOError (e : io_error)
| YamlSerializationError (e : ext_error) | JsonSerializationError (e : ext_error)
| KD_MultipleErrors (es : list K8sResourceDumperError).
(** [persistent_store/mod.rs] *)
Inductive EtcdError :=
| Etcd (e : ext_error) | ET_K8sResource (e : K8sResourceError) | ET_IOError (e : io_error)
| ET_Custom (msg : string) | CreateClient (e : ext_error).
(** [collect/error.rs] *)
Inductive Error :=
| ResourceError_ (e : ResourceError) | ArchiveError (e : io_error)
| LogCollectionError (e : LogError) | K8sResourceDumperError_ (e : K8sResourceDumperError)
| OSStringError (s : string) | EtcdDumpError (e : EtcdError) | MultipleErrors (es : list Error).

(** [not_found_rest_json_error] *)
Definition not_found_rest_json_error (e : ResourceError) : ResourceError + bool :=
  match e with
  | RE_RestJsonError (RestResponse status body) =>
      if (status =? 404)%Z then inr true else inl (RE_RestJsonError (RestResponse status body))
  | _ => inl e
  end.

(** ** Topologies ([resources/]) and what is serialized *)
Record NodeTopology := mkNodeTopology { nt_node : Node; nt_devices : option (list BlockDevice) }.
Record PoolTopology := mkPoolTopology {
  pt_pool : Pool; node_info : option Node; device_info : option (list BlockDevice)
}.
Record ReplicaTopology := mkReplicaTopology { rt_replica : Replica; pool_topology : PoolTopology }.
Record VolumeTopology := mkVolumeTopology {
  vt_volume : Volume; vt_target : option Nexus; replicas_topology : list ReplicaTopology;
  rebuild_history : option RebuildHistory
}.
Record VolumeSnapshotTopology := mkVolumeSnapshotTopology { st_snapshot : VolumeSnapshot }.

Inductive document :=
| DNode (t : NodeTopology) | DPool (t : PoolTopology) | DVolume (t : VolumeTopology)
| DSnapshot (t : VolumeSnapshotTopology) | DVec (l : list document)
| DEvents (l : list Event) | DPods (l : list Pod) | DDiskPools (l : list DiskPool)
| DDynamic (l : list DynamicObject) | DDaemonSet (w : Workload) | DDeployment (w : Workload)
| DStatefulSet (w : Workload) | DValue (v : string).

(** ** The crates around, and constants of the build *)
Class SupportCrates := {
  json_pretty : document → ext_error + string;
  yaml : document → ext_error + string;
  url_encode : string → string;
  uuid_parse : string → ext_error + Uuid;
  (** [pstor::build_key_prefix] on the platform information *)
  build_key_prefix : string → string;
  PRODUCT_DOMAIN_NAME : string;
  csi_plugin_name : string
}.

(** ** Requests *)
Inductive sup_call :=
(** the storage REST API *)
| GetNodes | GetNode (id : string) | GetNodeBlockDevices (id : string)
| GetPools | GetPool (id : string) | GetReplicas | GetReplica (id : Uuid)
| GetVolumes (max_entries : Z) (token : option Z) | GetVolume (id : Uuid)
| GetRebuildHistory (id : Uuid)
| GetVolumesSnapshots (max_entries : Z) (token : option Z) | GetVolumesSnapshot (id : Uuid)
(** Kubernetes *)
| ReadKubeconfig (path : string) | CustomKubeconfig | InferConfig | ClientTryFrom
| Discover | KList (k : kind) (namespace : option string) (lp : ListParams)
| KGetNode (name : string)
| LogStream (namespace pod : string) (container : option string) (previous : bool)
(** Loki and etcd *)
| LokiProxy (kube_config : option string) (namespace : string) | LokiCall (request : string)
| K8sPlatform (namespace : string) | EtcdProxy (kube_config : option string) (namespace : string)
| EtcdConnect (endpoint : string) | EtcdPage (prefix : string) (limit : Z)
(** files, the archive, the console, the clock *)
| Exists (path : string) | CreateDirAll (path : string) | CreateFile (path : string)
| WriteAll (path content : string) | Flush (path : string) | RemoveFile (path : string)
| RemoveDirAll (path : string)
| TarCreate (path : string) | TarAppendDirAll (dest src : string) | TarFinish
| Println (line : string) | UtcNow | LocalNow | NowNanos
(** the cell [TOOL_LOG_FILE]: [OnceCell::get], and [OnceCell::set], which is refused when set *)
| ToolLog | SetToolLog (file : option string).

Definition sup_res (c : sup_call) : Type :=
  match c with
  | GetNodes => rest_error + list Node
  | GetNode _ => rest_error + Node
  | GetNodeBlockDevices _ => rest_error + list BlockDevice
  | GetPools => rest_error + list Pool
  | GetPool _ => rest_error + Pool
  | GetReplicas => rest_error + list Replica
  | GetReplica _ => rest_error + Replica
  | GetVolumes _ _ => rest_error + Entries Volume
  | GetVolume _ => rest_error + Volume
  | GetRebuildHistory _ => rest_error + RebuildHistory
  | GetVolumesSnapshots _ _ => rest_error + Entries VolumeSnapshot
  | GetVolumesSnapshot _ => rest_error + VolumeSnapshot
  | ReadKubeconfig _ | CustomKubeconfig | InferConfig => ext_error + unit
  | ClientTryFrom => kube_error + unit
  | Discover => kube_error + list ApiGroup
  | KList k _ _ => kube_error + ObjectList (object k)
  | KGetNode _ => kube_error + KNode
  | LogStream _ _ _ _ => kube_error + list (io_error + string)
  | LokiProxy _ _ => ext_error + string
  | LokiCall _ => LokiAnswer
  | K8sPlatform _ => ext_error + string
  | EtcdProxy _ _ => ext_error + string
  | EtcdConnect _ => ext_error + unit
  | EtcdPage _ _ => ext_error + list (string * string)
  | Exists _ => bool
  | CreateDirAll _ | CreateFile _ | WriteAll _ _ | Flush _ | RemoveFile _ | RemoveDirAll _
  | TarCreate _ | TarAppendDirAll _ _ | TarFinish => io_error + unit
  | Println _ => unit
  | UtcNow | LocalNow => string
  | NowNanos => option Z
  | ToolLog => option (option string)
  | SetToolLog _ => bool
  end.
Definition SupSig : Sig := MkSig sup_call sup_res.
Definition sup (E A : Type) : Type := prog SupSig (fault E) A.
Definition ask {E} (c : sup_call) : sup E (sup_res c) := call (S:=SupSig) c.
(** A request whose error is returned with [?]. *)
Definition ask_or {E X A} (c : sup_call) (H : sup_res c = (X + A)%type) (f : X → E) : sup E A :=
  bind (λ r, checked f (eq_rect _ id r _ H)) (ask c).
Notation "'req!' c 'or' f" := (ask_or c eq_refl f) (at level 10, c at level 9, f at level 9).

(** ** [collect/utils.rs] *)
Definition write_to_log_file {E} (content : string) : sup E (io_error + unit) :=
  let! cell := ask ToolLog in
  match cell with
  | None => Ret (inl "LogFile not initialised!")
  | Some (Some file) => ask (WriteAll file content)
  | Some None => Ret (inr tt)
  end.
Definition log {E} (content : string) : sup E unit :=
  do! ask (Println content) in
  let! r := write_to_log_file (content +:+ String newline "") in
  match r with
  | inl e => ask (Println ("Not be able to write to log file, error: " +:+ e))
  | inr _ => Ret tt
  end.
Definition init_tool_log_file (file_path : string) : sup io_error unit :=
  do! req! (CreateFile file_path) or id in
  let! ok := ask (SetToolLog (Some file_path)) in
  if (ok : bool) then Ret tt else Throw Panic.
Definition init_no_log_file {E} : sup E unit :=
  let! ok := ask (SetToolLog None) in
  if (ok : bool) then Ret tt else Throw Panic.
Definition flush_tool_log_file : sup io_error unit :=
  let! cell := ask ToolLog in
  match cell with
  | None => Throw (Err "LogFile not initialised!")
  | Some (Some file) => req! (Flush file) or id
  | Some None => Ret tt
  end.

(** ** [collect/common.rs] *)
Definition DUMP_TMP_PREFIX : string := "tmp-mayastor".
(** A path which is made of strings is a valid string. *)
Definition create_and_get_tmp_directory (dir_path : string) : sup Error string :=
  let! date := ask LocalNow in
  let new_dir_path := path_join dir_path (DUMP_TMP_PREFIX +:+ "-" +:+ date) in
  do! req! (CreateDirAll new_dir_path) or ArchiveError in
  Ret new_dir_path.

Fixpoint pop (s : string) : string :=
  match s with
  | "" => ""
  | String a "" => ""
  | String a s' => String a (pop s')
  end.
(** [as_string] *)
Definition as_string (l : list string) (delim : ascii) : string :=
  pop (fold_left (λ acc val, acc +:+ val +:+ String delim "") l "").

(** ** [collect/archive.rs]: [None] is an archive without a writer *)
Definition ARCHIVE_PREFIX : string := "mayastor".
Definition Archive : Type := option string.
Definition Archive_new (dir_path : option string) : sup Error Archive :=
  match dir_path with
  | None => Ret None
  | Some dir_path =>
      let! date := ask UtcNow in
      let tar_file_name := path_join dir_path (ARCHIVE_PREFIX +:+ "-" +:+ date +:+ ".tar.gz") in
      do! req! (TarCreate tar_file_name) or ArchiveError in
      Ret (Some tar_file_name)
  end.
Definition copy_to_archive (archive : Archive) (src_dir dest_dir : string) : sup io_error unit :=
  match archive with
  | None => Ret tt
  | Some _ =>
      do! req! (TarAppendDirAll dest_dir src_dir) or id in
      req! TarFinish or id
  end.

(** [create_directory_if_not_exist] of [logs/mod.rs] *)
Definition create_directory_if_not_exist {E} (f : io_error → E) (dir_path : string) : sup E unit :=
  let! exists_ := ask (Exists dir_path) in
  if (exists_ : bool) then Ret tt else req! (CreateDirAll dir_path) or f.

(** ** [collect/constants.rs] *)
Definition CORE_AGENT_SERVICE : string := "agent-core".
Definition CSI_CONTROLLER_SERVICE : string := "csi-controller".
Definition JAEGER_OPERATOR_SERVICE : string := "jaeger-operator".
Definition JAEGER_SERVICE : string := "jaeger".
Definition POOL_OPERATOR_SERVICE : string := "operator-diskpool".
Definition REST_SERVICE : string := "api-rest".
Definition AGENT_HA_NODE_SERVICE : string := "agent-ha-node".
Definition CSI_NODE_SERVICE : string := "csi-node".
Definition ETCD_SERVICE : string := "etcd".
Definition ETCD_PAGED_LIMIT : Z := 1000.
Definition MAYASTOR_SERVICE : string := "io-engine".
Definition DATA_PLANE_CONTAINER_NAME : string := "io-engine".
Definition UPGRADE_SERVICE : string := "upgrade".
Definition CALLHOME_SERVICE : string := "obs-callhome".
Definition NATS_SERVICE : string := "nats".
Definition loki_logging_key `{SupportCrates} : string := PRODUCT_DOMAIN_NAME +:+ "/logging".
Definition logging_label_selector `{SupportCrates} : string := loki_logging_key +:+ "=true".
Definition CONTROL_PLANE_SERVICES : list string :=
  [CORE_AGENT_SERVICE; CSI_CONTROLLER_SERVICE; JAEGER_OPERATOR_SERVICE; JAEGER_SERVICE;
   POOL_OPERATOR_SERVICE; REST_SERVICE; CSI_NODE_SERVICE; ETCD_SERVICE; AGENT_HA_NODE_SERVICE].
Definition DATA_PLANE_SERVICES : list string := [MAYASTOR_SERVICE].
Definition UPGRADE_JOB_SERVICE : list string := [UPGRADE_SERVICE].
Definition CALLHOME_JOB_SERVICE : list string := [CALLHOME_SERVICE].
Definition NATS_JOB_SERVICE : list string := [NATS_SERVICE].
Definition HOST_NAME_REQUIRED_SERVICES : list string :=
  [MAYASTOR_SERVICE; ETCD_SERVICE; CSI_NODE_SERVICE; AGENT_HA_NODE_SERVICE; NATS_SERVICE].
(** [k8s_resources/common.rs] *)
Definition KUBERNETES_HOST_LABEL_KEY : string := "kubernetes.io/hostname".
Definition RUNNING_FIELD_SELECTOR : string := "status.phase=Running".
Definition NODE_NAME_FIELD_SELECTOR : string := "spec.nodeName".
End SupportApi.
