(* ===== verification/SupportErrorText.v ===== *)
(** * Supportability: the texts of its errors

    The derived [Debug] of the error types of supportability ([collect/error.rs],
    [collect/resources/error.rs], [collect/k8s_resources/], [collect/logs/],
    [collect/persistent_store/mod.rs]): what [kubectl] prints when a dump was collected
    only partly.  The [Debug] of the errors of the REST and Kubernetes clients is a
    parameter; other errors of libraries are carried as their text. *)

From S2P Require Import Prelude Text JobApi SupportApi.
From stdpp Require Import base list strings.
From Stdlib Require Import ZArith Lia Ascii.
Open Scope string_scope.

Module SupportErrorText.
Import SupportApi.

Class ClientDebug := {
  debug_rest_error : rest_error → string;
  debug_kube_error : kube_error → string
}.

Section Debug.
Context `{ClientDebug}.

(** A variant with one field *)
Definition variant (name inner : string) : string := name +:+ "(" +:+ inner +:+ ")".

Fixpoint debug_resource_error (e : ResourceError) : string :=
  match e with
  | RE_IOError e => variant "IOError" e
  | RE_RestJsonError e => variant "RestJsonError" (debug_rest_error e)
  | RE_JSONError e => variant "JSONError" e
  | RE_UUIDParseError e => variant "UUIDParseError" e
  | RE_CustomError msg => variant "CustomError" (debug_str msg)
  | RE_MultipleErrors es => variant "MultipleErrors" (debug_list (map debug_resource_error es))
  end.

Definition debug_k8s_error (e : K8sResourceError) : string :=
  match e with
  | KE_ClientConfigError e => variant "ClientConfigError" e
  | KE_InferConfigError e => variant "InferConfigError" e
  | KE_ClientError e => variant "ClientError" (debug_kube_error e)
  | KE_ResourceError e => variant "ResourceError" e
  | KE_CustomError msg => variant "CustomError" (debug_str msg)
  end.

Definition debug_logger_error (e : K8sLoggerError) : string :=
  match e with
  | LE_K8sResourceError e => variant "K8sResourceError" (debug_k8s_error e)
  | LE_IOError e => variant "IOError" e
  end.

Definition debug_loki_error (e : LokiError) : string :=
  match e with
  | Request e => variant "Request" e
  | Response text => variant "Response" (debug_str text)
  | Tower e => variant "Tower" e
  | Serde e => variant "Serde" e
  | Hyper e => variant "Hyper" e
  | LK_IOError e => variant "IOError" e
  end.

Fixpoint debug_log_error (e : LogError) : string :=
  match e with
  | Loki e => variant "Loki" (debug_loki_error e)
  | K8sResource e => variant "K8sResource" (debug_k8s_error e)
  | K8sLogger e => variant "K8sLogger" (debug_logger_error e)
  | LG_IOError e => variant "IOError" e
  | Custom msg => variant "Custom" (debug_str msg)
  | LG_MultipleErrors es => variant "MultipleErrors" (debug_list (map debug_log_error es))
  end.

Fixpoint debug_dumper_error (e : K8sResourceDumperError) : string :=
  match e with
  | KD_K8sResourceError e => variant "K8sResourceError" (debug_k8s_error e)
  | KD_IOError e => variant "IOError" e
  | YamlSerializationError e => variant "YamlSerializationError" e
  | JsonSerializationError e => variant "JsonSerializationError" e
  | KD_MultipleErrors es => variant "MultipleErrors" (debug_list (map debug_dumper_error es))
  end.

Definition debug_etcd_error (e : EtcdError) : string :=
  match e with
  | Etcd e => variant "Etcd" e
  | ET_K8sResource e => variant "K8sResource" (debug_k8s_error e)
  | ET_IOError e => variant "IOError" e
  | ET_Custom msg => variant "Custom" (debug_str msg)
  | CreateClient e => variant "CreateClient" e
  end.

Fixpoint debug_error (e : Error) : string :=
  match e with
  | ResourceError_ e => variant "ResourceError" (debug_resource_error e)
  | ArchiveError e => variant "ArchiveError" e
  | LogCollectionError e => variant "LogCollectionError" (debug_log_error e)
  | K8sResourceDumperError_ e => variant "K8sResourceDumperError" (debug_dumper_error e)
  | OSStringError s => variant "OSStringError" (debug_str s)
  | EtcdDumpError e => variant "EtcdDumpError" (debug_etcd_error e)
  | MultipleErrors es => variant "MultipleErrors" (debug_list (map debug_error es))
  end.

Lemma within_variant s name inner : within s inner → within s (variant name inner).
Proof. unfold variant. auto with text. Qed.

(** An error collected on the way is part of the error which is returned. *)
Inductive collected (e : Error) : Error → Prop :=
| collected_itself : collected e e
| collected_among e' es : e' ∈ es → collected e e' → collected e (MultipleErrors es).

(** The text of the returned error shows each of them. *)
Lemma debug_collected e e' : collected e e' → within (debug_error e) (debug_error e').
Proof.
  induction 1 as [|e' es Hin _ IH]; [apply within_refl|].
  eapply within_trans; [exact IH|]. cbn. apply within_variant, within_list.
  by apply (list_elem_of_fmap_2 debug_error).
Qed.
End Debug.
End SupportErrorText.
