(* ===== verification/SupportTopology.v ===== *)
(** * Supportability: topologies

    Models [k8s/supportability/src/collect/resources]: the topologies of nodes, pools,
    replicas, volumes and snapshots, how each is collected from the storage REST API,
    written to a directory, and which services of the data plane it involves. *)

From S2P Require Import Prelude Text JobApi HelmValues SupportApi.
From stdpp Require Import base gmap list strings.
From Stdlib Require Import ZArith Lia Ascii.
Open Scope string_scope.

(** ** [traits.rs] *)
Module Traits.
Import SupportApi.

Definition RESOURCE_TO_CONTAINER_NAME : gmap string string := list_to_map
  [("node", DATA_PLANE_CONTAINER_NAME); ("pool", DATA_PLANE_CONTAINER_NAME);
   ("nexus", DATA_PLANE_CONTAINER_NAME); ("replica", DATA_PLANE_CONTAINER_NAME);
   ("device", DATA_PLANE_CONTAINER_NAME)].
Definition MAYASTOR_DAEMONSET_LABEL : string := "app=io-engine".

Record ResourceInformation := mkResourceInformation {
  ri_container_name : string; ri_host_name : string; ri_label_selector : list string
}.
#[export] Instance ResourceInformation_eq_dec : EqDecision ResourceInformation.
Proof. solve_decision. Defined.

(** [default] with the three setters: the io-engine on a host; the names which the code
    looks up are all in the map. *)
Definition container_of (resource : string) : string :=
  default "" (RESOURCE_TO_CONTAINER_NAME !! resource).
Definition resource_info (resource host : string) : ResourceInformation :=
  mkResourceInformation (container_of resource) host [MAYASTOR_DAEMONSET_LABEL].

(** [Topologer]; [None] is the panic of [unimplemented!()] *)
Class Topologer (T : Type) := {
  get_printable_topology : T → ResourceError + (string * string);
  dump_topology_info : T → string → sup ResourceError unit;
  get_unhealthy_resource_info : T → option (list ResourceInformation);
  get_all_resource_info : T → option (list ResourceInformation);
  get_k8s_resource_names : T → option (list string)
}.
(** [Box<dyn Topologer>] *)
Inductive dyn_topologer :=
| Dyn {T}  (impl : Topologer T) (t : T).
#[export] Instance dyn_Topologer : Topologer dyn_topologer := {
  get_printable_topology d := match d with Dyn impl t => @get_printable_topology _ impl t end;
  dump_topology_info d := match d with Dyn impl t => @dump_topology_info _ impl t end;
  get_unhealthy_resource_info d := match d with Dyn impl t => @get_unhealthy_resource_info _ impl t end;
  get_all_resource_info d := match d with Dyn impl t => @get_all_resource_info _ impl t end;
  get_k8s_resource_names d := match d with Dyn impl t => @get_k8s_resource_names _ impl t end
}.

(** The body which every [dump_topology_info] shares: a file in a directory *)
Definition dump_file `{SupportCrates} (dir_path file_name : string) (doc : document)
  : sup ResourceError unit :=
  do! create_directory_if_not_exist RE_IOError dir_path in
  let file_path := path_join dir_path file_name in
  do! req! (CreateFile file_path) or RE_IOError in
  let! topology_as_pretty := checked RE_JSONError (json_pretty doc) in
  do! req! (WriteAll file_path topology_as_pretty) or RE_IOError in
  req! (Flush file_path) or RE_IOError.

(** The body which every [get_printable_topology] shares *)
Definition printable `{SupportCrates} (file_path : string) (doc : document)
  : ResourceError + (string * string) :=
  match json_pretty doc with
  | inl e => inl (RE_JSONError e)
  | inr s => inr (file_path, s)
  end.
End Traits.

(** ** [utils.rs]: a list of topologies *)
Module Utils.
Import SupportApi Traits.

Definition MAX_RESOURCE_ENTRIES : Z := 200.

(** What the loops with [extend] build *)
Definition extend_all {T} (f : T → option (list ResourceInformation)) (l : list T)
  : option (list ResourceInformation) :=
  foldr (λ t k acc, x ← f t; k (set_extend acc x)) Some l [].

#[export] Instance Vec_Topologer `{SupportCrates} {T} (impl : Topologer T) (doc : T → document)
  : Topologer (list T) := {
  get_printable_topology l := printable "all-topology.json" (DVec (doc <$> l));
  dump_topology_info l dir_path := forM_ (λ obj, dump_topology_info obj dir_path) l;
  get_unhealthy_resource_info := extend_all get_unhealthy_resource_info;
  get_all_resource_info := extend_all get_all_resource_info;
  get_k8s_resource_names l := mjoin <$> mapM get_k8s_resource_names l
}.

(** The paging which the listings of volumes and of snapshots share *)
Definition list_entries {T} (fuel : nat) (page : option Z → sup ResourceError (Entries T))
  : sup ResourceError (list T) :=
  loop fuel (λ st : list T * option Z,
    let! resp := page st.2 in
    let acc := (st.1 ++ resp.(entries))%list in
    match resp.(next_token) with
    | None => Ret (inr acc)
    | Some _ => Ret (inl (acc, resp.(next_token)))
    end) ([], Some 0%Z).
End Utils.

(** ** [node.rs] *)
Module NodeResource.
Import SupportApi Traits Utils.
Section Node.
Context `{SupportCrates}.

Definition is_device_not_online (_ : BlockDevice) : bool := false.
Definition is_node_online (s : NodeStatus) : bool := match s with NodeOnline => true | _ => false end.

Definition get_device_node_info (t : NodeTopology) (predicate_fn : BlockDevice → bool)
  : list ResourceInformation :=
  match t.(nt_devices) with
  | Some devices =>
      set_of ((λ _, resource_info "device" t.(nt_node).(node_id))
                <$> base.filter (λ d, predicate_fn d = true) devices)
  | None => []
  end.

(** The part of [get_unhealthy_resource_info] about a node, which pools share *)
Definition unhealthy_node (n : Node) : list ResourceInformation :=
  match n.(node_state) with
  | Some st => if is_node_online st.(ns_status) then [] else [resource_info "node" st.(ns_id)]
  | None => match n.(node_spec_id) with Some id => [resource_info "node" id] | None => [] end
  end.

Definition node_file (t : NodeTopology) : string := "node-" +:+ t.(nt_node).(node_id) +:+ "-topology.json".

#[export] Instance NodeTopology_Topologer : Topologer NodeTopology := {
  get_printable_topology t := printable (node_file t) (DNode t);
  dump_topology_info t dir_path := dump_file dir_path (node_file t) (DNode t);
  get_unhealthy_resource_info t :=
    Some (set_extend (unhealthy_node t.(nt_node)) (get_device_node_info t is_device_not_online));
  get_all_resource_info t :=
    Some (match t.(nt_node).(node_spec_id) with Some id => [resource_info "node" id] | None => [] end);
  get_k8s_resource_names t := Some []
}.

(** [NodeClientWrapper] *)
Definition list_nodes : sup ResourceError (list Node) := req! GetNodes or RE_RestJsonError.
Definition get_node (id : string) : sup ResourceError Node := req! (GetNode id) or RE_RestJsonError.
Definition list_node_block_devices (id : string) : sup ResourceError (list BlockDevice) :=
  let! r := ask (GetNodeBlockDevices id) in
  match r with
  | inr devices => Ret devices
  | inl err => do! checked (λ e, e) (not_found_rest_json_error (RE_RestJsonError err)) in Ret []
  end.

(** The devices of a node which is online *)
Definition node_topology (node : Node) (id : string) : sup ResourceError NodeTopology :=
  match node.(node_state) with
  | Some st =>
      if is_node_online st.(ns_status)
      then let! devices := list_node_block_devices id in Ret (mkNodeTopology node (Some devices))
      else Ret (mkNodeTopology node None)
  | None => Ret (mkNodeTopology node None)
  end.

Definition NodeClient_get_topologer (id : option string) : sup ResourceError dyn_topologer :=
  match id with
  | Some node_id =>
      let! node := get_node node_id in
      let! t := node_topology node node_id in
      Ret (Dyn NodeTopology_Topologer t)
  | None =>
      let! mayastor_nodes := list_nodes in
      let! nodes_topology := foldM (λ acc node,
        let! t := node_topology node node.(node_id) in
        Ret (acc ++ [t])%list) mayastor_nodes [] in
      match nodes_topology with
      | [] =>
          do! log "No Node resources, Are daemonset pods in Running State?!!" in
          Throw (Err (RE_CustomError "No Node resources"))
      | _ => Ret (Dyn (Vec_Topologer NodeTopology_Topologer DNode) nodes_topology)
      end
  end.
End Node.
End NodeResource.

(** ** [pool.rs] *)
Module PoolResource.
Import SupportApi Traits Utils NodeResource.
Section Pool.
Context `{SupportCrates}.

Definition is_pool_not_online (s : PoolStatus) : bool :=
  match s with PoolOnline => false | _ => true end.

Definition get_pool_info (t : PoolTopology) (predicate_fn : PoolStatus → bool)
  : list ResourceInformation :=
  match t.(pt_pool).(pool_state) with
  | Some st => if predicate_fn st.(ps_status) then [resource_info "pool" st.(ps_node)] else []
  | None =>
      match t.(pt_pool).(pool_spec) with
      | Some spec => [resource_info "pool" spec.(pspec_node)]
      | None => []
      end
  end.

Definition pool_file (t : PoolTopology) : string := "pool-" +:+ t.(pt_pool).(pool_id) +:+ "-topology.json".
Definition pool_unhealthy (t : PoolTopology) : list ResourceInformation :=
  set_extend (match t.(node_info) with Some n => unhealthy_node n | None => [] end)
    (get_pool_info t is_pool_not_online).
#[export] Instance PoolTopology_Topologer : Topologer PoolTopology := {
  get_printable_topology t := printable (pool_file t) (DPool t);
  dump_topology_info t dir_path := dump_file dir_path (pool_file t) (DPool t);
  get_unhealthy_resource_info t := Some (pool_unhealthy t);
  get_all_resource_info t := Some (get_pool_info t (λ _, true));
  get_k8s_resource_names t := Some [t.(pt_pool).(pool_id)]
}.

Definition is_it_pool_device (spec : PoolSpec) (device : BlockDevice) : bool :=
  let device_links :=
    set_insert device.(devpath) (set_insert device.(devname) (set_of device.(devlinks))) in
  existsb (λ d, bool_decide (d ∈ device_links)) spec.(disks).

(** [PoolClientWrapper] *)
Definition list_pools : sup ResourceError (list Pool) := req! GetPools or RE_RestJsonError.
Definition get_pool (id : string) : sup ResourceError Pool := req! (GetPool id) or RE_RestJsonError.
Definition get_pool_node_info (pool : Pool) : sup ResourceError (option Node) :=
  match pool.(pool_spec) with
  | Some spec => let! node := req! (GetNode spec.(pspec_node)) or RE_RestJsonError in Ret (Some node)
  | None => Ret None
  end.
Definition get_pool_disks_info (pool : Pool) : sup ResourceError (option (list BlockDevice)) :=
  match pool.(pool_spec) with
  | Some spec =>
      let! devices := req! (GetNodeBlockDevices spec.(pspec_node)) or RE_RestJsonError in
      Ret (Some (base.filter (λ d, is_it_pool_device spec d = true) devices))
  | None => Ret None
  end.

(** The [match] which logs an error and goes on without the part *)
Definition or_log {E A} (p : sup E (option A)) (msg : string) : sup E (option A) :=
  let! r := try_ p in
  match r with
  | inr a => Ret a
  | inl _ => do! log msg in Ret None
  end.
Definition pool_topology (pool : Pool) (what : string) : sup ResourceError PoolTopology :=
  let! n := or_log (get_pool_node_info pool) ("Failed to get node information for " +:+ what) in
  let! d := or_log (get_pool_disks_info pool) ("Failed to get device information for " +:+ what) in
  Ret (mkPoolTopology pool n d).

(** [get_topologer(Some(id))], whose result is a [PoolTopology] *)
Definition get_pool_topologer (pool_id : string) : sup ResourceError PoolTopology :=
  let! pool := get_pool pool_id in
  pool_topology pool ("pool: " +:+ pool_id).
Definition PoolClient_get_topologer (id : option string) : sup ResourceError dyn_topologer :=
  match id with
  | Some pool_id =>
      let! t := get_pool_topologer pool_id in
      Ret (Dyn PoolTopology_Topologer t)
  | None =>
      let! pools := list_pools in
      let! pools_topology := foldM (λ acc pool,
        let! t := pool_topology pool "pools" in
        Ret (acc ++ [t])%list) pools [] in
      Ret (Dyn (Vec_Topologer PoolTopology_Topologer DPool) pools_topology)
  end.
End Pool.
End PoolResource.

(** ** [replica.rs] *)
Module ReplicaResource.
Import SupportApi Traits Utils PoolResource.
Section Replica.
Context `{SupportCrates}.

Definition is_replica_online (s : ReplicaState) : bool :=
  match s with ReplicaOnline => true | _ => false end.
Definition get_unhealthy_resources (t : ReplicaTopology) : list ResourceInformation :=
  match pool_unhealthy t.(SupportApi.pool_topology) with
  | [] =>
      if is_replica_online t.(rt_replica).(replica_state) then []
      else [resource_info "replica" t.(rt_replica).(replica_node)]
  | resources => resources
  end.
Definition get_all_resources (t : ReplicaTopology) : list ResourceInformation :=
  [resource_info "replica" t.(rt_replica).(replica_node)].
Definition replica_k8s_resource_names (t : ReplicaTopology) : list string :=
  [t.(SupportApi.pool_topology).(pt_pool).(pool_id)].

(** [ReplicaClientWrapper] *)
Definition list_replicas : sup ResourceError (list Replica) := req! GetReplicas or RE_RestJsonError.
Definition get_replica (id : Uuid) : sup ResourceError Replica := req! (GetReplica id) or RE_RestJsonError.
(** The downcast succeeds: the topologer of one pool is a [PoolTopology]. *)
Definition get_replica_topology (id : Uuid) : sup ResourceError ReplicaTopology :=
  let! replica := get_replica id in
  let! t := get_pool_topologer replica.(replica_pool) in
  Ret (mkReplicaTopology replica t).
End Replica.
End ReplicaResource.

(** ** [volume.rs] *)
Module VolumeResource.
Import SupportApi Traits Utils ReplicaResource.
Section Volume.
Context `{SupportCrates} `{HashOrder}.

Definition is_nexus_online (s : NexusState) : bool :=
  match s with NexusOnline => true | _ => false end.

Definition volume_file (t : VolumeTopology) : string :=
  "volume-" +:+ t.(vt_volume).(vol_uuid) +:+ "-topology.json".
Definition volume_unhealthy (t : VolumeTopology) : list ResourceInformation :=
  let resources :=
    fold_left (λ acc r, set_extend acc (get_unhealthy_resources r)) t.(replicas_topology) [] in
  match t.(vt_target) with
  | Some nexus =>
      if is_nexus_online nexus.(nexus_state) then resources
      else set_insert (resource_info "nexus" nexus.(nexus_node)) resources
  | None => resources
  end.
(** The information of the nexus is built and dropped. *)
Definition volume_all (t : VolumeTopology) : list ResourceInformation :=
  fold_left (λ acc r, set_extend acc (get_all_resources r)) t.(replicas_topology) [].

#[export] Instance VolumeTopology_Topologer : Topologer VolumeTopology := {
  get_printable_topology t := printable (volume_file t) (DVolume t);
  dump_topology_info t dir_path := dump_file dir_path (volume_file t) (DVolume t);
  get_unhealthy_resource_info t := Some (volume_unhealthy t);
  get_all_resource_info t := Some (volume_all t);
  get_k8s_resource_names t := Some (t.(replicas_topology) ≫= replica_k8s_resource_names)
}.

(** [VolumeClientWrapper] *)
Definition list_volumes (fuel : nat) : sup ResourceError (list Volume) :=
  list_entries fuel (λ next_token,
    req! (GetVolumes MAX_RESOURCE_ENTRIES next_token) or RE_RestJsonError).
Definition get_volume (id : Uuid) : sup ResourceError Volume := req! (GetVolume id) or RE_RestJsonError.
Definition get_rebuild_history (id : Uuid) : sup ResourceError RebuildHistory :=
  req! (GetRebuildHistory id) or RE_RestJsonError.

(** The replicas of a volume; those which are not found are left out.  [parse] is [?] or
    [unwrap] on the result of parsing an id. *)
Definition replicas_of (parse : ext_error + Uuid → sup ResourceError Uuid) (volume : Volume)
  : sup ResourceError (list ReplicaTopology) :=
  foldM (λ acc replica_id_str,
    let! replica_uuid := parse (uuid_parse replica_id_str) in
    let! r := try_ (get_replica_topology replica_uuid) in
    match r with
    | inr topology => Ret (acc ++ [topology])%list
    | inl err => do! checked (λ e, e) (not_found_rest_json_error err) in Ret acc
    end) (hash_order volume.(replica_topology)) [].
Definition question_mark (r : ext_error + Uuid) : sup ResourceError Uuid := checked RE_UUIDParseError r.
Definition unwrap_result (r : ext_error + Uuid) : sup ResourceError Uuid :=
  match r with inr u => Ret u | inl _ => Throw Panic end.

(** One volume; [id] is the one its rebuild history is asked for *)
Definition volume_topology (parse : ext_error + Uuid → sup ResourceError Uuid)
    (volume : Volume) (id : Uuid) : sup ResourceError VolumeTopology :=
  let! rs := replicas_of parse volume in
  let! r := try_ (get_rebuild_history id) in
  let! rebuild_history :=
    match r with
    | inr h => Ret (Some h)
    | inl _ => do! log ("Could not fetch rebuild history for " +:+ id) in Ret None
    end in
  Ret (mkVolumeTopology volume volume.(vol_target) rs rebuild_history).

Definition VolumeClient_get_topologer (fuel : nat) (id : option Uuid) : sup ResourceError dyn_topologer :=
  match id with
  | Some volume_id =>
      let! volume := get_volume volume_id in
      let! t := volume_topology question_mark volume volume_id in
      Ret (Dyn VolumeTopology_Topologer t)
  | None =>
      let! volumes := list_volumes fuel in
      let! volumes_topology := foldM (λ acc volume,
        let! t := volume_topology unwrap_result volume volume.(vol_uuid) in
        Ret (acc ++ [t])%list) volumes [] in
      Ret (Dyn (Vec_Topologer VolumeTopology_Topologer DVolume) volumes_topology)
  end.
End Volume.
End VolumeResource.

(** ** [snapshot.rs] *)
Module SnapshotResource.
Import SupportApi Traits Utils.
Section Snapshot.
Context `{SupportCrates}.

Definition snapshot_file (t : VolumeSnapshotTopology) : string :=
  "snapshot-" +:+ t.(st_snapshot).(snap_uuid) +:+ "-topology.json".
#[export] Instance SnapshotTopology_Topologer : Topologer VolumeSnapshotTopology := {
  get_printable_topology t := printable (snapshot_file t) (DSnapshot t);
  dump_topology_info t dir_path := dump_file dir_path (snapshot_file t) (DSnapshot t);
  get_unhealthy_resource_info t := None;
  get_all_resource_info t := None;
  get_k8s_resource_names t := None
}.

Definition list_snapshots (fuel : nat) : sup ResourceError (list VolumeSnapshot) :=
  list_entries fuel (λ next_token,
    req! (GetVolumesSnapshots MAX_RESOURCE_ENTRIES next_token) or RE_RestJsonError).
Definition get_snapshot (id : Uuid) : sup ResourceError VolumeSnapshot :=
  req! (GetVolumesSnapshot id) or RE_RestJsonError.

Definition SnapshotClient_get_topologer (fuel : nat) (id : option Uuid) : sup ResourceError dyn_topologer :=
  match id with
  | Some snapshot_id =>
      let! snapshot := get_snapshot snapshot_id in
      Ret (Dyn SnapshotTopology_Topologer (mkVolumeSnapshotTopology snapshot))
  | None =>
      let! snapshots := list_snapshots fuel in
      Ret (Dyn (Vec_Topologer SnapshotTopology_Topologer DSnapshot)
             (mkVolumeSnapshotTopology <$> snapshots))
  end.
End Snapshot.
End SnapshotResource.
