(* ===== verification/SupportK8s.v ===== *)
(** * Supportability: Kubernetes resources

    Models [k8s/supportability/src/collect/k8s_resources]: the listings of [client.rs] and
    the dump of [k8s_resource_dump.rs]. *)

From S2P Require Import Prelude Text JobApi SupportApi.
From stdpp Require Import base gmap list strings.
From Stdlib Require Import ZArith Lia Ascii.
Open Scope string_scope.

(** ** [client.rs] *)
Module K8sClient.
Import SupportApi.

Definition SNAPSHOT_GROUP : string := "snapshot.storage.k8s.io".
Definition SNAPSHOT_VERSION : string := "v1".
Definition VOLUME_SNAPSHOT_CLASS : string := "VolumeSnapshotClass".
Definition VOLUME_SNAPSHOT_CONTENT : string := "VolumeSnapshotContent".

Abbreviation k8s := (sup K8sResourceError).

Record ClientSet := mkClientSet { namespace : string }.

(** [ClientSet::new] *)
Definition ClientSet_new (kube_config_path : option string) (namespace : string) : k8s ClientSet :=
  do! match kube_config_path with
      | Some config_path =>
          do! req! (ReadKubeconfig config_path) or KE_ClientConfigError in
          req! CustomKubeconfig or KE_ClientConfigError
      | None => req! InferConfig or KE_InferConfigError
      end in
  do! req! ClientTryFrom or KE_ClientError in
  Ret (mkClientSet namespace).

(** [ListParams::default().labels(..).fields(..)], with or without a limit *)
Definition params (label_selector field_selector : string) (limit : option Z) : ListParams :=
  mkListParams (Some label_selector) (Some field_selector) limit None.
Definition with_token (token : string) (lp : ListParams) : ListParams :=
  mkListParams lp.(label_selector) lp.(field_selector) lp.(limit) (Some token).

(** [dynamic_object_api]: the first listable resource of the group with this version and
    kind decides. *)
Definition not_available (kind_ group_name version : string) : K8sResourceError :=
  KE_CustomError ("DynamicObject Api not available for " +:+ kind_ +:+ " of " +:+ group_name +:+ "/"
                  +:+ version).
Definition matching (group_ version kind_ : string) (groups : list ApiGroup) : option ApiResource :=
  head (base.filter (λ ar, supports_list ar = true ∧ ar_version ar = version ∧ ar_kind ar = kind_)
    (base.filter (λ g, group_name g = group_) groups ≫= recommended_resources)).
Definition dynamic_object_api (ns : option string) (group_ version kind_ : string)
  : k8s (ApiResource * option string) :=
  let! groups := req! Discover or KE_ClientError in
  match matching group_ version kind_ groups with
  | Some ar =>
      match ns, ar.(scope) with
      | None, Cluster => Ret (ar, None)
      | Some ns, Namespaced => Ret (ar, Some ns)
      | _, _ => Throw (Err (not_available kind_ group_ version))
      end
  | None => Throw (Err (not_available kind_ group_ version))
  end.

Definition get_nodes_map : k8s (gmap string KNode) :=
  let! nodes := req! (KList Nodes None (mkListParams None None None None)) or KE_ClientError in
  foldM (λ (m : gmap string KNode) (node : KNode),
    let! n := some_or (KE_CustomError "Unable to get node name") node.(kn_meta).(name) in
    Ret (<[n := node]> m)) nodes.(items) ∅.

(** The loops which follow the [continue] token; [stop] is where they end. *)
Definition list_all {T} (fuel : nat) (page : ListParams → k8s (ObjectList T))
    (stop : option string → option string) (lp : ListParams) : k8s (list T) :=
  loop fuel (λ st : list T * ListParams,
    let! result := page st.2 in
    let acc := (st.1 ++ result.(items))%list in
    match stop result.(continue_) with
    | None => Ret (inr acc)
    | Some token => Ret (inl (acc, with_token token st.2))
    end) ([], lp).
(** [None => break, Some(token) => ..], and the guard [if !token.is_empty()] *)
Definition any_token (t : option string) : option string := t.
Definition nonempty_token (t : option string) : option string :=
  match t with Some "" => None | t => t end.

Section Client.
Variable cs : ClientSet.

Definition get_pods (fuel : nat) (label_selector field_selector : string) : k8s (list Pod) :=
  list_all fuel (λ lp, req! (KList Pods (Some cs.(namespace)) lp) or KE_ClientError) any_token
    (params label_selector field_selector (Some 100%Z)).
Definition get_events (fuel : nat) (label_selector field_selector : string) : k8s (list Event) :=
  list_all fuel (λ lp, req! (KList Events (Some cs.(namespace)) lp) or KE_ClientError) nonempty_token
    (params label_selector field_selector (Some 100%Z)).

(** A listing in which [404] means that there is nothing *)
Definition list_or_empty {T} (r : kube_error + ObjectList T) : K8sResourceError + option (ObjectList T) :=
  match r with
  | inr val => inr (Some val)
  | inl (KubeApi code msg) =>
      if (code =? 404)%Z then inr None else inl (KE_ClientError (KubeApi code msg))
  | inl e => inl (KE_ClientError e)
  end.
Definition list_pools (label_selector field_selector : option string) : k8s (list DiskPool) :=
  let! r := ask (KList DiskPools (Some cs.(namespace))
                   (params (default "" label_selector) (default "" field_selector) None)) in
  let! l := checked (λ e, e) (list_or_empty r) in
  Ret (match l with Some l => l.(items) | None => [] end).

Definition driver_is (driver_selector : option string) (driver : option string) : bool :=
  match driver_selector with None => true | Some s => bool_decide (driver = Some s) end.
Definition list_volumesnapshot_classes (driver_selector label_selector field_selector : option string)
  : k8s (list DynamicObject) :=
  let lp := params (default "" label_selector) (default "" field_selector) None in
  let! api := dynamic_object_api None SNAPSHOT_GROUP SNAPSHOT_VERSION VOLUME_SNAPSHOT_CLASS in
  let! r := ask (KList (Dynamic api.1) api.2 lp) in
  let! l := checked (λ e, e) (list_or_empty r) in
  Ret (match l with
       | Some l => base.filter (λ o, driver_is driver_selector o.(dyn_driver) = true) l.(items)
       | None => []
       end : list DynamicObject).
(** In the loop a [404] drops what the pages before have given. *)
Definition list_volumesnapshotcontents (fuel : nat)
    (driver_selector label_selector field_selector : option string) : k8s (list DynamicObject) :=
  let lp := params (default "" label_selector) (default "" field_selector) (Some 2%Z) in
  let! api := dynamic_object_api None SNAPSHOT_GROUP SNAPSHOT_VERSION VOLUME_SNAPSHOT_CONTENT in
  loop fuel (λ st : list DynamicObject * ListParams,
    let! r := ask (KList (Dynamic api.1) api.2 st.2) in
    let! l := checked (λ e, e) (list_or_empty r) in
    match l with
    | None => Ret (inr [])
    | Some vscs =>
        let acc := (st.1 ++ base.filter
          (λ o, driver_is driver_selector o.(dyn_spec_driver) = true) vscs.(items))%list in
        match nonempty_token vscs.(continue_) with
        | Some token => Ret (inl (acc, with_token token st.2))
        | None => Ret (inr acc)
        end
    end) ([], lp).

Definition get_deployments (label_selector field_selector : string) : k8s (list Workload) :=
  let! l := req! (KList Deployments (Some cs.(namespace)) (params label_selector field_selector None))
            or KE_ClientError in
  Ret l.(items).
Definition get_daemonsets (label_selector field_selector : string) : k8s (list Workload) :=
  let! l := req! (KList DaemonSets (Some cs.(namespace)) (params label_selector field_selector None))
            or KE_ClientError in
  Ret l.(items).
Definition get_statefulsets (label_selector field_selector : string) : k8s (list Workload) :=
  let! l := req! (KList StatefulSets (Some cs.(namespace)) (params label_selector field_selector None))
            or KE_ClientError in
  Ret l.(items).
End Client.

Definition get_hostname (node_name : string) : k8s string :=
  let! node := req! (KGetNode node_name) or KE_ClientError in
  let! ls := some_or (KE_CustomError ("No labels available on node '" +:+ node_name +:+ "'"))
               node.(kn_meta).(labels) in
  some_or (KE_CustomError ("Node '" +:+ KUBERNETES_HOST_LABEL_KEY +:+ "' label not found on node "
                           +:+ node_name)) (ls !! KUBERNETES_HOST_LABEL_KEY).
Definition get_nodename (host_name : string) : k8s string :=
  let! nodes := req! (KList Nodes None
      (mkListParams (Some (KUBERNETES_HOST_LABEL_KEY +:+ "=" +:+ host_name)) None None None))
    or KE_ClientError in
  match nodes.(items) with
  | [] => Throw (Err (KE_CustomError ("No node found for hostname " +:+ host_name)))
  | node :: _ => unwrap node.(kn_meta).(name)
  end.
End K8sClient.

(** ** [k8s_resource_dump.rs] *)
Module K8sResourceDump.
Import SupportApi K8sClient.
Section Dump.
Context `{SupportCrates} `{SortUnstable}.
Abbreviation dump := (sup K8sResourceDumperError).

(** [K8sResourceDumperClient::new] *)
Definition K8sResourceDumperClient_new (kube_config_path : option string) (namespace : string)
  : dump ClientSet :=
  map_err KD_K8sResourceError (ClientSet_new kube_config_path namespace).

(** A flush which fails panics. *)
Definition create_file_and_write (file_path file_name content : string) : sup io_error unit :=
  let path := path_join file_path file_name in
  do! req! (CreateFile path) or id in
  do! req! (WriteAll path content) or id in
  let! r := ask (Flush path) in
  match r with inr _ => Ret tt | inl _ => Throw Panic end.

(** [EntityName::name]: [unwrap] *)
Definition entity_name {E} (app : Workload) : sup E string := unwrap app.(wl_name).

Definition create_app_configurations (doc : Workload → document) (apps : list Workload)
    (dir_path : string) : dump unit :=
  forM_ (λ app,
    match yaml (doc app) with
    | inl e => let! n := entity_name app in log ("Error serializing the app : " +:+ n)
    | inr serialized =>
        let! n := entity_name app in
        let! r := try_ (create_file_and_write dir_path (n +:+ ".yaml") serialized) in
        match r with
        | inr _ => Ret tt
        | inl e => log ("Error creating or writing file for the app : " +:+ n)
        end
    end) apps.

(** [event_time]: [None] is a panic *)
Definition event_time (event : Event) : option Z :=
  match event.(series) with
  | Some last_observed_time => last_observed_time
  | None =>
      match event.(last_timestamp) with
      | Some t => Some t
      | None => event.(ev_event_time)
      end
  end.
(** [sort_unstable_by_key]: a list of two elements or more has all its keys computed, a
    shorter one none. *)
Definition sort_events (events : list Event) : option (list Event) :=
  if (length events <? 2)%nat then Some events
  else
    keyed ← mapM (λ e, t ← event_time e; Some (t, e)) events;
    Some (snd <$> sort_unstable_by (λ a b : Z * Event, Z.compare a.1 b.1) keyed).

(** The [match] on a listing: its error is returned *)
Definition listed {A} (p : sup K8sResourceError A) : dump A := map_err KD_K8sResourceError p.
Definition write_yaml (root_dir file_name : string) (doc : document) : dump unit :=
  let! s := checked YamlSerializationError (yaml doc) in
  map_err KD_IOError (create_file_and_write root_dir file_name s).

Section Client.
Variables (cs : ClientSet) (fuel : nat).

Definition get_k8s_daemonsets (configurations_path : string) : dump unit :=
  do! log "	 Collecting daemonsets configuration" in
  let! daemonsets := listed (get_daemonsets cs "" "") in
  create_app_configurations DDaemonSet daemonsets configurations_path.
Definition get_k8s_deployments (configurations_path : string) : dump unit :=
  do! log "	 Collecting deployments configuration" in
  let! deploys := listed (get_deployments cs "" "") in
  create_app_configurations DDeployment deploys configurations_path.
Definition get_k8s_statefulsets (configurations_path : string) : dump unit :=
  do! log "	 Collecting statefulsets configuration" in
  let! statefulsets := listed (get_statefulsets cs "" "") in
  create_app_configurations DStatefulSet statefulsets configurations_path.

(** The pools whose name is required; one without a name panics. *)
Definition required (names : list string) (p : DiskPool) : option bool :=
  n ← p.(dp_name); Some (bool_decide (n ∈ names)).
Definition filter_pools (p_names : list string) (disk_pools : list DiskPool) : option (list DiskPool) :=
  foldr (λ p rest, b ← required p_names p; l ← rest; Some (if b : bool then p :: l else l))
    (Some []) disk_pools.
Definition get_k8s_diskpools (root_dir : string) (required_pools : option (list string)) : dump unit :=
  do! log "	 Collecting Kubernetes disk pool resources" in
  let! disk_pools := listed (list_pools cs None None) in
  let! filtered_pools :=
    match required_pools with
    | Some p_names => unwrap (filter_pools p_names disk_pools)
    | None => Ret disk_pools
    end in
  write_yaml root_dir "k8s_disk_pools.yaml" (DDiskPools filtered_pools).
Definition get_k8s_vs_classes (root_dir : string) : dump unit :=
  do! log "	 Collecting Kubernetes VolumeSnapshotClass resources" in
  let! vscs := listed (list_volumesnapshot_classes (Some csi_plugin_name) None None) in
  write_yaml root_dir "volume_snapshot_classes.yaml" (DDynamic vscs).
Definition get_k8s_vsnapshot_contents (root_dir : string) : dump unit :=
  do! log "	 Collecting Kubernetes VolumeSnapshotContents resources" in
  let! vscs := listed (list_volumesnapshotcontents fuel (Some csi_plugin_name) None None) in
  write_yaml root_dir "volume_snapshot_contents.yaml" (DDynamic vscs).
Definition get_k8s_pod_configurations (root_dir : string) : dump unit :=
  do! log "	 Collecting Kuberbetes pod resources" in
  let! pods := listed (get_pods cs fuel "" "") in
  write_yaml root_dir "pods.yaml" (DPods pods).
Definition get_k8s_events (root_dir : string) : dump unit :=
  do! log "	 Collecting Kubernetes events" in
  let! events := listed (get_events cs fuel "" "") in
  let! events := unwrap (sort_events events) in
  let! s := checked JsonSerializationError (json_pretty (DEvents events)) in
  map_err KD_IOError (create_file_and_write root_dir "k8s_events.json" s).

(** The errors of the steps are collected. *)
Definition collect_errors {E E'} (steps : list (sup E unit)) : sup E' (list E) :=
  foldM (λ errors step,
    let! r := try_ step in
    Ret (match r with inl e => errors ++ [e] | inr _ => errors end)%list) steps [].

Definition dump_k8s_resources (root_path : string) (required_pools : option (list string)) : dump unit :=
  let root_dir := path_join root_path "k8s_resources" in
  do! create_directory_if_not_exist KD_IOError root_dir in
  let configurations_path := path_join root_dir "configurations" in
  do! create_directory_if_not_exist KD_IOError configurations_path in
  let! errors := collect_errors
    [get_k8s_events root_dir; get_k8s_daemonsets configurations_path;
     get_k8s_deployments configurations_path; get_k8s_statefulsets configurations_path;
     get_k8s_diskpools root_dir required_pools; get_k8s_vs_classes root_dir;
     get_k8s_vsnapshot_contents root_dir; get_k8s_pod_configurations root_dir] in
  match errors with
  | [] => Ret tt
  | _ => Throw (Err (KD_MultipleErrors errors))
  end.
End Client.
End Dump.
End K8sResourceDump.
