(* ===== verification/SupportLogs.v ===== *)
(** * Supportability: logs

    Models [k8s/supportability/src/collect/logs]: the historic logs of Loki ([loki.rs]),
    the current logs of the pods ([k8s_log.rs]) and what collects both ([mod.rs]). *)

From S2P Require Import Prelude Text JobApi HelmValues SupportApi SupportK8s.
From stdpp Require Import base gmap list strings pretty.
From Stdlib Require Import ZArith Lia Ascii.
Open Scope string_scope.

(** ** Strings *)
Module SupportText.

(** [str::split] on a character *)
Fixpoint split_on (c : ascii) (s : string) : list string :=
  match s with
  | "" => [""]
  | String a s' =>
      if decide (a = c) then "" :: split_on c s'
      else match split_on c s' with
           | x :: l => String a x :: l
           | [] => [String a ""]
           end
  end.
(** [str::replace] of a character by a character *)
Fixpoint replace_char (c d : ascii) (s : string) : string :=
  match s with
  | "" => ""
  | String a s' => String (if decide (a = c) then d else a) (replace_char c d s')
  end.
Definition trim_end (s : string) : string :=
  let l := chars s in
  String.string_of_list_ascii
    (reverse (strip_all (length l) (reverse <$> white_space) (reverse l))).
(** [parse::<u128>] *)
Definition U128 : Z := 2 ^ 128.
Definition parse_u128 (s : string) : option Z :=
  let z := match chars s with
    | "+"%char :: l => digits_value l
    | l => digits_value l
    end in
  match z with
  | Some n => if (n <? U128)%Z then Some n else None
  | None => None
  end.
End SupportText.

(** ** [loki.rs] *)
Module LokiLogs.
Import SupportApi SupportText.
Abbreviation loki := (sup LokiError).

Definition ENDPOINT : string := "/loki/api/v1/query_range".
Definition SERVICE_NAME : string := "loki".

(** [get_last_stream_unix_time] *)
Definition get_last_stream_unix_time (r : LokiResponse) : Z :=
  match last r.(result) with
  | Some last_stream =>
      default 0%Z (parse_u128 (default "0" (head (default [] (last last_stream.(values))))))
  | None => 0%Z
  end.

(** [LogDirection::Forward], the only direction *)
Definition direction : string := "forward".

Record LokiClient := mkLokiClient { uri : string; logs_endpoint : string; since : Z; limit : Z }.

(** The clock is asked for, and a time which it cannot represent panics; [u128] wraps. *)
Definition get_epoch_unix_time {E} (since_nanos : Z) : sup E Z :=
  let! now := ask NowNanos in
  let! timestamp := unwrap now in
  Ret ((timestamp - since_nanos) `mod` U128)%Z.

(** [LokiClient::new] *)
Definition LokiClient_new {E} (uri_ : option string) (kube_config_path : option string)
    (namespace : string) (since_nanos : Z) : sup E (option LokiClient) :=
  let! u :=
    match uri_ with
    | None =>
        let! r := ask (LokiProxy kube_config_path namespace) in
        match r with
        | inr uri => Ret (Some uri)
        | inl error => do! log ("Failed to create loki client (" +:+ error +:+ "). Continuing...") in Ret None
        end
    | Some uri => Ret (Some uri)
    end in
  match u with
  | None => Ret None
  | Some uri =>
      let! since := get_epoch_unix_time since_nanos in
      Ret (Some (mkLokiClient uri ENDPOINT since 3000))
  end.

(** The lines of a response: the second component of each value, unless it is empty *)
Definition logs_of (r : LokiResponse) : list string :=
  r.(result) ≫= λ stream,
    base.filter (λ val, val ≠ "") ((λ value : list string, default "" (value !! 1%nat)) <$> stream.(values)).

(** [LokiPoll]; its state is [since], as [next_start_epoch_timestamp] stays zero and both
    of its cases start at [since]. *)
Record LokiPoll := mkLokiPoll { poll_uri : string; poll_endpoint : string; query_params : string }.
Definition request_str (p : LokiPoll) (since : Z) : string :=
  p.(poll_uri) +:+ p.(poll_endpoint) +:+ p.(query_params) +:+ "&start=" +:+ pretty since.
Definition poll_next (p : LokiPoll) (since : Z) : loki (option (list string) * Z) :=
  let! answer := ask (LokiCall (request_str p since)) in
  match answer with
  | LokiRequestErr e => Throw (Err (Request e))
  | LokiTowerErr e => Throw (Err (Tower e))
  | LokiFailure text => Throw (Err (Response text))
  | LokiHyperErr e => Throw (Err (Hyper e))
  | LokiSerdeErr e => Throw (Err (Serde e))
  | LokiOk loki_response =>
      if bool_decide (loki_response.(status) = "success" ∧ loki_response.(result) = [])
      then Ret (None, since)
      else
        let last_unix_time := get_last_stream_unix_time loki_response in
        if (last_unix_time =? 0)%Z then Ret (None, since)
        else Ret (Some (logs_of loki_response), (last_unix_time + 1000000) `mod` U128)%Z
  end.

(** [app=mayastor,openebs.io/storage=mayastor] becomes
    [app="mayastor",openebs_io_storage="mayastor"]; a pair without [=] panics. *)
Definition quoted (s : string) : string := String dquote s +:+ String dquote "".
Definition label_filter (key_value_pair : string) : option string :=
  match split_on "="%char key_value_pair with
  | k :: v :: _ => Some (replace_char "/"%char "_"%char (replace_char "."%char "_"%char (k +:+ "=" +:+ quoted v +:+ ",")))
  | _ => None
  end.
Definition label_filters (label_selector : string) : option string :=
  l ← mapM label_filter (split_on ","%char label_selector);
  Some (pop (foldr String.append "" l)).

Definition file_and_query (filters container_name : string) (host_name : option string)
  : string * string :=
  match host_name with
  | Some host_name =>
      (host_name +:+ "-" +:+ SERVICE_NAME +:+ "-" +:+ container_name +:+ ".log",
       "{" +:+ filters +:+ ",container=" +:+ quoted container_name +:+ ",hostname=~"
       +:+ quoted (host_name +:+ ".*") +:+ "}")
  | None =>
      (SERVICE_NAME +:+ "-" +:+ container_name +:+ ".log",
       "{" +:+ filters +:+ ",container=" +:+ quoted container_name +:+ "}")
  end.

Section Fetch.
Context `{SupportCrates}.

(** The loop of [fetch_and_dump_logs]; its state is [is_written] and the start time *)
Definition fetch_round (poller : LokiPoll) (file_path : string) (st : bool * Z)
  : loki (bool * Z + unit) :=
  let! r := try_ (poll_next poller st.2) in
  match r with
  | inr (None, _) => Ret (inr tt)
  | inr (Some result, since) =>
      do! forM_ (λ msg,
        req! (WriteAll file_path (trim_end msg +:+ String newline "")) or LK_IOError) result in
      Ret (inl (true, since))
  | inl e =>
      do! (if st.1 then Ret tt
           else
             let! r := ask (RemoveFile file_path) in
             match r with
             | inl e => log ("[Warning] Failed to remove empty historic log file " +:+ e)
             | inr _ => Ret tt
             end) in
      let! r := write_to_log_file "[Warning] While fetching logs from Loki" in
      do! checked LK_IOError r in
      Throw (Err e)
  end.
Definition fetch_loop (fuel : nat) (poller : LokiPoll) (file_path : string) (since : Z) : loki unit :=
  loop fuel (fetch_round poller file_path) (false, since).

Definition Loki_fetch_and_dump_logs (fuel : nat) (c : LokiClient) (label_selector container_name : string)
    (host_name : option string) (service_dir : string) : loki unit :=
  let! filters := unwrap (label_filters label_selector) in
  let '(file_name, new_query_field) := file_and_query filters container_name host_name in
  let query_params :=
    "?query=" +:+ url_encode new_query_field +:+ "&limit=" +:+ pretty c.(limit)
    +:+ "&direction=" +:+ direction in
  let poller := mkLokiPoll c.(uri) c.(logs_endpoint) query_params in
  let file_path := path_join service_dir file_name in
  do! req! (CreateFile file_path) or LK_IOError in
  fetch_loop fuel poller file_path c.(since).
End Fetch.
End LokiLogs.

(** ** [k8s_log.rs] *)
Module K8sLogs.
Import SupportApi K8sClient.
Abbreviation klog := (sup K8sLoggerError).

Definition MAX_POLLING_RETRIES : Z := 2.
Definition invalid_value (err : string) : K8sLoggerError := LE_K8sResourceError (KE_CustomError err).

Section Client.
Variables (cs : ClientSet) (fuel : nat).

(** The loop over the lines of the stream; both writes of a line are done, the first
    error counts.  The fourth error of the stream ends it. *)
Definition write_line (path data : string) : klog unit :=
  let! r1 := ask (WriteAll path data) in
  let! r2 := ask (WriteAll path (String newline "")) in
  do! checked LE_IOError r1 in
  checked LE_IOError r2.
Fixpoint write_lines (path : string) (lines : list (io_error + string)) (max_retries : Z) : klog unit :=
  match lines with
  | [] => req! (Flush path) or LE_IOError
  | inr data :: lines => do! write_line path data in write_lines path lines max_retries
  | inl err :: lines =>
      if (MAX_POLLING_RETRIES <? max_retries)%Z
      then
        do! req! (Flush path) or LE_IOError in
        Throw (Err (LE_K8sResourceError (KE_ResourceError err)))
      else write_lines path lines (max_retries + 1)
  end.
Definition write_logs_stream (pod_name container_name path : string) (previous_logs : bool) : klog unit :=
  let! log_stream := req! (LogStream cs.(namespace) pod_name (Some container_name) previous_logs)
                     or (λ e, LE_K8sResourceError (KE_ClientError e)) in
  write_lines path log_stream 0.

Definition create_container_log_file (pod_restarted : bool) (pod_name container_name pod_dir : string)
  : klog unit :=
  let container_file := path_join pod_dir
    (if pod_restarted then "previous_" +:+ container_name +:+ ".log" else container_name +:+ ".log") in
  do! req! (CreateFile container_file) or LE_IOError in
  write_logs_stream pod_name container_name container_file pod_restarted.

(** [container_restart_map] *)
Definition container_restart_map (pod : Pod) : gmap string bool :=
  fold_left (λ m s, <[s.(cs_name) := (0 <? s.(restart_count))%Z]> m)
    (default [] pod.(container_statuses)) ∅.

Definition create_pod_logs (pod : Pod) (containers : list string) (service_dir : string) : klog unit :=
  let! pod_name := some_or (invalid_value "pod.name is invalid") pod.(pod_meta).(name) in
  let! spec := some_or (invalid_value "pod.spec is invalid") pod.(SupportApi.pod_spec) in
  let! node_name := some_or (invalid_value "pod.spec.node_name is invalid") spec.(pod_node_name) in
  let! host_name := map_err LE_K8sResourceError (get_hostname node_name) in
  let pod_dir := path_join service_dir (host_name +:+ "_" +:+ pod_name) in
  do! create_directory_if_not_exist LE_IOError pod_dir in
  forM_ (λ container,
    do! (if default false (container_restart_map pod !! container)
         then create_container_log_file true pod_name container pod_dir else Ret tt) in
    create_container_log_file false pod_name container pod_dir) containers.

Definition dump_pod_logs (label_selector service_dir : string) (hostname : option string)
    (containers : list string) : klog unit :=
  let! field_selector :=
    match hostname with
    | None => Ret RUNNING_FIELD_SELECTOR
    | Some name =>
        let! node_name := map_err LE_K8sResourceError (get_nodename name) in
        Ret (RUNNING_FIELD_SELECTOR +:+ "," +:+ NODE_NAME_FIELD_SELECTOR +:+ "=" +:+ node_name)
    end in
  let! pods := map_err LE_K8sResourceError (get_pods cs fuel label_selector field_selector) in
  forM_ (λ pod,
    let! r := try_ (create_pod_logs pod containers service_dir) in
    match r with
    | inr _ => Ret tt
    | inl err => log ("Error fetching logs for pod : " +:+ default "" pod.(pod_meta).(name))
    end) pods.
End Client.
End K8sLogs.

(** ** [mod.rs] *)
Module LogCollect.
Import SupportApi K8sClient.
Abbreviation logs := (sup LogError).

Record LogResource := mkLogResource {
  lr_container_name : string; lr_host_name : option string; lr_label_selector : string;
  lr_service_type : string
}.
#[export] Instance LogResource_eq_dec : EqDecision LogResource.
Proof. solve_decision. Defined.

Record LogCollection := mkLogCollection {
  loki_client : option LokiLogs.LokiClient; k8s_logger_client : ClientSet
}.

(** [new_logger] *)
Definition new_logger (kube_config_path : option string) (namespace : string)
    (loki_uri : option string) (since_nanos : Z) : logs LogCollection :=
  let! cs := map_err K8sResource (ClientSet_new kube_config_path namespace) in
  let! l := LokiLogs.LokiClient_new loki_uri kube_config_path namespace since_nanos in
  Ret (mkLogCollection l cs).

Definition is_host_name_required (service_name : string) : bool :=
  bool_decide (service_name ∈ HOST_NAME_REQUIRED_SERVICES).

(** [invalid_k8s_resource_value(..)] in [ok_or_else(..)?] *)
Definition value_or {A} (msg : string) (o : option A) : logs A := some_or (K8sResource (KE_CustomError msg)) o.

(** The host of a pod, by the label of its node *)
Definition host_of (nodes_map : gmap string KNode) (pod : Pod) : logs string :=
  let! spec := value_or "Pod spec not found in pod resource" pod.(SupportApi.pod_spec) in
  let! node_name := value_or "Node name not found in running pod resource" spec.(pod_node_name) in
  let! node := value_or ("Unable to find node: " +:+ node_name +:+ " object") (nodes_map !! node_name) in
  let! ls := value_or ("No labels found in node " +:+ node_name) node.(kn_meta).(labels) in
  value_or ("Hostname not found for node " +:+ node_name) (ls !! KUBERNETES_HOST_LABEL_KEY).

(** The resources of one pod: one per container *)
Definition pod_resources (nodes_map : gmap string KNode) (pod : Pod) : logs (list LogResource) :=
  let! ls := value_or "No labels found in pod" pod.(pod_meta).(labels) in
  let service_name := default "" (ls !! "app") in
  let! hostname := (if is_host_name_required service_name
                    then let! h := host_of nodes_map pod in Ret (Some h) else Ret None) in
  let! spec := value_or "Pod sepc not found" pod.(SupportApi.pod_spec) in
  Ret ((λ c, mkLogResource c hostname ("app=" +:+ service_name) service_name) <$> spec.(containers)).

Definition get_logging_resources (pods : list Pod) : logs (list LogResource) :=
  let! nodes_map := map_err K8sResource get_nodes_map in
  foldM (λ acc pod, let! rs := pod_resources nodes_map pod in Ret (set_extend acc rs)) pods [].

Section Logger.
Context `{SupportCrates} `{HashOrder}.
Variables (lc : LogCollection) (fuel : nat).

(** [fetch_and_dump_logs]: of one resource, the errors of both collections *)
Definition dump_resource (working_dir : string) (resource : LogResource) : logs (list LogError) :=
  do! log ("	 Collecting logs of service: " +:+ resource.(lr_service_type)) in
  let service_dir := path_join (path_join working_dir "logs") resource.(lr_service_type) in
  do! create_directory_if_not_exist LG_IOError service_dir in
  let! e1 :=
    match lc.(loki_client) with
    | None => Ret []
    | Some c =>
        let! r := try_ (LokiLogs.Loki_fetch_and_dump_logs fuel c resource.(lr_label_selector)
                          resource.(lr_container_name) resource.(lr_host_name) service_dir) in
        match r with
        | inr _ => Ret []
        | inl e => do! log "	 Failed to collect historical logs" in Ret [Loki e]
        end
    end in
  let! r := try_ (K8sLogs.dump_pod_logs lc.(k8s_logger_client) fuel resource.(lr_label_selector)
                    service_dir resource.(lr_host_name) [resource.(lr_container_name)]) in
  match r with
  | inr _ => Ret e1
  | inl e => do! log "	 Failed to collect current logs" in Ret (e1 ++ [K8sLogger e])%list
  end.

Definition fetch_and_dump_logs (resources : list LogResource) (working_dir : string) : logs unit :=
  let! errors := foldM (λ errors resource,
    let! es := dump_resource working_dir resource in
    Ret (errors ++ es)%list) (hash_order resources) [] in
  match errors with
  | [] => Ret tt
  | _ => Throw (Err (LG_MultipleErrors errors))
  end.

(** The pods with the logging label whose [app] is one of the services *)
Definition service_of (pod : Pod) : string :=
  default "" (default ∅ pod.(pod_meta).(labels) !! "app").
Definition logging_services (services : list string) : logs (list LogResource) :=
  let! pods := map_err K8sResource (get_pods lc.(k8s_logger_client) fuel logging_label_selector "") in
  get_logging_resources (base.filter (λ pod, service_of pod ∈ services) pods).

Definition get_control_plane_logging_services : logs (list LogResource) :=
  logging_services CONTROL_PLANE_SERVICES.
Definition get_data_plane_logging_services : logs (list LogResource) :=
  logging_services DATA_PLANE_SERVICES.
Definition get_upgrade_logging_services : logs (list LogResource) :=
  logging_services UPGRADE_JOB_SERVICE.
Definition get_callhome_logging_services : logs (list LogResource) :=
  logging_services CALLHOME_JOB_SERVICE.
Definition get_nats_logging_services : logs (list LogResource) :=
  logging_services NATS_JOB_SERVICE.
End Logger.
End LogCollect.
