(* ===== verification/SupportDump.v ===== *)
(** * Supportability: the dumps

    Models [k8s/supportability/src]: the dump of etcd ([collect/persistent_store/etcd.rs]),
    the dumpers ([collect/system_dump.rs], [collect/resource_dump.rs]) and the command
    ([lib.rs], [operations.rs]). *)

From S2P Require Import Prelude Text JobApi HelmValues SupportApi SupportTopology SupportK8s SupportLogs.
From stdpp Require Import base gmap list strings.
From Stdlib Require Import ZArith Lia Ascii.
Open Scope string_scope.

(** ** [etcd.rs] *)
Module EtcdDump.
Import SupportApi K8sClient.
Abbreviation etcd := (sup EtcdError).

Record EtcdStore := mkEtcdStore { key_prefix : string }.

Section Store.
Context `{SupportCrates}.

(** [EtcdStore::new] *)
Definition EtcdStore_new (kube_config_path etcd_endpoint : option string) (namespace : string)
  : etcd EtcdStore :=
  let! cs := map_err ET_K8sResource (ClientSet_new kube_config_path namespace) in
  let! platform_info := req! (K8sPlatform cs.(K8sClient.namespace)) or ET_Custom in
  let key_prefix := build_key_prefix platform_info in
  let! endpoint :=
    match etcd_endpoint with
    | Some endpoint => Ret endpoint
    | None => req! (EtcdProxy kube_config_path namespace) or CreateClient
    end in
  do! req! (EtcdConnect endpoint) or Etcd in
  Ret (mkEtcdStore key_prefix).

Definition newlines (n : nat) : string := Nat.iter n (String newline) "".
(** One value, to the file or to the console *)
Definition dump_value (file : option string) (val : string * string) : etcd unit :=
  let pretty_json := match json_pretty (DValue val.2) with inr s => s | inl _ => "" end in
  match file with
  | Some path => req! (WriteAll path (val.1 +:+ ":" +:+ newlines 1 +:+ pretty_json +:+ newlines 2)) or ET_IOError
  | None => ask (Println (val.1 +:+ ":" +:+ newlines 1 +:+ pretty_json +:+ newlines 1))
  end.

(** [dump]: pages from the prefix, then from the last key, which is seen again *)
Definition dump_round (file : option string) (st : bool * string) : etcd (bool * string + unit) :=
  let! page := req! (EtcdPage st.2 ETCD_PAGED_LIMIT) or Etcd in
  let dump := if st.1 then page else tail page in
  do! forM_ (dump_value file) dump in
  do! match file with Some path => req! (Flush path) or ET_IOError | None => Ret tt end in
  match last dump with
  | Some (key, _) => Ret (inl (false, key))
  | None => Ret (inr tt)
  end.
Definition dump_loop (fuel : nat) (file : option string) (prefix : string) : etcd unit :=
  loop fuel (dump_round file) (true, prefix).
Definition dump (fuel : nat) (s : EtcdStore) (working_dir : string) (stdout : bool) : etcd unit :=
  let! file :=
    if stdout then Ret None
    else
      let file_path := path_join working_dir "etcd_dump" in
      do! req! (CreateFile file_path) or ET_IOError in
      Ret (Some file_path) in
  dump_loop fuel file s.(key_prefix).
End Store.
End EtcdDump.

(** ** [collect/common.rs], [operations.rs] *)
Module Operations.
Import SupportApi.

Inductive OutputFormat := Tar | Stdout.
Record DumpConfig := mkDumpConfig {
  output_directory : string; namespace : string; loki_uri : option string;
  etcd_uri : option string; since_nanos : Z; kube_config_path : option string;
  output_format : OutputFormat
}.
(** Some resources exist in builds with [debug_assertions] only: [true] is such a build. *)
Inductive Resource : bool → Type :=
| System {debug} (disable_log_collection : bool) : Resource debug
| Volumes : Resource true
| Volume (id : Uuid) : Resource true
| Pools : Resource true
| Pool (id : string) : Resource true
| Nodes : Resource true
| Node (id : string) : Resource true
| Etcd {debug} (stdout : bool) : Resource debug
| Loki {debug} : Resource debug.

(** [SupportArgs], and the configuration which [execute_resource_dump] makes of them *)
Record SupportArgs := mkSupportArgs {
  arg_since_nanos : Z; loki_endpoint : option string; etcd_endpoint : option string;
  output_directory_path : string; arg_namespace : string; arg_kube_config_path : option string
}.
Definition config_of (cli_args : SupportArgs) : DumpConfig :=
  mkDumpConfig cli_args.(output_directory_path) cli_args.(arg_namespace) cli_args.(loki_endpoint)
    cli_args.(etcd_endpoint) cli_args.(arg_since_nanos) cli_args.(arg_kube_config_path) Tar.

(** [match p { Err(e) => { report; process::exit(1) } .. }] *)
Definition or_exit {E E' A} (p : sup E A) (report : sup E' unit) : sup E' A :=
  let! r := try_ p in
  match r with
  | inr a => Ret a
  | inl _ => do! report in Throw (Exit 1)
  end.
(** [p.map_err(|e| { log(..); e })?] *)
Definition logged {E E' A} (f : E → E') (p : sup E A) (msg : string) : sup E' A :=
  let! r := try_ p in
  match r with
  | inr a => Ret a
  | inl e => do! log msg in Throw (Err (f e))
  end.
(** [let _ = p.map_err(|e| { log(..) })]: the error, if any *)
Definition noted {E E' A} (p : sup E A) (msg : string) : sup E' (list E) :=
  let! r := try_ p in
  match r with
  | inr _ => Ret []
  | inl e => do! log msg in Ret [e]
  end.

(** [delete_temporary_directory], [fill_archive_and_delete_tmp] of both dumpers *)
Definition delete_temporary_directory (dir_path : string) : sup Error unit :=
  req! (RemoveDirAll dir_path) or ArchiveError.
Definition fill_archive_and_delete_tmp (archive : Archive) (dir_path : string) : sup Error unit :=
  do! write_to_log_file "Will copy temporary directory content to archive" in
  do! map_err ArchiveError flush_tool_log_file in
  do! logged ArchiveError (copy_to_archive archive dir_path ".") "Failed to move content into archive file" in
  logged id (delete_temporary_directory dir_path) "Failed to delete temporary directory".
End Operations.

(** ** [collect/system_dump.rs] *)
Module SystemDump.
Import SupportApi Traits K8sClient LogCollect Operations.

Record SystemDumper := mkSystemDumper {
  archive : Archive; dir_path : string; logger : LogCollection; k8s_resource_dumper : ClientSet;
  etcd_dumper : option EtcdDump.EtcdStore; disable_log_collection : bool
}.

Section System.
Context `{SupportCrates} `{SortUnstable} `{HashOrder}.

(** The etcd client of both dumpers: without it the dump goes on. *)
Definition etcd_client {E} (config : DumpConfig) : sup E (option EtcdDump.EtcdStore) :=
  let! r := try_ (EtcdDump.EtcdStore_new config.(kube_config_path) config.(etcd_uri)
                    config.(Operations.namespace)) in
  match r with
  | inr val => Ret (Some val)
  | inl _ => do! log "Failed to initialize etcd client" in Ret None
  end.

Definition get_or_panic_system_dumper (config : DumpConfig) (disable_log_collection : bool)
  : sup Error SystemDumper :=
  let! new_dir := or_exit (create_and_get_tmp_directory config.(output_directory))
    (ask (Println "Failed to create temporary directory to dump information")) in
  let! r := try_ (init_tool_log_file (new_dir +:+ "/support_tool_logs.log")) in
  do! match r with inr _ => Ret tt | inl _ => Throw Panic end in
  let! archive := or_exit (Archive_new (Some config.(output_directory)))
    (log "Failed to create archive archive") in
  let! logger := or_exit (new_logger config.(kube_config_path) config.(Operations.namespace)
      config.(Operations.loki_uri) config.(since_nanos))
    (log "Failed to initialize logging service") in
  let! k8s_resource_dumper := or_exit (K8sResourceDump.K8sResourceDumperClient_new
      config.(kube_config_path) config.(Operations.namespace))
    (log "Failed to instantiate K8s resource dumper") in
  let! etcd_dumper := etcd_client config in
  Ret (mkSystemDumper archive new_dir logger k8s_resource_dumper etcd_dumper disable_log_collection).

(** The log resource of an io-engine *)
Definition log_resource_of (r : ResourceInformation) : LogResource :=
  mkLogResource r.(ri_container_name) (Some r.(ri_host_name))
    (as_string r.(ri_label_selector) ","%char) MAYASTOR_SERVICE.

Section Dumper.
Variables (d : SystemDumper) (fuel : nat).

Definition collect_and_dump_loki_logs (node_topologer : option dyn_topologer) : sup LogError unit :=
  let! r1 := get_control_plane_logging_services d.(logger) fuel in
  let! r2 := get_data_plane_logging_services d.(logger) fuel in
  let! r3 := get_upgrade_logging_services d.(logger) fuel in
  let! r4 := get_callhome_logging_services d.(logger) fuel in
  let! r5 := get_nats_logging_services d.(logger) fuel in
  let resources := set_extend (set_extend (set_extend (set_extend r1 r2) r3) r4) r5 in
  let! resources :=
    match node_topologer with
    | None => Ret resources
    | Some topologer =>
        let! infos := unwrap (get_all_resource_info topologer) in
        Ret (set_extend resources (log_resource_of <$> infos))
    end in
  do! write_to_log_file "Collecting logs of following services" in
  do! log "Collecting logs..." in
  do! fetch_and_dump_logs d.(logger) fuel resources d.(dir_path) in
  log "Completed collection of logs".

(** Collect one topology and write it: the topologer, and the errors *)
Definition dump_topology {E} (get : sup ResourceError dyn_topologer) (what : string)
  : sup E (option dyn_topologer * list Error) :=
  let! r := try_ get in
  match r with
  | inl e => Ret (None, [ResourceError_ e])
  | inr topologer =>
      do! log ("	 Collecting " +:+ what +:+ " topology information") in
      let! es := noted (dump_topology_info topologer (d.(dir_path) +:+ "/topology/" +:+ what))
                   ("	 Failed to dump " +:+ what +:+ " topology information") in
      Ret (Some topologer, ResourceError_ <$> es)
  end.

(** [dump_system], up to its errors *)
Definition collect_system : sup Error (list Error) :=
  do! log "Collecting topology information..." in
  let! v := dump_topology (VolumeResource.VolumeClient_get_topologer fuel None) "volume" in
  let! s := dump_topology (SnapshotResource.SnapshotClient_get_topologer fuel None) "snapshot" in
  let! p := dump_topology (PoolResource.PoolClient_get_topologer None) "pool" in
  let! n := dump_topology (NodeResource.NodeClient_get_topologer None) "node" in
  do! log "Completed collection of topology information" in
  let! l :=
    if d.(disable_log_collection) then Ret []
    else noted (collect_and_dump_loki_logs n.1) "Error occurred while collecting logs" in
  do! log "Collecting Kubernetes resources specific to mayastor service" in
  let! k := noted (K8sResourceDump.dump_k8s_resources d.(k8s_resource_dumper) fuel d.(dir_path) None)
              "Error occured while collecting logs" in
  do! log "Completed collection of Kubernetes resource specific information" in
  let! e :=
    match d.(etcd_dumper) with
    | None => Ret []
    | Some store =>
        do! log "Collecting mayastor specific information from Etcd..." in
        noted (EtcdDump.dump fuel store d.(dir_path) false) "Failed to collect etcd dump information"
    end in
  Ret (v.2 ++ s.2 ++ p.2 ++ n.2 ++ (LogCollectionError <$> l) ++ (K8sResourceDumperError_ <$> k) ++
       (EtcdDumpError <$> e))%list.
(** The errors are collected and dropped. *)
Definition dump_system : sup Error unit := do! collect_system in Ret tt.
End Dumper.
End System.
End SystemDump.

(** ** [collect/resource_dump.rs] *)
Module ResourceDump.
Import SupportApi Traits K8sClient LogCollect Operations SystemDump.

(** The fields which exist with [debug_assertions] only *)
Record DebugParts := mkDebugParts {
  topologer : option dyn_topologer; rd_logger : LogCollection; rd_k8s_resource_dumper : ClientSet
}.
Record ResourceDumper (debug : bool) := mkResourceDumper {
  rd_archive : Archive; rd_dir_path : string; rd_etcd_dumper : option EtcdDump.EtcdStore;
  rd_output_format : OutputFormat; debug_parts : if debug then DebugParts else unit
}.
Arguments mkResourceDumper {debug}. Arguments rd_archive {debug}. Arguments rd_dir_path {debug}.
Arguments rd_etcd_dumper {debug}. Arguments rd_output_format {debug}. Arguments debug_parts {debug}.

Section Resource.
Context `{SupportCrates} `{SortUnstable} `{HashOrder}.

Definition get_or_panic_resource_dumper (debug : bool) (config : DumpConfig)
    (topologer : option dyn_topologer) : sup Error (ResourceDumper debug) :=
  let! dirs :=
    match config.(output_format) with
    | Tar =>
        let! new_dir := or_exit (create_and_get_tmp_directory config.(output_directory))
          (ask (Println "Failed to create temporary directory to dump information")) in
        do! or_exit (init_tool_log_file (new_dir +:+ "/support_tool_logs.log"))
          (ask (Println "Encountered error while creating log file")) in
        Ret (new_dir, Some config.(output_directory))
    | Stdout => do! init_no_log_file in Ret ("", None)
    end in
  let! archive := or_exit (Archive_new dirs.2) (log "Failed to create archive") in
  let! parts :=
    match debug return sup Error (if debug then DebugParts else unit) with
    | true =>
        let! logger := or_exit (new_logger config.(kube_config_path) config.(Operations.namespace)
            config.(Operations.loki_uri) config.(since_nanos))
          (log "Failed to initialize logging service") in
        let! k8s := or_exit (K8sResourceDump.K8sResourceDumperClient_new
            config.(kube_config_path) config.(Operations.namespace))
          (log "Failed to instantiate K8s resource dumper") in
        Ret (mkDebugParts topologer logger k8s)
    | false => Ret tt
    end in
  let! etcd_dumper := etcd_client config in
  Ret (mkResourceDumper archive dirs.1 etcd_dumper config.(output_format) parts).

Section Dumper.
Variable fuel : nat.

(** [dump_info], in builds with [debug_assertions] *)
Definition dump_info (d : ResourceDumper true) (folder_path : string) : sup Error unit :=
  let parts : DebugParts := d.(debug_parts) in
  let! r := try_ (get_control_plane_logging_services parts.(rd_logger) fuel) in
  let! init :=
    match r with
    | inr list => Ret (list, [])
    | inl e => do! log "Failed to fetch control plane services" in Ret ([], [LogCollectionError e])
    end in
  do! log "Collecting topology information of resource(s)..." in
  let! st :=
    match parts.(topologer) with
    | None => Ret (init.1, [], None)
    | Some t =>
        let! es := noted (dump_topology_info t (d.(rd_dir_path) +:+ "/" +:+ folder_path))
                     "Failed to collect topology information" in
        let! unhealthy_resources := unwrap (get_unhealthy_resource_info t) in
        let! names := unwrap (get_k8s_resource_names t) in
        Ret (set_extend init.1 (log_resource_of <$> unhealthy_resources), ResourceError_ <$> es, Some names)
    end in
  let '(resources, errors, k8s_resources) := st in
  do! log "Completed collection of topology information" in
  do! write_to_log_file "Collecting logs from following services" in
  do! log "Collecting logs..." in
  let! r := try_ (fetch_and_dump_logs parts.(rd_logger) fuel resources d.(rd_dir_path)) in
  let l := match r with inl e => [LogCollectionError e] | inr _ => [] end in
  do! log "Completed collection of logs" in
  do! log "Collecting Kubernetes resources specific to mayastor service" in
  let! r := try_ (K8sResourceDump.dump_k8s_resources parts.(rd_k8s_resource_dumper) fuel
                    d.(rd_dir_path) k8s_resources) in
  let k := match r with inl e => [K8sResourceDumperError_ e] | inr _ => [] end in
  do! log "Completed collection of Kubernetes resource specific information" in
  do! log "Collecting mayastor specific information from Etcd..." in
  let! e :=
    match d.(rd_etcd_dumper) with
    | None => Ret []
    | Some store =>
        noted (EtcdDump.dump fuel store d.(rd_dir_path) false) "Failed to collect etcd dump information"
    end in
  do! log "Completed collection of mayastor specific resources from Etcd service" in
  let! a := noted (copy_to_archive d.(rd_archive) d.(rd_dir_path) ".")
              "Failed to move content into archive file" in
  do! noted (delete_temporary_directory d.(rd_dir_path)) "Failed to delete temporary directory" in
  match (init.2 ++ errors ++ l ++ k ++ (EtcdDumpError <$> e) ++ (ArchiveError <$> a))%list with
  | [] => Ret tt
  | errors => Throw (Err (MultipleErrors errors))
  end.

Definition dump_etcd {debug} (d : ResourceDumper debug) : sup Error unit :=
  let! store := some_or (EtcdDumpError (ET_Custom "etcd not configured")) d.(rd_etcd_dumper) in
  let stdout := match d.(rd_output_format) with Stdout => true | Tar => false end in
  do! logged EtcdDumpError (EtcdDump.dump fuel store d.(rd_dir_path) stdout)
    "Failed to collect etcd dump information" in
  do! log "Completed collection of etcd dump information" in
  match d.(rd_output_format) with
  | Tar =>
      do! logged ArchiveError (copy_to_archive d.(rd_archive) d.(rd_dir_path) ".")
        "Failed to move content into archive file" in
      do! noted (delete_temporary_directory d.(rd_dir_path)) "Failed to delete temporary directory" in
      Ret tt
  | Stdout => Ret tt
  end.

(** ** [lib.rs] *)
(** [if let Err(e) = p { log(..); errors.push(e) }] *)
Definition step_errors (p : sup Error unit) (msg : string) : sup Error (list Error) := noted p msg.

(** The arms for resources of the storage: topology, dump, archive *)
Definition dump_resource_kind (config : DumpConfig) (get : sup ResourceError dyn_topologer)
    (folder msg : string) : sup Error (list Error) :=
  let! topologer := map_err ResourceError_ get in
  let! dumper := get_or_panic_resource_dumper true config (Some topologer) in
  let! e1 := step_errors (dump_info dumper folder) msg in
  let! e2 := step_errors (fill_archive_and_delete_tmp dumper.(rd_archive) dumper.(rd_dir_path))
               "Failed to copy content to archive" in
  Ret (e1 ++ e2)%list.

Definition resource_errors {debug} (resource : Resource debug) (config : DumpConfig)
  : sup Error (list Error) :=
  match resource with
  | @Loki debug =>
      let! d := get_or_panic_system_dumper config true in
      let! r := try_ (NodeResource.NodeClient_get_topologer None) in
      let node_topologer := match r with inr t => Some t | inl _ => None end in
      do! log "Completed collection of topology information" in
      do! map_err LogCollectionError (collect_and_dump_loki_logs d fuel node_topologer) in
      step_errors (fill_archive_and_delete_tmp d.(archive) d.(dir_path)) "Failed to copy content to archive"
  | System disable_log_collection =>
      let! d := get_or_panic_system_dumper config disable_log_collection in
      let! e1 := step_errors (dump_system d fuel) "Failed to dump system state" in
      let! e2 := step_errors (fill_archive_and_delete_tmp d.(archive) d.(dir_path))
                   "Failed to copy content to archive" in
      Ret (e1 ++ e2)%list
  | Volumes =>
      dump_resource_kind config (VolumeResource.VolumeClient_get_topologer fuel None) "topology/volume"
        "Failed to dump volumes information"
  | Volume id =>
      dump_resource_kind config (VolumeResource.VolumeClient_get_topologer fuel (Some id)) "topology/volume"
        ("Failed to dump volume " +:+ id)
  | Pools =>
      dump_resource_kind config (PoolResource.PoolClient_get_topologer None) "topology/pool"
        "Failed to dump pools information"
  | Pool id =>
      dump_resource_kind config (PoolResource.PoolClient_get_topologer (Some id)) "topology/pool"
        ("Failed to dump pool " +:+ id)
  | Nodes =>
      dump_resource_kind config (NodeResource.NodeClient_get_topologer None) "topology/node"
        "Failed to dump nodes information"
  | Node id =>
      dump_resource_kind config (NodeResource.NodeClient_get_topologer (Some id)) "topology/node"
        ("Failed to dump node " +:+ id)
  | @Etcd debug stdout =>
      let config := mkDumpConfig config.(output_directory) config.(Operations.namespace)
        config.(Operations.loki_uri) config.(etcd_uri) config.(since_nanos) config.(kube_config_path)
        (if stdout then Stdout else Tar) in
      let! dumper := get_or_panic_resource_dumper debug config None in
      step_errors (dump_etcd dumper) "Failed to dump etcd information"
  end.

Definition execute_resource_dump {debug} (cli_args : SupportArgs) (resource : Resource debug)
  : sup Error unit :=
  let! errors := resource_errors resource (config_of cli_args) in
  match errors with
  | [] => ask (Println "Completed collection of dump !!")
  | _ => Throw (Err (MultipleErrors errors))
  end.
End Dumper.
End Resource.
End ResourceDump.
