(* ===== verification/SupportUses.v ===== *)
(** * Which requests the parts of a support dump issue

    Programs of supportability archive, open connections, and call Loki and etcd in few
    places; all else they do is plain.  For any set of requests which contains the plain
    ones, the lemmas of this file show that a part stays inside it. *)

From S2P Require Import Prelude Text JobApi HelmValues SupportApi SupportTopology SupportK8s SupportLogs SupportDump.
From stdpp Require Import base gmap list strings pretty sorting.
From Stdlib Require Import ZArith Lia Ascii.
Open Scope string_scope.

Module SupportUses.
Import SupportApi Traits Operations SystemDump ResourceDump.

(** Requests which archive or delete directories *)
Definition archiving (c : sup_call) : bool :=
  match c with TarAppendDirAll _ _ | TarFinish | RemoveDirAll _ => true | _ => false end.
(** which open a connection to Loki or etcd *)
Definition opening (c : sup_call) : bool :=
  match c with LokiProxy _ _ | EtcdProxy _ _ | EtcdConnect _ => true | _ => false end.
(** and which use one *)
Definition serving (c : sup_call) : bool :=
  match c with LokiCall _ | EtcdPage _ _ => true | _ => false end.
Definition plain (c : sup_call) : bool := negb (archiving c || opening c || serving c).

Definition permits (kind ok : op SupSig → bool) : Prop := ∀ c, kind c = true → ok c = true.
(** The calls of the client of Loki, if there is one *)
Definition permits_logger (ok : op SupSig → bool) (lc : LogCollect.LogCollection) : Prop :=
  match lc.(LogCollect.loki_client) with
  | Some c => ∀ q, ok (LokiCall (c.(LokiLogs.uri) +:+ q)) = true
  | None => True
  end.
(** The requests to the store of etcd, if there is one *)
Definition permits_store (ok : op SupSig → bool) (store : option EtcdDump.EtcdStore) : Prop :=
  is_Some store → ∀ k l, ok (EtcdPage k l) = true.

Section Uses.
Context (ok : op SupSig → bool) (Hok : permits plain ok).
Abbreviation U := (uses (S:=SupSig) ok).

Lemma uses_ask {E} c : plain c = true → U (ask (E:=E) c).
Proof. intros Hc. split; [by apply Hok|done]. Qed.
Lemma uses_ask_allowed {E} kind c : permits kind ok → kind c = true → U (ask (E:=E) c).
Proof. intros Hk Hc. split; [by apply Hk|done]. Qed.
Lemma uses_ask_or_if {E X A} c (e : sup_res c = (X + A)%type) (f : X → E) :
  ok c = true → U (ask_or c e f).
Proof. intros Hc. apply uses_bind; [by split|]. intros. unfold checked. auto with uses. Qed.
Lemma uses_ask_or {E X A} c (e : sup_res c = (X + A)%type) (f : X → E) :
  plain c = true → U (ask_or c e f).
Proof. intros Hc. by apply uses_ask_or_if, Hok. Qed.
Lemma uses_ask_or_allowed {E X A} kind c (e : sup_res c = (X + A)%type) (f : X → E) :
  permits kind ok → kind c = true → U (ask_or c e f).
Proof. intros Hk Hc. by apply uses_ask_or_if, Hk. Qed.
Lemma uses_checked {E X A} (f : X → E) (r : X + A) : U (checked f r).
Proof. apply uses_lift. Qed.
Lemma uses_some_or {E A} (e : E) (o : option A) : U (some_or e o).
Proof. apply uses_ok_or. Qed.
Lemma uses_unwrap {E A} (o : option A) : U (unwrap (E:=E) o).
Proof. apply uses_ok_or. Qed.
Lemma uses_forM {E X} (f : X → sup E unit) l : (∀ x, U (f x)) → U (forM_ f l).
Proof. intros. by apply uses_foldM. Qed.
End Uses.
#[export] Hint Resolve uses_checked uses_some_or uses_unwrap uses_forM : uses.
(** A request of a kind which is allowed by a hypothesis *)
#[export] Hint Extern 1 (uses _ (ask _)) =>
  solve [apply uses_ask; [eassumption|reflexivity] | eapply uses_ask_allowed; [eassumption|reflexivity]] : uses.
#[export] Hint Extern 1 (uses _ (ask_or _ _ _)) =>
  solve [apply uses_ask_or; [eassumption|reflexivity] | eapply uses_ask_or_allowed; [eassumption|reflexivity]] : uses.

(** Walk a program. *)
Ltac collects :=
  repeat first
    [ progress eauto with uses
    | apply uses_bind; [|intros ?]
    | apply uses_try
    | apply uses_map_err
    | apply uses_loop; intros ?
    | apply uses_forM; intros ?
    | apply uses_foldM; intros ??
    | match goal with
      | |- uses _ (let '_ := ?x in _) => destruct x
      | |- uses _ (if ?b then _ else _) => destruct b
      | |- uses _ (match ?x with _ => _ end) => destruct x
      | |- uses _ (Ret _) => exact I
      | |- uses _ (Throw _) => exact I
      end
    | done ].
Section Parts.
Context `{SupportCrates} `{SortUnstable} `{HashOrder}.
Context (ok : op SupSig → bool) (Hok : permits plain ok).
Abbreviation U := (uses (S:=SupSig) ok).

Lemma uses_log {E} s : U (log (E:=E) s).
Proof. unfold log, write_to_log_file. collects. Qed.
Lemma uses_write_to_log_file {E} s : U (write_to_log_file (E:=E) s).
Proof. unfold write_to_log_file. collects. Qed.
Hint Resolve uses_log uses_write_to_log_file : uses.
Lemma uses_create_dir {E} (f : io_error → E) p : U (create_directory_if_not_exist f p).
Proof. unfold create_directory_if_not_exist. collects. Qed.
Hint Resolve uses_create_dir : uses.
Lemma uses_dump_file d f doc : U (dump_file d f doc).
Proof. unfold dump_file. collects. Qed.
Hint Resolve uses_dump_file : uses.
Lemma uses_noted {E E' A} (p : sup E A) s : U p → U (noted (E':=E') p s).
Proof. intros. unfold noted. collects. Qed.
Lemma uses_or_exit {E E' A} (p : sup E A) (r : sup E' unit) : U p → U r → U (or_exit p r).
Proof. intros. unfold or_exit. collects. Qed.
Lemma uses_logged {E E' A} (f : E → E') (p : sup E A) s : U p → U (logged f p s).
Proof. intros. unfold logged. collects. Qed.
Hint Resolve uses_noted uses_or_exit uses_logged : uses.

(** *** Topologies *)
Definition collects_info (t : dyn_topologer) : Prop := ∀ dir, U (dump_topology_info t dir).

Lemma uses_node_topology n i : U (NodeResource.node_topology n i).
Proof. unfold NodeResource.node_topology, NodeResource.list_node_block_devices. collects. Qed.
Hint Resolve uses_node_topology : uses.
Lemma uses_nodes i : U (NodeResource.NodeClient_get_topologer i).
Proof.
  unfold NodeResource.NodeClient_get_topologer, NodeResource.get_node, NodeResource.list_nodes. collects.
Qed.
Lemma uses_pool_topology p w : U (PoolResource.pool_topology p w).
Proof.
  unfold PoolResource.pool_topology, PoolResource.or_log, PoolResource.get_pool_node_info,
    PoolResource.get_pool_disks_info. collects.
Qed.
Hint Resolve uses_pool_topology : uses.
Lemma uses_pools i : U (PoolResource.PoolClient_get_topologer i).
Proof.
  unfold PoolResource.PoolClient_get_topologer, PoolResource.get_pool_topologer, PoolResource.get_pool,
    PoolResource.list_pools. collects.
Qed.
Lemma uses_list_entries {T} fuel (page : option Z → sup ResourceError (Entries T)) :
  (∀ t, U (page t)) → U (Utils.list_entries fuel page).
Proof. intros. unfold Utils.list_entries. collects. Qed.
Hint Resolve uses_list_entries : uses.
Lemma uses_volume_topology parse v i : (∀ r, U (parse r)) → U (VolumeResource.volume_topology parse v i).
Proof.
  intros. unfold VolumeResource.volume_topology, VolumeResource.replicas_of,
    VolumeResource.get_rebuild_history, ReplicaResource.get_replica_topology,
    ReplicaResource.get_replica, PoolResource.get_pool_topologer, PoolResource.get_pool. collects.
Qed.
Hint Resolve uses_volume_topology : uses.
Lemma uses_volumes fuel i : U (VolumeResource.VolumeClient_get_topologer fuel i).
Proof.
  unfold VolumeResource.VolumeClient_get_topologer, VolumeResource.get_volume, VolumeResource.list_volumes.
  collects; apply uses_volume_topology; intros [|]; try done; unfold VolumeResource.question_mark; collects.
Qed.
Lemma uses_snapshots fuel i : U (SnapshotResource.SnapshotClient_get_topologer fuel i).
Proof.
  unfold SnapshotResource.SnapshotClient_get_topologer, SnapshotResource.get_snapshot, SnapshotResource.list_snapshots.
  collects.
Qed.
Hint Resolve uses_nodes uses_pools uses_volumes uses_snapshots : uses.

Lemma yields_nodes i : yields (NodeResource.NodeClient_get_topologer i) collects_info.
Proof.
  unfold NodeResource.NodeClient_get_topologer. destruct i; repeat (apply yields_then; intros ?).
  - intros dir. apply uses_dump_file.
  - destruct a0; [by repeat (apply yields_then; intros ?)|]. intros dir.
    apply uses_forM; intros. apply uses_dump_file.
Qed.
Lemma yields_pools i : yields (PoolResource.PoolClient_get_topologer i) collects_info.
Proof.
  unfold PoolResource.PoolClient_get_topologer. destruct i; repeat (apply yields_then; intros ?); intros dir;
    [|apply uses_forM; intros]; apply uses_dump_file.
Qed.
Lemma yields_volumes fuel i : yields (VolumeResource.VolumeClient_get_topologer fuel i) collects_info.
Proof.
  unfold VolumeResource.VolumeClient_get_topologer. destruct i; repeat (apply yields_then; intros ?); intros dir;
    [|apply uses_forM; intros]; apply uses_dump_file.
Qed.
Lemma yields_snapshots fuel i : yields (SnapshotResource.SnapshotClient_get_topologer fuel i) collects_info.
Proof.
  unfold SnapshotResource.SnapshotClient_get_topologer. destruct i; repeat (apply yields_then; intros ?); intros dir;
    [|apply uses_forM; intros]; apply uses_dump_file.
Qed.
Hint Resolve yields_nodes yields_pools yields_volumes yields_snapshots : uses.

(** *** Kubernetes, logs, etcd *)
Lemma uses_ClientSet_new k n : U (K8sClient.ClientSet_new k n).
Proof. unfold K8sClient.ClientSet_new. collects. Qed.
Lemma uses_list_all {T} fuel (page : ListParams → sup K8sResourceError (ObjectList T)) st lp :
  (∀ lp, U (page lp)) → U (K8sClient.list_all fuel page st lp).
Proof. intros. unfold K8sClient.list_all. collects. Qed.
Hint Resolve uses_ClientSet_new uses_list_all : uses.
Lemma uses_get_pods cs fuel l f : U (K8sClient.get_pods cs fuel l f).
Proof. unfold K8sClient.get_pods. collects. Qed.
Lemma uses_get_nodename n : U (K8sClient.get_nodename n).
Proof. unfold K8sClient.get_nodename. collects. Qed.
Lemma uses_get_hostname n : U (K8sClient.get_hostname n).
Proof. unfold K8sClient.get_hostname. collects. Qed.
Hint Resolve uses_get_pods uses_get_nodename uses_get_hostname : uses.
Lemma uses_create_file_and_write p n c : U (K8sResourceDump.create_file_and_write p n c).
Proof. unfold K8sResourceDump.create_file_and_write. collects. Qed.
Hint Resolve uses_create_file_and_write : uses.
Lemma uses_create_app_configurations doc apps p :
  U (K8sResourceDump.create_app_configurations doc apps p).
Proof. unfold K8sResourceDump.create_app_configurations, K8sResourceDump.entity_name. collects. Qed.
Hint Resolve uses_create_app_configurations : uses.
Lemma uses_write_yaml p n doc : U (K8sResourceDump.write_yaml p n doc).
Proof. unfold K8sResourceDump.write_yaml. collects. Qed.
Hint Resolve uses_write_yaml : uses.
Lemma uses_collect_errors {E E'} (steps : list (sup E unit)) :
  Forall (λ p, U p) steps → U (K8sResourceDump.collect_errors (E':=E') steps).
Proof.
  unfold K8sResourceDump.collect_errors.
  match goal with |- context [foldM ?f _ ?a] => set (g := f); generalize a end.
  induction steps as [|p l IH]; intros es; [done|].
  intros [Hp Hl]%Forall_cons. cbn [foldM]. apply uses_bind; [unfold g; collects|]. intros. by apply IH.
Qed.
Lemma uses_dump_k8s_resources cs fuel p r : U (K8sResourceDump.dump_k8s_resources cs fuel p r).
Proof.
  unfold K8sResourceDump.dump_k8s_resources. do 2 (apply uses_bind; [collects|intros ?]).
  apply uses_bind; [apply uses_collect_errors|intros es; by destruct es]. repeat apply Forall_cons_2; try apply Forall_nil_2.
  all: unfold K8sResourceDump.get_k8s_events, K8sResourceDump.get_k8s_daemonsets,
    K8sResourceDump.get_k8s_deployments, K8sResourceDump.get_k8s_statefulsets,
    K8sResourceDump.get_k8s_diskpools, K8sResourceDump.get_k8s_vs_classes,
    K8sResourceDump.get_k8s_vsnapshot_contents, K8sResourceDump.get_k8s_pod_configurations,
    K8sResourceDump.listed, K8sClient.get_events, K8sClient.get_daemonsets, K8sClient.get_deployments,
    K8sClient.get_statefulsets, K8sClient.list_pools, K8sClient.list_volumesnapshot_classes,
    K8sClient.list_volumesnapshotcontents, K8sClient.dynamic_object_api; collects.
Qed.
Lemma uses_loki_fetch fuel c l cn hn d :
  (∀ q, ok (LokiCall (c.(LokiLogs.uri) +:+ q)) = true) →
  U (LokiLogs.Loki_fetch_and_dump_logs fuel c l cn hn d).
Proof.
  unfold LokiLogs.Loki_fetch_and_dump_logs, LokiLogs.fetch_loop, LokiLogs.fetch_round,
    LokiLogs.poll_next. intros Hc. collects; (split; [by apply Hc|done]).
Qed.
Lemma uses_write_lines p lines n : U (K8sLogs.write_lines p lines n).
Proof.
  revert n; induction lines as [|[e|d] lines IH]; intros n; cbn [K8sLogs.write_lines];
    unfold K8sLogs.write_line; collects.
Qed.
Hint Resolve uses_dump_k8s_resources uses_loki_fetch uses_write_lines : uses.
Lemma uses_dump_pod_logs cs fuel l d h c : U (K8sLogs.dump_pod_logs cs fuel l d h c).
Proof.
  unfold K8sLogs.dump_pod_logs, K8sLogs.create_pod_logs, K8sLogs.create_container_log_file,
    K8sLogs.write_logs_stream. collects.
Qed.
Hint Resolve uses_dump_pod_logs : uses.
Lemma uses_fetch_and_dump_logs lc fuel rs d : permits_logger ok lc → U (LogCollect.fetch_and_dump_logs lc fuel rs d).
Proof.
  unfold permits_logger, LogCollect.fetch_and_dump_logs, LogCollect.dump_resource.
  destruct (LogCollect.loki_client lc); intros Hl; collects.
Qed.
Lemma uses_logging_services lc fuel ss : U (LogCollect.logging_services lc fuel ss).
Proof.
  unfold LogCollect.logging_services, LogCollect.get_logging_resources, LogCollect.pod_resources,
    LogCollect.host_of, LogCollect.value_or, K8sClient.get_nodes_map. collects.
Qed.
Lemma uses_new_logger k n u t : permits opening ok → U (LogCollect.new_logger k n u t).
Proof.
  intros Ho. unfold LogCollect.new_logger, LokiLogs.LokiClient_new, LokiLogs.get_epoch_unix_time. collects.
Qed.
Lemma uses_etcd_dump fuel s d o : (∀ k l, ok (EtcdPage k l) = true) → U (EtcdDump.dump fuel s d o).
Proof.
  intros Hs. unfold EtcdDump.dump, EtcdDump.dump_loop, EtcdDump.dump_round, EtcdDump.dump_value. collects.
Qed.
Lemma uses_etcd_client {E} c : permits opening ok → U (etcd_client (E:=E) c).
Proof. intros Ho. unfold etcd_client, EtcdDump.EtcdStore_new. collects. Qed.
Hint Resolve uses_fetch_and_dump_logs uses_logging_services uses_new_logger uses_etcd_dump
  uses_etcd_client : uses.

(** *** The dumpers *)
Lemma uses_init_tool_log_file p : U (init_tool_log_file p).
Proof. unfold init_tool_log_file. collects. Qed.
Lemma uses_tmp_directory p : U (create_and_get_tmp_directory p).
Proof. unfold create_and_get_tmp_directory. collects. Qed.
Lemma uses_Archive_new p : U (Archive_new p).
Proof. unfold Archive_new. collects. Qed.
Lemma uses_dumper_client k n : U (K8sResourceDump.K8sResourceDumperClient_new k n).
Proof. unfold K8sResourceDump.K8sResourceDumperClient_new. collects. Qed.
Hint Resolve uses_init_tool_log_file uses_tmp_directory uses_Archive_new uses_dumper_client : uses.
Lemma uses_system_dumper c b : permits opening ok → U (get_or_panic_system_dumper c b).
Proof. intros Ho. unfold get_or_panic_system_dumper. collects. Qed.
Lemma uses_resource_dumper debug c t : permits opening ok → U (get_or_panic_resource_dumper debug c t).
Proof. intros Ho. unfold get_or_panic_resource_dumper, init_no_log_file. destruct debug; collects. Qed.
Lemma uses_loki_logs d fuel t : permits_logger ok d.(logger) → U (collect_and_dump_loki_logs d fuel t).
Proof.
  intros Hl. unfold collect_and_dump_loki_logs, LogCollect.get_control_plane_logging_services,
    LogCollect.get_data_plane_logging_services, LogCollect.get_upgrade_logging_services,
    LogCollect.get_callhome_logging_services, LogCollect.get_nats_logging_services. collects.
Qed.
Hint Resolve uses_system_dumper uses_resource_dumper uses_loki_logs : uses.
Lemma uses_dump_topology {E} d get w :
  U get → yields get collects_info → U (dump_topology (E:=E) d get w).
Proof.
  intros Hu Hy. unfold dump_topology. eapply uses_bind_yields; [by apply uses_try|by apply yields_try|].
  intros [e|t] Ht; [done|]. collects.
Qed.
Lemma uses_collect_system d fuel :
  permits_logger ok d.(logger) → permits_store ok d.(etcd_dumper) → U (collect_system d fuel).
Proof.
  intros Hl Hs. unfold collect_system. apply uses_bind; [collects|intros _].
  do 4 (apply uses_bind; [apply uses_dump_topology; auto with uses|intros ?]). collects.
Qed.
Hint Resolve uses_collect_system : uses.

(** *** The dumpers at work *)
Lemma uses_fill_archive a dir : permits archiving ok → U (fill_archive_and_delete_tmp a dir).
Proof.
  intros Ha. unfold fill_archive_and_delete_tmp, flush_tool_log_file, copy_to_archive,
    delete_temporary_directory. collects.
Qed.
Hint Resolve uses_fill_archive : uses.
Lemma uses_dump_etcd {debug} fuel (d : ResourceDumper debug) :
  permits archiving ok → permits_store ok d.(rd_etcd_dumper) → U (dump_etcd fuel d).
Proof.
  intros Ha Hs. unfold dump_etcd, copy_to_archive, delete_temporary_directory.
  destruct (rd_etcd_dumper d); cbn [some_or ok_or]; [|done].
  assert (∀ k l, ok (EtcdPage k l) = true) by (apply Hs; eauto). cbn [bind]. collects.
Qed.
Lemma uses_dump_info fuel (d : ResourceDumper true) folder :
  permits archiving ok → permits_logger ok (rd_logger d.(debug_parts)) →
  permits_store ok d.(rd_etcd_dumper) →
  (∀ t, topologer d.(debug_parts) = Some t → collects_info t) → U (dump_info fuel d folder).
Proof.
  intros Ha Hl Hs Ht. unfold dump_info, copy_to_archive, delete_temporary_directory, init_no_log_file,
    LogCollect.get_control_plane_logging_services.
  assert (∀ dir t, topologer d.(debug_parts) = Some t → U (dump_topology_info t dir)) as Hi by (intros ?? E; by apply Ht).
  assert (∀ store, d.(rd_etcd_dumper) = Some store → ∀ k l, ok (EtcdPage k l) = true) as He by (intros ? E; apply Hs; eauto).
  destruct (topologer (debug_parts d)) as [t|], (rd_etcd_dumper d) as [store|];
    try specialize (He _ eq_refl); collects.
Qed.
End Parts.
#[export] Hint Resolve uses_log uses_write_to_log_file uses_create_dir uses_noted uses_or_exit uses_logged
  uses_nodes uses_pools uses_volumes uses_snapshots yields_nodes yields_pools yields_volumes
  yields_snapshots uses_fetch_and_dump_logs uses_etcd_dump uses_etcd_client uses_init_tool_log_file
  uses_tmp_directory uses_Archive_new uses_dumper_client uses_system_dumper uses_resource_dumper
  uses_loki_logs uses_collect_system uses_fill_archive uses_dump_etcd : uses.
End SupportUses.
