(* ===== verification/SupportConnSpec.v ===== *)
(** * Which connections a support dump uses

    A dump opens its connections to Loki and etcd before it does anything else, from its
    arguments, and sends requests to Loki and etcd over no other connection. *)

From S2P Require Import Prelude Text JobApi HelmValues SupportApi SupportTopology SupportK8s SupportLogs SupportDump.
From S2P Require Import SupportUses.
From stdpp Require Import base gmap list strings.
From Stdlib Require Import ZArith Lia Ascii.
Open Scope string_scope.
Open Scope list_scope.

Module ConnectionSpec.
Import SupportApi Traits Operations SystemDump ResourceDump SupportUses.

Abbreviation event c r := (Ev (S:=SupSig) c r).

(** The address of Loki is the one which is given, or the one which was answered when a
    connection was asked for. *)
Definition loki_of (kube given : option string) (ns : string) (tr : list (ev SupSig)) (uri : string) : Prop :=
  given = Some uri ∨ (given = None ∧ event (LokiProxy kube ns) (inr uri) ∈ tr).
(** A connection to etcd at the endpoint which is given, or at the one which was
    answered, has been opened. *)
Definition etcd_of (kube given : option string) (ns : string) (tr : list (ev SupSig)) : Prop :=
  ∃ endpoint, event (EtcdConnect endpoint) (inr tt) ∈ tr ∧
    (given = Some endpoint ∨ (given = None ∧ event (EtcdProxy kube ns) (inr endpoint) ∈ tr)).
Definition loki_of_config (c : DumpConfig) := loki_of c.(kube_config_path) c.(loki_uri) c.(Operations.namespace).
Definition etcd_of_config (c : DumpConfig) := etcd_of c.(kube_config_path) c.(etcd_uri) c.(Operations.namespace).

(** What is asked of Loki and etcd is asked over such a connection. *)
Definition served (config : DumpConfig) (tr : list (ev SupSig)) (c : sup_call) : Prop :=
  match c with
  | LokiCall request => ∃ uri q, request = uri +:+ q ∧ loki_of_config config tr uri
  | EtcdPage _ _ => etcd_of_config config tr
  | _ => True
  end.

(** The clients of a dumper come from its run. *)
Definition linked (config : DumpConfig) (tr : list (ev SupSig)) (lc : option LogCollect.LogCollection)
    (store : option EtcdDump.EtcdStore) : Prop :=
  (∀ l c, lc = Some l → l.(LogCollect.loki_client) = Some c → loki_of_config config tr c.(LokiLogs.uri)) ∧
  (is_Some store → etcd_of_config config tr).

(** ** The connections which are opened *)
Section Opening.
Context `{SupportCrates} `{SortUnstable} `{HashOrder}.

Lemma exec_ask_done {E} c tr (r : sup_res c) : exec (ask (E:=E) c) tr (Done r) → tr = [event c r].
Proof. apply (exec_call_inv (S:=SupSig)). Qed.

Lemma loki_of_app kube given ns t1 t t2 uri :
  loki_of kube given ns t uri → loki_of kube given ns (t1 ++ t ++ t2) uri.
Proof. intros [?|[??]]; [by left|right]. set_solver. Qed.
Lemma etcd_of_app kube given ns t1 t t2 :
  etcd_of kube given ns t → etcd_of kube given ns (t1 ++ t ++ t2).
Proof. intros (e & ? & He). exists e. split; [set_solver|]. destruct He as [?|[??]]; [by left|right]. set_solver. Qed.

Lemma served_app config t1 t t2 c : served config t c → served config (t1 ++ t ++ t2) c.
Proof.
  destruct c; cbn; try done; [intros (u & q & ? & ?); exists u, q; split; [done|]; by apply loki_of_app
    |apply etcd_of_app].
Qed.

(** [LokiClient::new] *)
Lemma exec_loki_client {E} given kube ns since tr c :
  exec (LokiLogs.LokiClient_new (E:=E) given kube ns since) tr (Done (Some c)) →
  loki_of kube given ns tr c.(LokiLogs.uri).
Proof.
  unfold LokiLogs.LokiClient_new. intros (u & t1 & t2 & Hu & Hx & ->)%exec_bind_done.
  destruct u as [uri|]; [|apply exec_ret_done in Hx as [_ ?]; done]. done_inv. simplify_eq. cbn.
  destruct given as [g|]; [apply exec_ret_done in Hu as [-> [= ->]]; by left|]. right. split; [done|].
  apply exec_bind_done in Hu as (r & ta & tb & Hr & Hx & ->). apply (exec_ask_done (LokiProxy kube ns)) in Hr as ->.
  destruct r as [e|u]; done_inv; simplify_eq. apply elem_of_app. left. apply elem_of_app; left. constructor.
Qed.

Lemma exec_new_logger kube ns given since tr lc c :
  exec (LogCollect.new_logger kube ns given since) tr (Done lc) →
  lc.(LogCollect.loki_client) = Some c → loki_of kube given ns tr c.(LokiLogs.uri).
Proof.
  unfold LogCollect.new_logger. intros Hx Hc.
  apply exec_bind_done in Hx as (cs & t1 & t2 & _ & Hx & ->).
  apply exec_bind_done in Hx as (l & t3 & t4 & Hl & Hx & ->).
  apply exec_ret_done in Hx as [-> <-]. cbn in Hc. subst l. apply exec_loki_client in Hl.
  by apply loki_of_app.
Qed.
(** [EtcdStore::new] *)
Lemma exec_etcd_client {E} config tr s :
  exec (etcd_client (E:=E) config) tr (Done (Some s)) → etcd_of_config config tr.
Proof.
  unfold etcd_client. intros (r & t1 & t2 & Hr%exec_try & Hx & ->)%exec_bind_done.
  destruct r as [e|s']; [done_inv; done|]. apply exec_ret_done in Hx as [-> _]. rewrite app_nil_r.
  unfold EtcdDump.EtcdStore_new, ask_or, checked in Hr. done_inv.
  repeat match goal with H : exec (ask ?c) ?t (Done ?r) |- _ => apply (exec_ask_done c t r) in H end.
  subst. cbn [eq_rect id] in *. simplify_eq.
  match goal with H : exec (match etcd_uri _ with _ => _ end) ?t (Done ?e) |- _ =>
    assert (etcd_uri config = Some e ∨ (etcd_uri config = None ∧
      event (EtcdProxy config.(kube_config_path) config.(Operations.namespace)) (inr e) ∈ t)) as He end.
  { destruct (etcd_uri config); done_inv; [left; congruence|]. right. split; [done|].
    repeat match goal with H : exec (ask ?c) ?t (Done ?r) |- _ => apply (exec_ask_done c t r) in H end.
    subst. simplify_eq. set_solver. }
  match goal with u : () |- _ => destruct u end.
  match goal with H : exec _ _ (Done ?e) |- etcd_of_config _ _ => exists e end.
  split; [set_solver|]. destruct He as [He|[He Hin]]; [by left|right]. set_solver.
Qed.

(** ** The dumpers *)
Lemma exec_or_exit {E E' A} (p : sup E A) (r : sup E' unit) tr a :
  exec (or_exit p r) tr (Done a) → exec p tr (Done a).
Proof.
  intros (x & t1 & t2 & Hp%exec_try & Hx & ->)%exec_bind_done. destruct x as [e|b]; [done_inv; done|].
  apply exec_ret_done in Hx as [-> <-]. by rewrite app_nil_r.
Qed.

Lemma linked_intro config tr lc store t1 t t2 s1 s s2 :
  tr = t1 ++ t ++ t2 → tr = s1 ++ s ++ s2 →
  (∀ l, lc = Some l → exec (LogCollect.new_logger config.(kube_config_path) config.(Operations.namespace)
      config.(Operations.loki_uri) config.(since_nanos)) t (Done l)) →
  exec (etcd_client (E:=Error) config) s (Done store) → linked config tr lc store.
Proof.
  intros Ht Hs Hl He. split.
  - intros l c Hlc Hc. rewrite Ht. apply loki_of_app. eapply exec_new_logger; eauto.
  - intros [st ->]. rewrite Hs. by eapply etcd_of_app, exec_etcd_client.
Qed.

Lemma exec_system_dumper config b tr d :
  exec (get_or_panic_system_dumper config b) tr (Done d) →
  linked config tr (Some d.(logger)) d.(etcd_dumper).
Proof.
  unfold get_or_panic_system_dumper. intros Hx.
  apply exec_bind_done in Hx as (dir & t1 & ? & _ & Hx & ->).
  apply exec_bind_done in Hx as (r & t2 & ? & _ & Hx & ->).
  apply exec_bind_done in Hx as (u & t3 & ? & _ & Hx & ->).
  apply exec_bind_done in Hx as (ar & t4 & ? & _ & Hx & ->).
  apply exec_bind_done in Hx as (l & t5 & ? & Hl%exec_or_exit & Hx & ->).
  apply exec_bind_done in Hx as (k & t6 & ? & _ & Hx & ->).
  apply exec_bind_done in Hx as (e & t7 & ? & He & [-> <-]%exec_ret_done & ->). cbn.
  eapply (linked_intro _ _ _ _ (t1 ++ t2 ++ t3 ++ t4) t5 _ (t1 ++ t2 ++ t3 ++ t4 ++ t5 ++ t6) t7 []).
  - by rewrite <-!app_assoc.
  - by rewrite <-!app_assoc.
  - by intros ? [= <-].
  - done.
Qed.

(** The logger of a dumper of single resources exists in debug builds only. *)
Definition logger_of {debug : bool} : (if debug then DebugParts else unit) → option LogCollect.LogCollection :=
  match debug with true => λ p : DebugParts, Some p.(rd_logger) | false => λ _ : unit, None end.
Definition topologer_of {debug : bool} : (if debug then DebugParts else unit) → option dyn_topologer :=
  match debug with true => λ p : DebugParts, p.(topologer) | false => λ _ : unit, None end.

Lemma exec_resource_dumper debug config t tr (d : ResourceDumper debug) :
  exec (get_or_panic_resource_dumper debug config t) tr (Done d) →
  linked config tr (logger_of d.(debug_parts)) d.(rd_etcd_dumper) ∧
  (debug = true → topologer_of d.(debug_parts) = t).
Proof.
  unfold get_or_panic_resource_dumper. intros Hx.
  apply exec_bind_done in Hx as (dirs & t1 & ? & _ & Hx & ->).
  apply exec_bind_done in Hx as (ar & t2 & ? & _ & Hx & ->).
  apply exec_bind_done in Hx as (parts & t3 & ? & Hp & Hx & ->).
  apply exec_bind_done in Hx as (e & t4 & ? & He & [-> <-]%exec_ret_done & ->). cbn.
  destruct debug.
  - apply exec_bind_done in Hp as (l & ta & ? & Hl%exec_or_exit & Hp & ->).
    apply exec_bind_done in Hp as (k & tb & ? & _ & [-> <-]%exec_ret_done & ->). cbn. split; [|done].
    eapply (linked_intro _ _ _ _ (t1 ++ t2) ta _ (t1 ++ t2 ++ ta ++ tb) t4 []); [by rewrite <-!app_assoc..| |done].
    by intros ? [= <-].
  - split; [|done]. eapply (linked_intro _ _ _ _ [] [] _ (t1 ++ t2 ++ t3) t4 []); [done|by rewrite <-!app_assoc| |done].
    done.
Qed.
End Opening.

(** ** What the clients send *)
(** Requests with a client of Loki at [lo], and with a store of etcd if [up] *)
Definition over (lo : option string) (up : bool) (c : sup_call) : bool :=
  match c with
  | LokiCall request => match lo with Some uri => String.prefix uri request | None => false end
  | EtcdPage _ _ => up
  | c => negb (opening c)
  end.
Definition quiet (c : sup_call) : bool := negb (serving c).

Lemma prefix_app u q : String.prefix u (u +:+ q) = true.
Proof.
  induction u as [|a u IH]; [by destruct q|]. rewrite str_cons. cbn. by destruct (ascii_dec a a).
Qed.
Lemma prefix_split u t : String.prefix u t = true → ∃ q, t = u +:+ q.
Proof.
  revert t; induction u as [|a u IH]; intros t Ht; [by exists t|]. destruct t as [|b t]; [done|]. cbn in Ht.
  destruct (ascii_dec a b) as [->|]; [|done]. destruct (IH t Ht) as [q ->]. by exists q.
Qed.

Lemma permits_quiet : permits plain quiet ∧ permits opening quiet ∧ permits archiving quiet.
Proof. by split_and!; intros []. Qed.
Lemma permits_over lo up : permits plain (over lo up) ∧ permits archiving (over lo up).
Proof. by split; intros []. Qed.

(** The clients of a dumper, as the requests they allow *)
Definition uri_of (lc : option LogCollect.LogCollection) : option string :=
  l ← lc; LokiLogs.uri <$> l.(LogCollect.loki_client).
Lemma over_logger l up : permits_logger (over (uri_of (Some l)) up) l.
Proof. unfold permits_logger, uri_of; cbn. destruct (LogCollect.loki_client l); [|done]. intros q. apply prefix_app. Qed.
Lemma over_store lo (store : option EtcdDump.EtcdStore) : permits_store (over lo (bool_decide (is_Some store))) store.
Proof. intros Hs k l. by apply bool_decide_eq_true. Qed.

Lemma linked_served config tr lc store c :
  linked config tr lc store → over (uri_of lc) (bool_decide (is_Some store)) c = true → served config tr c.
Proof.
  intros [Hl He]. destruct c; cbn; try done.
  - unfold uri_of. destruct lc as [l|]; cbn; [|done].
    destruct (LogCollect.loki_client l) as [k|] eqn:Hk; cbn; [|done]. intros [q ->]%prefix_split. eauto.
  - intros Hs%bool_decide_eq_true. auto.
Qed.

Section Serving.
Context `{SupportCrates} `{SortUnstable} `{HashOrder}.
#[local] Hint Resolve over_logger over_store : uses.
#[local] Hint Extern 1 (permits _ quiet) => apply permits_quiet : uses.
#[local] Hint Extern 1 (permits _ (over _ _)) => apply permits_over : uses.

(** A dumper is made, then put to work. *)
Lemma dumper_served {E D A} config (p : sup E D) (f : D → sup E A)
    (lc : D → option LogCollect.LogCollection) (store : D → option EtcdDump.EtcdStore) tr1 c r tr2 o :
  uses (S:=SupSig) quiet p → (∀ tr d, exec p tr (Done d) → linked config tr (lc d) (store d)) →
  (∀ d, uses (S:=SupSig) (over (uri_of (lc d)) (bool_decide (is_Some (store d)))) (f d)) →
  exec (bind f p) (tr1 ++ event c r :: tr2) o → serving c = true → served config tr1 c.
Proof.
  intros Hq Hl Hf Hx Hc. apply (exec_gated (S:=SupSig) quiet) in Hx as (d & ta & t & Hd & -> & Hx);
    [|done|unfold quiet; by rewrite Hc].
  apply Hl in Hd. apply (served_app config []). eapply linked_served; [exact Hd|].
  destruct (over _ _ c) eqn:Ho; [done|]. exfalso. eapply uses_refuses; [apply Hf|exact Hx|done].
Qed.

(** The arms for resources of the storage *)
Lemma kind_served fuel config get folder msg tr1 c r tr2 o :
  (∀ ok, permits plain ok → uses ok get ∧ yields get (collects_info ok)) →
  exec (dump_resource_kind fuel config get folder msg) (tr1 ++ event c r :: tr2) o →
  serving c = true → served config tr1 c.
Proof.
  intros Hg Hx Hc. unfold dump_resource_kind in Hx.
  apply (exec_gated (S:=SupSig) quiet) in Hx as (t & ta & t1 & Ht & -> & Hx);
    [|apply uses_map_err, Hg, permits_quiet|unfold quiet; by rewrite Hc].
  apply exec_map_err_done in Ht. rewrite <-(app_nil_r t1). apply served_app.
  apply (exec_gated (S:=SupSig) quiet) in Hx as (d & tb & t2 & Hd & -> & Hx);
    [|auto with uses|unfold quiet; by rewrite Hc].
  apply exec_resource_dumper in Hd as [Hd Htop]. apply (served_app config []).
  eapply linked_served; [exact Hd|]. destruct (over _ _ c) eqn:Ho; [done|]. exfalso.
  eapply uses_refuses; [|exact Hx|exact Ho]. unfold step_errors. cbn [logger_of].
  apply uses_bind; [|intros]. 2: apply uses_bind; [|done].
  - apply uses_noted; [apply permits_over|]. apply uses_dump_info; auto with uses.
    intros t' Ht'. specialize (Htop eq_refl). cbn in Htop. rewrite Htop in Ht'. injection Ht' as <-.
    eapply yields_sound; [apply Hg, permits_over|done].
  - apply uses_noted; [apply permits_over|]. auto with uses.
Qed.

Lemma resource_served {debug} fuel (resource : Resource debug) config tr1 c r tr2 o :
  exec (resource_errors fuel resource config) (tr1 ++ event c r :: tr2) o →
  serving c = true → served config tr1 c.
Proof.
  intros Hx Hc. destruct resource as [b dl| |id| |id| |id|b so|b]; cbn [resource_errors] in Hx;
    try (by eapply kind_served; [|exact Hx|done]; auto with uses).
  - eapply (dumper_served _ _ _ (λ d, Some d.(logger)) etcd_dumper); [..|exact Hx|done]; [auto with uses| |].
    + intros tr d. apply exec_system_dumper.
    + intros d. unfold step_errors, dump_system.
      apply uses_bind; [apply uses_noted; [apply permits_over|]|intros e1].
      { apply uses_bind; [auto with uses|done]. }
      apply uses_bind; [apply uses_noted; [apply permits_over|auto with uses]|done].
  - eapply (dumper_served _ _ _ (λ d, logger_of d.(debug_parts)) rd_etcd_dumper) in Hx; [..|done]; [done|auto with uses| |].
    + intros tr d Hd. by apply exec_resource_dumper in Hd as [Hd _].
    + intros d. unfold step_errors. apply uses_noted; [apply permits_over|]. auto with uses.
  - eapply (dumper_served _ _ _ (λ d, Some d.(logger)) etcd_dumper); [..|exact Hx|done]; [auto with uses| |].
    + intros tr d. apply exec_system_dumper.
    + intros d. unfold step_errors.
      apply uses_bind; [apply uses_try; auto with uses|intros t]. apply uses_bind; [auto with uses|intros _].
      apply uses_bind; [apply uses_map_err; auto with uses|intros _].
      apply uses_noted; [apply permits_over|auto with uses].
Qed.

(** Every request to Loki or etcd goes over a connection which was opened before, in the
    same run, of the arguments of the command. *)
Lemma dump_served {debug} fuel cli_args (resource : Resource debug) tr1 c r tr2 o :
  exec (execute_resource_dump fuel cli_args resource) (tr1 ++ event c r :: tr2) o →
  serving c = true → served (config_of cli_args) tr1 c.
Proof.
  intros Hx Hc. unfold execute_resource_dump in Hx.
  apply (exec_within (S:=SupSig) quiet) in Hx as (tr2' & o' & Hx); [|by intros []|unfold quiet; by rewrite Hc].
  by apply resource_served in Hx.
Qed.
End Serving.
End ConnectionSpec.
