(* ===== verification/SupportSpec.v ===== *)
(** * What the support bundle guarantees

    The temporary directory is deleted only when it has just been archived; a failing step
    does not stop the system dump; which lines, keys and events reach the files. *)

From S2P Require Import Prelude Text JobApi HelmValues SupportApi SupportTopology SupportK8s SupportLogs SupportDump.
From S2P Require Import SupportUses.
From stdpp Require Import base gmap list strings pretty sorting.
From Stdlib Require Import ZArith Lia Ascii.
Open Scope string_scope.

(** ** The temporary directory *)
Module ArchiveSpec.
Import SupportApi Traits Operations SystemDump ResourceDump SupportUses.

(** The last thing that happened to the archive *)
Inductive phase :=
| Collecting | Appended (dir : string) | Archived (dir : string) | Removed (dir : string).

(** [RemoveDirAll p] is allowed only as the next request after [p] was appended to the
    archive and the archive was finished, both with success. *)
Definition archive_step (m : phase) (c : sup_call) : sup_res c → option phase :=
  match c with
  | TarAppendDirAll _ src => λ r, Some (match r with inr _ => Appended src | inl _ => Collecting end)
  | TarFinish => λ r, Some (match m, r with Appended d, inr _ => Archived d | _, _ => Collecting end)
  | RemoveDirAll p => λ r,
      match m with
      | Archived d =>
          if decide (p = d) then Some (match r with inr _ => Removed d | inl _ => Collecting end)
          else None
      | _ => None
      end
  | _ => λ _, Some (match m with Removed d => Removed d | _ => Collecting end)
  end.
Definition archive_protocol : protocol SupSig :=
  Protocol SupSig phase (λ m e, match e with Ev c r => archive_step m c r end).

(** Requests which neither archive nor delete directories *)
Definition collecting (c : sup_call) : bool :=
  match c with TarAppendDirAll _ _ | TarFinish | RemoveDirAll _ => false | _ => true end.

Lemma collecting_ignored c r :
  collecting c = true → mstep archive_protocol Collecting (Ev (S:=SupSig) c r) = Some Collecting.
Proof. by destruct c. Qed.
Lemma removed_ignored d c r :
  collecting c = true → mstep archive_protocol (Removed d) (Ev (S:=SupSig) c r) = Some (Removed d).
Proof. by destruct c. Qed.

Lemma permits_collecting : permits plain collecting.
Proof. by intros []. Qed.
Lemma permits_collecting_opening : permits opening collecting.
Proof. by intros []. Qed.
Lemma logger_collecting lc : permits_logger collecting lc.
Proof. unfold permits_logger. by destruct (LogCollect.loki_client lc). Qed.
Lemma store_collecting s : permits_store collecting s.
Proof. done. Qed.
#[local] Hint Resolve permits_collecting permits_collecting_opening logger_collecting store_collecting : uses.

Section Collecting.
Context `{SupportCrates} `{SortUnstable} `{HashOrder}.
Abbreviation U := (uses (S:=SupSig) collecting).

(** *** Archiving *)
Definition settled (m : phase) : Prop := m = Collecting ∨ ∃ d, m = Removed d.

(** A part which only collects leaves a settled state as it is. *)
Lemma respects_collecting {E A} (p : sup E A) m :
  U p → settled m → respects archive_protocol p m (λ _ m', m' = m) (λ _ m', m' = m).
Proof.
  intros Hp [->|[d ->]]; apply (respects_uses_at (S:=SupSig) collecting); eauto using collecting_ignored, removed_ignored.
Qed.
Lemma respects_then {E A B} (p : sup E A) (f : A → sup E B) m Q (R : fault E → phase → Prop) :
  U p → settled m → (∀ a, respects archive_protocol (f a) m Q R) → (∀ e, R e m) →
  respects archive_protocol (bind f p) m Q R.
Proof.
  intros Hp Hm Hf HR. eapply respects_seq; [by apply respects_collecting| |];
    [intros a m' ->|intros e m' ->]; auto.
Qed.
Lemma respects_then_yields {E A B} (p : sup E A) (f : A → sup E B) m Y Q (R : fault E → phase → Prop) :
  U p → yields p Y → settled m → (∀ a, Y a → respects archive_protocol (f a) m Q R) → (∀ e, R e m) →
  respects archive_protocol (bind f p) m Q R.
Proof.
  intros Hp HY Hm Hf HR.
  eapply respects_seq; [apply respects_yields; [by apply respects_collecting|done]| |].
  - intros a m' [-> Ha]. auto.
  - intros e m' ->. auto.
Qed.

Lemma respects_copy_to_archive tar dir :
  respects archive_protocol (copy_to_archive (Some tar) dir ".") Collecting
    (λ _ m, m = Archived dir) (λ _ m, m = Collecting).
Proof. unfold copy_to_archive, ask_or; cbn. intros [|]; cbn; [done|]. by intros [|]. Qed.

Lemma respects_logged {E E' A} (f : E → E') (p : sup E A) msg m Q (R : fault E' → phase → Prop) :
  respects archive_protocol p m Q (λ _ m', settled m' ∧ ∀ e, R e m') →
  respects archive_protocol (logged f p msg) m Q R.
Proof.
  intros Hp. apply respects_bind, respects_try. eapply respects_weaken; [exact Hp|done|].
  intros [e| |c] m' [Hs HR]; [|by apply HR..].
  apply respects_then; [auto with uses|done|..]; intros; [apply HR|apply HR].
Qed.

Lemma respects_noted {E E' A} (p : sup E A) msg m (Q : list E → phase → Prop) (R : fault E' → phase → Prop) :
  respects archive_protocol p m (λ _, Q [])
    (λ f m', settled m' ∧ (∀ e, Q [e] m') ∧ ∀ e, R e m') →
  respects archive_protocol (noted p msg) m Q R.
Proof.
  intros Hp. apply respects_bind, respects_try. eapply respects_weaken; [exact Hp|done|].
  intros [e| |c] m' (Hs & HQ & HR); [|by apply HR..].
  apply respects_then; [auto with uses|done|..]; intros; [apply HQ|apply HR].
Qed.

Lemma respects_delete dir :
  respects archive_protocol (delete_temporary_directory dir) (Archived dir)
    (λ _ m, m = Removed dir) (λ _ m, m = Collecting).
Proof.
  unfold delete_temporary_directory, ask_or; cbn. intros r. rewrite decide_True by done. by destruct r.
Qed.

Lemma respects_fill_archive tar dir :
  respects archive_protocol (fill_archive_and_delete_tmp (Some tar) dir) Collecting
    (λ _ m, m = Removed dir) (λ _ m, m = Collecting).
Proof.
  unfold fill_archive_and_delete_tmp. apply respects_then; [auto with uses|by left| |done].
  intros _. apply respects_then; [unfold flush_tool_log_file; collects|by left| |done].
  intros _. eapply respects_seq.
  - apply respects_logged. eapply respects_weaken; [apply respects_copy_to_archive|done|].
    intros _ m ->. split; [by left|]. intros e. instantiate (1 := λ _ m, m = Collecting). done.
  - intros _ m ->. apply respects_logged. eapply respects_weaken; [apply respects_delete|done|].
    intros _ m ->. split; [by left|done].
  - done.
Qed.

(** *** The archive which a dumper has *)
Lemma yields_Archive_new p : yields (Archive_new (Some p)) (λ a, is_Some a).
Proof. cbn. intros d [|]; cbn; [done|eauto]. Qed.
Lemma yields_or_exit {E E' A} (p : sup E A) (r : sup E' unit) (Q : A → Prop) :
  yields p Q → yields (or_exit p r) Q.
Proof.
  intros Hp. eapply yields_bind; [by apply yields_try|]. intros [e|a] Ha; [by apply yields_then|done].
Qed.
Lemma yields_system_dumper c b : yields (get_or_panic_system_dumper c b) (λ d, is_Some d.(archive)).
Proof.
  unfold get_or_panic_system_dumper. do 3 (apply yields_then; intros ?).
  eapply yields_bind; [apply yields_or_exit, yields_Archive_new|].
  intros ar Har. by do 3 (apply yields_then; intros ?).
Qed.
Lemma yields_resource_dumper debug c t :
  yields (get_or_panic_resource_dumper debug c t)
    (λ d, d.(rd_output_format) = c.(output_format) ∧ (c.(output_format) = Tar → is_Some d.(rd_archive))).
Proof.
  unfold get_or_panic_resource_dumper.
  eapply (yields_bind _ _ (λ dirs, c.(output_format) = Tar → is_Some dirs.2)).
  - destruct (output_format c); repeat (apply yields_then; intros ?); cbn; eauto; done.
  - intros [d1 d2] Hd. eapply (yields_bind _ _ (λ a, c.(output_format) = Tar → is_Some a)).
    + apply yields_or_exit. destruct d2 as [p|].
      * eapply yields_weaken; [apply yields_Archive_new|]. done.
      * intros Ht. by destruct (Hd Ht).
    + intros a Ha. by do 2 (apply yields_then; intros ?).
Qed.

(** What the arms of the command leave *)
Definition left_behind (errors : list Error) (m : phase) : Prop :=
  settled m ∧ (errors = [] → ∃ d, m = Removed d).

Lemma respects_fill_step tar dir msg :
  respects archive_protocol (step_errors (fill_archive_and_delete_tmp (Some tar) dir) msg) Collecting
    left_behind (λ _ _, True).
Proof.
  apply respects_noted. eapply respects_weaken; [apply respects_fill_archive|..].
  - intros _ m ->. split; [right|]; eauto.
  - intros _ m ->. split; [by left|]. split; [|done]. intros e. by split; [left|].
Qed.

Lemma respects_dump_etcd {debug} fuel (d : ResourceDumper debug) :
  (d.(rd_output_format) = Tar → is_Some d.(rd_archive)) →
  respects archive_protocol (dump_etcd fuel d) Collecting (λ _, settled) (λ _, settled).
Proof.
  intros Ha. unfold dump_etcd. do 3 (apply respects_then; [auto with uses|by left|intros ?|by left]).
  destruct (rd_output_format d) eqn:Hf; [|by left]. destruct (Ha eq_refl) as [tar Htar]. rewrite Htar.
  eapply respects_seq with (Q1 := λ _ m, m = Archived (rd_dir_path d)) (R1 := λ _, settled);
    [|intros _ m ->|done].
  - apply respects_logged. eapply respects_weaken; [apply respects_copy_to_archive|done|].
    intros _ m ->. by split; [left|left].
  - eapply respects_seq with (Q1 := λ _, settled) (R1 := λ _, settled); [|done|done].
    apply respects_noted. eapply respects_weaken; [apply respects_delete|..].
    + intros _ m ->. right. eauto.
    + intros _ m ->. split_and!; by left.
Qed.

(** Whether the command deletes its temporary directory before it succeeds *)
Definition deletes {debug} (resource : Resource debug) : bool :=
  match resource with Etcd _ => false | _ => true end.

Lemma respects_resource_errors fuel (resource : Resource false) config :
  respects archive_protocol (resource_errors fuel resource config) Collecting
    (λ errors m, settled m ∧ (errors = [] → deletes resource = true → ∃ d, m = Removed d))
    (λ _ _, True).
Proof.
  revert resource. enough (∀ b (resource : Resource b), b = false →
    respects archive_protocol (resource_errors fuel resource config) Collecting
    (λ errors m, settled m ∧ (errors = [] → deletes resource = true → ∃ d, m = Removed d))
    (λ _ _, True)) as Hg by eauto.
  intros b resource Hb. destruct resource as [b dl| | | | | | |b so|b]; try done; cbn [resource_errors].
  - eapply respects_then_yields; [auto with uses|apply yields_system_dumper|by left| |done].
    intros d [tar Htar]. rewrite Htar. apply respects_then; [|by left| |done].
    { unfold step_errors, dump_system. apply uses_noted; [apply permits_collecting|]. collects. }
    intros e1. eapply respects_seq; [apply respects_fill_step| |done].
    intros e2 m [Hs He]. split; [done|]. intros [-> ->]%app_nil _. by apply He.
  - eapply respects_then_yields; [auto with uses|apply yields_resource_dumper|by left| |done].
    intros d [Hf Ha]. unfold step_errors.
    apply respects_noted. eapply respects_weaken; [apply respects_dump_etcd; intros Ht; apply Ha; by rewrite <- Hf|..].
    + intros u m Hs. by split.
    + intros e m Hs. split_and!; [done| |done]. intros. by split.
  - eapply respects_then_yields; [auto with uses|apply yields_system_dumper|by left| |done].
    intros d [tar Htar]. rewrite Htar.
    do 3 (apply respects_then; [auto with uses|by left|intros ?|done]).
    eapply respects_weaken; [apply respects_fill_step| |done].
    intros es m [Hs He]. split; [done|]. intros ? _. by apply He.
Qed.

(** C27: In every run of a support dump (system, Loki, etcd), also one which fails or is cut
    short, a directory is deleted only as the next request after it was copied into the
    archive and the archive was finished, both with success; and a successful dump of the
    system or of Loki logs has deleted its temporary directory. *)
Theorem archived_before_deletion fuel cli_args (resource : Resource false) tr o :
  exec (execute_resource_dump fuel cli_args resource) tr o →
  ∃ m, accepts archive_protocol Collecting tr = Some m ∧
    (o = Done tt → deletes resource = true → ∃ d, m = Removed d).
Proof.
  intros Hx. eapply (respects_sound archive_protocol _ Collecting
    (λ _ m, deletes resource = true → ∃ d, m = Removed d) (λ _ _, True)) in Hx as (m & Hm & Ho).
  - exists m. split; [done|]. by intros ->.
  - unfold execute_resource_dump. eapply respects_seq; [apply respects_resource_errors| |done].
    intros [|e es] m [Hs He]; [|done].
    eapply respects_weaken; [by apply respects_collecting; [auto with uses|]| |done].
    intros _ m' ->. auto.
Qed.

(** *** The system dump *)
(** No error value of a program *)
Fixpoint no_error {E A} (p : sup E A) : Prop :=
  match p with
  | Throw (Err _) => False
  | Call c k => ∀ r, no_error (k r)
  | _ => True
  end.
Lemma no_error_bind {E A B} (p : sup E A) (f : A → sup E B) :
  no_error p → (∀ a, no_error (f a)) → no_error (bind f p).
Proof. induction p as [|[]| |c k IH]; cbn; eauto. Qed.
Lemma no_error_try {E E' A} (p : sup E A) : no_error (try_ (E':=E') p).
Proof. induction p as [|[]| |c k IH]; cbn; eauto. Qed.
Lemma no_error_sound {E A} (p : sup E A) tr e : no_error p → ¬ exec p tr (Failed (Err e)).
Proof.
  revert tr; induction p as [|f| |c k IH]; cbn; intros tr Hp Hx.
  1,3: by destruct Hx as [[??]|[??]].
  - destruct Hx as [[??]|[??]]; [done|]. by simplify_eq.
  - destruct Hx as [[??]|(r & tr' & -> & Hx)]; [done|]. eapply IH; eauto.
Qed.
Lemma no_error_log {E} s : no_error (log (E:=E) s).
Proof. cbn. intros _ [[f|]|]; cbn; [intros [|]|..]; done. Qed.
Lemma no_error_noted {E E' A} (p : sup E A) s : no_error (noted (E':=E') p s).
Proof.
  apply no_error_bind; [apply no_error_try|]. intros [|]; [|done]. by apply no_error_bind; [apply no_error_log|].
Qed.
Lemma no_error_dump_topology {E} d get w : no_error (dump_topology (E:=E) d get w).
Proof.
  apply no_error_bind; [apply no_error_try|]. intros [|]; [done|].
  apply no_error_bind; [apply no_error_log|intros _]. by apply no_error_bind; [apply no_error_noted|].
Qed.

(** C40: No failing step stops the dump of a system: whatever the services answer, it never
    ends with an error value, so the archive is always filled; its caller learns of no
    error either, as the collected errors are not returned. *)
Theorem system_dump_never_fails d fuel tr e : ¬ exec (dump_system d fuel) tr (Failed (Err e)).
Proof.
  apply no_error_sound. unfold dump_system, collect_system.
  repeat first [apply no_error_log | apply no_error_dump_topology
    | apply no_error_noted | apply no_error_bind; [|intros ?] | done | match goal with
      | |- no_error (if ?b then _ else _) => destruct b
      | |- no_error (match ?x with _ => _ end) => destruct x end].
Qed.
End Collecting.
End ArchiveSpec.
