(* ===== verification/SupportExitSpec.v ===== *)
(** * With which status a support dump ends the process

    The dumps call [process::exit(1)] when they cannot start, and nothing else ends the
    process: errors are returned, and panics are panics. *)

From S2P Require Import Prelude Text JobApi HelmValues SupportApi SupportTopology SupportK8s SupportLogs SupportDump.
From stdpp Require Import base gmap list strings.
From Stdlib Require Import ZArith Lia Ascii.
Open Scope string_scope.

Module ExitSpec.
Import SupportApi Traits Operations SystemDump ResourceDump.

(** The only exit code is 1. *)
Abbreviation one := (exits (λ c, c = 1%Z)).
Abbreviation T p := (throws p one).

(** Walk a program, unfolding the functions it calls. *)
Ltac head_of t := lazymatch t with ?f _ => head_of f | _ => t end.
Ltac walk :=
  repeat first
    [ solve [eauto with throws]
    | progress solve_throws
    | progress cbv zeta
    | lazymatch goal with |- throws ?p _ => let h := head_of p in unfold h end ].

Section Exits.
Context `{SupportCrates} `{SortUnstable} `{HashOrder}.

Lemma exits_log {E} s : T (log (E:=E) s).
Proof. walk. Qed.
#[local] Hint Resolve exits_log : throws.
Lemma exits_noted {E E' A} (p : sup E A) s : T p → T (noted (E':=E') p s).
Proof. intros. walk. Qed.
Lemma exits_logged {E E' A} (f : E → E') (p : sup E A) s : T p → T (logged f p s).
Proof. intros. walk. Qed.
Lemma exits_or_exit {E E' A} (p : sup E A) (r : sup E' unit) : T p → T r → T (or_exit p r).
Proof. intros. walk. Qed.
#[local] Hint Resolve exits_noted exits_logged exits_or_exit : throws.

Lemma exits_write_lines p lines n : T (K8sLogs.write_lines p lines n).
Proof. revert n; induction lines as [|[e|d] lines IH]; intros n; cbn [K8sLogs.write_lines]; walk. Qed.
Lemma exits_collect_errors {E E'} (steps : list (sup E unit)) :
  Forall (λ p, T p) steps → T (K8sResourceDump.collect_errors (E':=E') steps).
Proof.
  unfold K8sResourceDump.collect_errors.
  match goal with |- context [foldM ?f _ ?a] => set (g := f); generalize a end.
  induction steps as [|p l IH]; intros es; [done|].
  intros [Hp Hl]%Forall_cons. cbn [foldM]. apply throws_bind; [unfold g; walk|]. intros. by apply IH.
Qed.
#[local] Hint Resolve exits_write_lines : throws.
Lemma exits_dump_k8s_resources cs fuel p r : T (K8sResourceDump.dump_k8s_resources cs fuel p r).
Proof.
  unfold K8sResourceDump.dump_k8s_resources. do 2 (apply throws_bind; [walk|intros ?]).
  apply throws_bind; [apply exits_collect_errors|intros es; by destruct es].
  repeat apply Forall_cons_2; try apply Forall_nil_2; walk.
Qed.
#[local] Hint Resolve exits_dump_k8s_resources : throws.

Definition exits_info (t : dyn_topologer) : Prop := ∀ dir, T (dump_topology_info t dir).
Lemma exits_dump_file d f doc : T (dump_file d f doc).
Proof. walk. Qed.
#[local] Hint Resolve exits_dump_file : throws.

Lemma exits_nodes i : T (NodeResource.NodeClient_get_topologer i).
Proof. walk. Qed.
Lemma exits_pools i : T (PoolResource.PoolClient_get_topologer i).
Proof. walk. Qed.
Lemma exits_volumes fuel i : T (VolumeResource.VolumeClient_get_topologer fuel i).
Proof. walk. Qed.
Lemma exits_snapshots fuel i : T (SnapshotResource.SnapshotClient_get_topologer fuel i).
Proof. walk. Qed.
#[local] Hint Resolve exits_nodes exits_pools exits_volumes exits_snapshots : throws.

(** The topologies, when they are written *)
Ltac topologer :=
  match goal with |- yields ?p _ => let h := head_of p in unfold h end;
  repeat match goal with
  | |- yields (match ?x with _ => _ end) _ => destruct x
  | |- yields (bind _ _) _ => apply yields_then; intros ?
  end; try exact I; intros dir; walk.
Lemma info_nodes i : yields (NodeResource.NodeClient_get_topologer i) exits_info.
Proof. topologer. Qed.
Lemma info_pools i : yields (PoolResource.PoolClient_get_topologer i) exits_info.
Proof. topologer. Qed.
Lemma info_volumes fuel i : yields (VolumeResource.VolumeClient_get_topologer fuel i) exits_info.
Proof. topologer. Qed.
Lemma info_snapshots fuel i : yields (SnapshotResource.SnapshotClient_get_topologer fuel i) exits_info.
Proof. topologer. Qed.
#[local] Hint Resolve info_nodes info_pools info_volumes info_snapshots : throws.

Lemma exits_dump_topology {E} d get w :
  T get → yields get exits_info → T (dump_topology (E:=E) d get w).
Proof.
  intros Hu Hy. unfold dump_topology. eapply throws_bind_yields; [by apply throws_try|by apply yields_try|].
  intros [e|t] Ht; [done|]. unfold exits_info in Ht. walk.
Qed.
Lemma exits_collect_system d fuel : T (collect_system d fuel).
Proof.
  unfold collect_system. apply throws_bind; [walk|intros _].
  do 4 (apply throws_bind; [apply exits_dump_topology; auto with throws|intros ?]). walk.
Qed.
Lemma exits_fill a d : T (fill_archive_and_delete_tmp a d).
Proof. walk. Qed.
Lemma exits_resource_dumper debug config t : T (get_or_panic_resource_dumper debug config t).
Proof. destruct debug; walk. Qed.
#[local] Hint Resolve exits_collect_system exits_fill exits_resource_dumper : throws.
Lemma dumper_topologer config t :
  yields (get_or_panic_resource_dumper true config t) (λ d, (d.(debug_parts) : DebugParts).(topologer) = t).
Proof.
  unfold get_or_panic_resource_dumper. do 2 (apply yields_then; intros ?).
  apply yields_bind with (P := λ p : DebugParts, p.(topologer) = t).
  - do 2 (apply yields_then; intros ?). done.
  - intros p Hp. by apply yields_then.
Qed.

Lemma exits_dump_info fuel (d : ResourceDumper true) dir :
  match (d.(debug_parts) : DebugParts).(topologer) with Some t => exits_info t | None => True end →
  T (dump_info fuel d dir).
Proof.
  intros Ht. unfold dump_info, exits_info in *. destruct (topologer _); walk.
Qed.
Lemma exits_dump_kind fuel config get dir msg :
  T get → yields get exits_info → T (dump_resource_kind fuel config get dir msg).
Proof.
  intros Hu Hy. unfold dump_resource_kind, map_err.
  eapply throws_bind_yields with (P := exits_info); [by apply throws_map_err| |].
  { apply yields_bind with (P := λ r, match r with inr t => exits_info t | inl _ => True end);
      [by apply yields_try|by intros [e|t]]. }
  intros t Ht. eapply throws_bind_yields; [apply exits_resource_dumper|apply dumper_topologer|].
  intros d Hd. apply throws_bind; [|intros; walk]. apply exits_noted, exits_dump_info. by rewrite Hd.
Qed.

(** The dump ends the process itself only with status 1. *)
Lemma exits_execute fuel debug args (r : Resource debug) : T (execute_resource_dump fuel args r).
Proof.
  unfold execute_resource_dump. apply throws_bind; [|intros []; walk].
  destruct r; cbn [resource_errors]; try (apply exits_dump_kind; auto with throws); walk.
Qed.
End Exits.
End ExitSpec.
