(* ===== verification/SupportFilesSpec.v ===== *)
(** * What reaches the files of the support bundle

    The dumps of etcd, of Loki and of pod logs end and write what the services hold, once
    and in order (lines of Loki may be repeated if an answer has several streams); the order of events; the labels of log queries; the hosts of a
    topology. *)

From S2P Require Import Prelude Text JobApi HelmValues SupportApi SupportTopology SupportK8s SupportLogs SupportDump.
From stdpp Require Import base gmap list strings pretty sorting.
From Stdlib Require Import ZArith Lia Ascii.
Open Scope string_scope.

(** ** A disk which stores what is written, beside services which answer *)
Module Disk.
Import SupportApi.

Definition disk (svc : ∀ c : sup_call, sup_res c) : handler SupSig (gmap string string) := λ c w,
  match c return sup_res c * gmap string string with
  | CreateFile p => (inr tt, <[p := ""]> w)
  | WriteAll p s => (inr tt, <[p := default "" (w !! p) +:+ s]> w)
  | RemoveFile p => (inr tt, delete p w)
  | Flush _ => (inr tt, w)
  | c => (svc c, w)
  end.

Lemma take_drop_min {A} n (l : list A) : (take n l ++ drop (Nat.min n (length l)) l)%list = l.
Proof.
  destruct (Nat.min_spec n (length l)) as [[_ ->]|[? ->]]; [apply take_drop|].
  rewrite take_ge, drop_all by done. apply app_nil_r.
Qed.

Section Disk.
Variable svc : ∀ c : sup_call, sup_res c.

(** A write appends to the file. *)
Lemma disk_write {E} (f : io_error → E) p s c w :
  evals (disk svc) (req! (WriteAll p s) or f) (<[p := c]> w) = (Done tt, <[p := c +:+ s]> w).
Proof.
  unfold ask_or, ask; cbn. rewrite evals_Call; cbn. rewrite lookup_insert_eq, insert_insert_eq. done.
Qed.
Lemma disk_flush {E} (f : io_error → E) p w :
  evals (disk svc) (req! (Flush p) or f) w = (Done tt, w).
Proof. done. Qed.

(** Writing the elements of a list appends their texts. *)
Fixpoint written {A} (render : A → string) (l : list A) : string :=
  match l with [] => "" | a :: l => render a +:+ written render l end.
Lemma str_nil_r x : x +:+ "" = x.
Proof. induction x as [|a x IH]; [done|]. by rewrite str_cons, IH. Qed.
Lemma written_app {A} (render : A → string) l l' :
  written render (l ++ l') = written render l +:+ written render l'.
Proof. induction l as [|a l IH]; [done|]. cbn. by rewrite IH, str_assoc. Qed.

Lemma disk_writes {E A} (f : A → sup E unit) render p l c w :
  (∀ a c, evals (disk svc) (f a) (<[p := c]> w) = (Done tt, <[p := c +:+ render a]> w)) →
  evals (disk svc) (forM_ f l) (<[p := c]> w) = (Done tt, <[p := c +:+ written render l]> w).
Proof.
  intros Hf. unfold forM_. revert c; induction l as [|a l IH]; intros c; cbn [foldM written].
  - by rewrite str_nil_r.
  - rewrite evals_bind, Hf, IH. by rewrite str_assoc.
Qed.
End Disk.
End Disk.

(** ** The dump of etcd *)
Module EtcdSpec.
Import SupportApi EtcdDump Disk.
Section Etcd.
Context `{SupportCrates}.

(** The text of a value in the file *)
Definition rendered (val : string * string) : string :=
  val.1 +:+ ":" +:+ newlines 1 +:+
  (match json_pretty (DValue val.2) with inr s => s | inl _ => "" end) +:+ newlines 2.

(** An etcd with these pairs answers a request with at most [limit] of them, from the given
    key on, and from the first for the prefix. *)
Definition etcd_serves (svc : ∀ c : sup_call, sup_res c) (prefix : string)
    (store : list (string * string)) : Prop :=
  let n := Z.to_nat ETCD_PAGED_LIMIT in
  svc (EtcdPage prefix ETCD_PAGED_LIMIT) = inr (take n store) ∧
  ∀ i kv, store !! i = Some kv → svc (EtcdPage kv.1 ETCD_PAGED_LIMIT) = inr (take n (drop i store)).

Section Serves.
Variables (svc : ∀ c : sup_call, sup_res c) (prefix : string) (store : list (string * string)).
Hypothesis Hserves : etcd_serves svc prefix store.
Variables (path : string) (w : gmap string string).

Lemma evals_dump_values l c :
  evals (disk svc) (forM_ (dump_value (Some path)) l) (<[path := c]> w)
  = (Done tt, <[path := c +:+ written rendered l]> w).
Proof. apply disk_writes. intros a c'. apply disk_write. Qed.

Lemma evals_page k page w' :
  svc (EtcdPage k ETCD_PAGED_LIMIT) = inr page →
  evals (disk svc) (req! (EtcdPage k ETCD_PAGED_LIMIT) or Etcd) w' = (Done page, w').
Proof. intros Hp. unfold ask_or, ask; cbn. rewrite evals_Call; cbn. by rewrite Hp. Qed.

Lemma evals_dump_round first k page c :
  svc (EtcdPage k ETCD_PAGED_LIMIT) = inr page →
  let dump := if first : bool then page else tail page in
  evals (disk svc) (dump_round (Some path) (first, k)) (<[path := c]> w) =
    (Done (match last dump with Some (key, _) => inl (false, key) | None => inr tt end),
     <[path := c +:+ written rendered dump]> w).
Proof.
  intros Hp. unfold dump_round. rewrite evals_bind. cbn [fst snd]. rewrite (evals_page _ _ _ Hp).
  rewrite evals_bind, evals_dump_values, evals_bind, disk_flush.
  destruct first; destruct (last _) as [[]|]; done.
Qed.

(** A round adds at least one pair until there are none left. *)
Lemma evals_dump_rest n fuel i kv c :
  Z.to_nat ETCD_PAGED_LIMIT = S (S n) → store !! i = Some kv → (length store - i ≤ fuel)%nat →
  evals (disk svc) (loop fuel (dump_round (Some path)) (false, kv.1)) (<[path := c]> w)
  = (Done tt, <[path := c +:+ written rendered (drop (S i) store)]> w).
Proof.
  intros Hn. revert i kv c. induction fuel as [|fuel IH]; intros i kv c Hi Hf.
  { apply lookup_lt_Some in Hi. lia. }
  cbn [loop]. rewrite evals_bind. rewrite (evals_dump_round _ _ _ _ (proj2 Hserves i kv Hi)).
  rewrite Hn, (drop_S _ _ _ Hi). cbn [take tail].
  destruct (last (take (S n) (drop (S i) store))) as [[k v]|] eqn:Hl.
  - rewrite last_lookup, length_take, length_drop, lookup_take_lt, lookup_drop in Hl
      by (apply lookup_lt_Some in Hi; destruct (drop (S i) store) eqn:Hd; [by cbn in Hl|];
          apply (f_equal length) in Hd; rewrite length_drop in Hd; cbn in Hd; lia).
    set (m := Nat.min (S n) (length store - S i)) in *.
    assert (0 < m)%nat by (apply lookup_lt_Some in Hl; destruct m eqn:Hm; [|lia]; cbn in Hl; lia).
    rewrite (IH (S i + pred m)%nat (k, v)); [|done|lia].
    replace (S (S i + pred m)) with (S i + m)%nat by lia.
    rewrite str_assoc, <- written_app, <- drop_drop. unfold m. by rewrite <- length_drop, take_drop_min.
  - apply last_None in Hl. rewrite Hl. cbn.
    destruct (drop (S i) store) as [|x l]; [done|]. done.
Qed.

(** C28: A dump of etcd ends and writes every key with its value once, in the order of the
    store, though each page but the first repeats the last key: the fuel needed is one
    more than the number of keys. *)
Theorem etcd_dump_complete fuel c :
  (length store < fuel)%nat →
  evals (disk svc) (dump_loop fuel (Some path) prefix) (<[path := c]> w)
  = (Done tt, <[path := c +:+ written rendered store]> w).
Proof.
  intros Hf. unfold dump_loop. destruct fuel as [|fuel]; [lia|]. cbn [loop].
  rewrite evals_bind, (evals_dump_round true _ _ _ (proj1 Hserves)).
  assert (∃ n, Z.to_nat ETCD_PAGED_LIMIT = S (S n)) as [n Hn] by (exists 998%nat; reflexivity).
  rewrite Hn. destruct (last (take (S (S n)) store)) as [[k v]|] eqn:Hl.
  - rewrite last_lookup, length_take in Hl.
    set (m := Nat.min (S (S n)) (length store)) in *.
    assert (0 < m)%nat as Hm by (apply lookup_lt_Some in Hl; rewrite length_take in Hl; lia).
    rewrite lookup_take_lt in Hl by lia.
    rewrite (evals_dump_rest n fuel (pred m) (k, v)); [|done|done|lia].
    replace (S (pred m)) with m by lia.
    rewrite str_assoc, <- written_app. unfold m. by rewrite take_drop_min.
  - apply last_None in Hl. destruct store; [done|]. done.
Qed.
End Serves.
End Etcd.
End EtcdSpec.

(** ** The logs of a container *)
Module StreamSpec.
Import SupportApi K8sLogs Disk.

Definition good_lines (lines : list (io_error + string)) : list string :=
  omap (λ l, match l with inr s => Some s | inl _ => None end) lines.
Definition errors_in (lines : list (io_error + string)) : nat := length lines - length (good_lines lines).
Definition line_text (s : string) : string := s +:+ String newline "".

Lemma good_lines_length lines : (length (good_lines lines) ≤ length lines)%nat.
Proof. unfold good_lines. induction lines as [|[e|d] lines IH]; cbn; lia. Qed.
Lemma errors_good d lines : errors_in (inr d :: lines) = errors_in lines.
Proof. done. Qed.
Lemma errors_bad e lines : errors_in (inl e :: lines) = S (errors_in lines).
Proof.
  unfold errors_in. change (good_lines (inl e :: lines)) with (good_lines lines).
  pose proof (good_lines_length lines). cbn [length]. lia.
Qed.

Section Stream.
Variables (svc : ∀ c : sup_call, sup_res c) (path : string) (w : gmap string string).

Lemma evals_write_line s c :
  evals (disk svc) (write_line path s) (<[path := c]> w) = (Done tt, <[path := c +:+ line_text s]> w).
Proof.
  unfold write_line, ask; cbn. rewrite !evals_Call; cbn.
  rewrite !lookup_insert_eq, !insert_insert_eq. cbn. unfold line_text. by rewrite str_assoc.
Qed.

Lemma evals_line s lines n c :
  evals (disk svc) (write_lines path (inr s :: lines) n) (<[path := c]> w)
  = evals (disk svc) (write_lines path lines n) (<[path := c +:+ line_text s]> w).
Proof. cbn [write_lines]. by rewrite evals_bind, evals_write_line. Qed.

Lemma evals_few_errors lines n c :
  (n + Z.of_nat (errors_in lines) ≤ MAX_POLLING_RETRIES + 1)%Z →
  evals (disk svc) (write_lines path lines n) (<[path := c]> w)
  = (Done tt, <[path := c +:+ written line_text (good_lines lines)]> w).
Proof.
  revert n c; induction lines as [|[e|d] lines IH]; intros n c Hn.
  - cbn. by rewrite str_nil_r.
  - rewrite errors_bad in Hn. cbn [write_lines]. destruct (Z.ltb_spec MAX_POLLING_RETRIES n); [lia|].
    apply IH. lia.
  - rewrite errors_good in Hn. rewrite evals_line, IH by done. cbn [good_lines omap list_omap].
    change (good_lines (inr d :: lines)) with (d :: good_lines lines). cbn [written]. by rewrite str_assoc.
Qed.

Lemma evals_many_errors pre e post n c :
  (n + Z.of_nat (errors_in pre) = MAX_POLLING_RETRIES + 1)%Z →
  evals (disk svc) (write_lines path (pre ++ inl e :: post) n) (<[path := c]> w)
  = (Failed (Err (LE_K8sResourceError (KE_ResourceError e))),
     <[path := c +:+ written line_text (good_lines pre)]> w).
Proof.
  revert n c; induction pre as [|[e'|d] pre IH]; intros n c Hn.
  - cbn [app write_lines]. destruct (Z.ltb_spec MAX_POLLING_RETRIES n); [|cbn in Hn; lia].
    rewrite evals_bind, disk_flush. cbn. by rewrite str_nil_r.
  - rewrite errors_bad in Hn. cbn [app write_lines]. destruct (Z.ltb_spec MAX_POLLING_RETRIES n); [lia|].
    apply IH. lia.
  - rewrite errors_good in Hn. cbn [app]. rewrite evals_line, IH by done.
    change (good_lines (inr d :: pre)) with (d :: good_lines pre). cbn [written]. by rewrite str_assoc.
Qed.

Lemma fourth_error lines n :
  (n < errors_in lines)%nat → ∃ pre e post, lines = (pre ++ inl e :: post)%list ∧ errors_in pre = n.
Proof.
  revert n; induction lines as [|[e|d] lines IH]; intros n Hn; [cbn in Hn; lia| |].
  - rewrite errors_bad in Hn. destruct n as [|n].
    + by exists [], e, lines.
    + destruct (IH n) as (pre & e' & post & -> & <-); [lia|].
      exists (inl e :: pre), e', post. by rewrite errors_bad.
  - rewrite errors_good in Hn. destruct (IH n Hn) as (pre & e' & post & -> & <-).
    by exists (inr d :: pre), e', post.
Qed.

(** The log of a container is written line by line and survives three errors of its
    stream: with at most three, every line which was read is in the file, in order, and
    the collection succeeds; with more, the lines up to the fourth error are in the file
    and that error is returned. *)
Theorem stream_lines_kept lines c :
  if (errors_in lines <=? 3)%nat
  then evals (disk svc) (write_lines path lines 0) (<[path := c]> w)
       = (Done tt, <[path := c +:+ written line_text (good_lines lines)]> w)
  else ∃ pre e post, lines = (pre ++ inl e :: post)%list ∧ errors_in pre = 3%nat ∧
    evals (disk svc) (write_lines path lines 0) (<[path := c]> w)
    = (Failed (Err (LE_K8sResourceError (KE_ResourceError e))),
       <[path := c +:+ written line_text (good_lines pre)]> w).
Proof.
  destruct (Nat.leb_spec (errors_in lines) 3) as [Hl|Hl].
  - apply evals_few_errors. unfold MAX_POLLING_RETRIES. lia.
  - destruct (fourth_error lines 3 Hl) as (pre & e & post & -> & He).
    exists pre, e, post. split_and!; [done..|]. apply evals_many_errors. by rewrite He.
Qed.
End Stream.
End StreamSpec.

(** ** The logs of Loki *)
Module LokiSpec.
Import SupportApi SupportText LokiLogs Disk.
Section Loki.
Context `{SupportCrates}.

(** The gap which the poller leaves after a page, in nanoseconds *)
Definition gap : Z := 1000000.
Abbreviation entry := (Z * string)%type.
Definition spaced : relation entry := λ a b, (a.1 + gap ≤ b.1)%Z.
Definition from (since : Z) (es : list entry) : list entry := base.filter (λ e : entry, (since ≤ e.1)%Z) es.

(** A Loki with these entries, in the order of their times, takes the first [limit] from
    the start time on as a page, and answers with the page divided into its streams, each
    with its entries in order; [stamp] writes a time stamp. *)
Variables (stamp : Z → string) (limit : nat).
Abbreviation stream := (StreamMetaData * list entry)%type.
Definition response (streams : list stream) : LokiResponse :=
  mkLokiResponse "success" ((λ g : stream, mkStreamContent g.1 ((λ e : entry, [stamp e.1; e.2]) <$> g.2)) <$> streams).
Definition divides (page : list entry) (streams : list stream) : Prop :=
  Forall (λ g : stream, g.2 ≠ [] ∧ g.2 `sublist_of` page) streams ∧ streams ≫= snd ≡ₚ page.
Definition page (es : list entry) (since : Z) : list entry := take limit (from since es).
(** The times at which a request can start *)
Definition start_time (es : list entry) (start since : Z) : Prop :=
  since = start ∨ ∃ e, e ∈ es ∧ since = (e.1 + gap)%Z.
Definition loki_serves (svc : ∀ c : sup_call, sup_res c) (p : LokiPoll) (es : list entry) (start : Z) : Prop :=
  ∀ since, start_time es start since →
    ∃ streams, svc (LokiCall (request_str p since)) = LokiOk (response streams) ∧
      divides (page es since) streams.
(** Every answer has one stream at most. *)
Definition one_stream (svc : ∀ c : sup_call, sup_res c) (p : LokiPoll) (es : list entry) (start : Z) : Prop :=
  ∀ since r, start_time es start since → svc (LokiCall (request_str p since)) = LokiOk r →
    (length r.(result) ≤ 1)%nat.

Lemma from_later since since' es :
  (since ≤ since')%Z → from since' (from since es) = from since' es.
Proof.
  intros Hle. unfold from. induction es as [|e es IH]; [done|].
  rewrite !filter_cons. repeat case_decide; rewrite ?filter_cons; repeat case_decide; try lia; by rewrite ?IH.
Qed.

(** From a gap after an entry on, there are the entries after it. *)
Lemma from_after l1 e l2 : StronglySorted spaced (l1 ++ e :: l2) → from (e.1 + gap) (l1 ++ e :: l2) = l2.
Proof.
  intros Hs. unfold from. rewrite filter_app, filter_cons_False by (unfold gap; lia).
  rewrite list_filter_none, list_filter_all; [done|..].
  - intros x Hx. apply StronglySorted_app_1_r, StronglySorted_inv in Hs as [_ Hs].
    rewrite Forall_forall in Hs. by apply Hs.
  - intros x Hx. enough (spaced x e) by (unfold spaced, gap in *; lia).
    eapply (StronglySorted_app_1_elem_of _ l1 (e :: l2)); [done|done|set_solver].
Qed.

Lemma sorted_from since l : StronglySorted spaced l → StronglySorted spaced (from since l).
Proof.
  induction 1 as [|e l Hl IH He]; unfold from in *; [constructor|]. rewrite filter_cons. case_decide; [|done].
  constructor; [done|]. rewrite Forall_forall in *. intros x Hx. apply He. apply list_elem_of_filter in Hx. tauto.
Qed.

(** The lines of entries which reach the file *)
Definition lines (es : list entry) : list string := base.filter (λ s, s ≠ "") es.*2.
Definition text (s : string) : string := trim_end s +:+ String newline "".

Lemma lines_app l l' : lines (l ++ l') = (lines l ++ lines l')%list.
Proof. unfold lines. by rewrite fmap_app, filter_app. Qed.

Variables (svc : ∀ c : sup_call, sup_res c) (p : LokiPoll) (es : list entry) (start : Z).
Hypothesis Hserves : loki_serves svc p es start.
Hypothesis Hspaced : StronglySorted spaced es.
Hypothesis Hstamp : ∀ e, e ∈ es → parse_u128 (stamp e.1) = Some e.1 ∧ (0 < e.1 < U128 - gap)%Z.
Hypothesis Hlimit : (0 < limit)%nat.

Lemma lines_submseteq l l' : l ⊆+ l' → lines l ⊆+ lines l'.
Proof.
  intros [k Hk]%submseteq_Permutation. assert (lines l' ≡ₚ lines (l ++ k)) as -> by (unfold lines; by rewrite Hk).
  rewrite lines_app. apply submseteq_inserts_r. done.
Qed.
Lemma elem_of_lines x l : x ∈ lines l ↔ x ≠ "" ∧ ∃ e, e ∈ l ∧ x = e.2.
Proof. unfold lines. rewrite list_elem_of_filter, list_elem_of_fmap. naive_solver. Qed.

Lemma response_time streams g e :
  last streams = Some g → last g.2 = Some e → e ∈ es → get_last_stream_unix_time (response streams) = e.1.
Proof.
  intros Hg Hl He. unfold get_last_stream_unix_time, response. cbn [result].
  rewrite fmap_last, Hg. cbn. rewrite fmap_last, Hl. cbn. by rewrite (proj1 (Hstamp e He)).
Qed.
Lemma response_logs streams : logs_of (response streams) = lines (streams ≫= snd).
Proof.
  unfold logs_of, response. cbn [result]. induction streams as [|g l IH]; [done|]. cbn.
  etransitivity; [|symmetry; apply lines_app]. cbn in IH. rewrite IH. f_equal. unfold lines. f_equal.
  rewrite <- list_fmap_compose. by apply list_fmap_ext.
Qed.

(** An entry of a page is one of the entries from its start time on. *)
Lemma page_entry since e : e ∈ page es since → e ∈ es ∧ (since ≤ e.1)%Z.
Proof. intros (i & Hi & _)%elem_of_take. apply list_elem_of_lookup_2, list_elem_of_filter in Hi. tauto. Qed.

(** The entry from which the poller goes on. *)
Lemma divides_last l streams :
  divides l streams → l ≠ [] → ∃ g e, last streams = Some g ∧ last g.2 = Some e ∧ e ∈ l.
Proof.
  intros [Hf Hp] Hl. destruct (last streams) as [g|] eqn:Eg; last first.
  { apply last_None in Eg as ->. by apply Permutation_nil_l in Hp. }
  assert (g ∈ streams) as Hin by (apply last_Some in Eg as [l' ->]; set_solver).
  rewrite Forall_forall in Hf. destruct (Hf g Hin) as [Hn _].
  destruct (last g.2) as [e|] eqn:Ee; [|by apply last_None in Ee].
  exists g, e. split_and!; [done|done|]. rewrite <- Hp. apply list_elem_of_bind.
  exists g. split; [|done]. apply last_Some in Ee as [l' ->]. set_solver.
Qed.
Lemma sublist_full {A} (l k : list A) : l `sublist_of` k → (length k ≤ length l)%nat → l = k.
Proof.
  induction 1 as [|x l k Hs IH|x l k Hs IH]; cbn; intros Hl; [done|f_equal; apply IH; lia|].
  apply sublist_length in Hs. lia.
Qed.
Lemma divides_one l g : divides l [g] → g.2 = l.
Proof.
  intros [Hf Hp]. apply Forall_singleton in Hf as [_ Hs]. cbn in Hp. rewrite app_nil_r in Hp.
  apply sublist_full; [done|by rewrite Hp].
Qed.

Lemma evals_poll since w :
  start_time es start since →
  (page es since = [] ∧ evals (disk svc) (poll_next p since) w = (Done (None, since), w)) ∨
  ∃ streams e, svc (LokiCall (request_str p since)) = LokiOk (response streams) ∧
    divides (page es since) streams ∧ e ∈ page es since ∧
    (∀ g, streams = [g] → last g.2 = Some e) ∧
    evals (disk svc) (poll_next p since) w = (Done (Some (lines (streams ≫= snd)), (e.1 + gap)%Z), w).
Proof.
  intros Hst. destruct (Hserves since Hst) as (streams & Hr & Hd).
  assert (∀ v, evals (disk svc) (poll_next p since) w = v ↔
    (if bool_decide ((response streams).(status) = "success" ∧ (response streams).(result) = [])
     then (Done (None, since), w) : outcome _ _ * _
     else let t := get_last_stream_unix_time (response streams) in
          if (t =? 0)%Z then (Done (None, since), w)
          else (Done (Some (logs_of (response streams)), ((t + 1000000) `mod` U128)%Z), w)) = v) as Hpoll.
  { intros v. unfold poll_next, ask. cbn [bind call]. rewrite evals_Call. cbn [disk fst snd]. rewrite Hr.
    cbv beta iota zeta. by repeat case_match. }
  destruct (decide (page es since = [])) as [E|E].
  - left. split; [done|]. apply Hpoll. rewrite E in Hd. destruct Hd as [Hf Hp].
    apply Permutation_nil_r in Hp. destruct streams as [|g l]; [done|].
    apply Forall_cons in Hf as [[Hn _] _]. cbn in Hp. by destruct g.2.
  - right. destruct (divides_last _ _ Hd E) as (g & e & Hg & He & Hin).
    exists streams, e. split_and!; [done..|by intros g' ->; cbn in Hg; injection Hg as ->|].
    apply Hpoll. destruct (page_entry _ _ Hin) as [Hes _].
    rewrite bool_decide_eq_false_2 by (intros [_ Hn]; by destruct streams).
    cbn zeta. rewrite (response_time _ g e) by done. destruct (Hstamp e Hes) as [_ Hb]. unfold gap in *.
    destruct (Z.eqb_spec e.1 0); [lia|]. rewrite Z.mod_small by lia. by rewrite response_logs.
Qed.

(** The entries from the start time on, cut at an entry of the page *)
Lemma page_cut since l1 e l2 :
  page es since = (l1 ++ e :: l2)%list →
  from since es = (l1 ++ e :: from (e.1 + gap) es)%list.
Proof.
  intros Hl. assert (StronglySorted spaced (from since es)) as Hs by (by apply sorted_from).
  destruct (page_entry since e) as [_ Hle]; [rewrite Hl; set_solver|].
  rewrite <- (from_later since (e.1 + gap)) by (unfold gap; lia).
  assert (∃ l3, from since es = (l1 ++ e :: l3)%list) as [l3 Hl3].
  { exists (l2 ++ drop limit (from since es))%list. rewrite <- (take_drop limit (from since es)) at 1.
    fold (page es since). by rewrite Hl, <- app_assoc. }
  rewrite Hl3 in *. by rewrite from_after.
Qed.

(** What is after the entry at which a page is left, and what is before it *)
Lemma page_split since e :
  e ∈ page es since →
  ∃ before, from since es = (before ++ from (e.1 + gap) es)%list ∧ before ⊆+ page es since.
Proof.
  intros (l1 & l2 & Hl)%list_elem_of_split. exists (l1 ++ [e])%list.
  rewrite (page_cut _ _ _ _ Hl), Hl, <- app_assoc. split; [done|].
  rewrite (cons_middle e l1 l2), app_assoc. by apply submseteq_inserts_r.
Qed.
Lemma page_whole since e :
  last (page es since) = Some e → from since es = (page es since ++ from (e.1 + gap) es)%list.
Proof. intros [l Hl]%last_Some. by rewrite (page_cut _ _ _ _ Hl), Hl, <- app_assoc. Qed.

(** What a file has of the lines [es]: all of them, as often as they are there at least, and
    no others; with one stream in every answer, these lines in their order. *)
Definition covers (es' : list entry) (ls : list string) : Prop :=
  lines es' ⊆+ ls ∧ (∀ x, x ∈ ls → x ∈ lines es') ∧ (one_stream svc p es start → ls = lines es').

(** A page, with what a later round has from there on. *)
Lemma covers_page since streams e ls :
  start_time es start since → svc (LokiCall (request_str p since)) = LokiOk (response streams) →
  divides (page es since) streams → e ∈ page es since → (∀ g, streams = [g] → last g.2 = Some e) →
  covers (from (e.1 + gap) es) ls → covers (from since es) (lines (streams ≫= snd) ++ ls)%list.
Proof.
  intros Hst Hr [Hf Hp] He Hlast (Hc & Ho & H1).
  destruct (page_split _ _ He) as (before & Hb & Hs). split_and!.
  - rewrite Hb, lines_app. apply submseteq_app; [|done]. apply lines_submseteq. by rewrite Hp.
  - intros x [Hx|Hx]%elem_of_app; [|rewrite Hb, lines_app; apply elem_of_app; auto].
    apply elem_of_lines in Hx as (Hn & y & Hy & ->). apply elem_of_lines. split; [done|]. exists y.
    split; [|done]. rewrite Hp in Hy. apply elem_of_take in Hy as (i & Hi & _). by eapply list_elem_of_lookup_2.
  - intros Hone. pose proof (Hone _ _ Hst Hr) as Hlen. cbn [result response] in Hlen.
    rewrite length_fmap in Hlen. destruct streams as [|g [|]]; cbn in Hlen; [|clear Hlen|lia].
    { cbn in Hp. apply Permutation_nil_l in Hp. rewrite <- Hp in He. by apply not_elem_of_nil in He. }
    pose proof (divides_one _ _ (conj Hf Hp)) as Hg. specialize (Hlast g eq_refl).
    rewrite Hg in Hlast. cbn [mbind list_bind]. rewrite app_nil_r, Hg, H1 by done.
    by rewrite (page_whole _ _ Hlast), lines_app.
Qed.

Lemma from_shorter since e :
  e ∈ page es since → (length (from (e.1 + gap) es) < length (from since es))%nat.
Proof.
  intros He. destruct (page_entry _ _ He) as [Hin Hle].
  rewrite <- (from_later since (e.1 + gap)) by (unfold gap; lia). apply length_filter_lt with e.
  - apply list_elem_of_filter. auto.
  - unfold gap. lia.
Qed.

Lemma evals_fetch fuel path c w written_ since :
  start_time es start since → (length (from since es) < fuel)%nat →
  ∃ ls, evals (disk svc) (loop fuel (fetch_round p path) (written_, since)) (<[path := c]> w)
        = (Done tt, <[path := c +:+ written text ls]> w) ∧ covers (from since es) ls.
Proof.
  revert written_ since c. induction fuel as [|fuel IH]; intros written_ since c Hst Hf; [lia|].
  cbn [loop].
  destruct (evals_poll since (<[path := c]> w) Hst) as [[Hp He]|(streams & e & Hr & Hd & Hin & Hlast & He)].
  - exists []. rewrite evals_bind. unfold fetch_round at 1. rewrite evals_bind, evals_try. cbn [fst snd]. rewrite He.
    cbn [fst snd]. assert (from since es = []) as -> by (unfold page in Hp; destruct (from since es); [done|by destruct limit; [lia|]]).
    split; [cbn; by rewrite str_nil_r|]. split_and!; [done|set_solver|done].
  - destruct (page_entry _ _ Hin) as [Hes Hle].
    destruct (IH true (e.1 + gap)%Z (c +:+ written text (lines (streams ≫= snd)))) as (ls & Hls & Hc).
    { right. eauto. }
    { pose proof (from_shorter _ _ Hin). lia. }
    exists (lines (streams ≫= snd) ++ ls)%list. split; [|by eapply covers_page].
    rewrite evals_bind. unfold fetch_round at 1. rewrite evals_bind, evals_try. cbn [fst snd]. rewrite He.
    rewrite evals_bind, (disk_writes _ _ text) by (intros; apply disk_write). rewrite evals_ret.
    by rewrite Hls, written_app, str_assoc.
Qed.

(** C29: The collection of a log from Loki loses nothing when any two of its entries, of
    whatever stream, are at least a millisecond apart.  Against a Loki which serves pages
    of the entries in the order of their times, divided into streams, the loop ends,
    within one round more than there are entries, and appends to the file: every
    non-empty line from the start time on, trimmed at its end, at least as often as it
    was logged, and no other line, whatever the size of the pages.  When each
    answer has one stream at most, these are exactly the lines, once and in order; with
    several the next page starts after the last entry of the last stream, so that lines
    of other streams may be written again. *)
Theorem loki_logs_complete fuel path c w :
  (length es < fuel)%nat →
  ∃ ls, evals (disk svc) (fetch_loop fuel p path start) (<[path := c]> w)
        = (Done tt, <[path := c +:+ written text ls]> w) ∧
    lines (from start es) ⊆+ ls ∧ (∀ x, x ∈ ls → x ∈ lines (from start es)) ∧
    (one_stream svc p es start → ls = lines (from start es)).
Proof.
  intros Hf. apply evals_fetch; [by left|]. eapply Nat.le_lt_trans; [|done]. apply length_filter.
Qed.
End Loki.
End LokiSpec.

(** ** Label selectors *)
Module LabelSpec.
Import SupportApi SupportText LokiLogs Disk.

(** The texts joined by a separator *)
Fixpoint joined (d : ascii) (l : list string) : string :=
  match l with
  | [] => ""
  | [x] => x
  | x :: l => x +:+ String d (joined d l)
  end.

Lemma pop_app x y : y ≠ "" → pop (x +:+ y) = x +:+ pop y.
Proof.
  intros Hy. induction x as [|a x IH]; [done|]. rewrite !str_cons. cbn [pop].
  destruct (x +:+ y) eqn:E; [by destruct x; [|rewrite str_cons in E]|]. by rewrite <- IH.
Qed.

Lemma as_string_joined l d : as_string l d = joined d l.
Proof.
  unfold as_string.
  assert (∀ acc, fold_left (λ acc val, acc +:+ val +:+ String d "") l acc
                 = acc +:+ written (λ val, val +:+ String d "") l) as ->.
  { induction l as [|x l IH]; intros acc; cbn; [by rewrite str_nil_r|]. by rewrite IH, !str_assoc. }
  rewrite str_nil. induction l as [|x l IH]; [done|]. cbn [written joined].
  rewrite str_assoc. rewrite pop_app by (by rewrite str_cons). rewrite str_cons, str_nil.
  destruct l as [|y l]; [cbn; by rewrite str_nil_r|].
  change (String d ?s) with (String d "" +:+ s). rewrite pop_app, IH; [done|].
  cbn. by destruct y.
Qed.

Lemma split_cut d x y : d ∉ chars x → split_on d (x +:+ String d y) = x :: split_on d y.
Proof.
  induction x as [|a x IH]; intros Hx.
  - rewrite str_nil. cbn. by rewrite decide_True.
  - rewrite str_cons. cbn [split_on]. apply not_elem_of_cons in Hx as [Ha Hx].
    rewrite decide_False by done. by rewrite IH.
Qed.
Lemma split_none d x : d ∉ chars x → split_on d x = [x].
Proof.
  induction x as [|a x IH]; intros Hx; [done|]. cbn [split_on].
  apply not_elem_of_cons in Hx as [Ha Hx]. rewrite decide_False by done. by rewrite IH.
Qed.

(** The labels of a selector which [as_string] joins are the labels which the Loki
    query splits it into again, when no label contains the separator. *)
Theorem label_selector_roundtrip l d :
  l ≠ [] → Forall (λ x, d ∉ chars x) l → split_on d (as_string l d) = l.
Proof.
  intros Hl Hd. rewrite as_string_joined. destruct l as [|x l]; [done|]. clear Hl.
  revert x Hd. induction l as [|y l IH]; intros x [Hx Hd]%Forall_cons; [by apply split_none|].
  change (joined d (x :: y :: l)) with (x +:+ String d (joined d (y :: l))).
  rewrite split_cut by done. by rewrite IH.
Qed.
End LabelSpec.

(** ** Events *)
Module EventSpec.
Import SupportApi K8sResourceDump.
Section Events.
Context `{SortUnstable}.

Definition timed (e : Event) : Prop := is_Some (event_time e).
(** Earlier by the time which is shown *)
Definition no_later (a b : Event) : Prop :=
  ∃ t u, event_time a = Some t ∧ event_time b = Some u ∧ (t ≤ u)%Z.

Definition keyed (es : list Event) : option (list (Z * Event)) :=
  mapM (λ e, t ← event_time e; Some (t, e)) es.

Lemma keyed_some es ks : keyed es = Some ks → ks.*2 = es ∧ Forall (λ k, event_time k.2 = Some k.1) ks.
Proof.
  revert ks; induction es as [|e es IH]; intros ks; cbn; [by intros [= <-]|].
  destruct (event_time e) as [t|] eqn:He; [|done]. cbn.
  unfold keyed in IH. destruct (mapM _ es) as [ks'|]; [|done]. intros [= <-].
  destruct (IH ks' eq_refl) as [<- Hk]. split; [done|]. by constructor.
Qed.
Lemma keyed_none es : keyed es = None ↔ ∃ e, e ∈ es ∧ ¬ timed e.
Proof.
  unfold keyed. rewrite mapM_None, Exists_exists. unfold timed. split; intros (e & He & Ht); exists e; (split; [done|]).
  - destruct (event_time e); [done|]. by intros [??].
  - destruct (event_time e); [|done]. exfalso. eauto.
Qed.

(** The events are written in the order of their times: a permutation of those listed,
    sorted.  With two events or more, one without a time panics. *)
Theorem events_sorted es :
  match sort_events es with
  | Some sorted =>
      sorted ≡ₚ es ∧ ((2 ≤ length es)%nat → StronglySorted no_later sorted)
  | None => (2 ≤ length es)%nat ∧ ∃ e, e ∈ es ∧ ¬ timed e
  end.
Proof.
  unfold sort_events. destruct (Nat.ltb_spec (length es) 2) as [Hl|Hl]; [split; [done|lia]|].
  fold (keyed es). destruct (keyed es) as [ks|] eqn:Hk; cbn; [|by apply keyed_none in Hk].
  apply keyed_some in Hk as [<- Hk]. split; [by apply fmap_Permutation, sort_unstable_perm|intros _].
  set (R := λ x y : Z * Event, Z.compare x.1 y.1 ≠ Gt).
  assert (StronglySorted R (sort_unstable_by (λ a b : Z * Event, Z.compare a.1 b.1) ks)) as Hs.
  { apply sort_unstable_sorted.
    - intros x y. change (x.1 ≤ y.1 ∨ y.1 ≤ x.1)%Z. lia.
    - intros x y z. change (x.1 ≤ y.1 → y.1 ≤ z.1 → x.1 ≤ z.1)%Z. lia. }
  rewrite <- (sort_unstable_perm (λ a b : Z * Event, Z.compare a.1 b.1) ks) in Hk.
  induction Hs as [|k l Hs IH Hall]; [constructor|]. apply Forall_cons in Hk as [Hk Hkl]. cbn.
  constructor; [by apply IH|]. rewrite Forall_fmap, Forall_forall in *. intros x Hx.
  exists k.1, x.1. split_and!; [done|by apply Hkl|by apply Hall].
Qed.
End Events.
End EventSpec.

(** ** Hosts *)
Module HostSpec.
Import SupportApi Traits PoolResource ReplicaResource VolumeResource.
Section Hosts.
Context `{SupportCrates}.

(** A replica is unhealthy on a host: its pool or the node of the pool is, else itself. *)
Inductive replica_trouble (t : ReplicaTopology) : ResourceInformation → Prop :=
| trouble_below x : x ∈ pool_unhealthy t.(SupportApi.pool_topology) → replica_trouble t x
| trouble_self : pool_unhealthy t.(SupportApi.pool_topology) = [] →
    t.(rt_replica).(replica_state) ≠ ReplicaOnline →
    replica_trouble t (resource_info "replica" t.(rt_replica).(replica_node)).

Lemma elem_of_unhealthy_replica t x : x ∈ get_unhealthy_resources t ↔ replica_trouble t x.
Proof.
  unfold get_unhealthy_resources. destruct (pool_unhealthy _) as [|y l] eqn:Hp.
  - split.
    + destruct (is_replica_online _) eqn:Ho; [set_solver|].
      intros ->%list_elem_of_singleton. apply trouble_self; [done|]. intros Hr. by rewrite Hr in Ho.
    + intros [x' Hx'|_ Hr]; [rewrite Hp in Hx'; set_solver|].
      destruct (replica_state _); cbn; [set_solver|done|set_solver..].
  - split; [intros Hx; apply trouble_below; by rewrite Hp|]. intros [x' Hx'|Hn _]; [by rewrite Hp in Hx'|by rewrite Hp in Hn].
Qed.

Lemma elem_of_extend_fold {T} (f : T → list ResourceInformation) l acc x :
  x ∈ fold_left (λ acc t, set_extend acc (f t)) l acc ↔ x ∈ acc ∨ ∃ t, t ∈ l ∧ x ∈ f t.
Proof.
  revert acc; induction l as [|t l IH]; intros acc; cbn; [set_solver|].
  rewrite IH, elem_of_extend. set_solver.
Qed.

(** The hosts whose logs are collected for a volume are exactly those of its target, if
    that is not online, and those of the replicas which have a problem, in their pool, the
    node of the pool or themselves. *)
Theorem volume_unhealthy_spec t x :
  x ∈ volume_unhealthy t ↔
  (∃ r, r ∈ t.(replicas_topology) ∧ replica_trouble r x) ∨
  (∃ n, t.(vt_target) = Some n ∧ n.(nexus_state) ≠ NexusOnline ∧ x = resource_info "nexus" n.(nexus_node)).
Proof.
  unfold volume_unhealthy.
  assert (∀ x, x ∈ fold_left (λ acc r, set_extend acc (get_unhealthy_resources r)) t.(replicas_topology) []
    ↔ ∃ r, r ∈ t.(replicas_topology) ∧ replica_trouble r x) as Hr.
  { intros y. rewrite elem_of_extend_fold. setoid_rewrite elem_of_unhealthy_replica. set_solver. }
  destruct (vt_target t) as [n|]; [|rewrite Hr; naive_solver].
  destruct (is_nexus_online (nexus_state n)) eqn:Ho; rewrite ?elem_of_insert, Hr.
  - split; [by left|]. intros [?|(n' & [= <-] & Hn & _)]; [done|]. by destruct (nexus_state n).
  - assert (nexus_state n ≠ NexusOnline) by (intros E; by rewrite E in Ho). naive_solver.
Qed.

(** All hosts of a volume: only those of its replicas *)
Lemma volume_all_spec t x :
  x ∈ volume_all t ↔
  ∃ r, r ∈ t.(replicas_topology) ∧ x = resource_info "replica" r.(rt_replica).(replica_node).
Proof.
  unfold volume_all. rewrite elem_of_extend_fold. unfold get_all_resources. set_solver.
Qed.
End Hosts.
End HostSpec.

(** ** Resources whose logs are collected *)
Module ResourceSpec.
Import SupportApi SupportText K8sClient LokiLogs LogCollect LabelSpec.

(** A resource names its service by the label [app], and a host exactly for the services
    which run on every node. *)
Definition well_formed (r : LogResource) : Prop :=
  r.(lr_label_selector) = "app=" +:+ r.(lr_service_type) ∧
  (is_Some r.(lr_host_name) ↔ is_host_name_required r.(lr_service_type) = true).

Lemma pod_resources_wf nodes_map pod :
  yields (pod_resources nodes_map pod) (Forall well_formed).
Proof.
  unfold pod_resources. apply yields_then; intros ls.
  eapply (yields_bind _ _ (λ h, is_Some h ↔ is_host_name_required (default "" (ls !! "app")) = true)).
  - destruct (is_host_name_required _).
    + apply yields_then; intros h. by split.
    + cbn. split; [by intros []|done].
  - intros h Hh. apply yields_then; intros spec. cbn. rewrite Forall_fmap. apply Forall_true. by split.
Qed.

Lemma extend_wf l l' : Forall well_formed l → Forall well_formed l' → Forall well_formed (set_extend l l').
Proof. rewrite !Forall_forall. setoid_rewrite elem_of_extend. naive_solver. Qed.

Lemma logging_resources_wf pods :
  yields (get_logging_resources pods) (λ rs, NoDup rs ∧ Forall well_formed rs).
Proof.
  unfold get_logging_resources. apply yields_then; intros nodes_map.
  generalize (conj (NoDup_nil_2 (A:=LogResource)) (Forall_nil_2 well_formed)).
  generalize (@nil LogResource). induction pods as [|pod pods IH]; intros acc Hacc; [done|]. cbn [foldM].
  eapply (yields_bind _ _ (λ acc, NoDup acc ∧ Forall well_formed acc)); [|intros; by apply IH].
  eapply yields_bind; [apply pod_resources_wf|]. intros rs Hrs. destruct Hacc.
  split; [by apply extend_NoDup|by apply extend_wf].
Qed.

(** The query for a well-formed resource can be built: its only label has a value. *)
Lemma filters_of_service service :
  ","%char ∉ chars service → is_Some (label_filters ("app=" +:+ service)).
Proof.
  intros Hs. unfold label_filters. rewrite split_none.
  - cbn [mapM]. unfold label_filter. change ("app=" +:+ service) with ("app" +:+ String "="%char service).
    rewrite split_cut by (apply (bool_decide_unpack _); vm_compute; exact I).
    destruct (split_on "="%char service) as [|v l] eqn:E; [|by eexists].
    destruct service; cbn in E; [done|]. case_decide; [done|]. by destruct (split_on _ service).
  - change ("app=" +:+ service) with
      (String "a" (String "p" (String "p" (String "=" service)))). cbn [chars String.list_ascii_of_string].
    rewrite !not_elem_of_cons. done.
Qed.

(** The resources whose logs are collected form a set without duplicates, each with the
    label of its service and with a host exactly when its service is one of
    [HOST_NAME_REQUIRED_SERVICES]; the query to Loki can be built for each, so the
    collection does not panic there. *)
Theorem log_resources_wf pods tr rs :
  exec (get_logging_resources pods) tr (Done rs) →
  NoDup rs ∧ ∀ r, r ∈ rs → well_formed r ∧
    (","%char ∉ chars r.(lr_service_type) → is_Some (label_filters r.(lr_label_selector))).
Proof.
  intros [Hd Hw]%(yields_sound _ _ _ _ (logging_resources_wf pods)). split; [done|]. intros r Hr.
  rewrite Forall_forall in Hw. destruct (Hw r Hr) as [Hl Hh]. split; [done|].
  intros Hc. rewrite Hl. by apply filters_of_service.
Qed.
End ResourceSpec.
