(* ===== verification/SupportFixture.v ===== *)
(** * A support bundle of a small cluster

    Concrete services and a file system on which the dumps run; the properties are applied
    to them. *)

From S2P Require Import Prelude Text JobApi HelmValues SupportApi SupportTopology SupportK8s SupportLogs SupportDump SupportSpec SupportFilesSpec.
From stdpp Require Import base gmap list strings pretty sorting.
From Stdlib Require Import ZArith Lia Ascii.
Open Scope string_scope.

Module SupportWorld.
Import SupportApi Traits Operations SystemDump ResourceDump.

(** Serializers which write the kind of a document *)
Definition kind_of (d : document) : string :=
  match d with
  | DNode t => "node " +:+ t.(nt_node).(node_id) | DPool t => "pool " +:+ t.(pt_pool).(pool_id)
  | DVolume t => "volume " +:+ t.(vt_volume).(vol_uuid) | DSnapshot _ => "snapshot" | DVec _ => "list"
  | DEvents _ => "events" | DPods _ => "pods" | DDiskPools _ => "pools" | DDynamic _ => "objects"
  | DDaemonSet _ => "daemonset" | DDeployment _ => "deployment" | DStatefulSet _ => "statefulset"
  | DValue v => v
  end.
#[export] Instance crates : SupportCrates := {
  json_pretty d := inr (kind_of d);
  yaml d := inr (kind_of d);
  url_encode s := s;
  uuid_parse s := if decide (s = "not-a-uuid") then inl "invalid" else inr s;
  build_key_prefix s := "/openebs.io/mayastor/" +:+ s;
  PRODUCT_DOMAIN_NAME := "openebs.io";
  csi_plugin_name := "io.openebs.csi-mayastor"
}.

#[export] Instance listed_order : HashOrder := {|
  hash_order A l := l; hash_order_perm A l := reflexivity l
|}.

(** A cluster of one node.  The target of the volume is on [node-2], which has failed, and
    the listing of snapshots fails. *)
Definition the_node : SupportApi.Node := mkNode "node-1" (Some (mkNodeState "node-1" NodeOnline)) (Some "node-1").
Definition the_pool : SupportApi.Pool :=
  mkPool "pool-1" (Some (mkPoolState "node-1" PoolOnline)) (Some (mkPoolSpec "node-1" ["/dev/sdb"])).
Definition the_replica : Replica := mkReplica "node-1" "pool-1" ReplicaOnline.
Definition the_volume : SupportApi.Volume := mkVolume "vol-1" (Some (mkNexus "node-2" NexusFaulted)) ["rep-1"; "rep-2"].
Definition meta (n : string) : Meta := mkMeta (Some n) (Some {["kubernetes.io/hostname" := n]}).
Definition the_pod : Pod :=
  mkPod (mkMeta (Some "io-engine-x") (Some {["app" := "io-engine"]}))
    (Some (mkPodSpec (Some "node-1") ["io-engine"])) (Some [mkContainerStatus "io-engine" 1]).
Definition pairs : list (string * string) := [("/openebs.io/mayastor/x/a", "1"); ("/openebs.io/mayastor/x/b", "2")].

Definition services : ∀ c : sup_call, sup_res c := λ c,
  match c with
  | GetNodes => inr [the_node] | GetNode _ => inr the_node
  | GetNodeBlockDevices _ => inr [mkBlockDevice "/dev/sdb" "/devices/1" []]
  | GetPools => inr [the_pool] | GetPool _ => inr the_pool
  | GetReplicas => inr [the_replica]
  | GetReplica id => if decide (id = "rep-1") then inr the_replica else inl (RestResponse 404 "")
  | GetVolumes _ _ => inr (mkEntries [the_volume] None) | GetVolume _ => inr the_volume
  | GetRebuildHistory _ => inr []
  | GetVolumesSnapshots _ _ => inl (RestResponse 500 "") | GetVolumesSnapshot _ => inl (RestResponse 500 "")
  | ReadKubeconfig _ | CustomKubeconfig | InferConfig => inr tt
  | ClientTryFrom => inr tt
  | Discover => inl (KubeOther "no discovery")
  | KList k _ _ =>
      match k return kube_error + ObjectList (object k) with
      | SupportApi.Pods => inr (mkObjectList [the_pod] None)
      | SupportApi.Nodes => inr (mkObjectList [mkKNode (meta "node-1")] None)
      | _ => inr (mkObjectList [] None)
      end
  | KGetNode n => inr (mkKNode (meta n))
  | LogStream _ _ _ _ => inr [inr "line 1"; inl "interrupted"; inr "line 2"]
  | LokiProxy _ _ => inl "no loki"
  | LokiCall _ => LokiOk (mkLokiResponse "success" [])
  | K8sPlatform _ => inr "x"
  | EtcdProxy _ _ => inr "http://etcd"
  | EtcdConnect _ => inr tt
  | EtcdPage k _ =>
      inr (if decide (k = "/openebs.io/mayastor/x") then pairs
           else match list_find (λ p, p.1 = k) pairs with Some (i, _) => drop i pairs | None => [] end)
  | Exists _ => false
  | CreateDirAll _ | CreateFile _ | WriteAll _ _ | Flush _ | RemoveFile _ | RemoveDirAll _
  | TarCreate _ | TarAppendDirAll _ _ | TarFinish => inr tt
  | Println _ => tt
  | UtcNow | LocalNow => "now"
  | NowNanos => Some 1000000000000%Z
  | ToolLog => None
  | SetToolLog _ => true
  end.

(** Files, the cell of the tool log, the directories which were deleted, the archive *)
Record Host := mkHost {
  files : gmap string string; tool_log : option (option string); gone : list string;
  archived : list string
}.
Definition host (svc : ∀ c : sup_call, sup_res c) : handler SupSig Host := λ c w,
  match c return sup_res c * Host with
  | CreateFile p => (inr tt, mkHost (<[p := ""]> w.(files)) w.(tool_log) w.(gone) w.(archived))
  | WriteAll p s =>
      (inr tt, mkHost (<[p := default "" (w.(files) !! p) +:+ s]> w.(files)) w.(tool_log) w.(gone) w.(archived))
  | RemoveFile p => (inr tt, mkHost (delete p w.(files)) w.(tool_log) w.(gone) w.(archived))
  | RemoveDirAll p => (inr tt, mkHost w.(files) w.(tool_log) (p :: w.(gone)) w.(archived))
  | TarAppendDirAll _ src =>
      if decide (src ∈ w.(gone)) then (inl "No such file or directory", w)
      else (inr tt, mkHost w.(files) w.(tool_log) w.(gone) (src :: w.(archived)))
  | ToolLog => (w.(tool_log), w)
  | SetToolLog f =>
      match w.(tool_log) with
      | None => (true, mkHost w.(files) (Some f) w.(gone) w.(archived))
      | Some _ => (false, w)
      end
  | c => (svc c, w)
  end.
Definition empty_host : Host := mkHost ∅ None [] [].
Definition args : SupportArgs := mkSupportArgs 86400 None None "/out" "mayastor" None.
Definition dump {debug} (r : Resource debug) := run (host services) (execute_resource_dump 10 args r) empty_host.

(** The system dump succeeds and leaves nothing but the archive, though the listing of
    snapshots and the discovery have failed. *)
Example system_dump_succeeds :
  result_of (dump (System (debug:=false) false)) = Done tt ∧
  (world_of (dump (System (debug:=false) false))).(archived) = ["/out/tmp-mayastor-now"] ∧
  (world_of (dump (System (debug:=false) false))).(gone) = ["/out/tmp-mayastor-now"].
Proof. vm_compute. auto. Qed.

(** In builds with [debug_assertions] a dump of volumes archives and deletes the temporary
    directory and then tries to archive it again, which fails. *)
Example volumes_dump_fails :
  result_of (dump Volumes) = Failed (Err (MultipleErrors
    [MultipleErrors [K8sResourceDumperError_ (KD_MultipleErrors
       [KD_K8sResourceError (KE_ClientError (KubeOther "no discovery"));
        KD_K8sResourceError (KE_ClientError (KubeOther "no discovery"))])];
     ArchiveError "No such file or directory"])) ∧
  (world_of (dump Volumes)).(archived) = ["/out/tmp-mayastor-now"].
Proof. vm_compute. auto. Qed.
End SupportWorld.

Module SupportWitness.
Import SupportApi Traits Operations SystemDump ResourceDump SupportWorld Disk ArchiveSpec EtcdSpec LokiSpec LabelSpec SupportText LokiLogs.

Lemma dump_exec {debug} (r : Resource debug) :
  exec (execute_resource_dump 10 args r) (trace_of (dump r)) (result_of (dump r)).
Proof. apply run_exec. Qed.

Lemma archived_before_deletion_witness :
  result_of (dump (System (debug:=false) false)) = Done tt ∧
  ∃ m, accepts archive_protocol Collecting (trace_of (dump (System (debug:=false) false))) = Some m ∧
    ∃ d, m = Removed d.
Proof.
  assert (result_of (dump (System (debug:=false) false)) = Done tt) as Hd by (vm_compute; reflexivity).
  split; [exact Hd|].
  destruct (archived_before_deletion 10 args (System (debug:=false) false) _ _
    (dump_exec (System (debug:=false) false))) as (m & Hm & Hr).
  exists m. split; [exact Hm|]. apply Hr; [exact Hd|reflexivity].
Defined.

(** The errors which the system dump drops *)
Example dropped_errors :
  let d := mkSystemDumper (Some "a.tar.gz") "/tmp" (LogCollect.mkLogCollection None (K8sClient.mkClientSet "ns"))
             (K8sClient.mkClientSet "ns") None true in
  (∃ es, result_of (run (host services) (collect_system d 10) empty_host) = Done es ∧ es ≠ []) ∧
  result_of (run (host services) (dump_system d 10) empty_host) = Done tt.
Proof. split; [eexists; split; [vm_compute; reflexivity|done]|vm_compute; reflexivity]. Qed.

Lemma pairs_served : etcd_serves services "/openebs.io/mayastor/x" pairs.
Proof.
  split; [vm_compute; reflexivity|]. intros [|[|i]] kv Hi; cbn in Hi; [injection Hi as <-..|done];
    vm_compute; reflexivity.
Qed.
Lemma etcd_dump_complete_witness :
  etcd_serves services "/openebs.io/mayastor/x" pairs ∧
  evals (disk services) (EtcdDump.dump_loop 3 (Some "etcd_dump") "/openebs.io/mayastor/x") (<["etcd_dump" := ""]> ∅)
  = (Done tt, <["etcd_dump" := written rendered pairs]> ∅).
Proof.
  split; [apply pairs_served|].
  apply (etcd_dump_complete services "/openebs.io/mayastor/x" pairs pairs_served "etcd_dump" ∅ 3 "").
  cbn. lia.
Defined.

(** A Loki of the entries of a pod and of its neighbours, which answers requests by
    comparing them with those for known start times *)
Definition poller : LokiPoll := mkLokiPoll "http://loki" ENDPOINT "?query=q".
Definition of_pod (mine : Z * string → bool) (l : list (Z * string)) : list (StreamMetaData * list (Z * string)) :=
  base.filter (λ g, g.2 ≠ [])
    [(mkStreamMetaData "h" "p" "c", base.filter (λ e, mine e = true) l);
     (mkStreamMetaData "h" "q" "c", base.filter (λ e, mine e ≠ true) l)].
Lemma non_empty_streams (x y : StreamMetaData) (a b : list (Z * string)) :
  base.filter (λ g, g.2 ≠ []) [(x, a); (y, b)] ≫= snd = (a ++ b)%list.
Proof.
  destruct a, b; rewrite !filter_cons; repeat case_decide; cbn in *; rewrite ?app_nil_r;
    try done; by exfalso; auto.
Qed.
Lemma of_pod_divides mine l : divides l (of_pod mine l).
Proof.
  split.
  - apply Forall_forall. intros g [Hn Hg]%list_elem_of_filter. split; [done|].
    apply elem_of_cons in Hg as [->|Hg%list_elem_of_singleton]; [|subst g]; apply sublist_filter.
  - transitivity (base.filter (λ e, mine e = true) l ++ base.filter (λ e, mine e ≠ true) l)%list;
      [|apply filter_app_complement].
    unfold of_pod. by rewrite non_empty_streams.
Qed.
Definition loki_services (mine : Z * string → bool) (limit : nat) (es : list (Z * string)) (start : Z)
    : ∀ c : sup_call, sup_res c := λ c,
  match c with
  | LokiCall req =>
      match list_find (λ s : Z, request_str poller s = req) (start :: ((λ e, e.1 + gap) <$> es)%Z) with
      | Some (_, s) => LokiOk (response pretty (of_pod mine (take limit (from s es))))
      | None => LokiFailure "unknown start"
      end
  | c => services c
  end.
Definition log_entries : list (Z * string) :=
  [(1000000000, "first"); (1001000000, "second  "); (1002000000, ""); (1005000000, "third")]%Z.
Definition first_only (e : Z * string) : bool := bool_decide (e.2 ≠ "second  ").

Lemma log_entries_served mine : loki_serves pretty 3 (loki_services mine 3 log_entries 7) poller log_entries 7.
Proof.
  intros s Hs. exists (of_pod mine (page 3 log_entries s)). split; [|apply of_pod_divides].
  destruct Hs as [->|(e & He & ->)]; [vm_compute; reflexivity|].
  repeat (apply elem_of_cons in He as [->|He]; [vm_compute; reflexivity|]). by apply not_elem_of_nil in He.
Qed.
Lemma log_entries_stamped e :
  e ∈ log_entries → parse_u128 (pretty e.1) = Some e.1 ∧ (0 < e.1 < U128 - gap)%Z.
Proof.
  intros He. repeat (apply elem_of_cons in He as [->|He]; [vm_compute; auto|]). by apply not_elem_of_nil in He.
Qed.
Lemma log_entries_one_stream :
  one_stream (loki_services (λ _, true) 3 log_entries 7) poller log_entries 7.
Proof.
  intros s r [->|(e & He & ->)]; [vm_compute; intros [= <-]; cbn; lia|].
  repeat (apply elem_of_cons in He as [->|He]; [vm_compute; intros [= <-]; cbn; lia|]). by apply not_elem_of_nil in He.
Qed.

(** With one stream and with two *)
Lemma loki_logs_complete_witness :
  evals (disk (loki_services (λ _, true) 3 log_entries 7)) (fetch_loop 5 poller "f.log" 7) (<["f.log" := ""]> ∅)
  = (Done tt, <["f.log" := written text ["first"; "second  "; "third"]]> ∅) ∧
  ∃ ls, ["first"; "second  "; "third"] ⊆+ ls ∧
    evals (disk (loki_services first_only 3 log_entries 7)) (fetch_loop 5 poller "f.log" 7) (<["f.log" := ""]> ∅)
    = (Done tt, <["f.log" := written text ls]> ∅).
Proof.
  assert (StronglySorted spaced log_entries) as Hs by (repeat constructor; vm_compute; done).
  split.
  - destruct (loki_logs_complete pretty 3 _ poller log_entries 7 (log_entries_served (λ _, true)) Hs
      log_entries_stamped ltac:(lia) 5 "f.log" "" ∅ ltac:(cbn; lia)) as (ls & He & _ & _ & Hls).
    rewrite (Hls log_entries_one_stream) in He. exact He.
  - destruct (loki_logs_complete pretty 3 _ poller log_entries 7 (log_entries_served first_only) Hs
      log_entries_stamped ltac:(lia) 5 "f.log" "" ∅ ltac:(cbn; lia)) as (ls & He & Hls & _).
    exists ls. split; [exact Hls|exact He].
Defined.

(** With two streams in a page, the lines of the first after the last of the second are
    written again. *)
Example loki_repeats_lines :
  let es := [(1000000000, "second  "); (1001000000, "first")]%Z in
  evals (disk (loki_services first_only 3 es 7)) (fetch_loop 4 poller "f.log" 7) (<["f.log" := ""]> ∅)
  = (Done tt, <["f.log" := written text ["first"; "second  "; "first"]]> ∅).
Proof. vm_compute. reflexivity. Qed.

(** Two lines within a millisecond, with a page between them: the second is lost. *)
Definition close_entries : list (Z * string) := [(1000000000, "kept"); (1000000001, "lost")]%Z.
Example loki_loses_close_lines :
  evals (disk (loki_services (λ _, true) 1 close_entries 7)) (fetch_loop 4 poller "f.log" 7) (<["f.log" := ""]> ∅)
  = (Done tt, <["f.log" := text "kept"]> ∅).
Proof. vm_compute. reflexivity. Qed.

Lemma label_selector_roundtrip_witness :
  split_on ","%char (as_string ["app=io-engine"; "openebs.io/logging=true"] ","%char)
  = ["app=io-engine"; "openebs.io/logging=true"].
Proof.
  apply (label_selector_roundtrip ["app=io-engine"; "openebs.io/logging=true"] ","%char); [done|].
  repeat constructor; apply (bool_decide_unpack _); vm_compute; exact I.
Defined.

Definition pod_logs_run := run (host services) (LogCollect.get_logging_resources [the_pod]) empty_host.
Definition io_engine_logs : LogCollect.LogResource :=
  LogCollect.mkLogResource "io-engine" (Some "node-1") "app=io-engine" "io-engine".
Lemma log_resources_wf_witness :
  result_of pod_logs_run = Done [io_engine_logs] ∧
  NoDup [io_engine_logs] ∧ ResourceSpec.well_formed io_engine_logs.
Proof.
  assert (result_of pod_logs_run = Done [io_engine_logs]) as Hd by (vm_compute; reflexivity).
  split; [exact Hd|].
  pose proof (run_exec (host services) (LogCollect.get_logging_resources [the_pod]) empty_host) as Hx.
  fold pod_logs_run in Hx. rewrite Hd in Hx.
  destruct (ResourceSpec.log_resources_wf [the_pod] _ _ Hx) as [Hn Hw].
  split; [exact Hn|]. apply Hw. by left.
Defined.

(** The host of the failed target is unhealthy, but not among all hosts of the volume. *)
Definition the_topology : VolumeTopology :=
  mkVolumeTopology the_volume the_volume.(vol_target)
    [mkReplicaTopology the_replica (mkPoolTopology the_pool (Some the_node) None)] None.
Example target_missing :
  VolumeResource.volume_unhealthy the_topology = [resource_info "nexus" "node-2"] ∧
  VolumeResource.volume_all the_topology = [resource_info "replica" "node-1"].
Proof. split; reflexivity. Qed.
End SupportWitness.
