(* ===== verification/ConsoleLogger.v ===== *)
(** * The console logger

    Models [console-logger/src/console.rs]: the two functions with which the plugin
    writes its notices and warnings, as the text they write; [info] writes on the standard
    output, [error] on the standard error.  The escape sequences of the colours are those
    of [nu_ansi_term], a parameter. *)

From S2P Require Import Prelude Text.
From stdpp Require Import base list strings.
From Stdlib Require Import Ascii.
Open Scope string_scope.

Module ConsoleLogger.
Inductive Color := Cyan | Red.

(** [color.bold().italic().paint(text)] *)
Class AnsiTerm := { bold_italic : Color → string → string }.

Section Console.
Context `{AnsiTerm}.

(** The format of both functions, without the newline of [println!] *)
Definition lines (message data : string) : string :=
  message +:+ " " +:+ String newline "" +:+ " " +:+ data +:+ " ".

Definition info (message data : string) : string :=
  lines (bold_italic Cyan message) (bold_italic Cyan data).
Definition error (message data : string) : string :=
  lines (bold_italic Cyan message) (bold_italic Red data).
End Console.
End ConsoleLogger.
