(* ===== verification/KubeProxy.v ===== *)
(** * The kube proxy

    Models [k8s/proxy/src]: which kubeconfig file is used ([lib.rs]), and the builder of the
    connections to the REST API, to etcd and to Loki inside the cluster ([proxy.rs]).
    [kube_forward], [kube], [hyper] and the OpenAPI client are parameters: [ProxyCrates]
    holds their types and pure functions, and what they do in the cluster is a request. *)

From S2P Require Import Prelude Text JobApi SupportApi.
From stdpp Require Import base gmap list strings pretty.
From Stdlib Require Import ZArith Lia Ascii.
Open Scope string_scope.
Open Scope list_scope.
Set Warnings "-register-all".

Module KubeProxy.

(** [std::time::Duration], in nanoseconds *)
Definition Duration : Type := Z.
Definition from_secs (s : Z) : Duration := (s * 1000000000)%Z.

(** [kube_forward::TargetSelector] *)
Inductive TargetSelector := ServiceLabel (label : string) | PodLabel (label : string).

(** ** The crates around, and constants of the [utils] crate *)
Class ProxyCrates := {
  (** [kube_forward] *)
  Port : Type; Target : Type; HttpForward : Type; PortForward : Type;
  Target_new : TargetSelector → Port → string → Target;
  with_namespace : string → Target → Target;
  (** [kube] *)
  Kubeconfig : Type; Config : Type; Client : Type;
  (** [hyper] and [url] *)
  Uri : Type; Url : Type;
  uri_parse : string → ext_error + Uri;
  url_parse : string → ext_error + Url;
  uri_to_string : Uri → string;
  (** [utils] *)
  API_REST_LABEL : string; ETCD_LABEL : string; LOKI_LABEL : string;
  API_REST_HTTP_PORT : Port; ETCD_PORT : Port; LOKI_PORT : Port;
  DEFAULT_NAMESPACE : string
}.

(** ** [Scheme], [ForwardingProxy] *)
Inductive Scheme := HTTP | HTTPS (certificate : option string).
Inductive UriScheme := Uri_HTTP | Uri_HTTPS.
Inductive ForwardingProxy := Forward_HTTP | Forward_TCP.

Definition parts (s : Scheme) : string * option string :=
  match s with
  | HTTP => ("http", None)
  | HTTPS certificate => ("https", certificate)
  end.
Definition UriScheme_from (s : Scheme) : UriScheme :=
  match s with HTTP => Uri_HTTP | HTTPS _ => Uri_HTTPS end.

Section Proxy.
Context `{ProxyCrates}.

(** The builder of the OpenAPI [Configuration], with what was set on it, and what is
    built: a client of the endpoint, through a service or directly. *)
Record ConfigurationBuilder := mkConfigurationBuilder {
  conf_timeout : option Duration; bearer_token : option string; tracing : bool;
  certificate : option string
}.
Inductive Configuration :=
| WithSvc (b : ConfigurationBuilder) (endpoint : Uri) (proxy : Client)
| WithUrl (b : ConfigurationBuilder) (endpoint : Url).

(** The HTTP services a Loki client can be: the proxy of the kube client, or a direct
    client with its connect timeout and keep-alive, under a timeout layer. *)
Inductive HttpService :=
| HttpProxy (client : Client)
| HttpClient (connect_timeout : option Duration) (keep_alive_timeout keep_alive_interval : Duration).
Record LokiClient := mkLokiClient { timeout_layer : option Duration; service : HttpService }.

(** ** Requests *)
Inductive proxy_call :=
| EnvVar (name : string)
| PathExists (path : string)
| ReadFrom (path : string)
| FromCustomKubeconfig (k : Kubeconfig)
| ClientFrom (c : Config)
| HttpForwardNew (t : Target) (s : option UriScheme)
| HttpForwardUri (f : HttpForward)
| PortForwardNew (t : Target)
| PortForwardStart (f : PortForward)
| BuildWithSvc (b : ConfigurationBuilder) (endpoint : Uri) (proxy : Client)
| BuildUrl (b : ConfigurationBuilder) (endpoint : Url).
Definition proxy_res (c : proxy_call) : Type :=
  match c with
  | EnvVar _ => option string
  | PathExists _ => bool
  | ReadFrom _ => ext_error + Kubeconfig
  | FromCustomKubeconfig _ => ext_error + Config
  | ClientFrom _ => ext_error + Client
  | HttpForwardNew _ _ => ext_error + HttpForward
  | HttpForwardUri _ => ext_error + Uri
  | PortForwardNew _ => ext_error + PortForward
  | PortForwardStart _ => ext_error + Z
  | BuildWithSvc _ _ _ | BuildUrl _ _ => ext_error + unit
  end.
Definition ProxySig : Sig := MkSig proxy_call proxy_res.
Definition proxied (A : Type) : Type := prog ProxySig (fault ext_error) A.
Definition ask (c : proxy_call) : proxied (proxy_res c) := call (S:=ProxySig) c.

(** ** [lib.rs] *)

(** The kubeconfig is the given one, that of [KUBECONFIG], or the one at the default
    location of linux and macos, if it exists. *)
Definition default_kubeconfig : proxied (option string) :=
  let! value := ask (EnvVar "KUBECONFIG") in
  match value with
  | Some value => Ret (Some value)
  | None =>
      let! home := ask (EnvVar "HOME") in
      let! home := some_or "environment variable not found" home in
      let default_path := home +:+ "/.kube/config" in
      let! found := ask (PathExists default_path) in
      Ret (if (found : bool) then Some default_path else None)
  end.
Definition config_from_kubeconfig (kube_config_path : option string) : proxied Config :=
  let! file :=
    match kube_config_path with
    | Some config_path => Ret config_path
    | None =>
        let! file_path := default_kubeconfig in
        some_or "kubeconfig file not found in default location" file_path
    end in
  let! r := ask (ReadFrom file) in
  let! kube_config := checked id r in
  let! r := ask (FromCustomKubeconfig kube_config) in
  checked id r.

(** ** [proxy.rs]: the builder *)

(** The type state *)
Inductive Service := ApiRest | Etcd | Loki.
Record ConfigBuilder (T : Service) := mkConfigBuilder {
  kube_config : option string; target : Target; timeout : option Duration;
  jwt : option string; method : ForwardingProxy; scheme : Scheme
}.
#[local] Arguments mkConfigBuilder {T}.
#[local] Arguments kube_config {T}.
#[local] Arguments target {T}.
#[local] Arguments timeout {T}.
#[local] Arguments jwt {T}.
#[local] Arguments method {T}.
#[local] Arguments scheme {T}.

Definition default_api_rest : ConfigBuilder ApiRest :=
  mkConfigBuilder None (Target_new (ServiceLabel API_REST_LABEL) API_REST_HTTP_PORT DEFAULT_NAMESPACE)
    (Some (from_secs 5)) None Forward_HTTP HTTP.
Definition default_etcd : ConfigBuilder Etcd :=
  mkConfigBuilder None (Target_new (PodLabel ETCD_LABEL) ETCD_PORT DEFAULT_NAMESPACE)
    (Some (from_secs 5)) None Forward_TCP HTTP.
Definition default_loki : ConfigBuilder Loki :=
  mkConfigBuilder None (Target_new (ServiceLabel LOKI_LABEL) LOKI_PORT DEFAULT_NAMESPACE)
    (Some (from_secs 5)) None Forward_HTTP HTTP.

Definition with_kube_config {T} (kube_config_path : option string) (b : ConfigBuilder T) : ConfigBuilder T :=
  mkConfigBuilder kube_config_path b.(target) b.(timeout) b.(jwt) b.(method) b.(scheme).
Definition with_target {T} (t : Target) (b : ConfigBuilder T) : ConfigBuilder T :=
  mkConfigBuilder b.(kube_config) t b.(timeout) b.(jwt) b.(method) b.(scheme).
Definition with_target_mod {T} (modify : Target → Target) (b : ConfigBuilder T) : ConfigBuilder T :=
  mkConfigBuilder b.(kube_config) (modify b.(target)) b.(timeout) b.(jwt) b.(method) b.(scheme).
(** On the builders of the REST API and of Loki only *)
Definition with_timeout {T} (t : option Duration) (b : ConfigBuilder T) : ConfigBuilder T :=
  mkConfigBuilder b.(kube_config) b.(target) t b.(jwt) b.(method) b.(scheme).
Definition with_forwarding {T} (m : ForwardingProxy) (b : ConfigBuilder T) : ConfigBuilder T :=
  mkConfigBuilder b.(kube_config) b.(target) b.(timeout) b.(jwt) m b.(scheme).
Definition with_scheme {T} (s : Scheme) (b : ConfigBuilder T) : ConfigBuilder T :=
  mkConfigBuilder b.(kube_config) b.(target) b.(timeout) b.(jwt) b.(method) s.

(** ** Building a connection *)

(** The endpoint through the proxy of the API server, and the kube client of the proxy *)
Definition http_endpoint {T} (b : ConfigBuilder T) : proxied (Uri * Client) :=
  let! r := ask (HttpForwardNew b.(target) (Some (UriScheme_from b.(scheme)))) in
  let! fwd := checked id r in
  let! r := ask (HttpForwardUri fwd) in
  let! uri := checked id r in
  let! config := config_from_kubeconfig b.(kube_config) in
  let! r := ask (ClientFrom config) in
  let! client := checked id r in
  Ret (uri, client).

(** The local port which is forwarded to the target, and the address on it *)
Definition tcp_port {T} (b : ConfigBuilder T) : proxied Z :=
  let! r := ask (PortForwardNew b.(target)) in
  let! pf := checked id r in
  let! r := ask (PortForwardStart pf) in
  checked id r.
Definition localhost (scheme : string) (port : Z) : string := scheme +:+ "://localhost:" +:+ pretty port.

Definition api_build_http (b : ConfigBuilder ApiRest) : proxied Configuration :=
  let! e := http_endpoint b in
  let config := mkConfigurationBuilder b.(timeout) b.(jwt) true None in
  let! r := ask (BuildWithSvc config e.1 e.2) in
  do! checked (λ e, "Failed to Create OpenApi config: " +:+ e) r in
  Ret (WithSvc config e.1 e.2).
Definition api_build_tcp (b : ConfigBuilder ApiRest) : proxied Configuration :=
  let! port := tcp_port b in
  let timeout := default (from_secs 5) b.(timeout) in
  let! url := checked id (url_parse (localhost (parts b.(scheme)).1 port)) in
  let config := mkConfigurationBuilder (Some timeout) b.(jwt) true (parts b.(scheme)).2 in
  let! r := ask (BuildUrl config url) in
  do! checked (λ e, "Failed to Create OpenApi config: " +:+ e) r in
  Ret (WithUrl config url).
Definition api_build (b : ConfigBuilder ApiRest) : proxied Configuration :=
  match b.(method) with
  | Forward_HTTP => api_build_http b
  | Forward_TCP => api_build_tcp b
  end.

Definition etcd_build (b : ConfigBuilder Etcd) : proxied Uri :=
  let! port := tcp_port b in
  checked id (uri_parse (localhost (parts b.(scheme)).1 port)).

Definition loki_build_http (b : ConfigBuilder Loki) : proxied (Uri * LokiClient) :=
  let! e := http_endpoint b in
  Ret (e.1, mkLokiClient b.(timeout) (HttpProxy e.2)).
(** [Duration / 2] rounds down; https is [unimplemented!()]. *)
Definition loki_build_tcp (b : ConfigBuilder Loki) : proxied (Uri * LokiClient) :=
  let! port := tcp_port b in
  let keep_alive_timeout := default (from_secs 5) b.(timeout) in
  let! uri := checked id (uri_parse (localhost (parts b.(scheme)).1 port)) in
  match b.(scheme) with
  | HTTP =>
      Ret (uri, mkLokiClient b.(timeout)
                  (HttpClient b.(timeout) keep_alive_timeout (keep_alive_timeout / 2)%Z))
  | HTTPS _ => Throw Panic
  end.
Definition loki_build (b : ConfigBuilder Loki) : proxied (Uri * LokiClient) :=
  match b.(method) with
  | Forward_HTTP => loki_build_http b
  | Forward_TCP => loki_build_tcp b
  end.
End Proxy.
Arguments mkConfigBuilder {_ T}. Arguments kube_config {_ T}. Arguments target {_ T}.
Arguments timeout {_ T}. Arguments jwt {_ T}. Arguments method {_ T}. Arguments scheme {_ T}.
End KubeProxy.
