(* ===== verification/KubectlPlugin.v ===== *)
(** * The kubectl plugin: its main function and its operations

    Models [k8s/plugin/src/main.rs] and [k8s/plugin/src/resources/mod.rs], and of
    [k8s/supportability/src/lib.rs] the entry points of [dump].  This is where the parts meet:
    the commands of the upgrade plugin and of supportability run here, with the connections
    they open made by the kube proxy.  The commands of the [plugin] library of another
    repository (get, drain, label, scale, set, cordon, uncordon) are requests. *)

From S2P Require Import Prelude Semver Text JobApi HelmChart HelmValues PluginApi PluginUpgrade.
From S2P Require Import ConsoleLogger PluginErrorText SupportApi SupportErrorText SupportDump KubeProxy.
From stdpp Require Import base gmap list strings pretty.
From Stdlib Require Import ZArith Lia Ascii.
Open Scope string_scope.
Open Scope list_scope.
Set Warnings "-register-all".

Module KubectlPlugin.
Import KubeProxy.

(** ** Errors *)

(** What an [anyhow::Error] is made of here *)
Inductive anyhow_error :=
| Message (msg : string)
| DumpError (e : SupportApi.Error)
| Interrupted (signal : string).
(** [enum Error] of [main.rs] *)
Inductive Error :=
| Upgrade (e : PError)
| RestPlugin (e : ext_error)
| RestClient (e : anyhow_error)
| Generic (e : anyhow_error).

(** ** Arguments *)

(** [resources::CliArgs], with the timeout of the [plugin] library's arguments in it *)
Record ResourcesCliArgs := mkResourcesCliArgs {
  kube_config_path : option string; namespace : string; timeout : Duration
}.
(** The resources of the [plugin] library, with their own arguments *)
Inductive RestResource :=
| GetResources (args : string) | DrainResources (args : string) | LabelResources (args : string)
| ScaleResources (args : string) | SetPropertyResources (args : string)
| CordonResources (args : string) | UnCordonResources (args : string).
Inductive GetResourcesK8s := Rest (r : string) | UpgradeStatus.
Inductive DeleteResources := DeleteUpgrade (force : bool).
(** [DumpArgs] has its own timeout. *)
Record DumpArgs (debug : bool) := mkDumpArgs {
  dump_timeout : Duration; support_args : Operations.SupportArgs; resource : Operations.Resource debug
}.
Arguments mkDumpArgs {debug}. Arguments dump_timeout {debug}.
Arguments support_args {debug}. Arguments resource {debug}.
Inductive operation (debug : bool) :=
| Drain (args : string) | Label (args : string) | Get (r : GetResourcesK8s)
| Scale (args : string) | Set_ (args : string) | Cordon (args : string) | Uncordon (args : string)
| Dump (args : DumpArgs debug)
| UpgradeOp (args : UpgradeArgs)
| Delete (r : DeleteResources).
Arguments Drain {debug}. Arguments Label {debug}. Arguments Get {debug}. Arguments Scale {debug}.
Arguments Set_ {debug}. Arguments Cordon {debug}. Arguments Uncordon {debug}.
Arguments Dump {debug}. Arguments UpgradeOp {debug}. Arguments Delete {debug}.
(** [CliArgs] of [main.rs] *)
Record CliArgs (debug : bool) := mkCliArgs {
  rest : option string; operations : operation debug; args : ResourcesCliArgs
}.
Arguments mkCliArgs {debug}. Arguments rest {debug}. Arguments operations {debug}. Arguments args {debug}.

(** ** What is printed *)
Section Texts.
Context `{SupportErrorText.ClientDebug}.

Definition anyhow_text (e : anyhow_error) : string :=
  match e with
  | Message msg => msg
  | DumpError e => SupportErrorText.debug_error e
  | Interrupted signal => "Interrupted by " +:+ signal
  end.

(** The line which [main] writes on the standard error *)
Definition error_line (error : Error) : string :=
  match error with
  | RestPlugin e => e
  | RestClient e => "Failed to initialise the REST client. Error " +:+ anyhow_text e
  | Upgrade e => PluginErrorText.display e
  | Generic e => anyhow_text e
  end.
End Texts.

Section Kubectl.
Context `{SupportErrorText.ClientDebug} `{ConsoleLogger.AnsiTerm}.
Context `{Deps} `{PluginDeps} `{Semver} `{SerdeYaml}.
Context `{SupportApi.SupportCrates} `{SortUnstable} `{HashOrder} `{ProxyCrates}.

(** ** Requests: those of the parts, and the plugin's own *)
Inductive kubectl_call :=
| Up (c : plugin_call)
| Sup (c : SupportApi.sup_call)
| Proxy (c : proxy_call)
| RestInit (url : string) (timeout : Duration)
| RestInitWithConfig (c : Configuration)
| RestExecute (r : RestResource)
(** a termination signal, if one has come *)
| Signal
| Println (line : string)
| Eprintln (line : string).
Definition kubectl_res (c : kubectl_call) : Type :=
  match c with
  | Up c => plugin_res c
  | Sup c => SupportApi.sup_res c
  | Proxy c => proxy_res c
  | RestInit _ _ | RestInitWithConfig _ => anyhow_error + unit
  | RestExecute _ => ext_error + unit
  | Signal => option string
  | Println _ | Eprintln _ => unit
  end.
Definition KubectlSig : Sig := MkSig kubectl_call kubectl_res.
Definition kubectl (E A : Type) : Type := prog KubectlSig (fault E) A.
Definition ask {E} (c : kubectl_call) : kubectl E (kubectl_res c) := call (S:=KubectlSig) c.

(** ** The parts, with the connections they open *)

(** [builder.build().await]: the result as a value *)
Definition connect {E A} (p : proxied A) : kubectl E (ext_error + A) :=
  interp (λ c : op ProxySig, ask (Proxy c)) (try_ p).

(** The connection to the REST API, as every client of it makes it *)
Definition api_rest_builder (kube_config : option string) (timeout : Duration) (ns : string)
  : ConfigBuilder ApiRest :=
  with_target_mod (with_namespace ns) (with_timeout (Some timeout)
    (with_kube_config kube_config default_api_rest)).

(** A command of the upgrade plugin: the connection of its preflight check is the one
    which [preflight_check] builds of the arguments, and its messages are written on the
    standard output and the standard error of the process. *)
Definition upgrade_request {E} (a : ResourcesCliArgs) (c : op PluginSig) : kubectl E (plugin_res c) :=
  match c with
  | OpenapiConfigBuild =>
      let! r := connect (api_build (api_rest_builder a.(kube_config_path) a.(timeout) a.(namespace))) in
      Ret (match r with inl e => inl e | inr _ => inr tt end)
  | ConsoleInfo title text => ask (Println (ConsoleLogger.info title text))
  | ConsoleError title text => ask (Eprintln (ConsoleLogger.error title text))
  | PluginApi.Println line => ask (Println line)
  | c => ask (Up c)
  end.
Definition upgrade_command {E A} (a : ResourcesCliArgs) (p : plugin A) : kubectl E (failure + A) :=
  interp (upgrade_request a) (attempt p).

(** A command of supportability: [LokiClient::new] and [EtcdStore::new] build their
    connections of the kubeconfig and the namespace. *)
Definition loki_builder (kube_config : option string) (ns : string) : ConfigBuilder Loki :=
  with_target_mod (with_namespace ns) (with_kube_config kube_config default_loki).
Definition etcd_builder (kube_config : option string) (ns : string) : ConfigBuilder Etcd :=
  with_target_mod (with_namespace ns) (with_kube_config kube_config default_etcd).
Definition dump_request {E} (c : op SupportApi.SupSig) : kubectl E (SupportApi.sup_res c) :=
  match c with
  | SupportApi.LokiProxy kube_config ns =>
      let! r := connect (loki_build (loki_builder kube_config ns)) in
      Ret (match r with inl e => inl e | inr u => inr (uri_to_string u.1) end)
  | SupportApi.EtcdProxy kube_config ns =>
      let! r := connect (etcd_build (etcd_builder kube_config ns)) in
      Ret (match r with inl e => inl e | inr u => inr (uri_to_string u) end)
  | c => ask (Sup c)
  end.
Definition dump_command {E E' A} (p : SupportApi.sup E A) : kubectl E' (E + A) :=
  interp dump_request (try_ p).

(** ** [impl ExecuteOperation for Operations] *)

Section Execute.
Variables (debug : bool) (fuel : nat).

(** [Resource::execute] and [DumpArgs::execute] of supportability *)
Definition dump_execute (d : DumpArgs debug) : kubectl anyhow_error unit :=
  let a := d.(support_args) in
  let! r := connect (api_build (api_rest_builder a.(Operations.arg_kube_config_path)
                                  d.(dump_timeout) a.(Operations.arg_namespace))) in
  do! checked Message r in
  let! r := dump_command (ResourceDump.execute_resource_dump fuel a d.(resource)) in
  checked DumpError r.

(** [resource.execute(cli_args).await?] of the [plugin] library *)
Definition rest_execute (r : RestResource) : kubectl Error unit :=
  let! r := ask (RestExecute r) in checked RestPlugin r.

(** [f().await?] of the upgrade plugin *)
Definition upgrade_execute {A} (a : ResourcesCliArgs) (p : plugin A) : kubectl Error A :=
  let! r := upgrade_command a p in
  match r with
  | inr x => Ret x
  | inl (Returned e) => Throw (Err (Upgrade e))
  | inl Panicked => Throw Panic
  end.

Definition operations_execute (o : operation debug) (cli_args : ResourcesCliArgs) : kubectl Error unit :=
  let ns := cli_args.(namespace) in
  match o with
  | Get (Rest r) => rest_execute (GetResources r)
  | Get UpgradeStatus => upgrade_execute cli_args (PluginUpgrade.create_get_upgrade_resource ns)
  | Drain r => rest_execute (DrainResources r)
  | Label r => rest_execute (LabelResources r)
  | Scale r => rest_execute (ScaleResources r)
  | Set_ r => rest_execute (SetPropertyResources r)
  | Cordon r => rest_execute (CordonResources r)
  | Uncordon r => rest_execute (UnCordonResources r)
  | Dump d =>
      let! r := try_ (dump_execute d) in
      match r with
      | inr _ => Ret tt
      | inl e => do! ask (Println "Partially collected dump information: ") in Throw (Err (Generic e))
      end
  | UpgradeOp resources =>
      do! upgrade_execute cli_args (PluginUpgrade.preflight_check fuel ns resources) in
      upgrade_execute cli_args (PluginUpgrade.execute resources ns)
  | Delete (DeleteUpgrade force) => upgrade_execute cli_args (PluginUpgrade.delete_upgrade force ns)
  end.

(** ** [main.rs] *)

(** [init_rest] *)
Definition init_rest (cli_args : CliArgs debug) : kubectl Error unit :=
  let a := cli_args.(args) in
  match cli_args.(rest) with
  | Some url =>
      let! r := ask (RestInit url a.(timeout)) in checked RestClient r
  | None =>
      let! r := connect (api_build (api_rest_builder a.(kube_config_path) a.(timeout) a.(namespace))) in
      let! config := checked (λ e, Generic (Message e)) r in
      let! r := ask (RestInitWithConfig config) in
      checked Generic r
  end.

(** [tokio::select!] of the signal and the operation: at every await the signal may be
    seen first, and ends the operation there.  Here it may be seen before every request and
    before the end, so at least where the code can see it. *)
Fixpoint select_signal {A} (p : kubectl Error A) : kubectl Error A :=
  Call (S:=KubectlSig) Signal (λ s : option string,
    match s with
    | Some signal => Throw (Err (Generic (Interrupted signal)))
    | None =>
        match p with
        | Ret a => Ret a
        | Throw e => Throw e
        | Spin => Spin
        | Call c k => Call c (λ r, select_signal (k r))
        end
    end).

Definition execute (cli_args : CliArgs debug) : kubectl Error unit :=
  do! init_rest cli_args in
  select_signal (operations_execute cli_args.(operations) cli_args.(args)).

(** The exit code *)
Definition report (error : Error) : Z :=
  match error with
  | Upgrade e => PluginError.exit_code e
  | RestPlugin _ | RestClient _ | Generic _ => 1
  end.
Definition main (cli_args : CliArgs debug) : kubectl Empty_set unit :=
  let! r := try_ (execute cli_args) in
  match r with
  | inr _ => Ret tt
  | inl error =>
      do! ask (Eprintln (error_line error)) in
      Throw (Exit (report error))
  end.
End Execute.
End Kubectl.

(** The status which the parent of the process sees: [exit] keeps the low eight bits of
    its argument, a panic of the main thread is status 101.  A run which was cut or goes on
    has none. *)
Definition exit_status {E A} (o : outcome (fault E) A) : option Z :=
  match o with
  | Done _ => Some 0%Z
  | Failed (Exit code) => Some (code mod 256)%Z
  | Failed Panic => Some 101%Z
  | _ => None
  end.
End KubectlPlugin.
