(* ===== verification/KubectlSpec.v ===== *)
(** * The kubectl plugin as a whole

    Properties of the runs of [main]: what guards the changes of the cluster, whichever
    operation runs and whenever it is interrupted, the status of the process, and the
    kubeconfig of the connections. *)

From S2P Require Import Prelude Semver Text JobApi HelmChart HelmValues PluginApi PluginUpgrade PluginSpec.
From S2P Require Import PluginChecks ConsoleLogger PluginErrorText SupportApi SupportErrorText SupportDump.
From S2P Require Import SupportExitSpec KubeProxy KubectlPlugin.
From stdpp Require Import base gmap list strings pretty.
From Stdlib Require Import ZArith Lia Ascii.
Open Scope string_scope.
Open Scope list_scope.

(** ** The kubeconfig of a connection *)
Module ProxySpec.
Import KubeProxy.
Section Spec.
Context `{ProxyCrates}.
Abbreviation event c r := (Ev (S:=ProxySig) c r).

(** The file which is used: the given one, that of the environment, or the default one. *)
Definition resolved (given : option string) (tr : list (ev ProxySig)) (path : string) : Prop :=
  match given with
  | Some p => path = p
  | None =>
      event (EnvVar "KUBECONFIG") (Some path) ∈ tr ∨
      (event (EnvVar "KUBECONFIG") None ∈ tr ∧ event (PathExists path) true ∈ tr ∧
       ∃ home, event (EnvVar "HOME") (Some home) ∈ tr ∧ path = home +:+ "/.kube/config")
  end.
(** The client was made of the configuration in that file. *)
Definition from_kubeconfig (given : option string) (tr : list (ev ProxySig)) (client : Client) : Prop :=
  ∃ path k cfg, resolved given tr path ∧ event (ReadFrom path) (inr k) ∈ tr ∧
    event (FromCustomKubeconfig k) (inr cfg) ∈ tr ∧ event (ClientFrom cfg) (inr client) ∈ tr.
(** No kubeconfig was read. *)
Definition no_kubeconfig (tr : list (ev ProxySig)) : Prop := ∀ path r, event (ReadFrom path) r ∉ tr.

Lemma exec_proxy_inv c tr (r : proxy_res c) : exec (ask c) tr (Done r) → tr = [event c r].
Proof. apply (exec_call_inv (S:=ProxySig) (E:=fault ext_error) c). Qed.
Ltac proxy_inv :=
  unfold checked, SupportApi.some_or in *;
  repeat (progress done_inv ||
    match goal with
    | H : exec (ask ?c) ?t (Done ?r) |- _ => apply (exec_proxy_inv c t r) in H
    end); subst; cbn [app id] in *.

Lemma default_resolved tr path :
  exec default_kubeconfig tr (Done (Some path)) → resolved None tr path.
Proof.
  unfold default_kubeconfig. intros Hx. proxy_inv.
  match goal with v : option string |- _ => destruct v end; proxy_inv; [left; set_solver|].
  match goal with b : bool |- _ => destruct b end; simplify_eq. right.
  split_and!; [set_solver..|]. eexists. split; [|done]. do 2 constructor.
Qed.

Lemma resolved_app given tr1 tr tr2 path : resolved given tr path → resolved given (tr1 ++ tr ++ tr2) path.
Proof. destruct given; cbn; [done|]. intros [?|(?&?&home&?&?)]; set_solver. Qed.
Lemma from_kubeconfig_app given tr1 tr tr2 client :
  from_kubeconfig given tr client → from_kubeconfig given (tr1 ++ tr ++ tr2) client.
Proof.
  intros (path & k & cfg & ? & ? & ? & ?). exists path, k, cfg.
  split; [by apply resolved_app|set_solver].
Qed.

Lemma config_resolved given tr cfg :
  exec (config_from_kubeconfig given) tr (Done cfg) →
  ∃ path k, resolved given tr path ∧ event (ReadFrom path) (inr k) ∈ tr ∧
    event (FromCustomKubeconfig k) (inr cfg) ∈ tr.
Proof.
  unfold config_from_kubeconfig. intros Hx. proxy_inv.
  do 2 eexists. split; [|split; [apply elem_of_app; right; do 1 constructor|
                                 apply elem_of_app; right; do 2 constructor]].
  destruct given; proxy_inv; [done|].
  match goal with Hd : exec default_kubeconfig _ _ |- _ => apply default_resolved in Hd end.
  rewrite app_nil_r. by apply (resolved_app None []).
Qed.

Lemma http_from_kubeconfig {T} (b : ConfigBuilder T) tr e :
  exec (http_endpoint b) tr (Done e) → from_kubeconfig b.(kube_config) tr e.2.
Proof.
  unfold http_endpoint. intros Hx. proxy_inv.
  match goal with Hc : exec (config_from_kubeconfig _) _ _ |- _ =>
    apply config_resolved in Hc as (path & k & Hp & Hr & Hf) end.
  match goal with Hc : event (FromCustomKubeconfig _) (inr ?cfg) ∈ _ |- _ => exists path, k, cfg end.
  split_and!; [by apply (resolved_app _ [_;_])|set_solver..].
Qed.

Definition keeps_away (c : op ProxySig) : bool := match c with ReadFrom _ => false | _ => true end.
Lemma away_no_kubeconfig {A} (p : proxied A) tr o : uses keeps_away p → exec p tr o → no_kubeconfig tr.
Proof.
  intros Hp Hx path r Hin. eapply uses_sound in Hx; [|done]. rewrite Forall_forall in Hx.
  by specialize (Hx _ Hin).
Qed.
Lemma ask_away c : keeps_away c = true → uses keeps_away (ask c).
Proof. done. Qed.
#[local] Hint Resolve ask_away : uses.
Ltac solve_away := unfold tcp_port, checked; solve_uses.

(** Which cluster a connection goes to.  A connection through the proxy of the API server
    uses a client made of the given kubeconfig, or without one of that of the environment,
    or of the one at the default location if it exists.  A connection through a forwarded
    port reads no kubeconfig, whichever is given: so does every connection to etcd. *)
Theorem kubeconfig_source :
  (∀ b tr c, exec (api_build b) tr (Done c) →
     match c with
     | WithSvc _ _ client => b.(method) = Forward_HTTP ∧ from_kubeconfig b.(kube_config) tr client
     | WithUrl _ _ => b.(method) = Forward_TCP ∧ no_kubeconfig tr
     end) ∧
  (∀ b tr uri l, exec (loki_build b) tr (Done (uri, l)) →
     match l.(service) with
     | HttpProxy client => b.(method) = Forward_HTTP ∧ from_kubeconfig b.(kube_config) tr client
     | HttpClient _ _ _ => b.(method) = Forward_TCP ∧ no_kubeconfig tr
     end) ∧
  (∀ b tr uri, exec (etcd_build b) tr (Done uri) → no_kubeconfig tr).
Proof.
  split_and!.
  - intros b tr c Hx. unfold api_build in Hx. destruct b.(method) eqn:Hm.
    + unfold api_build_http in Hx. proxy_inv. split; [done|].
      apply (from_kubeconfig_app _ []). by apply http_from_kubeconfig.
    + assert (no_kubeconfig tr) as Hno by (eapply away_no_kubeconfig; [|exact Hx]; unfold api_build_tcp; solve_away).
      unfold api_build_tcp in Hx. by proxy_inv.
  - intros b tr uri l Hx. unfold loki_build in Hx. destruct b.(method) eqn:Hm.
    + unfold loki_build_http in Hx. proxy_inv. simplify_eq. split; [done|].
      apply (from_kubeconfig_app _ []). by apply http_from_kubeconfig.
    + assert (no_kubeconfig tr) as Hno by (eapply away_no_kubeconfig; [|exact Hx]; unfold loki_build_tcp; solve_away).
      unfold loki_build_tcp in Hx. proxy_inv. destruct b.(scheme); proxy_inv. by simplify_eq.
  - intros b tr uri Hx. eapply away_no_kubeconfig; [|exact Hx]. unfold etcd_build. solve_away.
Qed.
End Spec.
End ProxySpec.

Module KubectlSpec.
Import KubeProxy KubectlPlugin.

Section Spec.
Context `{Deps} `{PluginDeps} `{Semver} `{SerdeYaml}.
Context `{SupportApi.SupportCrates} `{SortUnstable} `{HashOrder} `{ProxyCrates}.
Context `{SupportErrorText.ClientDebug} `{ConsoleLogger.AnsiTerm}.

(** ** Requests which do not change the cluster through the Kubernetes API, and polls of
    the signal *)
Definition calm (c : op KubectlSig) : bool :=
  match c with Up c => negb (mutates c) | Signal => false | _ => true end.
Definition is_signal (c : op KubectlSig) : bool := match c with Signal => true | _ => false end.
Definition steady (c : op KubectlSig) : bool := negb (is_signal c).

(** The requests of a run without the polls of the signal. *)
Definition is_poll (e : ev KubectlSig) : bool := match e with Ev c _ => is_signal c end.
Definition unsignalled (tr : list (ev KubectlSig)) : list (ev KubectlSig) :=
  base.filter (λ e, is_poll e = false) tr.

Lemma uses_request {E} (ok : op KubectlSig → bool) c : ok c = true → uses ok (ask (E:=E) c).
Proof. done. Qed.
Lemma uses_connect {E A} (ok : op KubectlSig → bool) (p : proxied A) :
  (∀ c, ok (Proxy c) = true) → uses ok (connect (E:=E) p).
Proof. intros Hok. eapply uses_interp; [apply uses_any|]. intros c _. by apply uses_request. Qed.

Lemma uses_upgrade {A} (ok : op KubectlSig → bool) (ok' : op PluginSig → bool) a (p : plugin A) :
  (∀ c, ok (Proxy c) = true) → (∀ l, ok (Println l) = true) → (∀ l, ok (Eprintln l) = true) →
  (∀ c, ok' c = true → ok (Up c) = true) → uses ok' p →
  uses ok (upgrade_execute a p).
Proof.
  intros Hc Hl Hl' Hok Hp. apply uses_bind; [|by intros [[]|]].
  eapply uses_interp; [by apply uses_attempt|]. intros c Hc'.
  destruct c; try by (apply uses_request; auto).
  apply uses_bind; [by apply uses_connect|done].
Qed.

Lemma uses_dump {debug} (ok : op KubectlSig → bool) fuel (d : DumpArgs debug) :
  (∀ c, ok (Proxy c) = true) → (∀ c, ok (Sup c) = true) → uses ok (dump_execute debug fuel d).
Proof.
  intros Hc Hs. apply uses_bind; [by apply uses_connect|intros r].
  apply uses_bind; [apply uses_lift|intros _]. apply uses_bind; [|intros ?; apply uses_lift].
  eapply uses_interp; [apply uses_any|]. intros c _.
  destruct c; try (by apply uses_request); (apply uses_bind; [by apply uses_connect|done]).
Qed.

Lemma calm_upgrade {A} a (p : plugin A) : reads p → uses calm (upgrade_execute a p).
Proof. by apply uses_upgrade. Qed.
Lemma calm_init {debug} (cli : CliArgs debug) : uses calm (init_rest debug cli).
Proof.
  unfold init_rest. destruct (rest cli).
  - apply uses_bind; [by apply uses_request|intros; apply uses_lift].
  - apply uses_bind; [by apply uses_connect|intros r].
    apply uses_bind; [apply uses_lift|intros c]. apply uses_bind; [by apply uses_request|intros; apply uses_lift].
Qed.

Lemma steady_operations {debug} fuel (op : operation debug) a : uses steady (operations_execute debug fuel op a).
Proof.
  assert (∀ A (p : plugin A), uses steady (upgrade_execute a p)) as Hup
    by (intros; by eapply uses_upgrade; [..|apply uses_any]).
  assert (∀ r, uses steady (rest_execute r)) as Hrest
    by (intros; apply uses_bind; [by apply uses_request|intros; apply uses_lift]).
  destruct op as [ | |[]| | | | | | |[]]; cbn [operations_execute]; try apply Hrest; try apply Hup.
  - apply uses_bind; [by apply uses_try, uses_dump|]. intros [e|]; [|done].
    apply uses_bind; [by apply uses_request|done].
  - apply uses_bind; intros; apply Hup.
Qed.
#[local] Hint Resolve steady_operations calm_init : uses.

(** ** Only [dump] exits on its own *)
Lemma returns_api b : throws (api_build b) returns.
Proof.
  unfold api_build, api_build_http, api_build_tcp, http_endpoint, tcp_port, config_from_kubeconfig,
    default_kubeconfig, checked, SupportApi.some_or. solve_throws.
Qed.
Lemma returns_connect {E A} (p : proxied A) : throws p returns → throws (connect (E:=E) p) returns.
Proof. intros Hp. by apply throws_interp; [apply throws_try|]. Qed.
#[local] Hint Resolve returns_api returns_connect : throws.
Lemma returns_upgrade {A} a (p : plugin A) : throws (upgrade_execute a p) returns.
Proof.
  apply throws_bind; [|by intros [[]|]]. apply throws_interp; [apply throws_attempt|].
  intros []; solve_throws.
Qed.
#[local] Hint Resolve returns_upgrade : throws.
Lemma returns_init {debug} (cli : CliArgs debug) : throws (init_rest debug cli) returns.
Proof. unfold init_rest, checked. solve_throws. Qed.
#[local] Hint Resolve returns_init : throws.
(** The dump exits with 1 only; nothing else exits on its own. *)
Lemma returns_loki b : throws (loki_build b) returns.
Proof.
  unfold loki_build, loki_build_http, loki_build_tcp, http_endpoint, tcp_port, config_from_kubeconfig,
    default_kubeconfig, checked, SupportApi.some_or. solve_throws.
Qed.
Lemma returns_etcd b : throws (etcd_build b) returns.
Proof. unfold etcd_build, tcp_port, checked. solve_throws. Qed.
#[local] Hint Resolve returns_loki returns_etcd : throws.
Lemma exits_dump {debug} fuel (d : DumpArgs debug) :
  throws (dump_execute debug fuel d) (exits (λ c, c = 1%Z)).
Proof.
  assert (∀ E A (p : proxied A), throws p returns → throws (connect (E:=E) p) (exits (λ c, c = 1%Z))) as Hc.
  { intros E A p Hp. eapply throws_weaken; [|by apply returns_connect]. by intros []. }
  unfold dump_execute, dump_command, checked. apply throws_bind; [auto with throws|intros r].
  apply throws_bind; [by apply throws_lift|intros c]. apply throws_bind; [|intros; by apply throws_lift].
  apply throws_interp; [apply throws_try, ExitSpec.exits_execute|].
  intros []; try done; (apply throws_bind; [auto with throws|done]).
Qed.
Lemma exits_select {A} P (p : kubectl Error A) : throws p (exits P) → throws (select_signal p) (exits P).
Proof. induction p as [|e| |c k IH]; cbn; intros Hp [s|]; try done. intros r. apply IH, Hp. Qed.
Lemma exits_execute_dump {debug} fuel (cli : CliArgs debug) d :
  cli.(operations) = Dump d → throws (execute debug fuel cli) (exits (λ c, c = 1%Z)).
Proof.
  intros Hop. unfold execute. rewrite Hop. cbn [operations_execute].
  apply throws_bind; [eapply throws_weaken; [|apply returns_init]; by intros []|intros _].
  apply exits_select, throws_bind; [apply throws_try, exits_dump|]. intros [e|]; [|done].
  apply throws_bind; [done|]. done.
Qed.
Lemma returns_execute {debug} fuel (cli : CliArgs debug) :
  match cli.(operations) with Dump _ => True | _ => throws (execute debug fuel cli) returns end.
Proof.
  assert (∀ r, throws (rest_execute r) returns) as Hrest by (intros; unfold rest_execute, checked; solve_throws).
  unfold execute. destruct cli.(operations) as [ | |[]| | | | | | |[]]; cbn [operations_execute]; try done;
    (apply throws_bind; [apply returns_init|intros _; apply exits_select]); solve_throws.
Qed.

(** ** Interruption: what has run is a run of the operation, which ended there *)
Lemma exec_select {A} (p : kubectl Error A) tr o :
  uses steady p → exec (select_signal p) tr o →
  ∃ o', exec p (unsignalled tr) o' ∧
        (o' = o ∨ (o' = Cut ∧ ∃ s, o = Failed (Err (Generic (Interrupted s))))).
Proof.
  revert tr; induction p as [a|e| |c k IH]; intros tr Hu Hx;
    (destruct Hx as [[-> ->]|(s & tr' & -> & Hx)]; [by exists Cut; eauto using exec_cut|]);
    (destruct s as [s|]; [destruct Hx as [[-> ->]|[-> ->]]; exists Cut; eauto 6 using exec_cut|]).
  1-3: destruct Hx as [[-> ->]|[-> ->]]; eexists; (split; [|by left]); cbn; eauto.
  destruct Hx as [[-> ->]|(r & tr2 & -> & Hx)]; [by exists Cut; eauto using exec_cut|].
  destruct Hu as [Hc Hk]. destruct (IH r tr2) as (o' & Hx' & Ho'); [apply Hk|done|].
  exists o'. split; [|done]. right. exists r, (unsignalled tr2). split; [|done].
  unfold unsignalled. rewrite filter_cons_False by done. rewrite filter_cons_True; [done|].
  unfold steady in Hc. by apply negb_true_iff.
Qed.

(** ** A command in two parts *)
Lemma upgrade_execute_bind {A B} a (p : plugin A) (f : A → plugin B) tr o :
  exec (upgrade_execute a (bind f p)) tr o →
  exec (bind (λ x, upgrade_execute a (f x)) (upgrade_execute a p)) tr o.
Proof.
  revert tr. induction p as [x|e| |c k IH]; intros tr Hx.
  - exact Hx.
  - by destruct e.
  - exact Hx.
  - cbn in Hx |- *. set (F := upgrade_request a c) in *. clearbody F. revert tr Hx.
    induction F as [r|e| |d j IHF]; intros tr; cbn; [apply IH|done..|].
    intros [?|(r & tr' & -> & Hx)]; [by left|right; eauto].
Qed.

(** ** The guards of the two operations which change the cluster *)
Lemma upgrade_guarded {debug} fuel ua a tr1 c r tr2 o :
  exec (operations_execute debug fuel (UpgradeOp ua) a) (tr1 ++ Ev (S:=KubectlSig) (Up c) r :: tr2) o →
  mutates c = true →
  ua.(dry_run) = false ∧
  ∃ t1 t2, tr1 = t1 ++ t2 ∧
    exec (upgrade_execute a (PluginUpgrade.preflight_check fuel a.(namespace) ua)) t1 (Done tt).
Proof.
  intros Hx Hc. assert (calm (Up c) = false) as Hcalm by (cbn; by rewrite Hc).
  apply (exec_gated calm) in Hx as ([] & ta & t & Ha & -> & Hx);
    [|apply calm_upgrade, Commands.reads_preflight|done].
  split; [|by exists ta, t]. destruct (dry_run ua) eqn:Hd; [|done]. exfalso.
  eapply (uses_refuses calm) in Hx; [done| |done].
  apply calm_upgrade. unfold PluginUpgrade.execute. rewrite Hd. apply Commands.reads_dummy.
Qed.

Lemma deletion_guarded {debug} fuel force a tr1 c r tr2 o :
  exec (operations_execute debug fuel (Delete (DeleteUpgrade force)) a)
    (tr1 ++ Ev (S:=KubectlSig) (Up c) r :: tr2) o →
  mutates c = true →
  ∃ completed t1 t2, tr1 = t1 ++ t2 ∧ completed || force = true ∧
    exec (upgrade_execute a (PluginUpgrade.is_upgrade_job_completed a.(namespace))) t1 (Done completed).
Proof.
  intros Hx Hc. assert (calm (Up c) = false) as Hcalm by (cbn; by rewrite Hc).
  apply upgrade_execute_bind in Hx.
  apply (exec_gated calm) in Hx as (b & ta & t & Ha & -> & Hx);
    [|apply calm_upgrade, Commands.reads_completed|done].
  exists b, ta, t. split_and!; [done| |done]. destruct (b || force) eqn:Hb; [done|]. exfalso.
  eapply (uses_refuses calm) in Hx; [done| |done].
  apply calm_upgrade. by destruct b, force.
Qed.

(** The other operations change nothing through the Kubernetes API. *)
Lemma others_calm {debug} fuel (op : operation debug) a :
  match op with UpgradeOp _ | Delete _ => True | _ => uses calm (operations_execute debug fuel op a) end.
Proof.
  assert (∀ r, uses calm (rest_execute r)) as Hrest
    by (intros; apply uses_bind; [by apply uses_request|intros; apply uses_lift]).
  destruct op as [ | |[]| | | | | | |[]]; cbn [operations_execute]; try apply Hrest; try done.
  - apply calm_upgrade, Commands.reads_status.
  - apply uses_bind; [by apply uses_try, uses_dump|]. intros [e|]; [|done].
    apply uses_bind; [by apply uses_request|done].
Qed.

Lemma unsignalled_app t1 t2 : unsignalled (t1 ++ t2) = unsignalled t1 ++ unsignalled t2.
Proof. apply filter_app. Qed.
Lemma unsignalled_cons c r tr :
  is_signal c = false → unsignalled (Ev (S:=KubectlSig) c r :: tr) = Ev (S:=KubectlSig) c r :: unsignalled tr.
Proof. intros Hc. by apply filter_cons_True. Qed.

(** A request in a run of [main] which neither the start of the plugin nor its end issues
    is one in a run of the operation. *)
Lemma main_operation {debug} (ok : op KubectlSig → bool) fuel (cli : CliArgs debug) tr1 c r tr2 o :
  uses ok (init_rest debug cli) → (∀ l, ok (Eprintln l) = true) → is_signal c = false → ok c = false →
  exec (main debug fuel cli) (tr1 ++ Ev (S:=KubectlSig) c r :: tr2) o →
  ∃ t0 t tr2' o', unsignalled tr1 = t0 ++ t ∧
    exec (operations_execute debug fuel cli.(operations) cli.(args))
      (t ++ Ev (S:=KubectlSig) c r :: tr2') o'.
Proof.
  intros Hi Hl Hs Hc Hx.
  apply (exec_within ok) in Hx as (tr2' & o' & Hx); [|intros [e|]; cbn; [split|]; done|done].
  apply exec_try in Hx.
  assert (∃ o, exec (execute debug fuel cli) (tr1 ++ Ev (S:=KubectlSig) c r :: tr2') o) as [o'' Hx'].
  { destruct o' as [[]|[]| |]; eauto. done. }
  apply (exec_gated ok) in Hx' as ([] & ta & t & Ha & -> & Hx'); [|done..].
  apply exec_select in Hx' as (o3 & Hx' & _); [|apply steady_operations].
  rewrite unsignalled_app, unsignalled_cons in Hx' by done. rewrite unsignalled_app. eauto 10.
Qed.

(** C13: The plugin changes the cluster through the Kubernetes API only when it should.  In
    every run of [main], also one which a signal interrupts anywhere, an object is created
    or deleted only by [upgrade] without [--dry-run], after a complete successful run of the
    preflight check in the same run, or by [delete upgrade], after the check of the job,
    which found it completed unless [--force] is given.  All other operations change
    nothing. *)
Theorem changes_guarded {debug} fuel (cli : CliArgs debug) tr1 c r tr2 o :
  exec (main debug fuel cli) (tr1 ++ Ev (S:=KubectlSig) (Up c) r :: tr2) o → mutates c = true →
  ∃ t0 t1 t2, unsignalled tr1 = t0 ++ t1 ++ t2 ∧
    let ns := cli.(args).(namespace) in
    match cli.(operations) with
    | UpgradeOp ua =>
        ua.(dry_run) = false ∧
        exec (upgrade_execute cli.(args) (PluginUpgrade.preflight_check fuel ns ua)) t1 (Done tt)
    | Delete (DeleteUpgrade force) =>
        ∃ completed, completed || force = true ∧
        exec (upgrade_execute cli.(args) (PluginUpgrade.is_upgrade_job_completed ns)) t1 (Done completed)
    | _ => False
    end.
Proof.
  intros Hx Hc. assert (calm (Up c) = false) as Hcalm by (cbn; by rewrite Hc).
  apply (main_operation calm) in Hx as (t0 & t & tr2' & o' & -> & Hx); [|apply calm_init|done..].
  pose proof (others_calm fuel cli.(operations) cli.(args)) as Hother.
  destruct cli.(operations) as [ | |[]| | | | | | |[]]; try by destruct (uses_refuses _ _ _ _ _ _ _ Hother Hx).
  - apply upgrade_guarded in Hx as (Hd & t1 & t2 & -> & Hx); [|done]. by exists t0, t1, t2.
  - apply deletion_guarded in Hx as (b & t1 & t2 & -> & Hb & Hx); [|done]. exists t0, t1, t2. eauto.
Qed.

(** C37: The status of the process tells what happened.  It is 0 only after an operation which
    completed, 101 after a panic, and 1 when [dump] gives up at its start.  After an error
    or an interruption a line is printed last: the status is 1, unless the error is one of
    the upgrade plugin, which gives a status from 145 to 196, its exit code less 256 (the
    codes from 401 on do not fit in eight bits), so that different codes stay different.
    The line contains the text of the cause if the error is one of the upgrade plugin
    which has a source, and the debug text of each collected error if it is one of a dump;
    of other errors nothing is said of the line. *)
Theorem exit_status_spec {debug} fuel (cli : CliArgs debug) tr o s :
  exec (main debug fuel cli) tr o → exit_status o = Some s →
  (s = 0%Z ∧ exec (execute debug fuel cli) tr (Done tt)) ∨
  (s = 101%Z ∧ exec (execute debug fuel cli) tr (Failed Panic)) ∨
  (∃ d, s = 1%Z ∧ cli.(operations) = Dump d ∧
     exec (execute debug fuel cli) tr (Failed (Exit 1))) ∨
  (∃ e tr', tr = tr' ++ [Ev (S:=KubectlSig) (Eprintln (error_line e)) tt] ∧
     exec (execute debug fuel cli) tr' (Failed (Err e)) ∧
     match e with
     | Upgrade ue => (145 <= s <= 196)%Z ∧ PluginError.exit_code ue = (s + 256)%Z ∧
         ∀ cause, PluginErrorText.source_of ue = Some cause → within cause (error_line e)
     | Generic (DumpError de) => s = 1%Z ∧
         ∀ e', SupportErrorText.collected e' de →
           within (SupportErrorText.debug_error e') (error_line e)
     | _ => s = 1%Z
     end).
Proof.
  intros Hx Hs.
  apply exec_bind_inv in Hx as [(a & ta & tb & Ha & Hb & ->)|[(e & Hx & ->)|[[Hx ->]|[Hx ->]]]]; try done.
  - apply exec_try in Ha. destruct a as [e|[]].
    + right; right; right. destruct Hb as [[-> ->]|([] & tr' & -> & [[-> ->]|[-> ->]])]; try done.
      do 2 eexists. split_and!; [done|done|]. injection Hs as <-.
      destruct e as [ue| | |[| |]]; [|done..|split; [done|exact (λ e', SupportErrorText.debug_collected e' e)]|done].
      split_and!; [..|exact (PluginErrorText.display_names_source ue)]; destruct ue; cbn; vm_compute Z.modulo; done.
    + destruct Hb as [[-> ->]|[-> ->]]; [done|]. injection Hs as <-. rewrite app_nil_r. by left.
  - apply exec_try in Hx. destruct e as [| |c]; [done|injection Hs as <-..]; [by eauto|].
    pose proof (returns_execute fuel cli) as Hr.
    destruct cli.(operations) as [| | | | | | |d| |] eqn:Hop; try by destruct (throws_sound _ _ _ _ Hr Hx).
    pose proof (throws_sound _ _ _ _ (exits_execute_dump fuel cli d Hop) Hx) as Hc. cbn in Hc. subst c.
    right; right; left. by exists d.
Qed.
End Spec.
End KubectlSpec.
