(* ===== verification/KubectlConnections.v ===== *)
(** * The connections of a dump, through the whole plugin

    [SupportConnSpec] shows that a dump sends its requests to Loki and etcd over connections
    it asked for; here these are the connections which [KubeProxy] builds of the
    kubeconfig, in every run of the plugin. *)

From S2P Require Import Prelude Semver Text JobApi HelmChart HelmValues PluginApi PluginUpgrade.
From S2P Require Import ConsoleLogger PluginErrorText SupportApi SupportErrorText SupportTopology SupportK8s SupportLogs SupportDump.
From S2P Require Import SupportUses SupportConnSpec KubeProxy KubectlPlugin KubectlSpec.
From stdpp Require Import base gmap list strings.
From Stdlib Require Import ZArith Lia Ascii.
Open Scope string_scope.
Open Scope list_scope.

Module Connections.
Import SupportApi KubeProxy KubectlPlugin ProxySpec KubectlSpec.

Section Connections.
Context `{Deps} `{PluginDeps} `{Semver} `{SerdeYaml}.
Context `{SupportCrates} `{SortUnstable} `{HashOrder} `{ProxyCrates}.
Context `{SupportErrorText.ClientDebug} `{ConsoleLogger.AnsiTerm}.

Abbreviation event c r := (Ev (S:=KubectlSig) c r).

Lemma exec_try_run {S E E' A} (p : prog S (fault E) A) tr (o : outcome (fault E') (E + A)) :
  exec (try_ p) tr o → ∃ o', exec p tr o'.
Proof. intros Hx%exec_try. destruct o as [[e|a]|[]| |]; by eauto. Qed.

(** ** Events of a part as events of the plugin *)
Definition through (e : ev ProxySig) : ev KubectlSig :=
  match e with Ev c r => event (Proxy c) r end.
Definition sup_event (e : ev SupSig) : ev KubectlSig :=
  match e with Ev c r => event (Sup c) r end.

(** A run of the builder [p] which returned [x], somewhere in [tr] *)
Definition built {A} (p : proxied A) (tr : list (ev KubectlSig)) (t : list (ev ProxySig)) (x : A) : Prop :=
  exec p t (Done x) ∧ ∃ t0 t2, tr = t0 ++ (through <$> t) ++ t2.

Lemma built_app {A} (p : proxied A) t1 tr t2 t x : built p tr t x → built p (t1 ++ tr ++ t2) t x.
Proof.
  intros (Hx & u0 & u2 & ->). split; [done|]. exists (t1 ++ u0), (u2 ++ t2). by rewrite <-!app_assoc.
Qed.

(** ** The connections: what was built, and of which kubeconfig *)
Definition rest_connected (kube : option string) (timeout : Duration) (ns : string)
    (tr : list (ev KubectlSig)) : Prop :=
  ∃ t b endpoint client,
    built (api_build (api_rest_builder kube timeout ns)) tr t (WithSvc b endpoint client) ∧
    from_kubeconfig kube t client.
Definition loki_connected (kube : option string) (ns : string) (tr : list (ev KubectlSig)) (uri : string) : Prop :=
  ∃ t u layer client,
    built (loki_build (loki_builder kube ns)) tr t (u, mkLokiClient layer (HttpProxy client)) ∧
    uri = uri_to_string u ∧ from_kubeconfig kube t client.
Definition etcd_connected (kube : option string) (ns : string) (tr : list (ev KubectlSig)) (endpoint : string) : Prop :=
  ∃ t u, built (etcd_build (etcd_builder kube ns)) tr t u ∧ endpoint = uri_to_string u ∧ no_kubeconfig t.

(** A request of a dump to Loki goes to the address which is given, or else to that of
    the connection which was built; one to etcd follows the opening of a connection to the
    endpoint which is given, or else to that of a forwarded port. *)
Definition over_connection (a : Operations.SupportArgs) (tr : list (ev KubectlSig)) (c : sup_call) : Prop :=
  let kube := a.(Operations.arg_kube_config_path) in
  let ns := a.(Operations.arg_namespace) in
  match c with
  | LokiCall request => ∃ uri q, request = uri +:+ q ∧
      (a.(Operations.loki_endpoint) = Some uri ∨
       (a.(Operations.loki_endpoint) = None ∧ loki_connected kube ns tr uri))
  | EtcdPage _ _ => ∃ endpoint, event (Sup (EtcdConnect endpoint)) (inr tt) ∈ tr ∧
      (a.(Operations.etcd_endpoint) = Some endpoint ∨
       (a.(Operations.etcd_endpoint) = None ∧ etcd_connected kube ns tr endpoint))
  | _ => True
  end.

(** ** Runs of the parts *)
Lemma connect_run {E A} (p : proxied A) tr (x : A) :
  exec (connect (E:=E) p) tr (Done (inr x)) → ∃ t, tr = through <$> t ∧ exec p t (Done x).
Proof.
  intros Hx. enough (∃ t, tr = through <$> t ∧ exec (try_ (E':=E) p) t (Done (inr x))) as (t & -> & Hp).
  { exists t. split; [done|]. by apply exec_try in Hp. }
  unfold connect in Hx. revert tr Hx. generalize (try_ (E':=E) p). intros q.
  induction q as [y|e| |c k IH]; intros tr Hx.
  1-3: cbn in Hx; destruct Hx as [[-> ?]|[-> ?]]; simplify_eq; exists []; (split; [done|by right]).
  cbn in Hx. destruct Hx as [[_ ?]|(r & tr' & -> & Hx)]; [done|].
  destruct (IH r tr' Hx) as (t & -> & Ht). exists (Ev c r :: t). split; [done|]. right. by exists r, t.
Qed.

Lemma rest_builder_http kube timeout ns t c :
  exec (api_build (api_rest_builder kube timeout ns)) t (Done c) →
  ∃ b endpoint client, c = WithSvc b endpoint client ∧ from_kubeconfig kube t client.
Proof.
  intros Hx. apply (proj1 kubeconfig_source) in Hx. destruct c as [b endpoint client|]; [|by destruct Hx].
  destruct Hx as [_ Hx]. eauto.
Qed.

Lemma loki_run {E} kube ns tr uri :
  exec (dump_request (E:=E) (LokiProxy kube ns)) tr (Done (inr uri)) → loki_connected kube ns tr uri.
Proof.
  intros (r & t1 & t2 & Hr & Hx & ->)%exec_bind_done. apply exec_ret_done in Hx as [-> Heq].
  destruct r as [e|[u l]]; [done|]. injection Heq as <-. apply connect_run in Hr as (t & -> & Hx).
  pose proof Hx as Hk. apply (proj1 (proj2 kubeconfig_source)) in Hk.
  destruct l as [layer [client|]]; cbn in Hk; [|by destruct Hk]. destruct Hk as [_ Hk].
  exists t, u, layer, client. split_and!; [|done|done]. split; [done|]. by exists [], [].
Qed.
Lemma etcd_run {E} kube ns tr endpoint :
  exec (dump_request (E:=E) (EtcdProxy kube ns)) tr (Done (inr endpoint)) → etcd_connected kube ns tr endpoint.
Proof.
  intros (r & t1 & t2 & Hr & Hx & ->)%exec_bind_done. apply exec_ret_done in Hx as [-> Heq].
  destruct r as [e|u]; [done|]. injection Heq as <-. apply connect_run in Hr as (t & -> & Hx).
  exists t, u. split_and!; [|done|by eapply kubeconfig_source].
  split; [done|]. by exists [], [].
Qed.

(** ** Requests of supportability in the plugin *)
Definition not_sup (c : op KubectlSig) : bool := match c with Sup _ => false | _ => true end.

Lemma ask_sup_run {E} c0 u1 c r u2 (o : outcome (fault E) (sup_res c0)) :
  exec (ask (Sup c0)) (u1 ++ event (Sup c) r :: u2) o →
  u1 = [] ∧ u2 = [] ∧ ∃ r0, sup_event (Ev (S:=SupSig) c0 r0) = event (Sup c) r.
Proof.
  intros [[? _]|(r0 & t & Heq & Hx)]; [by destruct u1|].
  assert (t = []) as -> by (by destruct Hx as [[-> _]|[-> _]]).
  destruct u1 as [|e [|]]; [|done..].
  pose proof (f_equal (λ l, default (event (Sup c) r) (head l)) Heq) as Hh.
  split_and!; [done|by apply (f_equal tail) in Heq|by exists r0].
Qed.
Lemma passed_on {E} c0 u1 c r u2 (o : outcome (fault E) (sup_res c0)) :
  exec (dump_request c0) (u1 ++ event (Sup c) r :: u2) o →
  u1 = [] ∧ u2 = [] ∧ ∃ r0, sup_event (Ev (S:=SupSig) c0 r0) = event (Sup c) r.
Proof.
  intros Hx.
  assert (∀ A (p : proxied A) (f : ext_error + A → kubectl E (sup_res c0)), (∀ x, uses not_sup (f x)) →
    exec (bind f (connect p)) (u1 ++ event (Sup c) r :: u2) o → False) as Hno.
  { intros A p f Hf Hp. eapply (uses_refuses not_sup) in Hp; [done| |done].
    apply uses_bind; [by apply uses_connect|done]. }
  destruct c0; try exact (ask_sup_run _ _ _ _ _ _ Hx); exfalso; (eapply Hno; [|exact Hx]); done.
Qed.

(** ** The connections, seen from the plugin *)
Lemma loki_connected_app kube ns t1 t t2 uri :
  loki_connected kube ns t uri → loki_connected kube ns (t1 ++ t ++ t2) uri.
Proof. intros (u & v & l & k & Hb & ?). exists u, v, l, k. split; [by apply built_app|done]. Qed.
Lemma etcd_connected_app kube ns t1 t t2 endpoint :
  etcd_connected kube ns t endpoint → etcd_connected kube ns (t1 ++ t ++ t2) endpoint.
Proof. intros (u & v & Hb & ?). exists u, v. split; [by apply built_app|done]. Qed.
Lemma rest_connected_app kube timeout ns t1 t t2 :
  rest_connected kube timeout ns t → rest_connected kube timeout ns (t1 ++ t ++ t2).
Proof. intros (u & b & e & k & Hb & ?). exists u, b, e, k. split; [by apply built_app|done]. Qed.
Lemma over_connection_app a t1 t t2 c : over_connection a t c → over_connection a (t1 ++ t ++ t2) c.
Proof.
  destruct c; cbn; try done.
  - intros (u & q & -> & Hu). exists u, q. split; [done|].
    destruct Hu as [?|[??]]; [by left|right]. split; [done|by apply loki_connected_app].
  - intros (e & Hin & He). exists e. split; [set_solver|].
    destruct He as [?|[??]]; [by left|right]. split; [done|by apply etcd_connected_app].
Qed.

(** What supportability asked for was built. *)
Lemma served_over {E} a s t c :
  renders (dump_request (E:=E)) s t → ConnectionSpec.served (Operations.config_of a) s c → over_connection a t c.
Proof.
  intros Hr. destruct c; cbn; try done.
  - intros (u & q & -> & Hu). exists u, q. split; [done|].
    destruct Hu as [?|[? Hin]]; [by left|right]. split; [done|].
    apply (renders_elem _ _ _ _ Hr) in Hin as (t0 & t1 & t2 & -> & Hx).
    by eapply loki_connected_app, loki_run.
  - intros (e & Hin & He). exists e. split.
    + apply (renders_elem _ _ _ _ Hr) in Hin as (t0 & t1 & t2 & -> & Hx).
      apply (exec_call_inv (S:=KubectlSig) (Sup (EtcdConnect e))) in Hx as ->. set_solver.
    + destruct He as [?|[? Hin']]; [by left|right]. split; [done|].
      apply (renders_elem _ _ _ _ Hr) in Hin' as (t0 & t1 & t2 & -> & Hx).
      by eapply etcd_connected_app, etcd_run.
Qed.

Lemma command_connections {debug E} fuel a (resource : Operations.Resource debug) tr1 c r tr2
    (o : outcome (fault E) _) :
  exec (dump_command (ResourceDump.execute_resource_dump fuel a resource)) (tr1 ++ event (Sup c) r :: tr2) o →
  over_connection a tr1 c.
Proof.
  intros Hx. destruct (SupportUses.serving c) eqn:Hc; [|by destruct c].
  eapply (exec_interp_passed _ _ _ _ _ _ (λ e, sup_event e = event (Sup c) r)) in Hx
    as (s & [c0 r0] & s2 & o' & He & Hx & Hr); [|intros ????; apply passed_on].
  apply (f_equal (λ e, match e with Ev c _ => c end)) in He. cbn in He. injection He as ->.
  apply exec_try_run in Hx as [o'' Hx]. apply ConnectionSpec.dump_served in Hx; [|done].
  by eapply served_over.
Qed.

Lemma dump_execute_connections {debug} fuel (d : DumpArgs debug) tr1 c r tr2 o :
  exec (dump_execute debug fuel d) (tr1 ++ event (Sup c) r :: tr2) o →
  let a := d.(support_args) in
  rest_connected a.(Operations.arg_kube_config_path) d.(dump_timeout) a.(Operations.arg_namespace) tr1 ∧
  over_connection a tr1 c.
Proof.
  intros Hx a. apply (exec_gated not_sup) in Hx as (x & ta & t & Hr & -> & Hx); [|by apply uses_connect|done].
  apply (exec_gated not_sup) in Hx as (conf & tb & t' & Hl & -> & Hx); [|apply uses_lift|done].
  apply exec_lift_done in Hl as [-> ->]. cbn [app].
  apply connect_run in Hr as (u & -> & Hr). split.
  - pose proof Hr as Hk. apply rest_builder_http in Hk as (b & e & client & -> & Hk).
    exists u, b, e, client. split; [|done]. split; [done|]. by exists [], t'.
  - apply (exec_within not_sup) in Hx as (tr2' & o' & Hx); [|intros; apply uses_lift|done].
    apply command_connections in Hx. rewrite <-(app_nil_r t'). by apply over_connection_app.
Qed.

(** Only [dump] runs supportability. *)
Lemma others_not_sup {debug} fuel (op : operation debug) a :
  match op with Dump _ => True | _ => uses not_sup (operations_execute debug fuel op a) end.
Proof.
  assert (∀ A (p : plugin A), uses not_sup (upgrade_execute a p)) as Hup
    by (intros; by eapply uses_upgrade; [..|apply uses_any]).
  assert (∀ r, uses not_sup (rest_execute r)) as Hrest
    by (intros; apply uses_bind; [by apply uses_request|intros; apply uses_lift]).
  destruct op as [ | |[]| | | | | | |[]]; cbn [operations_execute]; try apply Hrest; try apply Hup; [done|].
  apply uses_bind; intros; apply Hup.
Qed.
Lemma init_not_sup {debug} (cli : CliArgs debug) : uses not_sup (init_rest debug cli).
Proof.
  unfold init_rest. destruct (rest cli).
  - apply uses_bind; [by apply uses_request|intros; apply uses_lift].
  - apply uses_bind; [by apply uses_connect|intros r].
    apply uses_bind; [apply uses_lift|intros c]. apply uses_bind; [by apply uses_request|intros; apply uses_lift].
Qed.

(** C36: Over which connections a dump works.  In every run of the plugin, also one which a
    signal interrupts, only [dump] issues requests of supportability, and only after the
    connection to the REST API was built in the same run, with a client of the given
    kubeconfig, or without one of that of the environment or of the default one.  A request
    to Loki goes to the address which is given, or else to that of a connection which was
    built in this run of the same kubeconfig and the namespace of the command.  A request
    to etcd follows the opening of a connection in this run, to the endpoint which is
    given, or else to that of a forwarded port: that one reads no kubeconfig, also where
    one is given. *)
Theorem dump_connections {debug} fuel (cli : CliArgs debug) tr1 c r tr2 o :
  exec (main debug fuel cli) (tr1 ++ event (Sup c) r :: tr2) o →
  ∃ d, cli.(operations) = Dump d ∧
    let a := d.(support_args) in
    rest_connected a.(Operations.arg_kube_config_path) d.(dump_timeout) a.(Operations.arg_namespace)
      (unsignalled tr1) ∧
    over_connection a (unsignalled tr1) c.
Proof.
  intros Hx. apply (main_operation not_sup) in Hx as (t0 & t & tr2' & o' & -> & Hx); [|apply init_not_sup|done..].
  pose proof (others_not_sup fuel cli.(operations) cli.(args)) as Hother.
  destruct cli.(operations) as [ | |[]| | | | |d| |[]]; try by destruct (uses_refuses _ _ _ _ _ _ _ Hother Hx).
  exists d. split; [done|]. cbn [operations_execute] in Hx.
  apply (exec_within not_sup) in Hx as (tr3 & o3 & Hx); [|by intros [e|]|done].
  apply exec_try_run in Hx as [o4 Hx]. apply dump_execute_connections in Hx as [Hr Hc].
  rewrite <-(app_nil_r t). split; [by apply rest_connected_app|by apply over_connection_app].
Qed.
End Connections.
End Connections.
