(* ===== verification/KubectlFixture.v ===== *)
(** * The kubectl plugin in a concrete cluster

    The plugin of version 2.8.0 on the cluster of [PluginFixture] and the host of
    [SupportFixture], with a kubeconfig at the default location; the properties of the whole
    plugin are applied to its runs. *)

From S2P Require Import Prelude Semver Text JobApi HelmChart HelmUpgrade HelmValues PluginApi PluginUpgrade PluginSpec PluginChecks.
From S2P Require Import ConsoleLogger PluginErrorText SupportErrorText.
From S2P Require Import JobSim JobFixture PluginFixture SupportApi SupportDump SupportFixture KubeProxy KubectlPlugin KubectlSpec KubectlConnections.
From stdpp Require Import base gmap list strings pretty.
From Stdlib Require Import ZArith Lia Ascii.
Open Scope string_scope.
Open Scope list_scope.

Module KubectlFixture.
Import SemverRef Fixture PluginFixture KubeProxy KubectlPlugin.

#[export] Existing Instance SupportWorld.crates.

(** Each value of the libraries is a string which says what it is made of. *)
Definition selector_string (s : TargetSelector) : string :=
  match s with ServiceLabel l => "service " +:+ l | PodLabel l => "pod " +:+ l end.
(** A terminal without colours *)
#[export] Instance plain : ConsoleLogger.AnsiTerm := { bold_italic _ text := text }.

#[export] Instance client_debug : SupportErrorText.ClientDebug := {
  debug_rest_error e := match e with
    | SupportApi.RestResponse _ body => body | SupportApi.RestRequest msg => msg end;
  debug_kube_error e := match e with
    | SupportApi.KubeApi _ msg => msg | SupportApi.KubeOther msg => msg end
}.

#[export] Instance named_crates : ProxyCrates := {
  Port := string; Target := string * string; HttpForward := string; PortForward := string;
  Target_new s p ns := (selector_string s +:+ ":" +:+ p, ns);
  with_namespace ns t := (t.1, ns);
  Kubeconfig := string; Config := string; Client := string;
  Uri := string; Url := string;
  uri_parse := inr; url_parse := inr; uri_to_string u := u;
  KubeProxy.API_REST_LABEL := "app=api-rest"; KubeProxy.ETCD_LABEL := "app=etcd"; LOKI_LABEL := "app=loki";
  API_REST_HTTP_PORT := "http"; ETCD_PORT := "2379"; LOKI_PORT := "3100";
  DEFAULT_NAMESPACE := "mayastor"
}.

(** The proxy: no [KUBECONFIG], a kubeconfig at the default location. *)
Definition proxy_answer (c : proxy_call) : proxy_res c :=
  match c with
  | EnvVar n => if decide (n = "HOME") then Some "/root" else None
  | PathExists p => bool_decide (p = "/root/.kube/config")
  | ReadFrom p => inr ("file " +:+ p)
  | FromCustomKubeconfig k => inr ("config of " +:+ k)
  | ClientFrom c => inr ("client of " +:+ c)
  | HttpForwardNew t _ => inr t.1
  | HttpForwardUri f => inr ("http://" +:+ f)
  | PortForwardNew t => inr t.1
  | PortForwardStart _ => inr 30000%Z
  | BuildWithSvc _ _ _ | BuildUrl _ _ => inr tt
  end.

(** The cluster, the host, and the number of polls after which a signal comes *)
Record World := mkWorld { cluster : Store.store; host : SupportWorld.Host; polls : option nat }.
Definition answer : handler KubectlSig World := λ c w,
  match c return kubectl_res c * World with
  | Up c => let '(r, s) := Store.api PluginFixture.rest files c w.(cluster) in (r, mkWorld s w.(host) w.(polls))
  | Sup c =>
      let '(r, h) := SupportWorld.host SupportWorld.services c w.(host) in
      (r, mkWorld w.(cluster) h w.(polls))
  | Proxy c => (proxy_answer c, w)
  | RestInit _ _ | RestInitWithConfig _ => (inr tt, w)
  | RestExecute _ => (inr tt, w)
  | Signal =>
      match w.(polls) with
      | Some O => (Some "SIGTERM", w)
      | Some (S n) => (None, mkWorld w.(cluster) w.(host) (Some n))
      | None => (None, w)
      end
  | Println _ | Eprintln _ => (tt, w)
  end.

Definition cli {debug} (op : operation debug) : CliArgs debug :=
  mkCliArgs None op (mkResourcesCliArgs None "mayastor" (from_secs 10)).
Definition main_run {debug} (op : operation debug) (n : option nat) :=
  run answer (main debug 10 (cli op)) (mkWorld PluginFixture.empty SupportWorld.empty_host n).

(** A dump through the connections of the proxy *)
Definition dump_op : operation false :=
  Dump (mkDumpArgs (from_secs 10) SupportWorld.args (Operations.System false)).

Example upgrade_exits_0 : exit_status (result_of (main_run (UpgradeOp (debug:=false) (upgrade_args false)) None)) = Some 0%Z.
Proof. vm_compute. reflexivity. Qed.
Example dump_exits_0 : exit_status (result_of (main_run dump_op None)) = Some 0%Z.
Proof. vm_compute. reflexivity. Qed.

(** An upgrade which a signal interrupts during the preflight check *)
Definition interrupted_run := main_run (UpgradeOp (debug:=false) (upgrade_args false)) (Some 5).
(** [delete upgrade] where there is no job *)
Definition no_job_run := main_run (Delete (debug:=false) (DeleteUpgrade true)) None.

Example no_job_says :
  last (trace_of no_job_run) = Some (Ev (S:=KubectlSig) (Eprintln
    "Upgrade Job: mayastor-upgrade-v2-8-0 in namespace mayastor does not exist.") tt).
Proof. vm_compute. reflexivity. Qed.

Example interrupted_exits_1 :
  exit_status (result_of interrupted_run) = Some 1%Z ∧ (world_of interrupted_run).(cluster) = PluginFixture.empty.
Proof. vm_compute. auto. Qed.
End KubectlFixture.

Module KubectlWitness.
Import SemverRef Fixture PluginFixture KubeProxy KubectlPlugin KubectlSpec ProxySpec Connections KubectlFixture.

Lemma main_exec {debug} (op : operation debug) n :
  exec (main debug 10 (cli op)) (trace_of (main_run op n)) (result_of (main_run op n)).
Proof. apply run_exec. Qed.

(** The first change of the upgrade deletes old events. *)
Definition first_change : nat := 47.
Definition upgrade_run := main_run (UpgradeOp (debug:=false) (upgrade_args false)) None.

Lemma changes_guarded_witness :
  ∃ t0 t1 t2, unsignalled (take first_change (trace_of upgrade_run)) = t0 ++ t1 ++ t2 ∧
    (upgrade_args false).(dry_run) = false ∧
    exec (upgrade_execute (mkResourcesCliArgs None "mayastor" (from_secs 10))
            (PluginUpgrade.preflight_check 10 "mayastor" (upgrade_args false))) t1 (Done tt).
Proof.
  apply (changes_guarded 10 (cli (UpgradeOp (debug:=false) (upgrade_args false))) _
    (EventsDeleteCollection "mayastor"
       "involvedObject.kind=Job,involvedObject.name=mayastor-upgrade-v2-8-0") (inr tt)
    (drop (S first_change) (trace_of upgrade_run)) (result_of upgrade_run)); [|reflexivity].
  rewrite take_drop_middle; [apply main_exec|vm_compute; reflexivity].
Defined.

Lemma exit_status_spec_witness :
  ∃ e tr', exec (execute false 10 (cli (Delete (DeleteUpgrade true)))) tr' (Failed (Err (Upgrade e))) ∧
    PluginError.exit_code e = 426%Z.
Proof.
  assert (exit_status (result_of no_job_run) = Some 170%Z) as Hs by (vm_compute; reflexivity).
  destruct (exit_status_spec 10 (cli (Delete (debug:=false) (DeleteUpgrade true))) (trace_of no_job_run)
              (result_of no_job_run) 170 (main_exec _ _) Hs)
    as [[? _]|[[? _]|[(d & ? & _)|(e & tr' & _ & Hx & He)]]]; [discriminate..|].
  destruct e as [e| | |[| |]]; [|discriminate..|destruct He; discriminate|discriminate].
  exists e, tr'. split; [exact Hx|apply He].
Defined.

(** The connection to the REST API in the concrete environment *)
Definition api_run := run (S:=ProxySig) (λ c (_ : unit), (proxy_answer c, tt)) (api_build default_api_rest) tt.

Lemma kubeconfig_source_witness :
  ∃ client, from_kubeconfig None (trace_of api_run) client ∧
    client = "client of config of file /root/.kube/config".
Proof.
  assert (∃ b u, result_of api_run = Done (WithSvc b u "client of config of file /root/.kube/config")) as (b & u & Hr)
    by (vm_compute; eauto).
  eexists. split; [|reflexivity].
  apply (proj1 kubeconfig_source default_api_rest (trace_of api_run) (WithSvc b u _)).
  rewrite <-Hr. apply run_exec.
Defined.

(** The first page which is read of etcd, over a port which was forwarded *)
Definition first_page : nat := 369.
Definition dump_trace := trace_of (main_run dump_op None).

Lemma dump_connections_witness :
  rest_connected None (from_secs 10) "mayastor" (unsignalled (take first_page dump_trace)) ∧
  ∃ endpoint, etcd_connected None "mayastor" (unsignalled (take first_page dump_trace)) endpoint.
Proof.
  destruct (dump_connections 10 (cli dump_op) (take first_page dump_trace)
    (SupportApi.EtcdPage "/openebs.io/mayastor/x" 1000)
    (inr [("/openebs.io/mayastor/x/a", "1"); ("/openebs.io/mayastor/x/b", "2")])
    (drop (S first_page) dump_trace) (result_of (main_run dump_op None))) as (d & [= <-] & Hr & Hc).
  - rewrite take_drop_middle; [apply main_exec|vm_compute; reflexivity].
  - split; [exact Hr|]. destruct Hc as (e & _ & [[=]|[_ He]]). by exists e.
Defined.
End KubectlWitness.
